(* ===== verification/_CoqProject ===== *)
-Q . S2P
Prelude.v
GoStrings.v
GoPath.v
Encoding.v
Capacity.v
ApiTypes.v
Identity.v
Options.v
RdmaHealth.v
Prog.v
Kube.v
Host.v
Placement.v
MgrQuiet.v
PlacementProps.v
ClaimController.v
ClaimWrites.v
ClaimProps.v
Plugins.v
Parted.v
PartedProps.v
Lvol.v
LvolProps.v
SpdkBackend.v
KernelBackend.v
TargetContract.v
KernelProps.v
SpdkProps.v
PartitionManager.v
PartitionManagerProps.v
CsiRequest.v
CsiRequestProps.v
MountInfo.v
MountProps.v
NodeServer.v
NodeProps.v
NodeCorrect.v
CsiController.v
CsiProps.v
CsiEffects.v
CsiAttach.v
Discovery.v
DiscoveryProps.v
RdmaDiscovery.v
RdmaDiscoveryProps.v
Reporter.v
ReporterProps.v
NodeAgent.v
Fencing.v
Obliging.v
AgentLive.v
PlacementLive.v
Delivery.v
Heap.v
DeepCopy.v
Driver.v
Programs.v
