(* ===== verification/Prelude.v ===== *)
(** * DISTORT: a verification development

    DISTORT serves NVMe devices of storage nodes to other nodes of a Kubernetes
    cluster over RDMA.  Three programs share the custom resources of
    src/api/v1alpha1 through the API server:

    - the manager (src/cmd/distort-manager, src/internal/controller) binds
      NVMeDeviceClaims to devices, computes free capacity, places NVMePartitions on
      devices and lets the readiness of nodes expire;
    - the agent of each storage node (src/cmd/distort-agent, src/internal/agent)
      reports the hardware, and for each partition placed on its node carves a
      volume, exports it as an NVMe-oF target, keeps the hosts that may connect in
      step with the NVMeVolumeAttachment, and takes everything down again;
    - the CSI driver (src/cmd/distort-csi, src/internal/csi) turns the requests of
      Kubernetes into partitions and attachments (controller service) and connects,
      formats and mounts volumes on the nodes that use them (node service).

    The development translates these programs function by function and proves what
    makes them correct: no device is overcommitted, no data of another volume is
    formatted or deleted, no host reaches a target without a valid attachment, an
    attachment is released only when its host is shut out, and a request leads to an
    exported volume.  Definitions keep the names of the Go functions.

    ** How code is modelled

    - A pure Go function is a Rocq function; [(T, error)] is [result T] (this file),
      a lone [error] is [option error].  Error texts are kept as far as the code
      inspects them.
    - int64 and uint64 are [Z]; where the code computes with them, the operators of
      this file wrap around at 64 bits.  Strings are byte strings (GoStrings.v); case
      folding and white space are those of ASCII.
    - A function with effects is a program of Prog.v: a tree of operations whose
      continuations take the replies.  Operations are requests to the API server
      ([kubeOp] of Kube.v), calls of packages os, exec, net and context ([hostOp] of
      Host.v), mutexes and the clock ([mgrOp] of Placement.v), the plugin interface
      ([agentOp] of PartitionManager.v, from Plugins.v), waits of the CSI services,
      and those of Driver.v and Programs.v.  Failing replies are branches, so a
      statement about a program covers its error paths.
    - A program is reasoned about in four ways, all in Prog.v: by the histories of
      its operations whatever the replies are ([hwp], [justified]); by the states of
      a world that it reaches step by step ([reaches], [swp]); by its runs in a world
      that nobody else changes ([qwp]); and by interleavings with other writers and
      other threads ([wp] with an interference relation, [disturbed] for one run
      among other writers).
    - A mutex that protects one function is the atomicity of its critical section in
      the model of the plugins; the device locks of the placement controller are
      operations, because its theorem is about threads that interleave.
    - API objects are values.  That the code may treat them so, although Go shares
      the memory of assigned structs, is the theorem of DeepCopy.v.

    ** What is not under src

    - The API server and its client: [kube_spec] of Kube.v states what is documented
      (optimistic concurrency by resource versions, finalizers, caches that may be
      stale); [model_serve] is an executable server that satisfies it.  Progress
      needs one that answers: [obliging] of Obliging.v.
    - The helpers of apimachinery (conditions, finalizers) and the retry loop are the
      classes [ApiMachinery] and [RetryLib] with their laws, and instances.
    - JSON decoding of tool output is the class [Unmarshal], fmt quoting [Quoting].
    - What tools and kernels do to disks, targets, mounts and connections is a step
      relation beside the theorems that use it: [disk_step] (PartedProps.v), the bdevs
      of LvolProps.v, [subs_step] (SpdkProps.v), [fs_step] (KernelProps.v),
      [node_step] (NodeProps.v), the machine of DiscoveryProps.v, the fabric of
      RdmaDiscoveryProps.v and [dstep] (Driver.v).  A command that fails may still
      have had its effect.
    - SHA-256, base64 and hexadecimal are written out and tested on the published
      vectors (Encoding.v); that two fingerprints differ needs the absence of a
      collision, which is a hypothesis of the theorem that says so.

    ** The files and what they show

    Ground: Prelude.v, GoStrings.v, GoPath.v, Encoding.v, Prog.v, Kube.v, Host.v.

    Values.  Capacity.v (src/internal/capacity and the capacity arithmetic of the
    controller service and discovery): [RoundUp_correct].  ApiTypes.v
    (src/api/v1alpha1).  Identity.v (src/internal/volumeidentity, placementauth,
    attachment): handles, NQNs and fingerprints, their round trips and
    injectivity.  Options.v (src/internal/storageoptions and the schema of
    NVMePartition): [core_mask_validators_agree].  RdmaHealth.v
    (src/internal/rdmahealth).

    Manager.  Placement.v and PlacementProps.v (nvmepartition_controller.go and the
    accounting of nvmedevice_controller.go): any number of reconciles interleaving
    with each other and with other writers never overcommit a device
    ([placement_never_overcommits]); the candidates are exactly the eligible devices
    and a reservation is authorized, when nobody else writes.  ClaimController.v,
    ClaimWrites.v and ClaimProps.v (nvmedeviceclaim_controller.go,
    nvmedevice_controller.go, rdmastoragenode_controller.go): binding, release and
    finalization; each write is justified by what was read, also from a stale cache,
    and with current caches the outcome is exact.

    Agent.  PartitionManager.v and PartitionManagerProps.v (partition_manager.go):
    hardware is touched only after authorization, exports are recorded, teardown is
    ordered, access is fenced.  Parted.v, Lvol.v, SpdkBackend.v, KernelBackend.v and
    their Props files (src/internal/agent/plugins): volumes are created with the
    right size without touching others, and deleted by their identity; both target
    backends refine the contract of TargetContract.v, which states the comments of
    plugins.TargetBackend.  Discovery.v, RdmaDiscovery.v, Reporter.v and their Props
    files (nvme_discovery.go, rdma_discovery.go, reporter.go): discovery is sound and
    complete (for SPDK, as far as pidof could be run), and every write of the
    reporter is justified by what it saw.

    CSI.  CsiRequest.v, CsiController.v and their Props files (controller_server.go,
    controller_attachment.go, filesystem.go, volume_capability.go,
    create_volume_request.go): idempotent creation, safe deletion, exclusive
    publication, fencing on unpublication; CsiEffects.v turns the histories of these
    RPCs into their effects on the cluster while other actors go on ([disturbed] of
    Prog.v), as long as nobody replaces the object at hand.  MountInfo.v, NodeServer.v, NodeProps.v
    and NodeCorrect.v (mountinfo.go, nvme.go, node_server.go): staging is safe and
    rolled back, publishing is exact, the whole life cycle gives everything back.
    Driver.v (driver.go): the server shuts down cleanly, cuts requests off only
    after the grace period, and spares other files.

    Composition.  CsiAttach.v: what the controller service hands out is accepted by
    the node service of the attached node only.  NodeAgent.v runs the partition
    manager on the programs of its plugins: a host can connect to an SPDK subsystem
    only if the API server has shown a valid attachment of it; Fencing.v: when the
    agent drops the finalizer of an attachment, nobody can.  Obliging.v, AgentLive.v
    and PlacementLive.v: with components that answer, one reconcile of the manager
    and one of the agent take a waiting partition to an export, and one reconcile
    takes a deleted partition away.  Delivery.v adds the CSI controller: CreateVolume
    then answers with a volume.  MgrQuiet.v has the rules for one run of a manager
    controller.

    Memory and programs.  Heap.v and DeepCopy.v (zz_generated.deepcopy.go): a deep
    copy has the same value and shares no memory.  Programs.v (src/cmd): what is
    registered before a manager starts.

    ** Bounds and fuel

    Loops over lists are structural.  The polling loops of the controller service and
    the waits of the node service end with a reply, a timeout or the end of the
    request; they take fuel, one unit per round, and the statements hold for every
    fuel; [waits_end] shows that a wait uses up its fuel only by one tick per unit.
    The unmount loop of the node service needs one round more than there are mounts
    ([unstage_ordered]).  Retries on conflict are bounded by the library.
    The waits of the SPDK backend for its process are bounded by the code itself.

    ** Not modelled

    Parsing of flags, logging, metrics and the text of log lines; the scheme
    registration of groupversion_info.go; the watches and work queues of
    controller-runtime, whose effect is that a reconcile runs (the map functions from
    objects to requests are modelled); the goroutine that reaps the SPDK process,
    beyond what is observed of it; contexts other than as a cancellation that may
    happen at each operation that looks at it; the helpers of the end-to-end tests
    under src/test. *)

From Stdlib Require Export Ascii.
From stdpp Require Export base gmap sets list strings sorting infinite.

#[global] Open Scope Z_scope.

(** ** Notation of the development *)

Declare Scope go_scope.
Delimit Scope go_scope with go.

(** Go's [==] and [!=] on comparable types. *)
Notation "x ==? y" := (bool_decide (x = y)) (at level 70) : go_scope.
Notation "x !=? y" := (negb (bool_decide (x = y))) (at level 70) : go_scope.
#[global] Open Scope go_scope.

(** ** Results of fallible Go functions

    A Go function returning [(T, error)] whose value is meaningless when the
    error is set is a function into [result T]. *)

Inductive StatusReason :=
  | ReasonNotFound
  | ReasonAlreadyExists
  | ReasonConflict
  | ReasonOther (code : Z).

#[global] Instance StatusReason_eq_dec : EqDecision StatusReason.
Proof. solve_decision. Defined.

(** gRPC status codes (google.golang.org/grpc/codes) used by the sources. *)
Inductive Code :=
  | InvalidArgument | NotFoundCode | AlreadyExistsCode | FailedPrecondition
  | Aborted | Internal | DeadlineExceededCode | CanceledCode | Unavailable.

#[global] Instance Code_eq_dec : EqDecision Code.
Proof. solve_decision. Defined.

Inductive CtxErr := Canceled | DeadlineExceeded.

#[global] Instance CtxErr_eq_dec : EqDecision CtxErr.
Proof. solve_decision. Defined.

(** Errors of system calls, as os.IsNotExist and os.IsExist tell them apart. *)
Inductive Errno := ENOENT | EEXIST | ErrnoOther (text : string).

#[global] Instance Errno_eq_dec : EqDecision Errno.
Proof. solve_decision. Defined.

(** Errors.  [Errorf] is [fmt.Errorf] or [errors.New] with its leading text,
    [Wrap] is [fmt.Errorf] with a [%w] operand, [StatusErr] is [status.Error],
    [ApiErr] an API server reply, [CtxError] the error of a context,
    [ObservationErr] plugins.ExportObservationError, [OsErr] an error of package
    os, [ExitErr] an exec.ExitError with its code, [PartedErr]
    plugins.partedCommandError, [FsMismatch] and [MountMismatch] the errors of
    that name of the node service; [KernelErr], [SPDKErr] and [DiscoveryErr] an
    agent.NVMeDiscoveryError with one or both sources. *)
Inductive error :=
  | Errorf (msg : string)
  | Wrap (msg : string) (e : error)
  | StatusErr (c : Code) (msg : string)
  | ApiErr (r : StatusReason)
  | CtxError (e : CtxErr)
  | ObservationErr (e : error)
  | OsErr (e : Errno)
  | ExitErr (code : Z)
  | PartedErr (output : string) (e : error)
  | FsMismatch (source requested detected : string)
  | MountMismatch (e : error)
  | KernelErr (e : error)
  | SPDKErr (e : error)
  | DiscoveryErr (kernel spdk : error)
  | Join (e1 e2 : error).

#[global] Instance error_eq_dec : EqDecision error.
Proof. solve_decision. Defined.

(** status.FromContextError *)
Definition FromContextError (e : CtxErr) : error :=
  match e with
  | Canceled => StatusErr CanceledCode "context canceled"
  | DeadlineExceeded => StatusErr DeadlineExceededCode "context deadline exceeded"
  end.

Abbreviation result A := (A + error)%type.
Abbreviation Ok := inl (only parsing).
Abbreviation Err := inr (only parsing).

Definition is_ok {A} (r : result A) : bool := match r with inl _ => true | inr _ => false end.

Definition rbind {A B} (r : result A) (f : A → result B) : result B :=
  match r with inl a => f a | inr e => inr e end.
Notation "'let?' x ':=' r 'in' k" := (rbind r (fun x => k))
  (at level 10, x pattern, k at level 200) : go_scope.

Lemma rbind_ok {A B} (r : result A) (f : A → result B) b :
  rbind r f = inl b ↔ ∃ a, r = inl a ∧ f a = inl b.
Proof. destruct r; simpl; naive_solver. Qed.

(** ** Machine integers *)

Definition MaxInt64 : Z := 2 ^ 63 - 1.
Definition MinInt64 : Z := - 2 ^ 63.
Definition MaxUint64 : Z := 2 ^ 64 - 1.
Definition int64 (z : Z) : Prop := MinInt64 ≤ z ≤ MaxInt64.
Definition uint64 (z : Z) : Prop := 0 ≤ z ≤ MaxUint64.

(** Two's-complement wrap-around of Go's [int64] and [uint64] operators. *)
Definition wrap64 (z : Z) : Z := (z + 2 ^ 63) mod 2 ^ 64 - 2 ^ 63.
Definition wrapU64 (z : Z) : Z := z mod 2 ^ 64.
Definition add64 (x y : Z) : Z := wrap64 (x + y).
Definition sub64 (x y : Z) : Z := wrap64 (x - y).
Definition mul64 (x y : Z) : Z := wrap64 (x * y).
Definition div64 (x y : Z) : Z := wrap64 (Z.quot x y).
Definition rem64 (x y : Z) : Z := wrap64 (Z.rem x y).

Lemma wrap64_id z : int64 z → wrap64 z = z.
Proof.
  unfold int64, wrap64, MinInt64, MaxInt64. intros H.
  rewrite Z.mod_small; lia.
Qed.

Lemma wrap64_range z : int64 (wrap64 z).
Proof.
  unfold int64, wrap64, MinInt64, MaxInt64.
  pose proof (Z.mod_pos_bound (z + 2 ^ 63) (2 ^ 64)). lia.
Qed.

Lemma wrap64_add_l x y : wrap64 (wrap64 x + y) = wrap64 (x + y).
Proof.
  unfold wrap64. f_equal.
  replace ((x + 2 ^ 63) mod 2 ^ 64 - 2 ^ 63 + y + 2 ^ 63) with ((x + 2 ^ 63) mod 2 ^ 64 + y) by lia.
  rewrite Z.add_mod_idemp_l by lia. f_equal. lia.
Qed.

Lemma wrapU64_id z : uint64 z → wrapU64 z = z.
Proof. unfold uint64, wrapU64, MaxUint64. intros H. apply Z.mod_small. lia. Qed.

Lemma quot_pos_range x y : 0 ≤ x → 0 < y → Z.quot x y = x / y ∧ 0 ≤ x / y ≤ x.
Proof.
  intros Hx Hy. split; [by apply Z.quot_div_nonneg|].
  split; [by apply Z.div_pos|]. apply Z.div_le_upper_bound; nia.
Qed.

Lemma div64_pos x y : 0 ≤ x ≤ MaxInt64 → 0 < y → div64 x y = x / y.
Proof.
  intros Hx Hy. unfold div64. destruct (quot_pos_range x y) as [-> ?]; [lia|lia|].
  apply wrap64_id. unfold int64, MinInt64, MaxInt64 in *. lia.
Qed.

Lemma rem64_pos x y : 0 ≤ x ≤ MaxInt64 → 0 < y → rem64 x y = x mod y.
Proof.
  intros Hx Hy. unfold rem64. rewrite Z.rem_mod_nonneg by lia.
  pose proof (Z.mod_pos_bound x y Hy). pose proof (Z.mod_le x y ltac:(lia) Hy).
  apply wrap64_id. unfold int64, MinInt64, MaxInt64 in *. lia.
Qed.

(** Rounding on a positive unit. *)
Lemma round_up_spec x u :
  0 < u → let r := (x + u - 1) / u * u in x ≤ r < x + u ∧ (u | r).
Proof.
  intros Hu r. unfold r. split; [|apply Z.divide_factor_r].
  pose proof (Z.div_mod (x + u - 1) u). pose proof (Z.mod_pos_bound (x + u - 1) u Hu). nia.
Qed.

Lemma round_down_spec x u :
  0 < u → let r := x / u * u in x - u < r ≤ x ∧ (u | r).
Proof.
  intros Hu r. unfold r. split; [|apply Z.divide_factor_r].
  pose proof (Z.div_mod x u). pose proof (Z.mod_pos_bound x u Hu). nia.
Qed.

Lemma multiple_least u r m x : 0 < u → (u | r) → r < x + u → (u | m) → x ≤ m → r ≤ m.
Proof.
  intros Hu [a ->] H [b ->] Hm.
  assert (a < b + 1) by (apply (Z.mul_lt_mono_pos_r u); lia). nia.
Qed.

Lemma multiple_greatest u r m x : 0 < u → (u | r) → x - u < r → (u | m) → m ≤ x → m ≤ r.
Proof.
  intros Hu [a ->] H [b ->] Hm.
  assert (b < a + 1) by (apply (Z.mul_lt_mono_pos_r u); lia). nia.
Qed.

(** ** Lists *)

Lemma elem_of_snoc {A} (l : list A) a x : x ∈ l ++ [a] ↔ x ∈ l ∨ x = a.
Proof. set_solver. Qed.

(** ** Tactics *)

(** Turn boolean equations into propositions. *)
Ltac bool_to_prop :=
  repeat match goal with
  | H : _ && _ = true |- _ => apply andb_true_iff in H as [? ?]
  | H : _ || _ = false |- _ => apply orb_false_iff in H as [? ?]
  | H : negb _ = true |- _ => apply negb_true_iff in H
  | H : negb _ = false |- _ => apply negb_false_iff in H
  | H : bool_decide _ = true |- _ => apply bool_decide_eq_true in H
  | H : bool_decide _ = false |- _ => apply bool_decide_eq_false in H
  | H : (_ <? _) = true |- _ => apply Z.ltb_lt in H
  | H : (_ <? _) = false |- _ => apply Z.ltb_ge in H
  | H : (_ <=? _) = true |- _ => apply Z.leb_le in H
  | H : (_ <=? _) = false |- _ => apply Z.leb_gt in H
  | H : (_ =? _) = true |- _ => apply Z.eqb_eq in H
  | H : (_ =? _) = false |- _ => apply Z.eqb_neq in H
  end.

(** Linear arithmetic with division and remainder by constants. *)
Ltac euclid := Z.div_mod_to_equations; lia.

(** Case analysis on every guard of a definition under evaluation. *)
Ltac guards := repeat (case_match; simplify_eq/=); bool_to_prop.

Create HintDb distort.
#[export] Hint Resolve wrap64_range : distort.
