(* ===== verification/GoStrings.v ===== *)
(** * The parts of Go's strings and strconv packages the sources use

    A Go string is a byte string ([Stdlib] [string], one [ascii] per byte).
    [ToLower], [EqualFold] and [TrimSpace] act on ASCII letters and ASCII white
    space and leave every other byte alone; the identifiers they are applied to
    (serial numbers, UIDs, PCI addresses, file system names, sysfs attributes)
    are ASCII. *)

From S2P Require Import Prelude.

(** ** Bytes *)

Definition byte_val (c : ascii) : Z := Z.of_N (N_of_ascii c).
Definition byte_chr (z : Z) : ascii := ascii_of_N (Z.to_N z).

Lemma byte_val_range c : 0 ≤ byte_val c < 256.
Proof. unfold byte_val. pose proof (N_ascii_bounded c). lia. Qed.

Lemma byte_chr_val c : byte_chr (byte_val c) = c.
Proof. unfold byte_chr, byte_val. rewrite N2Z.id. apply ascii_N_embedding. Qed.

Lemma byte_val_chr z : 0 ≤ z < 256 → byte_val (byte_chr z) = z.
Proof.
  intros H. unfold byte_chr, byte_val. rewrite N_ascii_embedding by lia. apply Z2N.id. lia.
Qed.

(** ** Strings as lists of bytes *)

Fixpoint str_list (s : string) : list ascii :=
  match s with EmptyString => [] | String c s => c :: str_list s end.

Fixpoint list_str (l : list ascii) : string :=
  match l with [] => EmptyString | c :: l => String c (list_str l) end.

Lemma list_str_list s : list_str (str_list s) = s.
Proof. induction s; simpl; congruence. Qed.

Lemma str_list_str l : str_list (list_str l) = l.
Proof. induction l; simpl; congruence. Qed.

Lemma str_app_nil_l s : "" +:+ s = s.
Proof. reflexivity. Qed.

Lemma str_app_cons c s t : String c s +:+ t = String c (s +:+ t).
Proof. reflexivity. Qed.

Lemma str_list_app s t : str_list (s +:+ t) = str_list s ++ str_list t.
Proof. induction s; [done|]. rewrite str_app_cons. simpl. by rewrite IHs. Qed.

Lemma str_list_inj s t : str_list s = str_list t → s = t.
Proof. intros H. rewrite <- (list_str_list s), <- (list_str_list t). congruence. Qed.

Lemma str_app_nil_r s : s +:+ "" = s.
Proof. apply str_list_inj. rewrite str_list_app. simpl. apply app_nil_r. Qed.

Lemma str_app_assoc s t u : s +:+ (t +:+ u) = (s +:+ t) +:+ u.
Proof. apply str_list_inj. rewrite !str_list_app. apply app_assoc. Qed.

Definition str_len (s : string) : Z := Z.of_nat (length (str_list s)).

(** Every byte of a string satisfies a test. *)
Definition str_all (f : ascii → bool) (s : string) : bool := forallb f (str_list s).

(** ** Case *)

Definition lower_byte (c : ascii) : ascii :=
  let b := byte_val c in if (65 <=? b) && (b <=? 90) then byte_chr (b + 32) else c.

Fixpoint ToLower (s : string) : string :=
  match s with EmptyString => EmptyString | String c s => String (lower_byte c) (ToLower s) end.

Definition EqualFold (s t : string) : bool := ToLower s ==? ToLower t.

Lemma lower_byte_idem c : lower_byte (lower_byte c) = lower_byte c.
Proof.
  unfold lower_byte at 2 3. pose proof (byte_val_range c). cbv zeta.
  destruct (_ && _) eqn:E; [|unfold lower_byte; cbv zeta; by rewrite E].
  bool_to_prop. unfold lower_byte. cbv zeta. rewrite byte_val_chr by lia.
  destruct (_ && _) eqn:E'; [bool_to_prop; lia|done].
Qed.

Lemma ToLower_idem s : ToLower (ToLower s) = ToLower s.
Proof. induction s; simpl; [done|]. by rewrite lower_byte_idem, IHs. Qed.

Lemma EqualFold_true s t : EqualFold s t = true ↔ ToLower s = ToLower t.
Proof. apply bool_decide_eq_true. Qed.

Lemma EqualFold_refl s : EqualFold s s = true.
Proof. by apply EqualFold_true. Qed.

Lemma EqualFold_sym s t : EqualFold s t = EqualFold t s.
Proof. apply bool_decide_ext. done. Qed.

Lemma EqualFold_trans s t u : EqualFold s t = true → EqualFold t u = true → EqualFold s u = true.
Proof. rewrite !EqualFold_true. congruence. Qed.

(** ** Trimming *)

Fixpoint trim_left (f : ascii → bool) (s : string) : string :=
  match s with
  | EmptyString => EmptyString
  | String c s' => if f c then trim_left f s' else s
  end.

Fixpoint trim_right (f : ascii → bool) (s : string) : string :=
  match s with
  | EmptyString => EmptyString
  | String c s' =>
    match trim_right f s' with
    | EmptyString => if f c then EmptyString else String c EmptyString
    | r => String c r
    end
  end.

Definition TrimFunc (f : ascii → bool) (s : string) : string := trim_right f (trim_left f s).
Definition TrimSpace (s : string) : string := TrimFunc Ascii.is_space s.
(** [strings.Trim] with a one-byte cut set. *)
Definition TrimByte (c : ascii) (s : string) : string := TrimFunc (fun d => d ==? c) s.

Lemma trim_right_nil f s : trim_right f s = "" ↔ str_all f s = true.
Proof.
  unfold str_all. induction s as [|c s IH]; simpl; [done|].
  destruct (trim_right f s) eqn:E.
  - destruct (f c); simpl; [|split; discriminate]. rewrite <- IH. done.
  - split; [discriminate|]. rewrite andb_true_iff. rewrite <- IH. intros [_ ?]. done.
Qed.

Lemma TrimFunc_nil f s : TrimFunc f s = "" ↔ str_all f s = true.
Proof.
  unfold TrimFunc. rewrite trim_right_nil. unfold str_all.
  induction s as [|c s IH]; simpl; [done|]. destruct (f c) eqn:E; simpl; [done|]. by rewrite E.
Qed.

(** ** Prefixes and suffixes *)

Fixpoint CutPrefix (s p : string) : option string :=
  match p, s with
  | EmptyString, _ => Some s
  | String c p', String d s' => if bool_decide (c = d) then CutPrefix s' p' else None
  | String _ _, EmptyString => None
  end.

Definition HasPrefix (s p : string) : bool :=
  match CutPrefix s p with Some _ => true | None => false end.

Definition TrimPrefix (s p : string) : string :=
  match CutPrefix s p with Some r => r | None => s end.

Definition HasSuffix (s p : string) : bool :=
  HasPrefix (list_str (rev (str_list s))) (list_str (rev (str_list p))).

Definition CutSuffix (s p : string) : option string :=
  match CutPrefix (list_str (rev (str_list s))) (list_str (rev (str_list p))) with
  | Some r => Some (list_str (rev (str_list r)))
  | None => None
  end.

Definition TrimSuffix (s p : string) : string :=
  match CutSuffix s p with Some r => r | None => s end.

Fixpoint Contains (s p : string) : bool :=
  HasPrefix s p || match s with EmptyString => false | String _ s' => Contains s' p end.

(** [strings.Cut] with a one-byte separator. *)
Fixpoint CutByte (sep : ascii) (s : string) : option (string * string) :=
  match s with
  | EmptyString => None
  | String c s' =>
    if bool_decide (c = sep) then Some ("", s')
    else match CutByte sep s' with Some (a, b) => Some (String c a, b) | None => None end
  end.

(** [strings.TrimRight] with a one-byte cut set. *)
Definition TrimRightByte (c : ascii) (s : string) : string := trim_right (λ d, d ==? c) s.

Lemma CutPrefix_spec s p r : CutPrefix s p = Some r ↔ s = p +:+ r.
Proof.
  revert s. induction p as [|c p IH]; intros [|d s]; simpl.
  - rewrite str_app_nil_l. naive_solver.
  - rewrite str_app_nil_l. naive_solver.
  - rewrite str_app_cons. naive_solver.
  - rewrite str_app_cons. case_bool_decide; [rewrite IH|]; naive_solver.
Qed.

Lemma CutPrefix_app p r : CutPrefix (p +:+ r) p = Some r.
Proof. by apply CutPrefix_spec. Qed.

Lemma HasPrefix_spec s p : HasPrefix s p = true ↔ ∃ r, s = p +:+ r.
Proof.
  unfold HasPrefix. destruct (CutPrefix s p) as [r|] eqn:E.
  - apply CutPrefix_spec in E. naive_solver.
  - split; [done|]. intros [r Hr]. apply CutPrefix_spec in Hr. congruence.
Qed.

Lemma CutSuffix_spec s p r : CutSuffix s p = Some r ↔ s = r +:+ p.
Proof.
  unfold CutSuffix. split.
  - destruct (CutPrefix _ _) as [q|] eqn:E; [|done]. intros [= <-]. apply CutPrefix_spec in E.
    apply str_list_inj. rewrite str_list_app, str_list_str, <- rev_involutive at 1.
    rewrite <- (str_list_str (rev (str_list s))), E, str_list_app, str_list_str.
    by rewrite rev_app_distr, rev_involutive.
  - intros ->. rewrite str_list_app, rev_app_distr.
    assert (list_str (rev (str_list p) ++ rev (str_list r)) =
            list_str (rev (str_list p)) +:+ list_str (rev (str_list r))) as ->.
    { apply str_list_inj. by rewrite str_list_app, !str_list_str. }
    rewrite CutPrefix_app, str_list_str, rev_involutive. by rewrite list_str_list.
Qed.

Lemma TrimSuffix_app r p : TrimSuffix (r +:+ p) p = r.
Proof. unfold TrimSuffix. by rewrite (proj2 (CutSuffix_spec _ _ _) eq_refl). Qed.

(** ** Splitting and joining *)

(** [strings.Split] with a one-byte separator. *)
Fixpoint Split (sep : ascii) (s : string) : list string :=
  match s with
  | EmptyString => [EmptyString]
  | String c s' =>
    if bool_decide (c = sep) then EmptyString :: Split sep s'
    else match Split sep s' with
         | [] => [String c EmptyString]
         | w :: ws => String c w :: ws
         end
  end.

(** [strings.Fields]: the maximal runs of bytes that are no white space. *)
Fixpoint fields_from (w : string) (s : string) : list string :=
  match s with
  | EmptyString => if w ==? "" then [] else [w]
  | String c s' =>
    if Ascii.is_space c then (if w ==? "" then [] else [w]) ++ fields_from "" s'
    else fields_from (w +:+ String c "") s'
  end.
Definition Fields (s : string) : list string := fields_from "" s.

Fixpoint JoinStrings (ws : list string) (sep : string) : string :=
  match ws with
  | [] => EmptyString
  | [w] => w
  | w :: ws => w +:+ sep +:+ JoinStrings ws sep
  end.

Definition comma : ascii := ","%char.
Definition newline : ascii := Ascii.ascii_of_nat 10.

Lemma Split_nonnil sep s : Split sep s ≠ [].
Proof. destruct s; simpl; [done|]. case_bool_decide; [done|]. by case_match. Qed.

Definition no_byte (sep : ascii) (s : string) : bool := str_all (fun c => negb (c ==? sep)) s.

Lemma Split_no_sep sep w : no_byte sep w = true → Split sep w = [w].
Proof.
  unfold no_byte, str_all. induction w as [|c w IH]; simpl; [done|].
  intros H. bool_to_prop. rewrite bool_decide_false by done. rewrite IH by done. done.
Qed.

Lemma Split_app sep w s : no_byte sep w = true →
  Split sep (w +:+ String sep s) = w :: Split sep s.
Proof.
  unfold no_byte, str_all. induction w as [|c w IH]; intros H.
  - rewrite str_app_nil_l. simpl. by rewrite bool_decide_true.
  - rewrite str_app_cons. simpl in *. bool_to_prop. rewrite bool_decide_false by done.
    rewrite IH by done. done.
Qed.

Lemma Split_join sep ws : ws ≠ [] → Forall (λ w, no_byte sep w = true) ws →
  Split sep (JoinStrings ws (String sep EmptyString)) = ws.
Proof.
  intros Hne H. induction H as [|w ws Hw Hws IH]; [done|].
  destruct ws as [|w' ws]; [by apply Split_no_sep|].
  change (JoinStrings (w :: w' :: ws) (String sep EmptyString))
    with (w +:+ String sep (JoinStrings (w' :: ws) (String sep EmptyString))).
  rewrite Split_app by done. rewrite IH; done.
Qed.

(** ** Numbers *)

Definition is_digit (c : ascii) : bool := (48 <=? byte_val c) && (byte_val c <=? 57).

(** The value of a digit in bases up to 36. *)
Definition digit_of (c : ascii) : option Z :=
  let b := byte_val c in
  if (48 <=? b) && (b <=? 57) then Some (b - 48)
  else if (97 <=? b) && (b <=? 122) then Some (b - 87)
  else if (65 <=? b) && (b <=? 90) then Some (b - 55)
  else None.

Definition digit_char (d : Z) : ascii := if d <? 10 then byte_chr (48 + d) else byte_chr (87 + d).

Fixpoint parse_digits (base : Z) (s : string) (acc : Z) : option Z :=
  match s with
  | EmptyString => Some acc
  | String c s =>
    match digit_of c with
    | Some d => if d <? base then parse_digits base s (acc * base + d) else None
    | None => None
    end
  end.

(** An unsigned number of any size: big.Int.SetString on a string without sign. *)
Definition parse_nat (base : Z) (s : string) : option Z :=
  if s ==? "" then None else parse_digits base s 0.

(** The digits of a number, least significant first. *)
Fixpoint digits_of (fuel : nat) (base z : Z) : list Z :=
  match fuel with
  | O => []
  | S fuel => if z <? base then [z] else z mod base :: digits_of fuel base (z / base)
  end.

Definition format_nat (base z : Z) : string :=
  list_str (map digit_char (rev (digits_of (S (Z.to_nat (Z.log2 z))) base z))).

(** [strconv.FormatInt], [big.Int.Text] and the [%d] verb. *)
Definition FormatInt (z base : Z) : string :=
  if z <? 0 then String "-" (format_nat base (- z)) else format_nat base z.
Definition Itoa (z : Z) : string := FormatInt z 10.

(** [strconv.ParseUint] with bit size 64; [None] is any error. *)
Definition ParseUint (s : string) (base : Z) : option Z :=
  match parse_nat base s with
  | Some v => if v <=? MaxUint64 then Some v else None
  | None => None
  end.

(** [strconv.ParseInt] with bit size [bits]; [strconv.Atoi] is base 10 and 64 bits. *)
Definition ParseInt (s : string) (base bits : Z) : option Z :=
  let '(neg, digits) :=
    match s with
    | String "-" r => (true, r)
    | String "+" r => (false, r)
    | _ => (false, s)
    end in
  match parse_nat base digits with
  | None => None
  | Some v =>
    let v := if (neg : bool) then - v else v in
    if (- 2 ^ (bits - 1) <=? v) && (v <=? 2 ^ (bits - 1) - 1) then Some v else None
  end.
Definition Atoi (s : string) : option Z := ParseInt s 10 64.

Definition digits_val (base : Z) (acc : Z) (ds : list Z) : Z :=
  fold_left (λ a d, a * base + d) ds acc.

Lemma digit_of_char d : 0 ≤ d < 36 → digit_of (digit_char d) = Some d.
Proof.
  intros H. unfold digit_of, digit_char. cbv zeta. destruct (Z.ltb_spec d 10);
    rewrite byte_val_chr by lia.
  - replace ((48 <=? 48 + d) && (48 + d <=? 57)) with true by lia. f_equal. lia.
  - replace ((48 <=? 87 + d) && (87 + d <=? 57)) with false by lia.
    replace ((97 <=? 87 + d) && (87 + d <=? 122)) with true by lia. f_equal. lia.
Qed.

Lemma digit_of_range c d : digit_of c = Some d → 0 ≤ d < 36.
Proof.
  unfold digit_of. cbv zeta. intros H. repeat (case_match; [simplify_eq; lia|]). done.
Qed.

Lemma parse_digits_nonneg base s acc v :
  0 ≤ acc → 0 ≤ base → parse_digits base s acc = Some v → 0 ≤ v.
Proof.
  revert acc. induction s as [|c s IH]; intros acc Hacc Hb E; simpl in E; [by simplify_eq|].
  destruct (digit_of c) as [d|] eqn:Ed; [|done]. apply digit_of_range in Ed.
  destruct (d <? base); [|done]. apply IH in E; nia.
Qed.

Lemma parse_digits_bound base s acc v : 0 ≤ acc → 1 ≤ base →
  parse_digits base s acc = Some v → v < (acc + 1) * base ^ str_len s.
Proof.
  unfold str_len. revert acc. induction s as [|c s IH]; intros acc Hacc Hb E; simpl in E;
    [simplify_eq; simpl; lia|].
  destruct (digit_of c) as [d|] eqn:Ed; [|done]. apply digit_of_range in Ed.
  destruct (Z.ltb_spec d base); [|done]. apply IH in E; [|nia|done]. cbn [str_list length].
  rewrite Nat2Z.inj_succ, Z.pow_succ_r by lia.
  assert (0 < base ^ Z.of_nat (length (str_list s))) by (apply Z.pow_pos_nonneg; lia). nia.
Qed.

Lemma parse_digits_list base ds acc : base ≤ 36 → Forall (λ d, 0 ≤ d < base) ds →
  parse_digits base (list_str (map digit_char ds)) acc = Some (digits_val base acc ds).
Proof.
  intros Hb H. revert acc. induction H as [|d ds Hd _ IH]; intros acc; simpl; [done|].
  rewrite digit_of_char by lia. destruct (Z.ltb_spec d base); [apply IH|lia].
Qed.

Lemma digits_val_snoc base acc ds d :
  digits_val base acc (ds ++ [d]) = digits_val base acc ds * base + d.
Proof. unfold digits_val. by rewrite fold_left_app. Qed.

Lemma div_base_bound base z n : 2 ≤ base → base ≤ z → z < 2 ^ Z.of_nat (S n) →
  1 ≤ z / base < 2 ^ Z.of_nat n.
Proof.
  intros Hb Hz H. rewrite Nat2Z.inj_succ, Z.pow_succ_r in H by lia. split.
  - apply Z.div_le_lower_bound; lia.
  - apply Z.div_lt_upper_bound; nia.
Qed.

(** The digits are in range, denote the number, and carry no leading zero. *)
Lemma digits_of_spec n base z : 2 ≤ base → 0 ≤ z < 2 ^ Z.of_nat n → (0 < n)%nat →
  Forall (λ d, 0 ≤ d < base) (digits_of n base z) ∧
  digits_val base 0 (rev (digits_of n base z)) = z ∧
  ∃ d ds, rev (digits_of n base z) = d :: ds ∧ (d = 0 → z = 0 ∧ ds = []).
Proof.
  revert z. induction n as [|n IH]; intros z Hb Hz Hn; [lia|]. cbn [digits_of].
  destruct (Z.ltb_spec z base).
  - split; [repeat constructor; lia|]. split; [simpl; lia|]. exists z, []. auto.
  - pose proof (div_base_bound base z n Hb ltac:(lia) ltac:(lia)) as Hd.
    destruct n as [|n]; [simpl in Hd; lia|].
    destruct (IH (z / base)) as (Hf & Hv & d & ds & Hr & H0); [lia..|].
    pose proof (Z.mod_pos_bound z base ltac:(lia)). cbn [rev]. split; [by constructor|]. split.
    + rewrite digits_val_snoc, Hv. pose proof (Z.div_mod z base). lia.
    + exists d, (ds ++ [z mod base]). rewrite Hr. split; [done|]. intros ->.
      destruct H0 as [? _]; [done|]. lia.
Qed.

Lemma log2_fuel z : 0 ≤ z → z < 2 ^ Z.of_nat (S (Z.to_nat (Z.log2 z))).
Proof.
  intros Hz. rewrite Nat2Z.inj_succ, Z2Nat.id by apply Z.log2_nonneg.
  destruct (Z.eq_dec z 0) as [->|]; [done|]. apply Z.log2_spec. lia.
Qed.

Lemma format_nat_spec base z : 2 ≤ base ≤ 36 → 0 ≤ z → ∃ d ds,
  format_nat base z = list_str (map digit_char (d :: ds)) ∧
  Forall (λ d, 0 ≤ d < base) (d :: ds) ∧ digits_val base 0 (d :: ds) = z ∧
  (d = 0 → z = 0 ∧ ds = []).
Proof.
  intros Hb Hz.
  destruct (digits_of_spec (S (Z.to_nat (Z.log2 z))) base z) as (Hf & Hv & d & ds & Hr & H0);
    [lia|split; [lia|by apply log2_fuel]|lia|].
  exists d, ds. unfold format_nat. rewrite <- Hr. split_and!; [done|by apply Forall_rev|done|done].
Qed.

(** Printing then parsing a natural number is the identity. *)
Lemma parse_format_nat base z : 2 ≤ base ≤ 36 → 0 ≤ z → parse_nat base (format_nat base z) = Some z.
Proof.
  intros Hb Hz. destruct (format_nat_spec base z Hb Hz) as (d & ds & -> & Hf & Hv & _).
  unfold parse_nat. rewrite bool_decide_false by done. rewrite parse_digits_list by (done || lia).
  by rewrite Hv.
Qed.

Lemma format_nat_inj base x y : 2 ≤ base ≤ 36 → 0 ≤ x → 0 ≤ y →
  format_nat base x = format_nat base y → x = y.
Proof.
  intros Hb Hx Hy E. apply (f_equal (parse_nat base)) in E. rewrite !parse_format_nat in E by done.
  congruence.
Qed.

(** [strconv.Atoi] inverts [strconv.Itoa] on every [int]. *)
Lemma Atoi_Itoa z : int64 z → Atoi (Itoa z) = Some z.
Proof.
  unfold int64, MinInt64, MaxInt64. intros Hz. unfold Atoi, Itoa, FormatInt, ParseInt.
  destruct (Z.ltb_spec z 0).
  - cbv iota beta. rewrite parse_format_nat by lia.
    replace ((- 2 ^ (64 - 1) <=? - - z) && (- - z <=? 2 ^ (64 - 1) - 1)) with true by lia. f_equal. lia.
  - destruct (format_nat_spec 10 z) as (d & ds & E & Hf & _); [lia..|].
    assert (∀ (A : Type) (f g : string → A) (w : A),
      match format_nat 10 z with String "-" r => f r | String "+" r => g r | _ => w end = w) as Hm.
    { intros A f g w. rewrite E. decompose_Forall_hyps.
      assert (d = 0 ∨ d = 1 ∨ d = 2 ∨ d = 3 ∨ d = 4 ∨ d = 5 ∨ d = 6 ∨ d = 7 ∨ d = 8 ∨ d = 9) as Hd by lia.
      destruct_or! Hd; subst d; reflexivity. }
    rewrite Hm, parse_format_nat by lia.
    by replace ((- 2 ^ (64 - 1) <=? z) && (z <=? 2 ^ (64 - 1) - 1)) with true by lia.
Qed.

Lemma ParseInt_int64 s base v : ParseInt s base 64 = Some v → int64 v.
Proof.
  unfold ParseInt. destruct (match s with EmptyString => _ | String _ _ => _ end) as [neg digits].
  destruct (parse_nat base digits) as [u|]; [|done]. destruct (_ && _) eqn:E; [|done]. intros [= <-].
  apply andb_prop in E as [? ?]. unfold int64, MinInt64, MaxInt64. lia.
Qed.

Lemma str_all_impl (P P' : ascii → bool) s : (∀ c, P c = true → P' c = true) → str_all P s = true → str_all P' s = true.
Proof. unfold str_all. rewrite !forallb_forall. auto. Qed.

Lemma no_byte_app sep s t : no_byte sep (s +:+ t) = no_byte sep s && no_byte sep t.
Proof. unfold no_byte, str_all. by rewrite str_list_app, forallb_app. Qed.

Lemma Itoa_inj x y : 0 ≤ x → 0 ≤ y → Itoa x = Itoa y → x = y.
Proof.
  intros Hx Hy. unfold Itoa, FormatInt. destruct (Z.ltb_spec x 0), (Z.ltb_spec y 0); try lia.
  by apply format_nat_inj.
Qed.

(** ** Strings without white space *)

Definition solid (s : string) : bool := str_all (λ c, negb (Ascii.is_space c)) s.

Lemma solid_app s t : solid (s +:+ t) = solid s && solid t.
Proof. unfold solid, str_all. by rewrite str_list_app, forallb_app. Qed.

Lemma trim_right_solid s : solid s = true → trim_right Ascii.is_space s = s.
Proof.
  unfold solid, str_all. induction s as [|c s IH]; simpl; [done|]. intros [Hc Hs]%andb_prop. rewrite IH by done.
  apply negb_true_iff in Hc. rewrite Hc. by destruct s.
Qed.

Lemma TrimSpace_solid s : solid s = true → TrimSpace s = s.
Proof.
  intros H. unfold TrimSpace, TrimFunc. assert (trim_left Ascii.is_space s = s) as ->; [|by apply trim_right_solid].
  destruct s as [|c s]; [done|]. unfold solid, str_all in H. simpl in H. apply andb_prop in H as [Hc _].
  apply negb_true_iff in Hc. simpl. by rewrite Hc.
Qed.

Lemma digit_char_solid d : 0 ≤ d < 10 → Ascii.is_space (digit_char d) = false.
Proof.
  intros H. assert (d = 0 ∨ d = 1 ∨ d = 2 ∨ d = 3 ∨ d = 4 ∨ d = 5 ∨ d = 6 ∨ d = 7 ∨ d = 8 ∨ d = 9) as Hd by lia.
  by destruct_or! Hd; subst d.
Qed.

Lemma Itoa_solid z : 0 ≤ z → solid (Itoa z) = true.
Proof.
  intros Hz. unfold Itoa, FormatInt. rewrite (proj2 (Z.ltb_ge _ _)) by lia.
  destruct (format_nat_spec 10 z) as (d & ds & -> & Hf & _); [lia..|]. unfold solid, str_all. rewrite str_list_str.
  apply forallb_forall. intros c (d' & <- & Hin)%in_map_iff. rewrite Forall_forall in Hf.
  by rewrite digit_char_solid by (apply Hf, list_elem_of_In, Hin).
Qed.

(** ** Trimming twice *)

Lemma trim_left_head f s : trim_left f s = "" ∨ ∃ c t, trim_left f s = String c t ∧ f c = false.
Proof. induction s as [|c s IH]; simpl; [by left|]. destruct (f c) eqn:E; [done|]. right. by exists c, s. Qed.

Lemma trim_right_idemp f s : trim_right f (trim_right f s) = trim_right f s.
Proof.
  induction s as [|c s IH]; [done|]. simpl. destruct (trim_right f s) as [|d t] eqn:E.
  - destruct (f c) eqn:Ec; simpl; [done|]. by rewrite Ec.
  - change (trim_right f (String c (String d t))) with
      (match trim_right f (String d t) with EmptyString => if f c then EmptyString else String c EmptyString | r => String c r end).
    by rewrite IH.
Qed.

Lemma TrimSpace_idemp s : TrimSpace (TrimSpace s) = TrimSpace s.
Proof.
  unfold TrimSpace, TrimFunc. destruct (trim_left_head Ascii.is_space s) as [->|(c & t & -> & Hc)]; [done|].
  assert (∃ t', trim_right Ascii.is_space (String c t) = String c t') as [t' E].
  { simpl. rewrite Hc. destruct (trim_right _ t); by eexists. }
  assert (trim_left Ascii.is_space (String c t') = String c t') as El by (simpl; by rewrite Hc).
  rewrite E, El, <- E. apply trim_right_idemp.
Qed.
