(* ===== verification/GoPath.v ===== *)
(** * Paths

    What the sources use of Go's path/filepath on Unix: [Clean], [filepath_Join], [Dir],
    [Base] and [IsAbs], and the components of an absolute path. *)

From S2P Require Import Prelude GoStrings.

Definition slash : ascii := "/"%char.

(** The components of a path, innermost first: empty ones and [.] vanish, [..]
    drops its predecessor. *)
Definition clean_step (rooted : bool) (stack : list string) (c : string) : list string :=
  if (c ==? "") || (c ==? ".") then stack
  else if c ==? ".." then
    match stack with
    | [] => if rooted then [] else [".."]
    | top :: rest => if top ==? ".." then ".." :: stack else rest
    end
  else c :: stack.

Definition IsAbs (path : string) : bool := HasPrefix path "/".

Definition components (path : string) : list string :=
  rev (fold_left (clean_step (IsAbs path)) (Split slash path) []).

Definition Clean (path : string) : string :=
  if path ==? "" then "."
  else
    let body := JoinStrings (components path) "/" in
    if IsAbs path then "/" +:+ body else if body ==? "" then "." else body.

Fixpoint filepath_Join (elem : list string) : string :=
  match elem with
  | [] => ""
  | e :: rest => if e ==? "" then filepath_Join rest else Clean (JoinStrings elem "/")
  end.

(** The bytes up to and including the last slash, and those after it. *)
Fixpoint split_last (s : string) : string * string :=
  match s with
  | EmptyString => ("", "")
  | String c s' =>
    let '(d, b) := split_last s' in
    if d ==? "" then if c ==? slash then ("/", b) else ("", String c b)
    else (String c d, b)
  end.

Definition Dir (path : string) : string := Clean (split_last path).1.

Definition Base (path : string) : string :=
  if path ==? "" then "."
  else let b := (split_last (TrimRightByte slash path)).2 in if b ==? "" then "/" else b.

(** ** Names

    A name is a component that stands for itself. *)

Definition name_ok (c : string) : bool :=
  negb (c ==? "") && negb (c ==? ".") && negb (c ==? "..") && no_byte slash c.

Lemma name_ok_step rooted st c : name_ok c = true → clean_step rooted st c = c :: st.
Proof.
  unfold name_ok, clean_step. intros H. bool_to_prop.
  by rewrite !bool_decide_false by done.
Qed.

Lemma name_ok_no_byte c : name_ok c = true → no_byte slash c = true.
Proof. unfold name_ok. intros H. by bool_to_prop. Qed.

Lemma names_fold rooted l st : Forall (λ c, name_ok c = true) l →
  fold_left (clean_step rooted) l st = rev l ++ st.
Proof.
  intros H. revert st. induction H as [|c l Hc Hl IH]; intros st; simpl; [done|].
  rewrite name_ok_step, IH, <- app_assoc by done. done.
Qed.

Lemma IsAbs_app p s : IsAbs p = true → IsAbs (p +:+ s) = true.
Proof.
  unfold IsAbs. rewrite !HasPrefix_spec. intros [r ->]. exists (r +:+ s). by rewrite str_app_assoc.
Qed.

Lemma Split_concat sep s t :
  Split sep (s +:+ String sep t) = Split sep s ++ Split sep t.
Proof.
  induction s as [|c s IH].
  - rewrite str_app_nil_l. simpl. by rewrite bool_decide_true.
  - rewrite str_app_cons. simpl. rewrite IH. case_bool_decide; [done|].
    destruct (Split sep s) eqn:E; [by apply Split_nonnil in E|]. done.
Qed.

Lemma components_app p l : IsAbs p = true → l ≠ [] → Forall (λ c, name_ok c = true) l →
  components (p +:+ "/" +:+ JoinStrings l "/") = components p ++ l.
Proof.
  intros Hp Hl H. unfold components. rewrite IsAbs_app, Hp by done.
  change ("/" +:+ JoinStrings l "/") with (String slash (JoinStrings l "/")).
  rewrite Split_concat, fold_left_app, Split_join; [|done|].
  - rewrite names_fold by done. by rewrite rev_app_distr, rev_involutive.
  - eapply Forall_impl; [done|]. intros c. apply name_ok_no_byte.
Qed.

(** ** Components of clean paths *)

Lemma Split_no_byte sep s : Forall (λ w, no_byte sep w = true) (Split sep s).
Proof.
  unfold no_byte, str_all. induction s as [|c s IH]; simpl; [by repeat constructor|].
  case_bool_decide; [by constructor|].
  destruct (Split sep s) as [|w ws]; [constructor; [|done]; simpl; by rewrite bool_decide_false|].
  inversion_clear IH as [|?? Hw Hws]. constructor; [|done]. simpl. by rewrite bool_decide_false, Hw.
Qed.

Lemma clean_step_rooted st c : Forall (λ c, name_ok c = true) st → no_byte slash c = true →
  Forall (λ c, name_ok c = true) (clean_step true st c).
Proof.
  intros Hst Hc. unfold clean_step. destruct ((c ==? "") || (c ==? ".")) eqn:E1; [done|].
  bool_to_prop. destruct (bool_decide_reflect (c = "..")) as [->|Hne].
  - destruct Hst as [|t st Ht Hst]; [done|]. destruct (bool_decide_reflect (t = "..")) as [->|]; [done|done].
  - constructor; [|done]. unfold name_ok. by rewrite !bool_decide_false, Hc by done.
Qed.

Lemma components_ok p : IsAbs p = true → Forall (λ c, name_ok c = true) (components p).
Proof.
  intros Hp. unfold components. rewrite Hp. apply Forall_rev.
  assert (∀ l st, Forall (λ w, no_byte slash w = true) l → Forall (λ c, name_ok c = true) st →
    Forall (λ c, name_ok c = true) (fold_left (clean_step true) l st)) as Hf.
  { intros l. induction l as [|w l IH]; intros st Hl Hst; simpl; [done|].
    inversion_clear Hl. apply IH; [done|]. by apply clean_step_rooted. }
  apply Hf; [apply Split_no_byte|constructor].
Qed.

(** The absolute path with the given components. *)
Definition path_str (l : list string) : string := "/" +:+ JoinStrings l "/".

Lemma path_str_abs l : IsAbs (path_str l) = true.
Proof. unfold IsAbs. apply HasPrefix_spec. by exists (JoinStrings l "/"). Qed.

Lemma components_path_str l : Forall (λ c, name_ok c = true) l → components (path_str l) = l.
Proof.
  intros H. unfold components, path_str. rewrite (path_str_abs l : IsAbs ("/" +:+ _) = true).
  change ("/" +:+ JoinStrings l "/") with ("" +:+ String slash (JoinStrings l "/")).
  rewrite Split_concat, fold_left_app. simpl.
  destruct (decide (l = [])) as [->|Hl]; [done|].
  rewrite Split_join; [|done|eapply Forall_impl; [done|]; intros c; apply name_ok_no_byte].
  rewrite names_fold by done. by rewrite app_nil_r, rev_involutive.
Qed.

Lemma Clean_abs p : IsAbs p = true → Clean p = path_str (components p).
Proof.
  intros Hp. unfold Clean, path_str. rewrite Hp. destruct (bool_decide_reflect (p = "")) as [->|]; done.
Qed.

Lemma components_Clean p : IsAbs p = true → components (Clean p) = components p.
Proof. intros Hp. rewrite Clean_abs by done. by apply components_path_str, components_ok. Qed.

Lemma Clean_is_abs p : IsAbs p = true → IsAbs (Clean p) = true.
Proof. intros Hp. rewrite Clean_abs by done. apply path_str_abs. Qed.

Lemma Clean_idem p : IsAbs p = true → Clean (Clean p) = Clean p.
Proof. intros Hp. rewrite (Clean_abs (Clean p)) by (by apply Clean_is_abs). by rewrite components_Clean, <- Clean_abs. Qed.

(** Joining names to an absolute path appends them to its components. *)
Lemma components_Join p l : IsAbs p = true → Forall (λ c, name_ok c = true) l →
  components (filepath_Join (p :: l)) = components p ++ l.
Proof.
  intros Hp Hl. unfold filepath_Join; fold filepath_Join. destruct (bool_decide_reflect (p = "")) as [->|Hne]; [done|].
  destruct l as [|c l].
  - simpl. by rewrite app_nil_r, components_Clean.
  - change (JoinStrings (p :: c :: l) "/") with (p +:+ "/" +:+ JoinStrings (c :: l) "/").
    rewrite components_Clean by (by apply IsAbs_app). by apply components_app.
Qed.

Lemma Join_is_abs p l : IsAbs p = true → IsAbs (filepath_Join (p :: l)) = true.
Proof.
  intros Hp. unfold filepath_Join; fold filepath_Join. destruct (bool_decide_reflect (p = "")) as [->|Hne]; [done|].
  apply Clean_is_abs. destruct l; [done|]. by apply IsAbs_app.
Qed.

Lemma Join_path_str p l : IsAbs p = true → Forall (λ c, name_ok c = true) l →
  filepath_Join (p :: l) = path_str (components p ++ l).
Proof.
  intros Hp Hl. rewrite <- components_Join by done. rewrite <- Clean_abs by (by apply Join_is_abs).
  unfold filepath_Join; fold filepath_Join. destruct (bool_decide_reflect (p = "")) as [->|Hne]; [done|].
  rewrite Clean_idem; [done|]. destruct l; [done|]. by apply IsAbs_app.
Qed.

(** ** The directory of a path *)

Lemma split_last_name n : no_byte slash n = true → split_last n = ("", n).
Proof.
  unfold no_byte, str_all. induction n as [|c n IH]; simpl; [done|]. intros H. bool_to_prop.
  rewrite IH by done. simpl. by rewrite bool_decide_false.
Qed.

Lemma split_last_app a n : no_byte slash n = true → split_last (a +:+ String slash n) = (a +:+ "/", n).
Proof.
  intros Hn. induction a as [|c a IH].
  - rewrite !str_app_nil_l. simpl. by rewrite split_last_name.
  - rewrite !str_app_cons. simpl. rewrite IH. rewrite bool_decide_false by (by destruct a). done.
Qed.

Lemma JoinStrings_snoc l n : l ≠ [] → JoinStrings (l ++ [n]) "/" = JoinStrings l "/" +:+ String slash n.
Proof.
  intros Hl. induction l as [|a l IH]; [done|]. destruct l as [|b l]; [done|].
  change (JoinStrings ((a :: b :: l) ++ [n]) "/") with (a +:+ "/" +:+ JoinStrings ((b :: l) ++ [n]) "/").
  rewrite IH by done. change (JoinStrings (a :: b :: l) "/") with (a +:+ "/" +:+ JoinStrings (b :: l) "/").
  by rewrite !str_app_assoc.
Qed.

Lemma components_Dir p l n : p = path_str (l ++ [n]) → l ≠ [] → Forall (λ c, name_ok c = true) l →
  name_ok n = true → components (Dir p) = l.
Proof.
  intros -> Hl Hf Hn. unfold Dir, path_str. rewrite JoinStrings_snoc by done. rewrite str_app_assoc.
  rewrite split_last_app by (by apply name_ok_no_byte). simpl fst. fold (path_str l).
  rewrite components_Clean by (apply IsAbs_app, path_str_abs).
  unfold components. rewrite IsAbs_app by apply path_str_abs.
  change "/" with (String slash ""). rewrite Split_concat, fold_left_app. simpl.
  pose proof (components_path_str l Hf) as Hc. unfold components in Hc. by rewrite path_str_abs in Hc.
Qed.

#[global] Arguments filepath_Join : simpl never.
#[global] Arguments Clean : simpl never.
#[global] Arguments components : simpl never.
#[global] Arguments Dir : simpl never.
