(* ===== verification/Encoding.v ===== *)
(** * crypto/sha256, encoding/hex and encoding/base64 (RawURLEncoding)

    The standard-library encoders the identity packages are built from,
    executable and checked against the published test vectors.  Byte strings
    are lists of integers in [0, 256). *)

From S2P Require Import Prelude GoStrings.

Definition bytes_of (s : string) : list Z := map byte_val (str_list s).
Definition string_of (l : list Z) : string := list_str (map byte_chr l).
Definition is_byte (z : Z) : Prop := 0 ≤ z < 256.

Lemma bytes_of_range s : Forall is_byte (bytes_of s).
Proof.
  unfold bytes_of. apply Forall_forall. intros z Hz.
  apply list_elem_of_fmap in Hz as (c & -> & _). apply byte_val_range.
Qed.

Lemma string_of_bytes s : string_of (bytes_of s) = s.
Proof.
  unfold string_of, bytes_of. rewrite map_map.
  rewrite (map_ext _ id) by apply byte_chr_val. rewrite map_id. apply list_str_list.
Qed.

Lemma bytes_of_inj s t : bytes_of s = bytes_of t → s = t.
Proof. intros H. rewrite <- (string_of_bytes s), <- (string_of_bytes t). congruence. Qed.

Lemma bytes_of_app s t : bytes_of (s +:+ t) = bytes_of s ++ bytes_of t.
Proof. unfold bytes_of. by rewrite str_list_app, map_app. Qed.

(** Big-endian words of [n] bytes. *)
Fixpoint be_bytes (n : nat) (z : Z) : list Z :=
  match n with O => [] | S n => be_bytes n (z / 256) ++ [z mod 256] end.

Fixpoint be_val (l : list Z) (acc : Z) : Z :=
  match l with [] => acc | b :: l => be_val l (acc * 256 + b) end.

Lemma be_bytes_length n z : length (be_bytes n z) = n.
Proof. revert z. induction n; intros z; simpl; [done|]. rewrite length_app, IHn. simpl. lia. Qed.

Lemma be_bytes_range n z : Forall is_byte (be_bytes n z).
Proof.
  revert z. induction n; intros z; simpl; [constructor|].
  apply Forall_app. split; [done|]. constructor; [|constructor]. unfold is_byte.
  pose proof (Z.mod_pos_bound z 256). lia.
Qed.

Lemma be_bytes_inj n x y : 0 ≤ x < 256 ^ Z.of_nat n → 0 ≤ y < 256 ^ Z.of_nat n →
  be_bytes n x = be_bytes n y → x = y.
Proof.
  revert x y. induction n as [|n IH]; intros x y Hx Hy H; [simpl in *; lia|].
  simpl in H. apply app_inj_tail in H as [H Hm].
  rewrite Nat2Z.inj_succ, Z.pow_succ_r in Hx, Hy by lia.
  assert (x / 256 = y / 256).
  { apply IH; [..|done]; (split; [apply Z.div_pos; lia|apply Z.div_lt_upper_bound; lia]). }
  pose proof (Z.div_mod x 256). pose proof (Z.div_mod y 256). lia.
Qed.

(** ** SHA-256 *)

Module Sha256.

Definition w32 (z : Z) : Z := Z.land z 0xffffffff.
Definition rotr (n x : Z) : Z := Z.lor (Z.shiftr x n) (w32 (Z.shiftl x (32 - n))).
Definition Ch (x y z : Z) : Z := Z.lxor (Z.land x y) (Z.land (Z.lxor x 0xffffffff) z).
Definition Maj (x y z : Z) : Z := Z.lxor (Z.lxor (Z.land x y) (Z.land x z)) (Z.land y z).
Definition Sigma0 (x : Z) : Z := Z.lxor (Z.lxor (rotr 2 x) (rotr 13 x)) (rotr 22 x).
Definition Sigma1 (x : Z) : Z := Z.lxor (Z.lxor (rotr 6 x) (rotr 11 x)) (rotr 25 x).
Definition sigma0 (x : Z) : Z := Z.lxor (Z.lxor (rotr 7 x) (rotr 18 x)) (Z.shiftr x 3).
Definition sigma1 (x : Z) : Z := Z.lxor (Z.lxor (rotr 17 x) (rotr 19 x)) (Z.shiftr x 10).

(** FIPS 180-4 takes the constants from the first primes: the first 32 bits of
    the fractional parts of their cube roots and of their square roots. *)
Definition is_prime (n : nat) : bool :=
  forallb (λ d, negb (n mod d =? 0)%nat) (seq 2 (n - 2)).
Definition primes : list Z := map Z.of_nat (base.filter is_prime (seq 2 310)).

(** The integer cube root of [z] below [lo + 2 ^ n]. *)
Fixpoint cube_root (n : nat) (lo z : Z) : Z :=
  match n with
  | O => lo
  | S n => let mid := lo + 2 ^ Z.of_nat n in
           cube_root n (if mid * mid * mid <=? z then mid else lo) z
  end.

Definition K : list Z :=
  Eval vm_compute in map (λ p, w32 (cube_root 36 0 (Z.shiftl p 96))) primes.

Record state := St { a : Z; b : Z; c : Z; d : Z; e : Z; f : Z; g : Z; h : Z }.

Definition init : state :=
  Eval vm_compute in
  match map (λ p, w32 (Z.sqrt (Z.shiftl p 64))) primes with
  | a :: b :: c :: d :: e :: f :: g :: h :: _ => St a b c d e f g h
  | _ => St 0 0 0 0 0 0 0 0
  end.

(** The message schedule, most recent word first. *)
Fixpoint schedule (n : nat) (w : list Z) : list Z :=
  match n with
  | O => w
  | S n =>
    schedule n
      (w32 (sigma1 (nth 1 w 0) + nth 6 w 0 + sigma0 (nth 14 w 0) + nth 15 w 0) :: w)
  end.

Definition round (s : state) (kw : Z * Z) : state :=
  let t1 := w32 (h s + Sigma1 (e s) + Ch (e s) (f s) (g s) + kw.1 + kw.2) in
  let t2 := w32 (Sigma0 (a s) + Maj (a s) (b s) (c s)) in
  St (w32 (t1 + t2)) (a s) (b s) (c s) (w32 (d s + t1)) (e s) (f s) (g s).

Fixpoint words (n : nat) (l : list Z) : list Z :=
  match n with O => [] | S n => be_val (take 4 l) 0 :: words n (drop 4 l) end.

Definition compress (s : state) (block : list Z) : state :=
  let w := rev (schedule 48 (rev (words 16 block))) in
  let s' := fold_left round (zip K w) s in
  St (w32 (a s + a s')) (w32 (b s + b s')) (w32 (c s + c s')) (w32 (d s + d s'))
     (w32 (e s + e s')) (w32 (f s + f s')) (w32 (g s + g s')) (w32 (h s + h s')).

Definition pad (m : list Z) : list Z :=
  let n := length m in
  let zeros := Z.to_nat ((55 - Z.of_nat n) mod 64) in
  m ++ [128] ++ repeat 0 zeros ++ be_bytes 8 (8 * Z.of_nat n).

Fixpoint blocks (n : nat) (l : list Z) (s : state) : state :=
  match n with O => s | S n => blocks n (drop 64 l) (compress s (take 64 l)) end.

Definition Sum256 (m : list Z) : list Z :=
  let p := pad m in
  let s := blocks (Nat.div (length p) 64) p init in
  concat (map (be_bytes 4) [a s; b s; c s; d s; e s; f s; g s; h s]).

Lemma Sum256_length m : length (Sum256 m) = 32%nat.
Proof. reflexivity. Qed.

Lemma Sum256_range m : Forall is_byte (Sum256 m).
Proof.
  unfold Sum256. cbv zeta. apply Forall_concat, Forall_fmap, Forall_forall.
  intros x _. apply be_bytes_range.
Qed.

(** No proof below unfolds the digest; [vm_compute] still evaluates it. *)
#[global] Opaque Sum256.

End Sha256.

(** ** Hexadecimal *)

Definition hex_digit (v : Z) : ascii :=
  if v <? 10 then byte_chr (48 + v) else byte_chr (87 + v).

Fixpoint hex_encode (l : list Z) : string :=
  match l with
  | [] => EmptyString
  | b :: l => String (hex_digit (b / 16)) (String (hex_digit (b mod 16)) (hex_encode l))
  end.

Definition is_lower_hex (c : ascii) : bool :=
  is_digit c || ((97 <=? byte_val c) && (byte_val c <=? 102)).

Example sha256_empty :
  hex_encode (Sha256.Sum256 []) = "e3b0c44298fc1c149afbf4c8996fb92427ae41e4649b934ca495991b7852b855".
Proof. vm_compute. reflexivity. Qed.

Example sha256_abc :
  hex_encode (Sha256.Sum256 (bytes_of "abc"))
  = "ba7816bf8f01cfea414140de5dae2223b00361a396177a9cb410ff61f20015ad".
Proof. vm_compute. reflexivity. Qed.

Example sha256_two_blocks :
  hex_encode (Sha256.Sum256 (bytes_of "abcdbcdecdefdefgefghfghighijhijkijkljklmklmnlmnomnopnopq"))
  = "248d6a61d20638b8e5c026930c3e6039a33ce45964ff2167f6ecedd419db06c1".
Proof. vm_compute. reflexivity. Qed.

Lemma hex_digit_val v : 0 ≤ v < 16 →
  byte_val (hex_digit v) = (if v <? 10 then 48 + v else 87 + v).
Proof. intros H. unfold hex_digit. destruct (Z.ltb_spec v 10); apply byte_val_chr; lia. Qed.

Lemma hex_digit_inj x y : 0 ≤ x < 16 → 0 ≤ y < 16 → hex_digit x = hex_digit y → x = y.
Proof.
  intros Hx Hy H. apply (f_equal byte_val) in H. rewrite !hex_digit_val in H by lia.
  destruct (Z.ltb_spec x 10), (Z.ltb_spec y 10); lia.
Qed.

Lemma hex_digit_lower v : 0 ≤ v < 16 → is_lower_hex (hex_digit v) = true.
Proof.
  intros H. unfold is_lower_hex, is_digit. rewrite hex_digit_val by done.
  destruct (Z.ltb_spec v 10); lia.
Qed.

Lemma nibbles b : is_byte b → 0 ≤ b / 16 < 16 ∧ 0 ≤ b mod 16 < 16.
Proof.
  unfold is_byte. intros H. split; [split; [apply Z.div_pos; lia|apply Z.div_lt_upper_bound; lia]|].
  apply Z.mod_pos_bound. lia.
Qed.

Lemma hex_encode_inj l l' : Forall is_byte l → Forall is_byte l' →
  hex_encode l = hex_encode l' → l = l'.
Proof.
  intros H. revert l'. induction H as [|b l Hb Hl IH]; intros l' H' E; inversion H'; subst; try done.
  simpl in E. injection E as E1 E2 E3.
  match goal with Hx : is_byte ?x |- _ =>
    pose proof (nibbles b Hb); pose proof (nibbles x Hx); pose proof (Z.div_mod b 16); pose proof (Z.div_mod x 16) end.
  apply hex_digit_inj in E1; [|lia..]. apply hex_digit_inj in E2; [|lia..].
  f_equal; [lia|by apply IH].
Qed.

Lemma hex_encode_lower l : Forall is_byte l → str_all is_lower_hex (hex_encode l) = true.
Proof.
  unfold str_all. induction 1 as [|b l Hb _ IH]; simpl; [done|].
  destruct (nibbles b Hb). rewrite !hex_digit_lower by done. done.
Qed.

Lemma hex_encode_length l : str_len (hex_encode l) = 2 * Z.of_nat (length l).
Proof. unfold str_len. induction l; simpl in *; lia. Qed.

(** ** base64.RawURLEncoding *)

Module Base64.

Definition encode_char (v : Z) : ascii :=
  if v <? 26 then byte_chr (65 + v)
  else if v <? 52 then byte_chr (71 + v)
  else if v <? 62 then byte_chr (v - 4)
  else if v =? 62 then "-"%char
  else "_"%char.

Definition decode_char (c : ascii) : option Z :=
  let b := byte_val c in
  if (65 <=? b) && (b <=? 90) then Some (b - 65)
  else if (97 <=? b) && (b <=? 122) then Some (b - 71)
  else if (48 <=? b) && (b <=? 57) then Some (b + 4)
  else if b =? 45 then Some 62
  else if b =? 95 then Some 63
  else None.

Fixpoint sextets (l : list Z) : list Z :=
  match l with
  | x :: y :: z :: l =>
    let v := x * 65536 + y * 256 + z in
    v / 262144 :: v / 4096 mod 64 :: v / 64 mod 64 :: v mod 64 :: sextets l
  | [x; y] =>
    let v := x * 65536 + y * 256 in [v / 262144; v / 4096 mod 64; v / 64 mod 64]
  | [x] => let v := x * 65536 in [v / 262144; v / 4096 mod 64]
  | [] => []
  end.

(** Quanta of four sextets; a trailing quantum of two or three keeps its high
    bits (Go's non-strict mode), one of a single sextet is an error. *)
Fixpoint unsextets (l : list Z) : option (list Z) :=
  match l with
  | x :: y :: z :: w :: l =>
    let v := x * 262144 + y * 4096 + z * 64 + w in
    r ← unsextets l; Some (v / 65536 :: v / 256 mod 256 :: v mod 256 :: r)
  | [x; y; z] =>
    let v := x * 262144 + y * 4096 + z * 64 in Some [v / 65536; v / 256 mod 256]
  | [x; y] => let v := x * 262144 + y * 4096 in Some [v / 65536]
  | [x] => None
  | [] => Some []
  end.

Definition EncodeToString (l : list Z) : string := list_str (map encode_char (sextets l)).

(** DecodeString skips carriage returns and line feeds. *)
Definition is_newline (c : ascii) : bool := (byte_val c =? 10) || (byte_val c =? 13).

Definition DecodeString (s : string) : option (list Z) :=
  ds ← mapM decode_char (List.filter (fun c => negb (is_newline c)) (str_list s));
  unsextets ds.

Definition is_sextet (v : Z) : Prop := 0 ≤ v < 64.

Lemma encode_char_val v : is_sextet v →
  byte_val (encode_char v) =
    if v <? 26 then 65 + v else if v <? 52 then 71 + v else if v <? 62 then v - 4
    else if v =? 62 then 45 else 95.
Proof.
  unfold is_sextet, encode_char. intros H.
  destruct (Z.ltb_spec v 26); [apply byte_val_chr; lia|].
  destruct (Z.ltb_spec v 52); [apply byte_val_chr; lia|].
  destruct (Z.ltb_spec v 62); [apply byte_val_chr; lia|].
  destruct (Z.eqb_spec v 62); reflexivity.
Qed.

Lemma decode_encode_char v : is_sextet v → decode_char (encode_char v) = Some v.
Proof.
  intros H. unfold decode_char. cbv zeta. rewrite encode_char_val by done. unfold is_sextet in H.
  destruct (Z.ltb_spec v 26), (Z.ltb_spec v 52), (Z.ltb_spec v 62), (Z.eqb_spec v 62);
  repeat match goal with
  | |- context [Z.leb ?x ?y] => destruct (Z.leb_spec x y); simpl
  | |- context [Z.eqb ?x ?y] => destruct (Z.eqb_spec x y); simpl
  end; try lia; f_equal; lia.
Qed.

Lemma encode_char_plain v : is_sextet v →
  is_newline (encode_char v) = false ∧ encode_char v ≠ "."%char.
Proof.
  intros H. pose proof (encode_char_val v H) as E. unfold is_sextet in H. split.
  - unfold is_newline. rewrite E. repeat case_match; bool_to_prop; lia.
  - intros Hd. rewrite Hd in E. change (byte_val ".") with 46 in E.
    repeat case_match; bool_to_prop; lia.
Qed.

(** Induction three bytes at a time. *)
Lemma list3_ind (P : list Z → Prop) :
  P [] → (∀ x, P [x]) → (∀ x y, P [x; y]) → (∀ x y z l, P l → P (x :: y :: z :: l)) → ∀ l, P l.
Proof.
  intros H0 H1 H2 H3 l. assert (H : P l ∧ (∀ x, P (x :: l)) ∧ (∀ x y, P (x :: y :: l))).
  { induction l as [|z l (IH0 & IH1 & IH2)]; [auto|]. auto. }
  apply H.
Qed.

Ltac sextet_bounds :=
  unfold is_byte, is_sextet in *;
  repeat match goal with
  | |- Forall _ _ => constructor
  | |- _ ∧ _ => split
  end;
  try (apply Z.div_pos; lia); try (apply Z.div_lt_upper_bound; lia);
  try (apply Z.mod_pos_bound; lia).

Lemma sextets_range l : Forall is_byte l → Forall is_sextet (sextets l).
Proof.
  induction l as [|x|x y|x y z l IH] using list3_ind; intros H; simpl;
    decompose_Forall_hyps; repeat (apply Forall_cons; split); auto; sextet_bounds.
Qed.

Lemma unsextets_sextets l : Forall is_byte l → unsextets (sextets l) = Some l.
Proof.
  induction l as [|x|x y|x y z l IH] using list3_ind; intros H; simpl;
    decompose_Forall_hyps; unfold is_byte in *; [done|..].
  - f_equal. f_equal. euclid.
  - f_equal. f_equal; [euclid|]. f_equal; euclid.
  - rewrite IH by done. simpl. f_equal. f_equal; [euclid|]. f_equal; [euclid|]. f_equal; euclid.
Qed.

Lemma Decode_Encode l : Forall is_byte l → DecodeString (EncodeToString l) = Some l.
Proof.
  intros H. unfold DecodeString, EncodeToString. rewrite str_list_str.
  rewrite <- (unsextets_sextets l H). pose proof (sextets_range l H) as Hs.
  generalize dependent (sextets l). intros ss Hs.
  assert (mapM decode_char (List.filter (fun c => negb (is_newline c)) (map encode_char ss)) = Some ss) as ->;
    [|done].
  induction Hs as [|v ss Hv _ IH]; simpl; [done|].
  destruct (encode_char_plain v Hv) as [-> _]. simpl.
  rewrite decode_encode_char by done. simpl. by rewrite IH.
Qed.

Lemma Encode_no_dot l : Forall is_byte l → no_byte "." (EncodeToString l) = true.
Proof.
  intros H. unfold no_byte, str_all, EncodeToString. rewrite str_list_str.
  pose proof (sextets_range l H) as Hs. induction Hs as [|v ss Hv _ IH]; simpl; [done|].
  rewrite IH, bool_decide_false by (by apply encode_char_plain). done.
Qed.

End Base64.
