(* ===== verification/Capacity.v ===== *)
(** * Capacity arithmetic

    Models src/internal/capacity/capacity.go, the CSI capacity range of
    src/internal/csi/controller_server.go, the checked capacity arithmetic of
    src/internal/agent/nvme_discovery.go and of
    src/internal/agent/plugins/vol_spdk_lvol.go.  All values are [int64] (or
    [uint64] where the source says so) with Go's wrap-around. *)

From S2P Require Import Prelude.

(** ** internal/capacity *)

Definition AllocationUnitBytes : Z := 4 * 1024 * 1024.

Definition MaxAllocatableBytes : Z := MaxInt64 / AllocationUnitBytes * AllocationUnitBytes.

Definition RoundUp (bytes : Z) : result Z :=
  if bytes <=? 0 then Err (Errorf "capacity must be positive")
  else if MaxAllocatableBytes <? bytes then Err (Errorf "capacity exceeds maximum allocatable size")
  else Ok (mul64 (div64 (sub64 (add64 bytes AllocationUnitBytes) 1) AllocationUnitBytes)
                 AllocationUnitBytes).

(** The reference meaning of an allocation: the least whole number of
    allocation units that holds [bytes]. *)
Definition is_allocation (bytes r : Z) : Prop :=
  bytes ≤ r ∧ (AllocationUnitBytes | r) ∧ ∀ m, (AllocationUnitBytes | m) → bytes ≤ m → r ≤ m.

(** ** CSI capacity ranges (controller_server.go) *)

(** The fields of csi.CapacityRange; a missing range is [None]. *)
Record CapacityRange := { RequiredBytes : Z; LimitBytes : Z }.

Definition defaultVolumeCapacityBytes : Z := 1024 * 1024 * 1024.

Definition normalizeCapacityRange (capacityRange : option CapacityRange) : result (Z * Z) :=
  match capacityRange with
  | None => Ok (defaultVolumeCapacityBytes, defaultVolumeCapacityBytes)
  | Some cr =>
    let requiredBytes := RequiredBytes cr in
    let limitBytes := LimitBytes cr in
    if requiredBytes <? 0 then Err (Errorf "required_bytes cannot be negative")
    else if limitBytes <? 0 then Err (Errorf "limit_bytes cannot be negative")
    else if (requiredBytes =? 0) && (limitBytes =? 0)
    then Err (Errorf "at least one of required_bytes or limit_bytes must be positive")
    else
      let? requiredBytes :=
        if requiredBytes =? 0 then
          if limitBytes <? defaultVolumeCapacityBytes then
            let requiredBytes :=
              mul64 (div64 limitBytes AllocationUnitBytes) AllocationUnitBytes in
            if requiredBytes =? 0
            then Err (Errorf "limit_bytes is smaller than the minimum allocation unit")
            else Ok requiredBytes
          else Ok defaultVolumeCapacityBytes
        else Ok requiredBytes in
      if (0 <? limitBytes) && (limitBytes <? requiredBytes)
      then Err (Errorf "required_bytes exceeds limit_bytes")
      else
        let? allocatedBytes := RoundUp requiredBytes in
        if (0 <? limitBytes) && (limitBytes <? allocatedBytes)
        then Err (Errorf "required capacity rounds up to bytes exceeding limit_bytes")
        else Ok (requiredBytes, allocatedBytes)
  end.

(** ** Capacity of a discovered namespace (nvme_discovery.go) *)

Definition managedCapacityPercent : Z := 99.

Definition checkedCapacityBytes (numBlocks blockSize : Z) : result Z :=
  if (numBlocks <=? 0) || (blockSize <=? 0)
  then Err (Errorf "has invalid capacity metadata")
  else if div64 MaxInt64 blockSize <? numBlocks then Err (Errorf "capacity overflows int64")
  else Ok (mul64 numBlocks blockSize).

Definition allocatableNamespaceBytes (rawBytes : Z) : result Z :=
  if rawBytes <=? 0 then Err (Errorf "has invalid raw capacity")
  else
    let usableBytes :=
      add64 (mul64 (div64 rawBytes 100) managedCapacityPercent)
            (div64 (mul64 (rem64 rawBytes 100) managedCapacityPercent) 100) in
    let usableBytes := mul64 (div64 usableBytes AllocationUnitBytes) AllocationUnitBytes in
    if usableBytes <=? 0
    then Err (Errorf "has no allocatable capacity after metadata reservation")
    else Ok usableBytes.

(** ** Lemmas *)

Ltac unfold_cap :=
  unfold AllocationUnitBytes, defaultVolumeCapacityBytes, MaxInt64, MinInt64 in *.

Lemma MaxAllocatableBytes_val : MaxAllocatableBytes = 9223372036850581504.
Proof. reflexivity. Qed.

Lemma RoundUp_ok b r : RoundUp b = inl r →
  0 < b ≤ MaxAllocatableBytes ∧ r = (b + AllocationUnitBytes - 1) / AllocationUnitBytes * AllocationUnitBytes
  ∧ is_allocation b r ∧ r ≤ MaxAllocatableBytes.
Proof.
  unfold RoundUp. intros H. guards.
  pose proof (round_up_spec b AllocationUnitBytes ltac:(unfold_cap; lia)) as [Hr Hd].
  assert (Hle : (b + AllocationUnitBytes - 1) / AllocationUnitBytes * AllocationUnitBytes
                ≤ MaxAllocatableBytes).
  { eapply (multiple_least AllocationUnitBytes _ _ b); [unfold_cap; lia|done|lia|..|done].
    apply Z.divide_factor_r. }
  assert (Heq : mul64 (div64 (sub64 (add64 b AllocationUnitBytes) 1) AllocationUnitBytes)
      AllocationUnitBytes = (b + AllocationUnitBytes - 1) / AllocationUnitBytes * AllocationUnitBytes).
  { rewrite MaxAllocatableBytes_val in *.
    unfold add64, sub64, mul64. rewrite <- Z.add_opp_r, wrap64_add_l, Z.add_opp_r.
    rewrite (wrap64_id (b + _ - 1)) by (unfold int64; unfold_cap; lia).
    rewrite div64_pos by (unfold_cap; lia). apply wrap64_id. unfold int64. unfold_cap. lia. }
  rewrite Heq. split; [lia|]. split; [done|]. split; [|done].
  split; [lia|]. split; [done|]. intros m Hm Hbm.
  eapply multiple_least; [|done|apply Hr|done|done]. unfold_cap; lia.
Qed.

Lemma RoundUp_err b e : RoundUp b = inr e →
  b ≤ 0 ∨ ∀ r, is_allocation b r → MaxInt64 < r.
Proof.
  unfold RoundUp. intros H. guards; [by left|right].
  intros r (Hle & Hd & _).
  destruct (decide (r ≤ MaxInt64)) as [Hr|]; [|lia].
  pose proof (round_down_spec MaxInt64 AllocationUnitBytes ltac:(unfold_cap; lia)) as [Hm Hmd].
  assert (r ≤ MaxAllocatableBytes); [|lia].
  eapply (multiple_greatest AllocationUnitBytes); [unfold_cap; lia|done|apply Hm|done|done].
Qed.

Lemma is_allocation_unique b r r' : is_allocation b r → is_allocation b r' → r = r'.
Proof. intros (? & ? & H) (? & ? & H'). apply Z.le_antisymm; auto. Qed.

Lemma RoundUp_total b : 0 < b ≤ MaxAllocatableBytes → ∃ r, RoundUp b = inl r.
Proof.
  intros H. destruct (RoundUp b) eqn:E; [by eauto|].
  unfold RoundUp in E. guards; lia.
Qed.

Lemma RoundUp_multiple b : 0 < b ≤ MaxAllocatableBytes → (AllocationUnitBytes | b) → RoundUp b = inl b.
Proof.
  intros Hb Hd. destruct (RoundUp_total b Hb) as [r Hr]. rewrite Hr. f_equal.
  apply RoundUp_ok in Hr as (_ & _ & Hal & _). eapply is_allocation_unique; [done|].
  split_and!; [done|done|auto].
Qed.

#[export] Hint Resolve RoundUp_ok RoundUp_err : distort.

(** ** Theorems *)

(** C40: [RoundUp], evaluated with wrap-around [int64] operators, computes the
    least multiple of the 4 MiB allocation unit that holds the request; it
    fails exactly when the request is not positive or when that multiple does
    not fit an [int64].  (The sum inside does wrap for requests above
    [MaxInt64 - AllocationUnitBytes], and the following subtraction undoes it.) *)
Theorem RoundUp_correct (b : Z) :
  match RoundUp b with
  | inl r => 0 < b ∧ is_allocation b r ∧ r ≤ MaxInt64
  | inr _ => b ≤ 0 ∨ ∀ r, is_allocation b r → MaxInt64 < r
  end.
Proof.
  destruct (RoundUp b) eqn:E; [|by eauto with distort].
  apply RoundUp_ok in E as (? & _ & ? & ?).
  rewrite MaxAllocatableBytes_val in *. split_and!; [lia|done|unfold_cap; lia].
Qed.

(** An allocation that satisfies a CSI capacity range. *)
Definition satisfies_range (cr : CapacityRange) (a : Z) : Prop :=
  0 < a ≤ MaxInt64 ∧ (AllocationUnitBytes | a) ∧ RequiredBytes cr ≤ a
  ∧ (LimitBytes cr = 0 ∨ a ≤ LimitBytes cr).

Lemma floor_units l : 0 ≤ l ≤ MaxInt64 →
  mul64 (div64 l AllocationUnitBytes) AllocationUnitBytes
  = l / AllocationUnitBytes * AllocationUnitBytes.
Proof.
  intros H. rewrite div64_pos by (unfold_cap; lia). apply wrap64_id.
  pose proof (round_down_spec l AllocationUnitBytes ltac:(unfold_cap; lia)) as [??].
  pose proof (Z.div_pos l AllocationUnitBytes ltac:(lia) ltac:(unfold_cap; lia)).
  unfold int64. unfold_cap. lia.
Qed.

Lemma satisfies_range_least cr a b : satisfies_range cr a → b ≤ a → 0 < b →
  ∃ r, RoundUp b = inl r ∧ r ≤ a.
Proof.
  intros (Ha & Hd & _) Hb H0.
  destruct (RoundUp b) as [r|e] eqn:E.
  - exists r. split; [done|]. apply RoundUp_ok in E as (_ & _ & (_ & _ & Hl) & _). auto.
  - apply RoundUp_err in E as [|E]; [lia|]. exfalso.
    pose proof (round_up_spec b AllocationUnitBytes ltac:(unfold_cap; lia)) as [Hr Hdr].
    set (r := (b + AllocationUnitBytes - 1) / AllocationUnitBytes * AllocationUnitBytes) in *.
    assert (r ≤ a) by (eapply multiple_least; [|done|apply Hr|done|done]; unfold_cap; lia).
    assert (MaxInt64 < r); [|lia]. apply E. split; [lia|]. split; [done|]. intros m ??.
    eapply multiple_least; [|done|apply Hr|done|done]; unfold_cap; lia.
Qed.

(** The defaulting step of [normalizeCapacityRange] as a function of its own. *)
Lemma default_required cr :
  0 ≤ RequiredBytes cr → 0 ≤ LimitBytes cr ≤ MaxInt64 → RequiredBytes cr ≤ MaxInt64 →
  ¬ (RequiredBytes cr = 0 ∧ LimitBytes cr = 0) →
  match (if RequiredBytes cr =? 0 then
          if LimitBytes cr <? defaultVolumeCapacityBytes then
            let requiredBytes :=
              mul64 (div64 (LimitBytes cr) AllocationUnitBytes) AllocationUnitBytes in
            if requiredBytes =? 0
            then Err (Errorf "limit_bytes is smaller than the minimum allocation unit")
            else Ok requiredBytes
          else Ok defaultVolumeCapacityBytes
        else Ok (RequiredBytes cr) : result Z) with
  | inl r => 0 < r ≤ MaxInt64 ∧ RequiredBytes cr ≤ r ∧ (RequiredBytes cr ≠ 0 → r = RequiredBytes cr)
             ∧ (RequiredBytes cr = 0 → (AllocationUnitBytes | r) ∧ (LimitBytes cr ≠ 0 → r ≤ LimitBytes cr))
  | inr _ => ∀ a, ¬ satisfies_range cr a
  end.
Proof.
  intros H0 Hl Hr Hnz.
  destruct (Z.eqb_spec (RequiredBytes cr) 0) as [Hz|Hz].
  2: { split_and!; lia || done. }
  destruct (Z.ltb_spec (LimitBytes cr) defaultVolumeCapacityBytes) as [Hlt|Hge].
  2: { split_and!; try (unfold_cap; lia); intros _. split; [|lia]. by exists 256. }
  cbv zeta. rewrite floor_units by lia.
  pose proof (round_down_spec (LimitBytes cr) AllocationUnitBytes ltac:(unfold_cap; lia)) as [Hd Hdd].
  pose proof (Z.div_pos (LimitBytes cr) AllocationUnitBytes ltac:(lia) ltac:(unfold_cap; lia)).
  destruct (Z.eqb_spec (LimitBytes cr / AllocationUnitBytes * AllocationUnitBytes) 0) as [He|He].
  - intros a ((Ha & _) & [q ->] & _ & [?|Hal]); [lia|].
    rewrite He in Hd. assert (0 < q) by (unfold_cap; nia). unfold_cap; nia.
  - split_and!; try (unfold_cap; lia). intros _. split; [done|]. lia.
Qed.

(** [normalizeCapacityRange] is sound and complete for the CSI range
    contract.  On success the second component is the whole-unit allocation of
    the first, lies between [required_bytes] and a positive [limit_bytes], and
    a positive [required_bytes] is returned unchanged; on failure the range is
    malformed or no whole-unit allocation satisfies it at all. *)
Theorem normalizeCapacityRange_correct (cr : CapacityRange)
    (Hreq : int64 (RequiredBytes cr)) (Hlim : int64 (LimitBytes cr)) :
  match normalizeCapacityRange (Some cr) with
  | inl (r, a) => is_allocation r a ∧ satisfies_range cr a ∧ 0 < r ∧ RequiredBytes cr ≤ r
                  ∧ (RequiredBytes cr ≠ 0 → r = RequiredBytes cr)
  | inr _ => RequiredBytes cr < 0 ∨ LimitBytes cr < 0
             ∨ (RequiredBytes cr = 0 ∧ LimitBytes cr = 0) ∨ ∀ a, ¬ satisfies_range cr a
  end.
Proof.
  unfold normalizeCapacityRange. unfold int64 in Hreq, Hlim.
  destruct (Z.ltb_spec (RequiredBytes cr) 0); [by left|].
  destruct (Z.ltb_spec (LimitBytes cr) 0); [by right; left|].
  destruct (_ && _) eqn:Hz; [bool_to_prop; by right; right; left|].
  apply andb_false_iff in Hz.
  assert (Hnz : ¬ (RequiredBytes cr = 0 ∧ LimitBytes cr = 0))
    by (intros [??]; destruct Hz; bool_to_prop; done).
  pose proof (default_required cr ltac:(lia) ltac:(lia) ltac:(lia) Hnz) as Hdef.
  destruct (if RequiredBytes cr =? 0 then _ else _) as [r|e]; simpl; [|by right; right; right].
  destruct Hdef as (Hr & Hrr & Hrk & Hrd).
  destruct (_ && _) eqn:Hover; simpl.
  { bool_to_prop. right; right; right. intros a (? & ? & ? & [?|?]); [lia|].
    destruct (decide (RequiredBytes cr = 0)) as [e|n]; [specialize (Hrd e) as [? ?]; lia|].
    rewrite (Hrk n) in *. lia. }
  destruct (RoundUp r) as [a|e] eqn:Ha; simpl.
  - pose proof (RoundUp_ok _ _ Ha) as (? & _ & Hal & Hmax).
    rewrite MaxAllocatableBytes_val in Hmax.
    destruct (_ && (LimitBytes cr <? a)) eqn:Hlima; simpl.
    + bool_to_prop. right; right; right. intros m Hm.
      pose proof Hm as (Hm1 & Hm2 & Hm3 & [?|?]); [lia|].
      destruct Hal as (? & ? & Hleast).
      destruct (decide (RequiredBytes cr = 0)) as [e|n].
      * specialize (Hrd e) as [Hd Hle]. specialize (Hleast r Hd). lia.
      * rewrite (Hrk n) in *. specialize (Hleast m Hm2). lia.
    + split; [assumption|]. destruct Hal as (? & ? & Hleast).
      split; [|split_and!; [lia|lia|assumption]].
      split; [unfold_cap; lia|]. split; [assumption|]. split; [lia|].
      apply andb_false_iff in Hlima as [?|?]; bool_to_prop; [left|right]; lia.
  - right; right; right. intros m Hm.
    destruct (satisfies_range_least cr m r Hm) as (r' & Hr' & _); [|lia|congruence].
    destruct Hm as ((? & ?) & Hd & ? & Hlimit).
    destruct (decide (RequiredBytes cr = 0)) as [e'|n]; [|rewrite (Hrk n); lia].
    specialize (Hrd e') as [Hdr Hle].
    rewrite (RoundUp_multiple r) in Ha; [done| |done].
    split; [lia|]. pose proof (round_down_spec MaxInt64 AllocationUnitBytes ltac:(unfold_cap; lia)) as [Hx Hy].
    eapply (multiple_greatest AllocationUnitBytes); [unfold_cap; lia|done|apply Hx|done|lia].
Qed.

Lemma normalizeCapacityRange_correct_witness :
  int64 5000000 ∧ int64 8388608 ∧
  normalizeCapacityRange (Some {| RequiredBytes := 5000000; LimitBytes := 8388608 |})
    = inl (5000000, 8388608) ∧
  is_allocation 5000000 8388608.
Proof.
  assert (H1 : int64 5000000) by (unfold int64; unfold_cap; lia).
  assert (H2 : int64 8388608) by (unfold int64; unfold_cap; lia).
  pose proof (normalizeCapacityRange_correct
    {| RequiredBytes := 5000000; LimitBytes := 8388608 |} H1 H2) as H.
  split; [exact H1|]. split; [exact H2|]. split; [vm_compute; reflexivity|]. exact (proj1 H).
Defined.

Lemma checkedCapacityBytes_spec n b : int64 n → int64 b →
  match checkedCapacityBytes n b with
  | inl r => 0 < n ∧ 0 < b ∧ r = n * b ∧ 0 < r ≤ MaxInt64
  | inr _ => n ≤ 0 ∨ b ≤ 0 ∨ MaxInt64 < n * b
  end.
Proof.
  intros Hn Hb. unfold checkedCapacityBytes, int64 in *.
  destruct (_ || _) eqn:E; [apply orb_true_iff in E as [?|?]; bool_to_prop; lia|].
  bool_to_prop. rewrite div64_pos by (unfold_cap; lia).
  pose proof (Z.div_mod MaxInt64 b ltac:(lia)). pose proof (Z.mod_pos_bound MaxInt64 b ltac:(lia)).
  destruct (Z.ltb_spec (MaxInt64 / b) n) as [Hlt|Hge].
  - right; right. nia.
  - assert (Hp : n * b ≤ MaxInt64) by nia. unfold mul64.
    rewrite wrap64_id by (unfold int64, MinInt64; nia). nia.
Qed.

Lemma percent_floor raw : 0 ≤ raw →
  raw / 100 * 99 + raw mod 100 * 99 / 100 = raw * 99 / 100.
Proof.
  intros H. pose proof (Z.div_mod raw 100 ltac:(lia)).
  replace (raw * 99) with (raw / 100 * 99 * 100 + raw mod 100 * 99) by lia.
  rewrite Z.div_add_l by lia. lia.
Qed.

Lemma allocatableNamespaceBytes_spec raw : int64 raw →
  match allocatableNamespaceBytes raw with
  | inl u => u = raw * 99 / 100 / AllocationUnitBytes * AllocationUnitBytes ∧ 0 < u ∧ 0 < raw
  | inr _ => raw ≤ 0 ∨ raw * 99 / 100 < AllocationUnitBytes
  end.
Proof.
  intros Hraw. unfold allocatableNamespaceBytes, int64, managedCapacityPercent in *.
  destruct (Z.leb_spec raw 0); [by left|]. cbv zeta.
  pose proof (Z.mod_pos_bound raw 100 ltac:(lia)). pose proof (Z.div_mod raw 100 ltac:(lia)).
  assert (Hu : 0 ≤ raw * 99 / 100 ≤ raw).
  { split; [apply Z.div_pos; lia|apply Z.div_le_upper_bound; lia]. }
  assert (Hval : add64 (mul64 (div64 raw 100) 99) (div64 (mul64 (rem64 raw 100) 99) 100)
                 = raw * 99 / 100).
  { rewrite (div64_pos raw), (rem64_pos raw) by lia. unfold mul64, add64.
    rewrite (wrap64_id (raw / 100 * 99)) by (unfold int64; unfold_cap; lia).
    rewrite (wrap64_id (raw mod 100 * 99)), (div64_pos (raw mod 100 * 99))
      by (unfold int64; unfold_cap; lia).
    rewrite percent_floor by lia. apply wrap64_id. unfold int64; unfold_cap; lia. }
  rewrite Hval, floor_units by lia.
  pose proof (round_down_spec (raw * 99 / 100) AllocationUnitBytes ltac:(unfold_cap; lia)) as [Hd _].
  destruct (Z.leb_spec (raw * 99 / 100 / AllocationUnitBytes * AllocationUnitBytes) 0).
  - right. lia.
  - split_and!; [reflexivity|lia|lia].
Qed.

(** The capacity a storage node advertises for a namespace of [n] blocks
    of [b] bytes is at most 99 percent of the raw size, less than one
    allocation unit below that, and a whole number of units, with no [int64]
    overflow on the way; discovery refuses a namespace exactly when its
    metadata is not positive, its size overflows, or 99 percent of it holds no
    allocation unit. *)
Theorem advertised_capacity_correct (n b : Z) (Hn : int64 n) (Hb : int64 b) :
  match (let? raw := checkedCapacityBytes n b in allocatableNamespaceBytes raw) with
  | inl u => (AllocationUnitBytes | u) ∧ 0 < u ∧ u ≤ n * b * 99 / 100 < u + AllocationUnitBytes
  | inr _ => n ≤ 0 ∨ b ≤ 0 ∨ MaxInt64 < n * b ∨ n * b * 99 / 100 < AllocationUnitBytes
  end.
Proof.
  pose proof (checkedCapacityBytes_spec n b Hn Hb) as H.
  destruct (checkedCapacityBytes n b) as [raw|]; simpl; [|lia].
  destruct H as (? & ? & -> & ?).
  pose proof (allocatableNamespaceBytes_spec (n * b)
    ltac:(unfold int64, MinInt64; unfold_cap; lia)) as H'.
  destruct (allocatableNamespaceBytes (n * b)) as [u|]; [|lia].
  destruct H' as (-> & ? & ?). split; [apply Z.divide_factor_r|]. split; [done|].
  pose proof (round_down_spec (n * b * 99 / 100) AllocationUnitBytes ltac:(unfold_cap; lia)) as [Hd _].
  lia.
Qed.

Lemma advertised_capacity_witness :
  (let? raw := checkedCapacityBytes 2048000 512 in allocatableNamespaceBytes raw) = inl 1035993088
  ∧ 1035993088 ≤ 2048000 * 512 * 99 / 100.
Proof.
  assert (H1 : int64 2048000) by (unfold int64; unfold_cap; lia).
  assert (H2 : int64 512) by (unfold int64; unfold_cap; lia).
  pose proof (advertised_capacity_correct 2048000 512 H1 H2) as H.
  split; [vm_compute; reflexivity|]. exact (proj1 (proj2 (proj2 H))).
Defined.
