(* ===== verification/ApiTypes.v ===== *)
(** * The custom resources of src/api/v1alpha1

    One record per Go struct.  Every resource is a [KObject] of its spec and
    its status, as every Go type embeds ObjectMeta and has a Spec and a Status.
    A string-typed enumeration becomes an inductive type with one constructor
    per constant and one for the empty (unset) value.

    k8s.io/apimachinery is not part of the repository.  Of its data the model
    keeps the fields the sources read or write: a resource.Quantity is
    represented by the integer its [Value] method returns, a metav1.Time by the
    nanoseconds since Go's zero time, a Condition without the transition time
    that the library stamps.  The functions of apimachinery and
    controller-runtime that the sources call on these data are the operations of
    the class [ApiMachinery]; what their documentation promises is the class
    [ApiMachineryLaws], and [reference_machinery] shows that it can hold. *)

From S2P Require Import Prelude.

(** ** Third-party data *)

Record Quantity := NewQuantity { Value : Z }.

#[global] Instance Quantity_eq_dec : EqDecision Quantity.
Proof. solve_decision. Defined.

(** [Quantity.Cmp(x) != 0] *)
Definition Quantity_differs (p q : Quantity) : bool := negb (Value p =? Value q).

Abbreviation Time := Z (only parsing).
Definition zeroTime : Time := 0.
Definition Time_IsZero (t : Time) : bool := t =? zeroTime.

(** [*metav1.Time.IsZero]: nil or the zero time. *)
Definition TimePtr_IsZero (t : option Time) : bool :=
  match t with None => true | Some t => Time_IsZero t end.

Inductive ConditionStatus := ConditionTrue | ConditionFalse | ConditionUnknown.

#[global] Instance ConditionStatus_eq_dec : EqDecision ConditionStatus.
Proof. solve_decision. Defined.

Record Condition := {
  c_Type : string;
  c_Status : ConditionStatus;
  c_ObservedGeneration : Z;
  c_Reason : string;
  c_Message : string
}.

#[global] Instance Condition_eq_dec : EqDecision Condition.
Proof. solve_decision. Defined.

Record OwnerReference := {
  o_APIVersion : string;
  o_Kind : string;
  o_Name : string;
  o_UID : string;
  o_Controller : bool;
  o_BlockOwnerDeletion : bool
}.

#[global] Instance OwnerReference_eq_dec : EqDecision OwnerReference.
Proof. solve_decision. Defined.

Record ObjectMeta := {
  Name : string;
  Namespace : string;
  UID : string;
  Generation : Z;
  ResourceVersion : string;
  Finalizers : list string;
  Annotations : gmap string string;
  OwnerReferences : list OwnerReference;
  DeletionTimestamp : option Time
}.

#[global] Instance ObjectMeta_eq_dec : EqDecision ObjectMeta.
Proof. solve_decision. Defined.

Definition set_Finalizers (v : list string) (s : ObjectMeta) : ObjectMeta :=
  {|
     Name := Name s;
     Namespace := Namespace s;
     UID := UID s;
     Generation := Generation s;
     ResourceVersion := ResourceVersion s;
     Finalizers := v;
     Annotations := Annotations s;
     OwnerReferences := OwnerReferences s;
     DeletionTimestamp := DeletionTimestamp s
  |}.

Definition set_DeletionTimestamp (v : option Time) (s : ObjectMeta) : ObjectMeta :=
  {|
     Name := Name s;
     Namespace := Namespace s;
     UID := UID s;
     Generation := Generation s;
     ResourceVersion := ResourceVersion s;
     Finalizers := Finalizers s;
     Annotations := Annotations s;
     OwnerReferences := OwnerReferences s;
     DeletionTimestamp := v
  |}.

Definition set_Generation (v : Z) (s : ObjectMeta) : ObjectMeta :=
  {|
     Name := Name s;
     Namespace := Namespace s;
     UID := UID s;
     Generation := v;
     ResourceVersion := ResourceVersion s;
     Finalizers := Finalizers s;
     Annotations := Annotations s;
     OwnerReferences := OwnerReferences s;
     DeletionTimestamp := DeletionTimestamp s
  |}.

(** client.ObjectKey / types.NamespacedName *)
Record ObjectKey := { key_Namespace : string; key_Name : string }.

#[global] Instance ObjectKey_eq_dec : EqDecision ObjectKey.
Proof. solve_decision. Defined.

#[global] Instance ObjectKey_countable : Countable ObjectKey.
Proof.
  apply (inj_countable' (λ k, (key_Namespace k, key_Name k))
           (λ p, {| key_Namespace := p.1; key_Name := p.2 |})).
  by intros [].
Defined.

(** The String method of types.NamespacedName. *)
Definition key_String (k : ObjectKey) : string := key_Namespace k +:+ "/" +:+ key_Name k.

Record KObject (Sp St : Type) := mkObject { Meta : ObjectMeta; Spec : Sp; Status : St }.
Arguments mkObject {Sp St}.
Arguments Meta {Sp St}.
Arguments Spec {Sp St}.
Arguments Status {Sp St}.

#[global] Instance KObject_eq_dec {Sp St} `{EqDecision Sp, EqDecision St} : EqDecision (KObject Sp St).
Proof. solve_decision. Defined.

Definition with_Meta {Sp St} (m : ObjectMeta) (o : KObject Sp St) : KObject Sp St :=
  mkObject m (Spec o) (Status o).
Definition with_Spec {Sp St} (s : Sp) (o : KObject Sp St) : KObject Sp St :=
  mkObject (Meta o) s (Status o).
Definition with_Status {Sp St} (s : St) (o : KObject Sp St) : KObject Sp St :=
  mkObject (Meta o) (Spec o) s.

Definition ObjectKeyFromObject {Sp St} (o : KObject Sp St) : ObjectKey :=
  {| key_Namespace := Namespace (Meta o); key_Name := Name (Meta o) |}.

Definition deleting {Sp St} (o : KObject Sp St) : bool :=
  negb (TimePtr_IsZero (DeletionTimestamp (Meta o))).

(** ** nvmedeviceclaim_types.go *)

Record NVMeDeviceClaimReference := {
  ref_Namespace : string;
  ref_Name : string;
  ref_UID : string
}.

#[global] Instance NVMeDeviceClaimReference_eq_dec : EqDecision NVMeDeviceClaimReference.
Proof. solve_decision. Defined.

Record NVMeDeviceClaimSpec := {
  cs_SerialNumber : string
}.

#[global] Instance NVMeDeviceClaimSpec_eq_dec : EqDecision NVMeDeviceClaimSpec.
Proof. solve_decision. Defined.

Record NVMeDeviceClaimStatus := {
  ct_Active : bool;
  ct_MatchedDevice : string;
  ct_NodeName : string;
  ct_Conditions : list Condition
}.

#[global] Instance NVMeDeviceClaimStatus_eq_dec : EqDecision NVMeDeviceClaimStatus.
Proof. solve_decision. Defined.

Definition NVMeDeviceClaim : Type := KObject NVMeDeviceClaimSpec NVMeDeviceClaimStatus.

(** ** nvmedevice_types.go *)

Inductive NVMeDeviceState :=
  | NVMeDeviceStateAvailable
  | NVMeDeviceStateClaimed
  | NVMeDeviceStateUnavailable
  | NVMeDeviceStateUnset.

#[global] Instance NVMeDeviceState_eq_dec : EqDecision NVMeDeviceState.
Proof. solve_decision. Defined.

Record NVMeDeviceSpec := {
  ds_NodeName : string;
  ds_PCIAddress : string;
  ds_SerialNumber : string;
  ds_Model : string;
  ds_TotalCapacity : Quantity;
  ds_NUMANode : Z
}.

#[global] Instance NVMeDeviceSpec_eq_dec : EqDecision NVMeDeviceSpec.
Proof. solve_decision. Defined.

Record NVMeDeviceStatus := {
  dt_State : NVMeDeviceState;
  dt_ClaimRef : option NVMeDeviceClaimReference;
  dt_FreeCapacity : Quantity;
  dt_ActiveBackend : string;
  dt_Conditions : list Condition
}.

#[global] Instance NVMeDeviceStatus_eq_dec : EqDecision NVMeDeviceStatus.
Proof. solve_decision. Defined.

Definition NVMeDevice : Type := KObject NVMeDeviceSpec NVMeDeviceStatus.

Definition set_dt_State (v : NVMeDeviceState) (s : NVMeDeviceStatus) : NVMeDeviceStatus :=
  {|
     dt_State := v;
     dt_ClaimRef := dt_ClaimRef s;
     dt_FreeCapacity := dt_FreeCapacity s;
     dt_ActiveBackend := dt_ActiveBackend s;
     dt_Conditions := dt_Conditions s
  |}.

Definition set_dt_ClaimRef (v : option NVMeDeviceClaimReference) (s : NVMeDeviceStatus) : NVMeDeviceStatus :=
  {|
     dt_State := dt_State s;
     dt_ClaimRef := v;
     dt_FreeCapacity := dt_FreeCapacity s;
     dt_ActiveBackend := dt_ActiveBackend s;
     dt_Conditions := dt_Conditions s
  |}.

Definition set_dt_FreeCapacity (v : Quantity) (s : NVMeDeviceStatus) : NVMeDeviceStatus :=
  {|
     dt_State := dt_State s;
     dt_ClaimRef := dt_ClaimRef s;
     dt_FreeCapacity := v;
     dt_ActiveBackend := dt_ActiveBackend s;
     dt_Conditions := dt_Conditions s
  |}.

Definition set_dt_ActiveBackend (v : string) (s : NVMeDeviceStatus) : NVMeDeviceStatus :=
  {|
     dt_State := dt_State s;
     dt_ClaimRef := dt_ClaimRef s;
     dt_FreeCapacity := dt_FreeCapacity s;
     dt_ActiveBackend := v;
     dt_Conditions := dt_Conditions s
  |}.

Definition set_dt_Conditions (v : list Condition) (s : NVMeDeviceStatus) : NVMeDeviceStatus :=
  {|
     dt_State := dt_State s;
     dt_ClaimRef := dt_ClaimRef s;
     dt_FreeCapacity := dt_FreeCapacity s;
     dt_ActiveBackend := dt_ActiveBackend s;
     dt_Conditions := v
  |}.

(** ** nvmepartition_types.go *)

Inductive NVMePartitionState :=
  | NVMePartitionStatePending
  | NVMePartitionStateCreating
  | NVMePartitionStateExported
  | NVMePartitionStateFailed
  | NVMePartitionStateUnset.

#[global] Instance NVMePartitionState_eq_dec : EqDecision NVMePartitionState.
Proof. solve_decision. Defined.

Record NVMePartitionSpec := {
  ps_Size : Quantity;
  ps_NodeName : string;
  ps_ParentDeviceSerialNumber : string;
  ps_ClaimRef : option NVMeDeviceClaimReference;
  ps_AccessMode : string;
  ps_Filesystem : string;
  ps_RequestFingerprint : string;
  ps_TargetBackend : string;
  ps_VolumeManager : string;
  ps_TargetOptions : gmap string string
}.

#[global] Instance NVMePartitionSpec_eq_dec : EqDecision NVMePartitionSpec.
Proof. solve_decision. Defined.

Record NVMePartitionStatus := {
  pt_PlacementFingerprint : string;
  pt_State : NVMePartitionState;
  pt_ExternalID : string;
  pt_VolumeID : string;
  pt_BackendVolumeID : string;
  pt_AllocatedCapacity : Quantity;
  pt_SPDKBaseBdev : string;
  pt_SPDKLvstoreName : string;
  pt_SPDKLvstoreUUID : string;
  pt_SPDKLvolName : string;
  pt_SPDKLvolUUID : string;
  pt_NQN : string;
  pt_PortalIP : string;
  pt_PortalPort : Z;
  pt_Conditions : list Condition
}.

#[global] Instance NVMePartitionStatus_eq_dec : EqDecision NVMePartitionStatus.
Proof. solve_decision. Defined.

Definition NVMePartition : Type := KObject NVMePartitionSpec NVMePartitionStatus.

Definition set_ps_NodeName (v : string) (s : NVMePartitionSpec) : NVMePartitionSpec :=
  {|
     ps_Size := ps_Size s;
     ps_NodeName := v;
     ps_ParentDeviceSerialNumber := ps_ParentDeviceSerialNumber s;
     ps_ClaimRef := ps_ClaimRef s;
     ps_AccessMode := ps_AccessMode s;
     ps_Filesystem := ps_Filesystem s;
     ps_RequestFingerprint := ps_RequestFingerprint s;
     ps_TargetBackend := ps_TargetBackend s;
     ps_VolumeManager := ps_VolumeManager s;
     ps_TargetOptions := ps_TargetOptions s
  |}.

Definition set_ps_ParentDeviceSerialNumber (v : string) (s : NVMePartitionSpec) : NVMePartitionSpec :=
  {|
     ps_Size := ps_Size s;
     ps_NodeName := ps_NodeName s;
     ps_ParentDeviceSerialNumber := v;
     ps_ClaimRef := ps_ClaimRef s;
     ps_AccessMode := ps_AccessMode s;
     ps_Filesystem := ps_Filesystem s;
     ps_RequestFingerprint := ps_RequestFingerprint s;
     ps_TargetBackend := ps_TargetBackend s;
     ps_VolumeManager := ps_VolumeManager s;
     ps_TargetOptions := ps_TargetOptions s
  |}.

Definition set_ps_ClaimRef (v : option NVMeDeviceClaimReference) (s : NVMePartitionSpec) : NVMePartitionSpec :=
  {|
     ps_Size := ps_Size s;
     ps_NodeName := ps_NodeName s;
     ps_ParentDeviceSerialNumber := ps_ParentDeviceSerialNumber s;
     ps_ClaimRef := v;
     ps_AccessMode := ps_AccessMode s;
     ps_Filesystem := ps_Filesystem s;
     ps_RequestFingerprint := ps_RequestFingerprint s;
     ps_TargetBackend := ps_TargetBackend s;
     ps_VolumeManager := ps_VolumeManager s;
     ps_TargetOptions := ps_TargetOptions s
  |}.

Definition set_pt_PlacementFingerprint (v : string) (s : NVMePartitionStatus) : NVMePartitionStatus :=
  {|
     pt_PlacementFingerprint := v;
     pt_State := pt_State s;
     pt_ExternalID := pt_ExternalID s;
     pt_VolumeID := pt_VolumeID s;
     pt_BackendVolumeID := pt_BackendVolumeID s;
     pt_AllocatedCapacity := pt_AllocatedCapacity s;
     pt_SPDKBaseBdev := pt_SPDKBaseBdev s;
     pt_SPDKLvstoreName := pt_SPDKLvstoreName s;
     pt_SPDKLvstoreUUID := pt_SPDKLvstoreUUID s;
     pt_SPDKLvolName := pt_SPDKLvolName s;
     pt_SPDKLvolUUID := pt_SPDKLvolUUID s;
     pt_NQN := pt_NQN s;
     pt_PortalIP := pt_PortalIP s;
     pt_PortalPort := pt_PortalPort s;
     pt_Conditions := pt_Conditions s
  |}.

Definition set_pt_State (v : NVMePartitionState) (s : NVMePartitionStatus) : NVMePartitionStatus :=
  {|
     pt_PlacementFingerprint := pt_PlacementFingerprint s;
     pt_State := v;
     pt_ExternalID := pt_ExternalID s;
     pt_VolumeID := pt_VolumeID s;
     pt_BackendVolumeID := pt_BackendVolumeID s;
     pt_AllocatedCapacity := pt_AllocatedCapacity s;
     pt_SPDKBaseBdev := pt_SPDKBaseBdev s;
     pt_SPDKLvstoreName := pt_SPDKLvstoreName s;
     pt_SPDKLvstoreUUID := pt_SPDKLvstoreUUID s;
     pt_SPDKLvolName := pt_SPDKLvolName s;
     pt_SPDKLvolUUID := pt_SPDKLvolUUID s;
     pt_NQN := pt_NQN s;
     pt_PortalIP := pt_PortalIP s;
     pt_PortalPort := pt_PortalPort s;
     pt_Conditions := pt_Conditions s
  |}.

Definition set_pt_ExternalID (v : string) (s : NVMePartitionStatus) : NVMePartitionStatus :=
  {|
     pt_PlacementFingerprint := pt_PlacementFingerprint s;
     pt_State := pt_State s;
     pt_ExternalID := v;
     pt_VolumeID := pt_VolumeID s;
     pt_BackendVolumeID := pt_BackendVolumeID s;
     pt_AllocatedCapacity := pt_AllocatedCapacity s;
     pt_SPDKBaseBdev := pt_SPDKBaseBdev s;
     pt_SPDKLvstoreName := pt_SPDKLvstoreName s;
     pt_SPDKLvstoreUUID := pt_SPDKLvstoreUUID s;
     pt_SPDKLvolName := pt_SPDKLvolName s;
     pt_SPDKLvolUUID := pt_SPDKLvolUUID s;
     pt_NQN := pt_NQN s;
     pt_PortalIP := pt_PortalIP s;
     pt_PortalPort := pt_PortalPort s;
     pt_Conditions := pt_Conditions s
  |}.

Definition set_pt_VolumeID (v : string) (s : NVMePartitionStatus) : NVMePartitionStatus :=
  {|
     pt_PlacementFingerprint := pt_PlacementFingerprint s;
     pt_State := pt_State s;
     pt_ExternalID := pt_ExternalID s;
     pt_VolumeID := v;
     pt_BackendVolumeID := pt_BackendVolumeID s;
     pt_AllocatedCapacity := pt_AllocatedCapacity s;
     pt_SPDKBaseBdev := pt_SPDKBaseBdev s;
     pt_SPDKLvstoreName := pt_SPDKLvstoreName s;
     pt_SPDKLvstoreUUID := pt_SPDKLvstoreUUID s;
     pt_SPDKLvolName := pt_SPDKLvolName s;
     pt_SPDKLvolUUID := pt_SPDKLvolUUID s;
     pt_NQN := pt_NQN s;
     pt_PortalIP := pt_PortalIP s;
     pt_PortalPort := pt_PortalPort s;
     pt_Conditions := pt_Conditions s
  |}.

Definition set_pt_Conditions (v : list Condition) (s : NVMePartitionStatus) : NVMePartitionStatus :=
  {|
     pt_PlacementFingerprint := pt_PlacementFingerprint s;
     pt_State := pt_State s;
     pt_ExternalID := pt_ExternalID s;
     pt_VolumeID := pt_VolumeID s;
     pt_BackendVolumeID := pt_BackendVolumeID s;
     pt_AllocatedCapacity := pt_AllocatedCapacity s;
     pt_SPDKBaseBdev := pt_SPDKBaseBdev s;
     pt_SPDKLvstoreName := pt_SPDKLvstoreName s;
     pt_SPDKLvstoreUUID := pt_SPDKLvstoreUUID s;
     pt_SPDKLvolName := pt_SPDKLvolName s;
     pt_SPDKLvolUUID := pt_SPDKLvolUUID s;
     pt_NQN := pt_NQN s;
     pt_PortalIP := pt_PortalIP s;
     pt_PortalPort := pt_PortalPort s;
     pt_Conditions := v
  |}.

(** ** nvmevolumeattachment_types.go *)

Record NVMeVolumeReference := {
  vr_Name : string;
  vr_UID : string
}.

#[global] Instance NVMeVolumeReference_eq_dec : EqDecision NVMeVolumeReference.
Proof. solve_decision. Defined.

Record NVMeVolumeAttachmentSpec := {
  as_VolumeRef : NVMeVolumeReference;
  as_NodeID : string;
  as_HostNQN : string;
  as_AttachmentID : string
}.

#[global] Instance NVMeVolumeAttachmentSpec_eq_dec : EqDecision NVMeVolumeAttachmentSpec.
Proof. solve_decision. Defined.

Record NVMeVolumeAttachmentStatus := {
  at_ObservedAttachmentID : string;
  at_Conditions : list Condition
}.

#[global] Instance NVMeVolumeAttachmentStatus_eq_dec : EqDecision NVMeVolumeAttachmentStatus.
Proof. solve_decision. Defined.

Definition NVMeVolumeAttachment : Type := KObject NVMeVolumeAttachmentSpec NVMeVolumeAttachmentStatus.

Definition set_at_ObservedAttachmentID (v : string) (s : NVMeVolumeAttachmentStatus) : NVMeVolumeAttachmentStatus :=
  {|
     at_ObservedAttachmentID := v;
     at_Conditions := at_Conditions s
  |}.

Definition set_at_Conditions (v : list Condition) (s : NVMeVolumeAttachmentStatus) : NVMeVolumeAttachmentStatus :=
  {|
     at_ObservedAttachmentID := at_ObservedAttachmentID s;
     at_Conditions := v
  |}.

(** ** rdmastoragenode_types.go *)

Inductive RDMATransportType :=
  | RDMATransportRoCEv2
  | RDMATransportInfiniBand
  | RDMATransportOther (s : string).

#[global] Instance RDMATransportType_eq_dec : EqDecision RDMATransportType.
Proof. solve_decision. Defined.

Definition NVMeInventoryReadyCondition : string := "NVMeInventoryReady".

Record RDMAStorageNodeSpec := {
  ns_NodeName : string;
  ns_RDMAIP : string;
  ns_Transport : RDMATransportType;
  ns_LinkSpeed : string
}.

#[global] Instance RDMAStorageNodeSpec_eq_dec : EqDecision RDMAStorageNodeSpec.
Proof. solve_decision. Defined.

Record RDMAStorageNodeStatus := {
  nt_LastHeartbeatTime : Time;
  nt_TotalCapacity : Quantity;
  nt_FreeCapacity : Quantity;
  nt_ActiveExports : Z;
  nt_Conditions : list Condition
}.

#[global] Instance RDMAStorageNodeStatus_eq_dec : EqDecision RDMAStorageNodeStatus.
Proof. solve_decision. Defined.

Definition RDMAStorageNode : Type := KObject RDMAStorageNodeSpec RDMAStorageNodeStatus.

Definition set_nt_Conditions (v : list Condition) (s : RDMAStorageNodeStatus) : RDMAStorageNodeStatus :=
  {|
     nt_LastHeartbeatTime := nt_LastHeartbeatTime s;
     nt_TotalCapacity := nt_TotalCapacity s;
     nt_FreeCapacity := nt_FreeCapacity s;
     nt_ActiveExports := nt_ActiveExports s;
     nt_Conditions := v
  |}.

(** ** apimachinery and controller-runtime helpers *)

Class ApiMachinery := {
  (** meta.FindStatusCondition *)
  FindStatusCondition : list Condition → string → option Condition;
  (** meta.SetStatusCondition *)
  SetStatusCondition : list Condition → Condition → list Condition;
  (** meta.IsStatusConditionTrue *)
  IsStatusConditionTrue : list Condition → string → bool;
  (** controllerutil.ContainsFinalizer, AddFinalizer and RemoveFinalizer *)
  ContainsFinalizer : list string → string → bool;
  AddFinalizer : list string → string → list string;
  RemoveFinalizer : list string → string → list string
}.

Class ApiMachineryLaws (AM : ApiMachinery) := {
  find_type cs t c : FindStatusCondition cs t = Some c → c_Type c = t ∧ c ∈ cs;
  find_set_eq cs c : FindStatusCondition (SetStatusCondition cs c) (c_Type c) = Some c;
  find_set_ne cs c t :
    c_Type c ≠ t → FindStatusCondition (SetStatusCondition cs c) t = FindStatusCondition cs t;
  condition_true cs t :
    IsStatusConditionTrue cs t = true ↔
    ∃ c, FindStatusCondition cs t = Some c ∧ c_Status c = ConditionTrue;
  contains_finalizer fs f : ContainsFinalizer fs f = true ↔ f ∈ fs;
  add_finalizer fs f g : g ∈ AddFinalizer fs f ↔ g ∈ fs ∨ g = f;
  remove_finalizer fs f g : g ∈ RemoveFinalizer fs f ↔ g ∈ fs ∧ g ≠ f
}.

(** A reference implementation, used by the witnesses. *)
Fixpoint ref_find (cs : list Condition) (t : string) : option Condition :=
  match cs with
  | [] => None
  | c :: cs => if c_Type c ==? t then Some c else ref_find cs t
  end.

Fixpoint ref_set (cs : list Condition) (n : Condition) : list Condition :=
  match cs with
  | [] => [n]
  | c :: cs => if c_Type c ==? c_Type n then n :: cs else c :: ref_set cs n
  end.

#[export] Instance reference_machinery : ApiMachinery := {|
  FindStatusCondition := ref_find;
  SetStatusCondition := ref_set;
  IsStatusConditionTrue cs t :=
    match ref_find cs t with Some c => c_Status c ==? ConditionTrue | None => false end;
  ContainsFinalizer fs f := bool_decide (f ∈ fs);
  AddFinalizer fs f := if bool_decide (f ∈ fs) then fs else fs ++ [f];
  RemoveFinalizer fs f := List.filter (fun g => negb (g ==? f)) fs
|}.

#[export] Instance reference_machinery_laws : ApiMachineryLaws reference_machinery.
Proof.
  split; simpl.
  - intros cs t c. induction cs as [|d cs IH]; simpl; [done|]. case_bool_decide; [|set_solver].
    intros [= ->]. set_solver.
  - intros cs c. induction cs as [|d cs IH]; simpl; [by rewrite bool_decide_true|].
    case_bool_decide; simpl; [by rewrite bool_decide_true|by rewrite bool_decide_false].
  - intros cs c t Ht. induction cs as [|d cs IH]; simpl; [by rewrite bool_decide_false|].
    case_bool_decide as Hd; simpl; [rewrite !bool_decide_false by congruence; done|]. by rewrite IH.
  - intros cs t. destruct (ref_find cs t); [rewrite bool_decide_eq_true|]; naive_solver.
  - intros fs f. apply bool_decide_eq_true.
  - intros fs f g. case_bool_decide; set_solver.
  - intros fs f g. rewrite !list_elem_of_In, filter_In, negb_true_iff, bool_decide_eq_false. done.
Qed.
