(* ===== verification/Identity.v ===== *)
(** * Identities derived from Kubernetes objects

    Models src/internal/volumeidentity/identity.go (CSI volume handles and NVMe
    qualified names), src/internal/placementauth/placement.go (the fingerprint
    that binds a placement to a partition and a claim) and
    src/internal/attachment/identity.go (host identities). *)

From S2P Require Import Prelude GoStrings Encoding ApiTypes.

(** ** internal/volumeidentity *)

Module VolumeIdentity.

Definition handlePrefix : string := "distort-v1".
Definition nqnPrefix : string := "nqn.2026-02.io.distort:volume-".

Record Identity := { ExternalID : string; VolumeHandle : string }.

Record Reference := { r_Namespace : string; r_Name : string; r_UID : string }.

Definition New (namespace name uid : string) : result Identity :=
  if (namespace ==? "") || (name ==? "") || (uid ==? "")
  then Err (Errorf "namespace, name, and UID are required for volume identity")
  else
    let digest := Sha256.Sum256 (bytes_of uid) in
    let externalID := "vol-" +:+ hex_encode (take 16 digest) in
    let encode s := Base64.EncodeToString (bytes_of s) in
    Ok {| ExternalID := externalID;
          VolumeHandle :=
            JoinStrings [handlePrefix; encode namespace; encode name; encode uid] "." |}.

(** The closure [decode] of ParseVolumeHandle. *)
Definition decode_component (field encoded : string) : result string :=
  match Base64.DecodeString encoded with
  | Some (b :: value) => Ok (string_of (b :: value))
  | _ => Err (Errorf ("invalid " +:+ field +:+ " in volume handle"))
  end.

Definition ParseVolumeHandle (handle : string) : result Reference :=
  match Split "." handle with
  | [prefix; p1; p2; p3] =>
    if prefix ==? handlePrefix then
      let? namespace := decode_component "namespace" p1 in
      let? name := decode_component "name" p2 in
      let? uid := decode_component "UID" p3 in
      Ok {| r_Namespace := namespace; r_Name := name; r_UID := uid |}
    else Err (Errorf "unsupported volume handle format")
  | _ => Err (Errorf "unsupported volume handle format")
  end.

Definition NQN (externalID : string) : string := nqnPrefix +:+ externalID.

(** The second result of the Go function is whether there is an identifier. *)
Definition ExternalIDFromNQN (nqn : string) : string * bool :=
  match CutPrefix nqn nqnPrefix with
  | Some externalID => (externalID, externalID !=? "")
  | None => (nqn, false)
  end.

Lemma decode_encode field s : s ≠ "" →
  decode_component field (Base64.EncodeToString (bytes_of s)) = Ok s.
Proof.
  intros Hs. unfold decode_component. rewrite Base64.Decode_Encode by apply bytes_of_range.
  destruct (bytes_of s) as [|b l] eqn:E; [|by rewrite <- E, string_of_bytes].
  destruct Hs. by apply bytes_of_inj.
Qed.

Lemma New_ok ns n uid id : New ns n uid = Ok id ↔
  ns ≠ "" ∧ n ≠ "" ∧ uid ≠ "" ∧
  id = {| ExternalID := "vol-" +:+ hex_encode (take 16 (Sha256.Sum256 (bytes_of uid)));
          VolumeHandle := JoinStrings [handlePrefix; Base64.EncodeToString (bytes_of ns);
            Base64.EncodeToString (bytes_of n); Base64.EncodeToString (bytes_of uid)] "." |}.
Proof.
  unfold New. destruct (_ || _) eqn:E; split.
  - done.
  - intros (? & ? & ? & _). rewrite !bool_decide_false in E by done. done.
  - intros [= <-]. bool_to_prop. done.
  - by intros (_ & _ & _ & ->).
Qed.

Lemma Parse_New ns name uid id : New ns name uid = Ok id →
  ParseVolumeHandle (VolumeHandle id) = Ok {| r_Namespace := ns; r_Name := name; r_UID := uid |}.
Proof.
  intros (Hns & Hn & Hu & ->)%New_ok. unfold ParseVolumeHandle. cbn [VolumeHandle]. rewrite Split_join; [|done|].
  - rewrite bool_decide_true by done. by rewrite !decode_encode.
  - repeat constructor; try apply Base64.Encode_no_dot, bytes_of_range.
Qed.

(** External identifiers are no handles. *)
Lemma Parse_ExternalID ns name uid id : New ns name uid = Ok id → is_ok (ParseVolumeHandle (ExternalID id)) = false.
Proof.
  intros (_ & _ & _ & ->)%New_ok. unfold ParseVolumeHandle. cbn [ExternalID]. rewrite Split_no_sep; [done|].
  rewrite no_byte_app. apply andb_true_intro. split; [done|]. eapply str_all_impl; [|apply hex_encode_lower, Forall_take, Sha256.Sum256_range].
  intros c Hc. destruct (decide (c = "."%char)) as [->|Hne]; [done|]. by rewrite bool_decide_false.
Qed.

(** Volume handles round-trip.  [New] fails exactly on a missing
    component; otherwise [ParseVolumeHandle] recovers from the handle the exact
    namespace, name and UID it was made from, and the external ID is recovered
    from its NQN. *)
Theorem volume_handle_roundtrip ns name uid :
  match New ns name uid with
  | inl id =>
    ParseVolumeHandle (VolumeHandle id) =
      Ok {| r_Namespace := ns; r_Name := name; r_UID := uid |} ∧
    ExternalIDFromNQN (NQN (ExternalID id)) = (ExternalID id, true)
  | inr _ => ns = "" ∨ name = "" ∨ uid = ""
  end.
Proof.
  destruct (New ns name uid) as [id|e] eqn:E.
  - split; [by apply Parse_New|]. apply New_ok in E as (_ & _ & _ & ->). cbn [ExternalID].
    unfold ExternalIDFromNQN, NQN. rewrite CutPrefix_app. by rewrite bool_decide_false.
  - unfold New in E. destruct (_ || _) eqn:G; [|done].
    apply orb_true_iff in G as [G|G]; [apply orb_true_iff in G as [G|G]|]; bool_to_prop; auto.
Qed.

Lemma decode_component_ok field p s : decode_component field p = Ok s → s ≠ "".
Proof. unfold decode_component. intros H. by guards. Qed.

(** A handle accepted by [ParseVolumeHandle] names a complete object
    reference, for which the canonical handle exists and is accepted with the
    same meaning; every accepted handle carries the version prefix. *)
Theorem ParseVolumeHandle_sound handle r :
  ParseVolumeHandle handle = Ok r →
  HasPrefix handle (handlePrefix +:+ ".") = true ∧
  ∃ id, New (r_Namespace r) (r_Name r) (r_UID r) = Ok id ∧ ParseVolumeHandle (VolumeHandle id) = Ok r.
Proof.
  intros H. split.
  - unfold ParseVolumeHandle in H. destruct (Split "." handle) as [|p0 [|p1 l]] eqn:E; [done..|].
    assert (p0 = handlePrefix) as -> by (destruct l as [|? [|? [|]]]; try done;
      case_bool_decide; done).
    clear H. apply HasPrefix_spec. revert E. unfold handlePrefix.
    change "distort-v1" with (list_str (str_list "distort-v1")).
    generalize (str_list "distort-v1"). intros w. revert handle.
    induction w as [|c w IH]; intros [|d s]; simpl; try done.
    + case_bool_decide; [subst|by case_match]. intros [= E]. by exists s.
    + case_bool_decide; [done|]. destruct (Split "." s) as [|w' ws] eqn:E; [done|].
      intros [= -> -> ->]. destruct (IH _ E) as [r' ->]. by exists r'.
  - assert (r_Namespace r ≠ "" ∧ r_Name r ≠ "" ∧ r_UID r ≠ "") as (H1 & H2 & H3).
    { unfold ParseVolumeHandle in H. destruct (Split "." handle) as [|p0 [|p1 [|p2 [|p3 [|]]]]]; try done.
      case_bool_decide; [|done].
      repeat (apply rbind_ok in H as (? & ?%decode_component_ok & H)). by simplify_eq/=. }
    eexists. split; [by apply New_ok|]. cbn [VolumeHandle].
    unfold ParseVolumeHandle. rewrite Split_join; [|done|].
    + rewrite bool_decide_true by done. rewrite !decode_encode by done. by destruct r.
    + repeat constructor; try apply Base64.Encode_no_dot, bytes_of_range.
Qed.

Lemma ParseVolumeHandle_sound_witness :
  ∃ r, ParseVolumeHandle "distort-v1.bnM.cHZj.dWlk" = Ok r ∧ r_Name r = "pvc" ∧
  ∃ id, New (r_Namespace r) (r_Name r) (r_UID r) = Ok id ∧ ParseVolumeHandle (VolumeHandle id) = Ok r.
Proof.
  exists {| r_Namespace := "ns"; r_Name := "pvc"; r_UID := "uid" |}.
  split; [vm_compute; reflexivity|]. split; [reflexivity|].
  refine (proj2 (ParseVolumeHandle_sound "distort-v1.bnM.cHZj.dWlk" _ _)). vm_compute; reflexivity.
Defined.

End VolumeIdentity.

(** ** internal/placementauth *)

Module PlacementAuth.

Definition ConditionType : string := "PlacementAuthorized".

(** A hash.Hash is represented by the bytes written to it. *)
Definition writeComponent (digest : list Z) (value : string) : list Z :=
  digest ++ be_bytes 8 (wrapU64 (str_len value)) ++ bytes_of value.

Definition Fingerprint (partitionUID nodeName deviceSerial : string)
    (claimRef : option NVMeDeviceClaimReference) : string :=
  match claimRef with
  | None => ""
  | Some ref =>
    if (partitionUID ==? "") || (nodeName ==? "") || (deviceSerial ==? "") ||
       (ref_Namespace ref ==? "") || (ref_Name ref ==? "") || (ref_UID ref ==? "")
    then ""
    else
      let digest := fold_left writeComponent
        [partitionUID; nodeName; deviceSerial; ref_Namespace ref; ref_Name ref; ref_UID ref] [] in
      hex_encode (Sha256.Sum256 digest)
  end.

Definition IsAuthorized `{ApiMachinery} (partition : NVMePartition) : bool :=
  match FindStatusCondition (pt_Conditions (Status partition)) ConditionType with
  | None => false
  | Some condition =>
    if (c_Status condition !=? ConditionTrue) ||
       negb (c_ObservedGeneration condition =? Generation (Meta partition))
    then false
    else
      let expected := Fingerprint (UID (Meta partition)) (ps_NodeName (Spec partition))
        (ps_ParentDeviceSerialNumber (Spec partition)) (ps_ClaimRef (Spec partition)) in
      (expected !=? "") && (pt_PlacementFingerprint (Status partition) ==? expected)
  end.

(** The bytes hashed for a placement. *)
Definition message (cs : list string) : list Z := fold_left writeComponent cs [].

Definition short (s : string) : Prop := str_len s < 2 ^ 64.

Lemma writeComponent_app d cs : fold_left writeComponent cs d = d ++ message cs.
Proof.
  unfold message. revert d. induction cs as [|c cs IH]; intros d; simpl; [by rewrite app_nil_r|].
  rewrite IH, (IH (writeComponent [] c)). unfold writeComponent. by rewrite app_nil_l, !app_assoc.
Qed.

Lemma message_cons c cs :
  message (c :: cs) = be_bytes 8 (wrapU64 (str_len c)) ++ bytes_of c ++ message cs.
Proof.
  unfold message at 1. simpl. rewrite writeComponent_app. unfold writeComponent.
  by rewrite app_nil_l, <- app_assoc.
Qed.

Lemma length_bytes_of s : Z.of_nat (length (bytes_of s)) = str_len s.
Proof. unfold bytes_of, str_len. by rewrite length_map. Qed.

Lemma wrapU64_len s : short s → wrapU64 (str_len s) = str_len s.
Proof. unfold short. intros H. apply wrapU64_id. unfold uint64, MaxUint64, str_len in *. lia. Qed.

(** Length-prefixing makes the hashed message determine its components. *)
Lemma message_inj cs cs' : Forall short cs → Forall short cs' →
  message cs = message cs' → cs = cs'.
Proof.
  intros H. revert cs'. induction H as [|c cs Hc Hcs IH]; intros [|c' cs'] H' E; try done.
  - rewrite message_cons in E. by apply (f_equal length) in E.
  - rewrite message_cons in E. by apply (f_equal length) in E.
  - decompose_Forall_hyps. rewrite !message_cons in E.
    apply app_inj_1 in E as [El E]; [|by rewrite !be_bytes_length].
    rewrite !wrapU64_len in El by done. apply be_bytes_inj in El;
      [|unfold short, str_len in *; simpl Z.of_nat; lia..].
    apply app_inj_1 in E as [Ec E]; [|apply Nat2Z.inj; by rewrite !length_bytes_of].
    apply bytes_of_inj in Ec as ->. f_equal. by apply IH.
Qed.

Definition components (u n d : string) (ref : NVMeDeviceClaimReference) : list string :=
  [u; n; d; ref_Namespace ref; ref_Name ref; ref_UID ref].

Lemma Fingerprint_nonempty u n d c : Fingerprint u n d c ≠ "" →
  ∃ ref, c = Some ref ∧ Forall (.≠ "") (components u n d ref) ∧
  Fingerprint u n d c = hex_encode (Sha256.Sum256 (message (components u n d ref))).
Proof.
  unfold Fingerprint. destruct c as [ref|]; [|done]. destruct (_ || _) eqn:E; [done|]. intros _.
  exists ref. split; [done|]. split; [|done]. unfold components. bool_to_prop. auto 10.
Qed.

Lemma components_inj u n d r u' n' d' r' : components u n d r = components u' n' d' r' →
  u = u' ∧ n = n' ∧ d = d' ∧ r = r'.
Proof. destruct r, r'. unfold components. simpl. by intros [= -> -> -> -> -> ->]. Qed.

(** SHA-256 does not collide on two given messages. *)
Definition no_collision (x y : list Z) : Prop := Sha256.Sum256 x = Sha256.Sum256 y → x = y.

Lemma Fingerprint_binding u n d r u' n' d' r' :
  Forall short (components u n d r) → Forall short (components u' n' d' r') →
  no_collision (message (components u n d r)) (message (components u' n' d' r')) →
  Fingerprint u n d (Some r) ≠ "" →
  Fingerprint u n d (Some r) = Fingerprint u' n' d' (Some r') →
  u = u' ∧ n = n' ∧ d = d' ∧ r = r'.
Proof.
  intros Hs Hs' Hc Hne Heq. pose proof Hne as Hne'. rewrite Heq in Hne'.
  apply Fingerprint_nonempty in Hne as (? & [= <-] & _ & E1).
  apply Fingerprint_nonempty in Hne' as (? & [= <-] & _ & E2).
  rewrite E1, E2 in Heq. apply hex_encode_inj in Heq; [|apply Sha256.Sum256_range..].
  by apply components_inj, message_inj, Hc.
Qed.

Section Authorization.
Context `{AM : ApiMachinery}.

Lemma IsAuthorized_true (p : NVMePartition) : IsAuthorized p = true ↔
  ∃ c ref, FindStatusCondition (pt_Conditions (Status p)) ConditionType = Some c ∧
    c_Status c = ConditionTrue ∧ c_ObservedGeneration c = Generation (Meta p) ∧
    ps_ClaimRef (Spec p) = Some ref ∧
    Forall (.≠ "") (components (UID (Meta p)) (ps_NodeName (Spec p))
                      (ps_ParentDeviceSerialNumber (Spec p)) ref) ∧
    pt_PlacementFingerprint (Status p) =
      Fingerprint (UID (Meta p)) (ps_NodeName (Spec p)) (ps_ParentDeviceSerialNumber (Spec p)) (Some ref).
Proof.
  unfold IsAuthorized. destruct (FindStatusCondition _ _) as [c|]; [|split; [done|by intros (? & ? & ? & _)]].
  destruct (_ || _) eqn:E.
  - split; [done|]. intros (? & ref & [= <-] & Hs & Hg & _).
    rewrite Hs, Hg, bool_decide_true, Z.eqb_refl in E by done. done.
  - bool_to_prop. cbv zeta. split.
    + intros Ha. bool_to_prop.
      destruct (Fingerprint_nonempty _ _ _ _ H1) as (ref & Hr & Hf & _).
      exists c, ref. rewrite <- Hr. auto 10.
    + intros (? & ref & [= <-] & _ & _ & Hr & Hf & ->). rewrite Hr.
      rewrite andb_true_iff, negb_true_iff, bool_decide_eq_false, bool_decide_eq_true.
      split; [|done]. unfold components in Hf. decompose_Forall_hyps. unfold Fingerprint.
      rewrite !bool_decide_false by done. done.
Qed.

(** An authorization is bound to its exact placement.  If two authorized
    partition states (say, before and after an edit of the spec) carry the
    same placement fingerprint and SHA-256 does not collide on the two
    length-prefixed messages, then their UID, node, device serial and claim
    reference are equal. *)
Theorem authorization_binds_placement (p q : NVMePartition) rp rq :
  ps_ClaimRef (Spec p) = Some rp → ps_ClaimRef (Spec q) = Some rq →
  let cp := components (UID (Meta p)) (ps_NodeName (Spec p)) (ps_ParentDeviceSerialNumber (Spec p)) rp in
  let cq := components (UID (Meta q)) (ps_NodeName (Spec q)) (ps_ParentDeviceSerialNumber (Spec q)) rq in
  Forall short cp → Forall short cq → no_collision (message cp) (message cq) →
  IsAuthorized p = true → IsAuthorized q = true →
  pt_PlacementFingerprint (Status p) = pt_PlacementFingerprint (Status q) →
  UID (Meta p) = UID (Meta q) ∧ ps_NodeName (Spec p) = ps_NodeName (Spec q) ∧
  ps_ParentDeviceSerialNumber (Spec p) = ps_ParentDeviceSerialNumber (Spec q) ∧ rp = rq.
Proof.
  intros Hp Hq cp cq Hs Hs' Hc
    (c & ? & _ & _ & _ & Hr & Hf & Fp)%IsAuthorized_true
    (? & ? & _ & _ & _ & Hr' & _ & Fq)%IsAuthorized_true E.
  rewrite Hp in Hr. rewrite Hq in Hr'. simplify_eq. rewrite Fp, Fq in E.
  apply Fingerprint_binding; try done.
  unfold components in Hf. decompose_Forall_hyps. unfold Fingerprint.
  rewrite !bool_decide_false by done. done.
Qed.

End Authorization.

Definition example_ref : NVMeDeviceClaimReference :=
  {| ref_Namespace := "default"; ref_Name := "claim-a"; ref_UID := "c-1" |}.

Definition example_partition (gen : Z) : NVMePartition :=
  mkObject
    {| Name := "pvc-1"; Namespace := "default"; UID := "p-1"; Generation := gen; ResourceVersion := "7";
       Finalizers := []; Annotations := ∅; OwnerReferences := []; DeletionTimestamp := None |}
    {| ps_Size := NewQuantity 4194304; ps_NodeName := "node-1"; ps_ParentDeviceSerialNumber := "SN1";
       ps_ClaimRef := Some example_ref; ps_AccessMode := ""; ps_Filesystem := "";
       ps_RequestFingerprint := ""; ps_TargetBackend := "spdk"; ps_VolumeManager := "partition";
       ps_TargetOptions := ∅ |}
    {| pt_PlacementFingerprint := Fingerprint "p-1" "node-1" "SN1" (Some example_ref);
       pt_State := NVMePartitionStateUnset; pt_ExternalID := ""; pt_VolumeID := "";
       pt_BackendVolumeID := ""; pt_AllocatedCapacity := NewQuantity 0; pt_SPDKBaseBdev := "";
       pt_SPDKLvstoreName := ""; pt_SPDKLvstoreUUID := ""; pt_SPDKLvolName := "";
       pt_SPDKLvolUUID := ""; pt_NQN := ""; pt_PortalIP := ""; pt_PortalPort := 0;
       pt_Conditions := [{| c_Type := ConditionType; c_Status := ConditionTrue;
         c_ObservedGeneration := gen; c_Reason := "PlacementReserved"; c_Message := "" |}] |}.

Lemma authorization_binds_placement_witness :
  UID (Meta (example_partition 2)) = UID (Meta (example_partition 3)) ∧ example_ref = example_ref.
Proof.
  destruct (authorization_binds_placement (example_partition 2) (example_partition 3)
    example_ref example_ref) as (H & _ & _ & H');
    [reflexivity|reflexivity| | |intros _; reflexivity|vm_compute; reflexivity|
     vm_compute; reflexivity|reflexivity|exact (conj H H')];
    repeat (constructor; [vm_compute; reflexivity|]); constructor.
Defined.

End PlacementAuth.

(** ** internal/attachment *)

Module Attachment.

Definition Finalizer : string := "storage.distort.io/attachment-fencing".
Definition ForceDetachAnnotation : string := "storage.distort.io/force-detach-node".
Definition AccessReadyCondition : string := "AccessReady".

Definition attachment_Name (volumeUID : string) : string := "nvme-attach-" +:+ ToLower volumeUID.

Definition HostNQN (nodeID : string) : string :=
  "nqn.2026-01.io.distort:host-" +:+ hex_encode (take 16 (Sha256.Sum256 (bytes_of nodeID))).

(** The pattern that the NVMeVolumeAttachment schema puts on its HostNQN. *)
Definition host_nqn_pattern (s : string) : bool :=
  match CutPrefix s "nqn.2026-01.io.distort:host-" with
  | Some r => str_all is_lower_hex r && (str_len r =? 32)
  | None => false
  end.

(** The derived host identity always satisfies the pattern of the
    attachment schema, and two nodes share one only if the first 16 bytes of
    their SHA-256 digests collide. *)
Theorem HostNQN_admitted_and_binding nodeID nodeID' :
  host_nqn_pattern (HostNQN nodeID) = true ∧
  (HostNQN nodeID = HostNQN nodeID' →
   take 16 (Sha256.Sum256 (bytes_of nodeID)) = take 16 (Sha256.Sum256 (bytes_of nodeID'))).
Proof.
  assert (∀ m, Forall is_byte (take 16 (Sha256.Sum256 m))) as Hr
    by (intros m; apply Forall_take, Sha256.Sum256_range).
  unfold HostNQN, host_nqn_pattern. split.
  - rewrite CutPrefix_app, hex_encode_lower by done.
    rewrite hex_encode_length, length_take, Sha256.Sum256_length. done.
  - intros H. apply (f_equal (λ s, CutPrefix s "nqn.2026-01.io.distort:host-")) in H.
    rewrite !CutPrefix_app in H. apply (inj Some) in H. by apply hex_encode_inj in H.
Qed.

End Attachment.
