(* ===== verification/Options.v ===== *)
(** * Backend options

    Models src/internal/storageoptions/options.go, the canonical core mask of
    src/internal/agent/plugins/backend_spdk.go, and the core-mask rule that the
    NVMePartition schema (src/api/v1alpha1/nvmepartition_types.go) puts on its
    TargetOptions. *)

From S2P Require Import Prelude GoStrings.

Definition SPDKCoreMaskOption : string := "spdk-core-mask".
Definition MaxSPDKCoreMaskLength : Z := 258.

Definition is_hex (c : ascii) : bool :=
  let b := byte_val c in
  ((48 <=? b) && (b <=? 57)) || ((65 <=? b) && (b <=? 70)) || ((97 <=? b) && (b <=? 102)).

(** [spdkCoreMaskPattern]: ^0x[0-9A-Fa-f]+$ *)
Definition spdkCoreMaskPattern (s : string) : bool :=
  match CutPrefix s "0x" with
  | Some r => (r !=? "") && str_all is_hex r
  | None => false
  end.

(** [coreMask[2:]] *)
Definition drop2 (s : string) : string := list_str (drop 2 (str_list s)).

Definition ValidateSPDKCoreMask (coreMask : string) : option error :=
  if MaxSPDKCoreMaskLength <? str_len coreMask
  then Some (Errorf "spdk-core-mask exceeds the maximum length")
  else if negb (spdkCoreMaskPattern coreMask)
  then Some (Errorf "spdk-core-mask must match 0x followed by hexadecimal digits")
  else if TrimByte "0" (drop2 coreMask) ==? ""
  then Some (Errorf "spdk-core-mask must select at least one CPU")
  else None.

(** The loop of [Validate], over the options in the order the map iteration
    yields them. *)
Fixpoint validateOptions (targetBackend : string) (options : list (string * string)) : option error :=
  match options with
  | [] => None
  | (name, value) :: options =>
    if targetBackend ==? "spdk" then
      if name !=? SPDKCoreMaskOption then Some (Errorf "unsupported SPDK backend option")
      else match ValidateSPDKCoreMask value with
           | Some err => Some err
           | None => validateOptions targetBackend options
           end
    else if targetBackend ==? "kernel" then Some (Errorf "unsupported kernel backend option")
    else Some (Errorf "unsupported target backend")
  end.

(** [order] is the iteration order of the map; Go leaves it unspecified. *)
Definition Validate (targetBackend : string) (order : list (string * string)) : option error :=
  let targetBackend := if targetBackend ==? "" then "spdk" else targetBackend in
  validateOptions targetBackend order.

Definition canonicalSPDKCoreMask (coreMask : string) : result string :=
  let coreMask := if coreMask ==? "" then "0x1" else coreMask in
  match ValidateSPDKCoreMask coreMask with
  | Some err => Err err
  | None =>
    match parse_nat 16 (drop2 coreMask) with
    | Some value => Ok ("0x" +:+ format_nat 16 value)
    | None => Err (Errorf "parse spdk-core-mask")
    end
  end.

(** The schema's CEL rule on targetOptions: at most 258 characters matching
    ^0x[0-9A-Fa-f]*[1-9A-Fa-f][0-9A-Fa-f]*$ *)
Definition is_nonzero_hex (c : ascii) : bool := is_hex c && negb (byte_val c =? 48).

Fixpoint hex_with_nonzero (s : string) : bool :=
  match s with
  | EmptyString => false
  | String c s => (is_nonzero_hex c && str_all is_hex s) || (is_hex c && hex_with_nonzero s)
  end.

Definition schema_core_mask (s : string) : bool :=
  (str_len s <=? 258) &&
  match CutPrefix s "0x" with Some r => hex_with_nonzero r | None => false end.

(** The CPUs a mask selects: the number it denotes. *)
Definition mask_value (mask : string) : option Z := parse_nat 16 (drop2 mask).

Lemma drop2_prefix r : drop2 ("0x" +:+ r) = r.
Proof. unfold drop2. rewrite str_list_app. simpl. rewrite drop_0. apply list_str_list. Qed.

Lemma hex_with_nonzero_spec s : hex_with_nonzero s = true ↔
  str_all is_hex s = true ∧ str_all (λ c, c ==? "0"%char) s = false.
Proof.
  assert (∀ c, (byte_val c =? 48) = (c ==? "0"%char)) as H0.
  { intros c. destruct (Z.eqb_spec (byte_val c) 48) as [E|E]; symmetry.
    - apply bool_decide_eq_true. by rewrite <- (byte_chr_val c), E.
    - apply bool_decide_eq_false. intros ->. by apply E. }
  unfold str_all. induction s as [|c s IH]; simpl; [naive_solver|].
  unfold is_nonzero_hex. rewrite H0. unfold str_all in *.
  destruct (is_hex c), (c ==? "0"%char), (forallb is_hex (str_list s)), (hex_with_nonzero s);
    simpl; intuition congruence.
Qed.

Lemma ValidateSPDKCoreMask_spec s : ValidateSPDKCoreMask s = None ↔
  str_len s ≤ MaxSPDKCoreMaskLength ∧ ∃ r, s = "0x" +:+ r ∧
    str_all is_hex r = true ∧ str_all (λ c, c ==? "0"%char) r = false.
Proof.
  unfold ValidateSPDKCoreMask, spdkCoreMaskPattern.
  destruct (Z.ltb_spec MaxSPDKCoreMaskLength (str_len s)); [split; [done|lia]|].
  destruct (CutPrefix s "0x") as [r|] eqn:E.
  - apply CutPrefix_spec in E as ->. rewrite drop2_prefix.
    unfold TrimByte. pose proof (TrimFunc_nil (λ d, d ==? "0"%char) r) as Ht.
    destruct (str_all is_hex r) eqn:Hh; simpl.
    + rewrite andb_true_r, negb_involutive. repeat case_bool_decide.
      * subst r. split; [done|]. intros [_ (r & Hr & _ & Hz)].
        apply (f_equal drop2) in Hr. rewrite !drop2_prefix in Hr. by subst r.
      * split; [done|]. intros [_ (r' & Hr & _ & Hz)].
        apply (f_equal drop2) in Hr. rewrite !drop2_prefix in Hr. subst r'.
        rewrite (proj1 Ht) in Hz by done. done.
      * split; [|done]. intros _. split; [done|]. exists r. split_and!; try done.
        apply not_true_iff_false. tauto.
    + rewrite andb_false_r. simpl. split; [done|]. intros [_ (r' & Hr & Hh' & _)].
      apply (f_equal drop2) in Hr. rewrite !drop2_prefix in Hr. congruence.
  - split; [done|]. intros [_ (r & -> & _)]. by rewrite CutPrefix_app in E.
Qed.

Lemma schema_core_mask_spec s : schema_core_mask s = true ↔
  str_len s ≤ MaxSPDKCoreMaskLength ∧ ∃ r, s = "0x" +:+ r ∧
    str_all is_hex r = true ∧ str_all (λ c, c ==? "0"%char) r = false.
Proof.
  unfold schema_core_mask. rewrite andb_true_iff, Z.leb_le.
  apply and_iff_compat_l. destruct (CutPrefix s "0x") as [r|] eqn:E.
  - apply CutPrefix_spec in E as ->. rewrite hex_with_nonzero_spec. split; [by eauto|].
    intros (r' & Hr & ?). apply (f_equal drop2) in Hr. by rewrite !drop2_prefix in Hr; subst r'.
  - split; [done|]. intros (r & -> & _). by rewrite CutPrefix_app in E.
Qed.

Lemma validateOptions_ok be l : validateOptions be l = None ↔
  l = [] ∨ be = "spdk" ∧ Forall (λ kv, kv.1 = SPDKCoreMaskOption ∧ ValidateSPDKCoreMask kv.2 = None) l.
Proof.
  induction l as [|[k v] l IH]; simpl; [naive_solver|]. rewrite Forall_cons. simpl.
  repeat case_bool_decide; simpl; try naive_solver.
  destruct (ValidateSPDKCoreMask v); [naive_solver|]. rewrite IH. naive_solver.
Qed.

(** Options that are all the core mask are at most one. *)
Lemma core_mask_only (options : gmap string string) :
  (∀ k v, options !! k = Some v → k = SPDKCoreMaskOption ∧ ValidateSPDKCoreMask v = None) →
  options = ∅ ∨ ∃ mask, options = {[SPDKCoreMaskOption := mask]} ∧ ValidateSPDKCoreMask mask = None.
Proof.
  intros Hall. destruct (decide (options = ∅)) as [|Hne]; [by left|right].
  apply map_choose in Hne as (k & mask & Hk). destruct (Hall _ _ Hk) as [-> Hm]. exists mask. split; [|done].
  apply map_eq. intros j. destruct (decide (j = SPDKCoreMaskOption)) as [->|Hj].
  - by rewrite lookup_singleton_eq.
  - rewrite lookup_singleton_ne by done. destruct (options !! j) eqn:E; [|done]. by destruct (Hall _ _ E).
Qed.

(** Acceptance of a set of options does not depend on the iteration
    order of the map, and accepted options are none at all, or for SPDK (also
    the default backend) the core mask alone with a value the schema admits. *)
Theorem Validate_order_independent targetBackend (options : gmap string string) order :
  order ≡ₚ map_to_list options →
  (Validate targetBackend order = None ↔
   options = ∅ ∨ ((targetBackend = "spdk" ∨ targetBackend = "") ∧
     ∃ mask, options = {[SPDKCoreMaskOption := mask]} ∧ schema_core_mask mask = true)).
Proof.
  intros Hp. unfold Validate. rewrite validateOptions_ok.
  assert ((if targetBackend ==? "" then "spdk" else targetBackend) = "spdk" ↔
          targetBackend = "spdk" ∨ targetBackend = "") as -> by (case_bool_decide; naive_solver).
  assert (order = [] ↔ options = ∅) as ->.
  { rewrite <- map_to_list_empty_iff. split; intros H; rewrite H in Hp.
    - symmetry. by apply Permutation_nil_l.
    - by apply Permutation_nil_r. }
  split; (intros [?|[Hb H]]; [by left|]).
  - rewrite Hp, Forall_forall in H. destruct (core_mask_only options) as [?|(mask & ? & Hm)]; [|by left|right].
    + intros k v Hk. by apply (H (k, v)), elem_of_map_to_list.
    + split; [done|]. exists mask. by rewrite schema_core_mask_spec, <- ValidateSPDKCoreMask_spec.
  - destruct H as (mask & -> & Hm). right. split; [done|]. rewrite Hp, map_to_list_singleton.
    constructor; [|constructor]. split; [done|].
    by rewrite ValidateSPDKCoreMask_spec, <- schema_core_mask_spec.
Qed.

Lemma Validate_order_independent_witness :
  Validate "" [(SPDKCoreMaskOption, "0x0f")] = None.
Proof.
  refine (proj2 (Validate_order_independent "" {[SPDKCoreMaskOption := "0x0f"]}
    [(SPDKCoreMaskOption, "0x0f")] _) _).
  - rewrite map_to_list_singleton. reflexivity.
  - right. split; [right; reflexivity|]. exists "0x0f". split; [reflexivity|vm_compute; reflexivity].
Defined.

(** ** Canonical core masks *)

Lemma is_hex_digit c : is_hex c = true → ∃ d, digit_of c = Some d ∧ 0 ≤ d < 16 ∧
  (d = 0 ↔ c = "0"%char).
Proof.
  unfold is_hex, digit_of. cbv zeta. pose proof (byte_chr_val c) as Hc. intros H.
  assert (∀ d, (d = 0 ↔ byte_val c = 48) → (d = 0 ↔ c = "0"%char)) as Hz.
  { intros d ->. split; [intros E; by rewrite <- Hc, E|by intros ->]. }
  destruct ((48 <=? byte_val c) && (byte_val c <=? 57)) eqn:E1;
    [|destruct ((97 <=? byte_val c) && (byte_val c <=? 122)) eqn:E2;
      [|destruct ((65 <=? byte_val c) && (byte_val c <=? 90)) eqn:E3]];
    [eexists; split; [done|]; split; [lia|apply Hz; lia]..|lia].
Qed.

(** Hexadecimal strings parse to a value below [16 ^ length], which is zero
    only for zeros. *)
Lemma parse_hex r acc : str_all is_hex r = true → 0 ≤ acc →
  ∃ v, parse_digits 16 r acc = Some v ∧
    acc * 16 ^ str_len r ≤ v < (acc + 1) * 16 ^ str_len r ∧
    (v = 0 → acc = 0 ∧ str_all (λ c, c ==? "0"%char) r = true).
Proof.
  unfold str_all, str_len. revert acc. induction r as [|c r IH]; intros acc H Hacc.
  - simpl. exists acc. split; [done|]. split; [lia|]. done.
  - simpl in H. bool_to_prop. destruct (is_hex_digit c) as (d & E & Hd & Hz); [done|].
    cbn [parse_digits]. rewrite E. replace (d <? 16) with true by lia.
    destruct (IH (acc * 16 + d)) as (v & -> & Hv & H0'); [done|lia|]. exists v. split; [done|].
    cbn [str_list length]. rewrite Nat2Z.inj_succ, Z.pow_succ_r by lia. split; [nia|].
    intros Hv0. destruct (H0' Hv0) as [? Hr]. assert (d = 0) as ->%Hz by lia.
    split; [lia|]. simpl. by rewrite Hr.
Qed.

Lemma format_nat_hex v k : 0 < v < 16 ^ k → 0 ≤ k →
  str_all is_hex (format_nat 16 v) = true ∧ str_len (format_nat 16 v) ≤ k ∧
  str_all (λ c, c ==? "0"%char) (format_nat 16 v) = false.
Proof.
  intros Hv Hk. destruct (format_nat_spec 16 v) as (d & ds & -> & Hf & Hval & H0); [lia..|].
  unfold str_all, str_len. rewrite str_list_str.
  assert (∀ x, 0 ≤ x < 16 → is_hex (digit_char x) = true ∧ (digit_char x = "0"%char → x = 0)) as Hd.
  { intros x Hx. assert (x = 0 ∨ x = 1 ∨ x = 2 ∨ x = 3 ∨ x = 4 ∨ x = 5 ∨ x = 6 ∨ x = 7 ∨ x = 8 ∨ x = 9 ∨
      x = 10 ∨ x = 11 ∨ x = 12 ∨ x = 13 ∨ x = 14 ∨ x = 15) as Hcases by lia.
    destruct_or! Hcases; subst x; done. }
  split; [|split].
  - apply forallb_forall. intros c Hc. apply in_map_iff in Hc as (x & <- & Hx).
    apply Hd. rewrite Forall_forall in Hf. apply Hf. by apply list_elem_of_In.
  - rewrite length_map. apply Z.nlt_ge. intros Hlt.
    assert (16 ^ Z.of_nat (length ds) ≤ v); [|].
    { rewrite <- Hval. unfold digits_val. cbn [fold_left].
      assert (∀ a, 0 ≤ a → a * 16 ^ Z.of_nat (length ds) ≤ fold_left (λ a d, a * 16 + d) ds a) as Hlow.
      { inversion Hf as [|? ? _ Hds]; subst. clear -Hds.
        induction Hds as [|x ds Hx _ IH]; intros a Ha; [simpl; lia|]. cbn [fold_left length].
        rewrite Nat2Z.inj_succ, Z.pow_succ_r by lia. specialize (IH (a * 16 + x)). nia. }
      specialize (Hlow (0 * 16 + d)). inversion Hf; subst.
      assert (d ≠ 0) by (intros ->; lia). nia. }
    assert (16 ^ k ≤ 16 ^ Z.of_nat (length ds)) by (apply Z.pow_le_mono_r; simpl in Hlt; lia). lia.
  - simpl. apply andb_false_iff. left. apply bool_decide_eq_false. intros E.
    inversion Hf; subst. apply Hd in E; [|done]. lia.
Qed.

Lemma mask_value_valid m : ValidateSPDKCoreMask m = None →
  ∃ v, mask_value m = Some v ∧ 0 < v < 16 ^ 256.
Proof.
  intros [Hl (r & -> & Hh & Hz)]%ValidateSPDKCoreMask_spec. unfold mask_value. rewrite drop2_prefix.
  unfold parse_nat. rewrite bool_decide_false by (intros ->; done).
  destruct (parse_hex r 0) as (v & -> & Hv & H0); [done..|]. exists v. split; [done|].
  assert (v ≠ 0) by (intros ->; destruct H0; congruence).
  assert (str_len r ≤ 256).
  { unfold str_len in *. rewrite str_list_app, length_app in Hl. simpl in Hl.
    unfold MaxSPDKCoreMaskLength in Hl. lia. }
  assert (16 ^ str_len r ≤ 16 ^ 256) by (apply Z.pow_le_mono_r; lia). lia.
Qed.

Lemma format_valid v : 0 < v < 16 ^ 256 →
  ValidateSPDKCoreMask ("0x" +:+ format_nat 16 v) = None ∧
  mask_value ("0x" +:+ format_nat 16 v) = Some v.
Proof.
  intros Hv. destruct (format_nat_hex v 256) as (Hh & Hl & Hz); [lia..|]. split.
  - apply ValidateSPDKCoreMask_spec. split; [|by eauto].
    unfold str_len, MaxSPDKCoreMaskLength in *. rewrite str_list_app, length_app. simpl. lia.
  - unfold mask_value. rewrite drop2_prefix. apply parse_format_nat; lia.
Qed.

Lemma canonical_ok m c : canonicalSPDKCoreMask m = Ok c ↔
  let m' := if m ==? "" then "0x1" else m in
  ValidateSPDKCoreMask m' = None ∧ ∃ v, mask_value m' = Some v ∧ c = "0x" +:+ format_nat 16 v.
Proof.
  unfold canonicalSPDKCoreMask. cbv zeta. unfold mask_value.
  destruct (ValidateSPDKCoreMask _); [naive_solver|]. destruct (parse_nat _ _); naive_solver.
Qed.

(** C39: The three places that judge core masks agree.  The validator of the CSI
    driver and of the agent accepts exactly the masks that the NVMePartition schema
    admits.  The canonicaliser succeeds on exactly these and on the empty mask,
    which the validator refuses: for the empty mask it returns 0x1, for any other
    the canonical form denotes the same CPUs and is again accepted. *)
Theorem core_mask_validators_agree s :
  (ValidateSPDKCoreMask s = None ↔ schema_core_mask s = true) ∧
  ((∃ c, canonicalSPDKCoreMask s = Ok c) ↔ s = "" ∨ schema_core_mask s = true) ∧
  (s = "" → canonicalSPDKCoreMask s = Ok "0x1" ∧ ValidateSPDKCoreMask s ≠ None) ∧
  (∀ c, canonicalSPDKCoreMask s = Ok c →
     ValidateSPDKCoreMask c = None ∧ (s ≠ "" → mask_value c = mask_value s)).
Proof.
  assert (ValidateSPDKCoreMask s = None ↔ schema_core_mask s = true) as Hv
    by (by rewrite ValidateSPDKCoreMask_spec, schema_core_mask_spec).
  split_and!; [done| |by intros ->|].
  - rewrite <- Hv. setoid_rewrite canonical_ok. cbv zeta. case_bool_decide as E.
    + split; [by left|]. intros _. eexists. split; [done|]. by exists 1.
    + split; [naive_solver|]. intros [?|H]; [done|]. destruct (mask_value_valid s H) as (v & Hm & _). eauto.
  - intros c [Hs (v & Hm & ->)]%canonical_ok. destruct (mask_value_valid _ Hs) as (v' & Hm' & Hr).
    assert (v' = v) as -> by congruence. destruct (format_valid v Hr) as [F1 F2]. split; [done|].
    intros Hne. rewrite bool_decide_false in Hm by done. by rewrite F2, Hm.
Qed.

(** Canonicalisation of core masks fails only on masks that
    validation rejects, and it identifies masks exactly when they select the
    same CPUs: the canonical form is itself accepted and canonical, denotes the
    same non-zero CPU set, and two accepted masks have the same form iff they
    denote the same number. *)
Theorem canonical_core_mask_decides_equality m m' :
  m ≠ "" → m' ≠ "" → ValidateSPDKCoreMask m = None → ValidateSPDKCoreMask m' = None →
  ∃ c c', canonicalSPDKCoreMask m = Ok c ∧ canonicalSPDKCoreMask m' = Ok c' ∧
    canonicalSPDKCoreMask c = Ok c ∧ mask_value c = mask_value m ∧ mask_value c ≠ Some 0 ∧
    (c = c' ↔ mask_value m = mask_value m').
Proof.
  intros Hm Hm' V V'. destruct (mask_value_valid m V) as (v & Ev & Hv).
  destruct (mask_value_valid m' V') as (v' & Ev' & Hv').
  exists ("0x" +:+ format_nat 16 v), ("0x" +:+ format_nat 16 v').
  destruct (format_valid v Hv) as [F1 F2].
  rewrite !canonical_ok. cbv zeta. rewrite (bool_decide_false (m = "")), (bool_decide_false (m' = "")) by done.
  rewrite bool_decide_false by done. rewrite F2, Ev, Ev'. split_and!; [by eauto..|done| |].
  - intros [= ->]. lia.
  - split; [|by intros [= ->]]. intros E. apply (f_equal drop2) in E. rewrite !drop2_prefix in E.
    f_equal. apply (format_nat_inj 16); [lia..|done].
Qed.

Lemma canonical_core_mask_witness :
  canonicalSPDKCoreMask "0x0F" = canonicalSPDKCoreMask "0xf".
Proof.
  destruct (canonical_core_mask_decides_equality "0x0F" "0xf") as (c & c' & E & E' & _ & _ & _ & H);
    [discriminate|discriminate|vm_compute; reflexivity|vm_compute; reflexivity|].
  rewrite E, E'. f_equal. apply H. vm_compute; reflexivity.
Defined.
