(* ===== verification/RdmaHealth.v ===== *)
(** * Readiness of a storage node

    Models src/internal/rdmahealth/readiness.go together with the parts of Go's
    net and time packages it uses: textual IPv4 and IPv6 addresses
    ([net.ParseIP], which rejects zones), the classification methods of [net.IP]
    and [time.Time.Sub]. *)

From S2P Require Import Prelude GoStrings ApiTypes.

(** ** net.IP *)

Module Net.

(** A parsed address: the 16 bytes of its IPv6 form. *)
Definition IP := list Z.

Definition v4InV6Prefix : list Z := [0; 0; 0; 0; 0; 0; 0; 0; 0; 0; 255; 255].
Definition IPv4 (a b c d : Z) : IP := v4InV6Prefix ++ [a; b; c; d].

Definition To4 (ip : IP) : option (list Z) :=
  if (length ip =? 16)%nat && (take 12 ip ==? v4InV6Prefix) then Some (drop 12 ip) else None.

(** One decimal field of a dotted address: no leading zero, at most 255. *)
Definition ipv4_field (s : string) : option Z :=
  if (s ==? "") || negb (str_all is_digit s) then None
  else if (1 <? str_len s) && HasPrefix s "0" then None
  else match parse_nat 10 s with
       | Some v => if v <=? 255 then Some v else None
       | None => None
       end.

Definition parseIPv4Fields (s : string) : option (list Z) :=
  match Split "." s with
  | [a; b; c; d] => mapM ipv4_field [a; b; c; d]
  | _ => None
  end.

Definition is_hexdigit (c : ascii) : bool :=
  match digit_of c with Some d => d <? 16 | None => false end.

(** The leading hexadecimal digits of a string, and the rest. *)
Fixpoint span_hex (s : string) : string * string :=
  match s with
  | String c s' =>
    if is_hexdigit c then let '(h, r) := span_hex s' in (String c h, r) else ("", s)
  | EmptyString => ("", "")
  end.

(** The loop of parseIPv6: [groups] of the eight 16-bit groups may still be
    read, [ip] holds the bytes read so far and [ellipsis] the position of a
    double colon. Returns the bytes, the position, and the unread rest. *)
Fixpoint ipv6_loop (groups : nat) (s : string) (ip : list Z) (ellipsis : option nat)
    : option (list Z * option nat * string) :=
  match groups with
  | O => Some (ip, ellipsis, s)
  | S groups' =>
    let '(h, r) := span_hex s in
    if (4 <? str_len h) then None
    else if h ==? "" then None
    else if HasPrefix r "." then
      if match ellipsis with None => negb (length ip =? 12)%nat | Some _ => false end then None
      else if (16 <? length ip + 4)%nat then None
      else match parseIPv4Fields s with
           | Some fields => Some (ip ++ fields, ellipsis, "")
           | None => None
           end
    else
      match parse_nat 16 h with
      | None => None
      | Some acc =>
        let ip := ip ++ [acc / 256; acc mod 256] in
        if r ==? "" then Some (ip, ellipsis, "")
        else
          match CutPrefix r ":" with
          | None => None
          | Some r =>
            if r ==? "" then None
            else
              match CutPrefix r ":" with
              | None => ipv6_loop groups' r ip ellipsis
              | Some r =>
                match ellipsis with
                | Some _ => None
                | None =>
                  if r ==? "" then Some (ip, Some (length ip), "")
                  else ipv6_loop groups' r ip (Some (length ip))
                end
              end
          end
      end
  end.

Definition parseIPv6 (s : string) : option IP :=
  let '(s, ellipsis) :=
    match CutPrefix s "::" with Some r => (r, Some 0%nat) | None => (s, None) end in
  if (s ==? "") && bool_decide (ellipsis = Some 0%nat) then Some (repeat 0 16)
  else
    match ipv6_loop 8 s [] ellipsis with
    | Some (ip, ellipsis, rest) =>
      if rest !=? "" then None
      else if (length ip <? 16)%nat then
        match ellipsis with
        | None => None
        | Some at_ => Some (take at_ ip ++ repeat 0 (16 - length ip) ++ drop at_ ip)
        end
      else match ellipsis with Some _ => None | None => Some ip end
    | None => None
    end.

(** The first of the bytes '.', ':' and '%' decides the family; an address
    with a zone is rejected. *)
Fixpoint family (s : string) : option ascii :=
  match s with
  | EmptyString => None
  | String c s =>
    if (c ==? "."%char) || (c ==? ":"%char) || (c ==? "%"%char) then Some c else family s
  end.

Definition ParseIP (s : string) : option IP :=
  if negb (no_byte "%" s) then None
  else match family s with
       | Some "."%char => fields ← parseIPv4Fields s; Some (v4InV6Prefix ++ fields)
       | Some ":"%char => parseIPv6 s
       | _ => None
       end.

Definition byte_at (ip : list Z) (i : nat) : Z := nth i ip 0.

Definition IsUnspecified (ip : IP) : bool := (ip ==? IPv4 0 0 0 0) || (ip ==? repeat 0 16).

Definition IsLoopback (ip : IP) : bool :=
  match To4 ip with
  | Some ip4 => byte_at ip4 0 =? 127
  | None => ip ==? (repeat 0 15 ++ [1])
  end.

Definition IsMulticast (ip : IP) : bool :=
  match To4 ip with
  | Some ip4 => Z.land (byte_at ip4 0) 0xf0 =? 0xe0
  | None => (length ip =? 16)%nat && (byte_at ip 0 =? 0xff)
  end.

Definition IsLinkLocalMulticast (ip : IP) : bool :=
  match To4 ip with
  | Some ip4 => (byte_at ip4 0 =? 224) && (byte_at ip4 1 =? 0) && (byte_at ip4 2 =? 0)
  | None => (length ip =? 16)%nat && (byte_at ip 0 =? 0xff) && (Z.land (byte_at ip 1) 0x0f =? 0x02)
  end.

Definition IsLinkLocalUnicast (ip : IP) : bool :=
  match To4 ip with
  | Some ip4 => (byte_at ip4 0 =? 169) && (byte_at ip4 1 =? 254)
  | None => (length ip =? 16)%nat && (byte_at ip 0 =? 0xfe) && (Z.land (byte_at ip 1) 0xc0 =? 0x80)
  end.

Definition IsGlobalUnicast (ip : IP) : bool :=
  ((length ip =? 4)%nat || (length ip =? 16)%nat) && negb (ip ==? IPv4 255 255 255 255) &&
  negb (IsUnspecified ip) && negb (IsLoopback ip) && negb (IsMulticast ip) &&
  negb (IsLinkLocalUnicast ip).

End Net.

(** ** Durations *)

Definition Second : Z := 1000000000.

(** [time.Time.Sub]: the difference, saturated to an int64 Duration. *)
Definition Time_Sub (t u : Time) : Z := Z.max MinInt64 (Z.min MaxInt64 (t - u)).

(** ** internal/rdmahealth *)

Definition ReadyCondition : string := "Ready".
Definition FreshnessWindow : Z := 45 * Second.
Definition MaxFutureSkew : Z := 5 * Second.

Definition HeartbeatIsFresh (lastHeartbeat now : Time) : bool :=
  if Time_IsZero lastHeartbeat then false
  else
    let age := Time_Sub now lastHeartbeat in
    (age <=? FreshnessWindow) && (- MaxFutureSkew <=? age).

Definition ParseUsableIP (address : string) : result Net.IP :=
  match Net.ParseIP address with
  | None => Err (Errorf "is not a routable unicast IP address")
  | Some ip =>
    if negb (Net.IsGlobalUnicast ip) || Net.IsLoopback ip || Net.IsUnspecified ip ||
       Net.IsMulticast ip || Net.IsLinkLocalUnicast ip || Net.IsLinkLocalMulticast ip
    then Err (Errorf "is not a routable unicast IP address")
    else Ok ip
  end.

(** [rdmahealth.Validate] *)
Definition rdma_Validate `{ApiMachinery} (node : RDMAStorageNode) (now : Time) : option error :=
  let not_ready := Some (Errorf "RDMAStorageNode is not Ready") in
  match FindStatusCondition (nt_Conditions (Status node)) ReadyCondition with
  | None => not_ready
  | Some condition =>
    if c_Status condition !=? ConditionTrue then not_ready
    else if negb (HeartbeatIsFresh (nt_LastHeartbeatTime (Status node)) now)
    then Some (Errorf "RDMAStorageNode heartbeat is stale")
    else if negb (is_ok (ParseUsableIP (ns_RDMAIP (Spec node))))
    then Some (Errorf "RDMAStorageNode has no usable RDMA IP")
    else if (ns_Transport (Spec node) !=? RDMATransportRoCEv2) &&
            (ns_Transport (Spec node) !=? RDMATransportInfiniBand)
    then Some (Errorf "RDMAStorageNode does not advertise an RDMA transport")
    else None
  end.

(** ** Heartbeats *)

Lemma HeartbeatIsFresh_spec last now : HeartbeatIsFresh last now = true ↔
  last ≠ zeroTime ∧ now - FreshnessWindow ≤ last ≤ now + MaxFutureSkew.
Proof.
  unfold HeartbeatIsFresh, Time_IsZero, Time_Sub, FreshnessWindow, MaxFutureSkew, Second,
    MinInt64, MaxInt64. cbv zeta.
  destruct (Z.eqb_spec last zeroTime); [split; [done|by intros [? _]]|]. rewrite andb_true_iff, !Z.leb_le. lia.
Qed.

(** A heartbeat is fresh exactly within the window of 45 seconds in the
    past and 5 seconds in the future, for every pair of times (the saturation
    of [Sub] never matters); so a heartbeat that is not renewed goes stale and
    stays stale. *)
Theorem heartbeat_window last now :
  (HeartbeatIsFresh last now = true ↔
   last ≠ zeroTime ∧ now - 45 * Second ≤ last ≤ now + 5 * Second) ∧
  ∀ later, last + 45 * Second < later → HeartbeatIsFresh last later = false.
Proof.
  split; [apply HeartbeatIsFresh_spec|]. intros later Hl. apply not_true_iff_false.
  rewrite HeartbeatIsFresh_spec. unfold FreshnessWindow. lia.
Qed.

(** ** Addresses *)

Lemma byte_cases (P : Z → bool) : forallb P (seqZ 0 256) = true → ∀ z, 0 ≤ z < 256 → P z = true.
Proof.
  intros H z Hz. rewrite forallb_forall in H. apply H, list_elem_of_In, elem_of_seqZ. lia.
Qed.

Lemma ipv4_field_Itoa a : 0 ≤ a < 256 →
  Net.ipv4_field (Itoa a) = Some a ∧ str_all is_digit (Itoa a) = true.
Proof.
  intros Ha.
  assert (forallb (λ a, (Net.ipv4_field (Itoa a) ==? Some a) && str_all is_digit (Itoa a)) (seqZ 0 256) = true)
    as Hall by (vm_compute; reflexivity).
  pose proof (byte_cases _ Hall a Ha) as H. cbv beta in H. bool_to_prop. split; assumption.
Qed.

Lemma multicast_byte a : 0 ≤ a < 256 → (Z.land a 0xf0 =? 0xe0) = ((224 <=? a) && (a <=? 239)).
Proof.
  intros Ha. apply eqb_prop.
  assert (forallb (λ a, eqb (Z.land a 0xf0 =? 0xe0) ((224 <=? a) && (a <=? 239))) (seqZ 0 256) = true)
    as Hall by (vm_compute; reflexivity).
  exact (byte_cases _ Hall a Ha).
Qed.

(** The dotted form of an IPv4 address. *)
Definition dotted (a b c d : Z) : string := JoinStrings [Itoa a; Itoa b; Itoa c; Itoa d] ".".

Lemma digits_plain w sep : str_all is_digit w = true → is_digit sep = false → no_byte sep w = true.
Proof.
  unfold no_byte, str_all. rewrite !forallb_forall. intros H Hsep c Hc.
  apply negb_true_iff, bool_decide_eq_false. intros ->. rewrite H in Hsep by done. done.
Qed.

Lemma family_dotted w r : str_all is_digit w = true → Net.family (w +:+ String "." r) = Some "."%char.
Proof.
  unfold str_all. induction w as [|c w IH]; intros H; [done|]. rewrite str_app_cons. simpl in *.
  apply andb_true_iff in H as [Hc Hw].
  rewrite !bool_decide_false by (intros ->; done). by apply IH.
Qed.

Lemma ParseIP_dotted a b c d :
  0 ≤ a < 256 → 0 ≤ b < 256 → 0 ≤ c < 256 → 0 ≤ d < 256 →
  Net.ParseIP (dotted a b c d) = Some (Net.IPv4 a b c d).
Proof.
  intros [Fa Da]%ipv4_field_Itoa [Fb Db]%ipv4_field_Itoa [Fc Dc]%ipv4_field_Itoa [Fd Dd]%ipv4_field_Itoa.
  assert (∀ sep, is_digit sep = false → Forall (λ w, no_byte sep w = true)
    [Itoa a; Itoa b; Itoa c; Itoa d]) as Hplain by (intros; repeat constructor; by apply digits_plain).
  unfold Net.ParseIP.
  assert (no_byte "%" (dotted a b c d) = true) as ->.
  { pose proof (Hplain "%"%char eq_refl). decompose_Forall_hyps.
    unfold dotted. cbn [JoinStrings]. rewrite !no_byte_app. by repeat (apply andb_true_iff; split). }
  unfold dotted at 1. cbn [JoinStrings negb].
  change ("." +:+ ?x) with (String "." x). rewrite family_dotted by done.
  unfold Net.parseIPv4Fields, dotted. rewrite Split_join by (done || by apply Hplain).
  cbn [mapM]. by rewrite Fa, Fb, Fc, Fd.
Qed.

(** The IPv4 addresses that can be a remote endpoint. *)
Definition routable4 (a b c d : Z) : bool :=
  negb ((a =? 0) && (b =? 0) && (c =? 0) && (d =? 0)) && negb (a =? 127) &&
  negb ((224 <=? a) && (a <=? 239)) && negb ((a =? 169) && (b =? 254)) &&
  negb ((a =? 255) && (b =? 255) && (c =? 255) && (d =? 255)).

Lemma IPv4_eqb a b c d a' b' c' d' :
  bool_decide (Net.IPv4 a b c d = Net.IPv4 a' b' c' d') =
  (a =? a') && (b =? b') && (c =? c') && (d =? d').
Proof.
  apply eq_true_iff_eq. rewrite bool_decide_eq_true, !andb_true_iff, !Z.eqb_eq.
  unfold Net.IPv4. split; [intros E; by simplify_eq/=|intros [[[-> ->] ->] ->]; done].
Qed.

(** For every dotted IPv4 address [ParseUsableIP] returns its 16-byte
    form exactly when the address is not unspecified, loopback, multicast,
    link-local or the broadcast address, and an error otherwise. *)
Theorem ParseUsableIP_ipv4 a b c d :
  0 ≤ a < 256 → 0 ≤ b < 256 → 0 ≤ c < 256 → 0 ≤ d < 256 →
  if routable4 a b c d then ParseUsableIP (dotted a b c d) = Ok (Net.IPv4 a b c d)
  else is_ok (ParseUsableIP (dotted a b c d)) = false.
Proof.
  intros Ha Hb Hc Hd. unfold ParseUsableIP. rewrite ParseIP_dotted by done.
  assert (Net.To4 (Net.IPv4 a b c d) = Some [a; b; c; d]) as H4 by done.
  assert (bool_decide (Net.IPv4 a b c d = repeat 0 16) = false) as H6
    by (apply bool_decide_eq_false; unfold Net.IPv4; simpl; congruence).
  unfold Net.IsGlobalUnicast, Net.IsLoopback, Net.IsUnspecified, Net.IsMulticast,
    Net.IsLinkLocalUnicast, Net.IsLinkLocalMulticast.
  rewrite H4, H6, !IPv4_eqb. unfold Net.byte_at. cbn [nth length Net.IPv4 app Net.v4InV6Prefix Nat.eqb].
  rewrite multicast_byte by done. unfold routable4.
  assert (negb ((a =? 224) && (b =? 0) && (c =? 0)) || ((224 <=? a) && (a <=? 239)) = true) as Hmc by lia.
  revert Hmc. generalize ((a =? 224) && (b =? 0) && (c =? 0)), ((224 <=? a) && (a <=? 239)),
    ((a =? 169) && (b =? 254)), (a =? 127), ((a =? 0) && (b =? 0) && (c =? 0) && (d =? 0)),
    ((a =? 255) && (b =? 255) && (c =? 255) && (d =? 255)).
  clear. intros [] [] [] [] [] []; done.
Qed.

Lemma ParseUsableIP_ipv4_witness :
  ParseUsableIP "10.10.0.7" = Ok (Net.IPv4 10 10 0 7).
Proof. apply (ParseUsableIP_ipv4 10 10 0 7); lia. Defined.

(** ** Well-formedness of every accepted address *)

Definition ip_byte (z : Z) : Prop := 0 ≤ z < 256.

Lemma ipv4_field_range s v : Net.ipv4_field s = Some v → ip_byte v.
Proof.
  unfold Net.ipv4_field. intros H. destruct (_ || _); [done|]. destruct (_ && _); [done|].
  destruct (parse_nat 10 s) as [w|] eqn:E; [|done]. destruct (Z.leb_spec w 255); [|done].
  simplify_eq. split; [|lia]. unfold parse_nat in E. case_bool_decide; [done|].
  by apply parse_digits_nonneg in E.
Qed.

Lemma parseIPv4Fields_range s fs : Net.parseIPv4Fields s = Some fs →
  length fs = 4%nat ∧ Forall ip_byte fs.
Proof.
  unfold Net.parseIPv4Fields. destruct (Split "." s) as [|a [|b [|c [|d [|]]]]]; try done.
  intros H. apply mapM_Some in H. split; [by apply Forall2_length in H|].
  eapply Forall2_Forall_r; [exact H|]. apply Forall_forall. intros x _ y. apply ipv4_field_range.
Qed.

Lemma ipv6_group_bytes h v : str_len h ≤ 4 → parse_nat 16 h = Some v →
  ip_byte (v / 256) ∧ ip_byte (v mod 256).
Proof.
  unfold parse_nat. intros Hl H. case_bool_decide; [done|].
  pose proof (parse_digits_nonneg 16 h 0 v ltac:(lia) ltac:(lia) H).
  apply parse_digits_bound in H; [|lia..].
  assert (16 ^ str_len h ≤ 16 ^ 4) by (apply Z.pow_le_mono_r; lia).
  change (16 ^ 4) with 65536 in *. unfold ip_byte. euclid.
Qed.

(** What the loop of parseIPv6 maintains: whole bytes, at most 16 of them, and
    a double colon inside them. *)
Definition ip_prefix (ip : list Z) (ellipsis : option nat) : Prop :=
  Forall ip_byte ip ∧ (length ip ≤ 16)%nat ∧
  match ellipsis with Some n => (n ≤ length ip)%nat | None => True end.

Lemma ipv6_loop_prefix groups s ip e ip' e' r :
  ip_prefix ip e → (length ip + 2 * groups ≤ 16)%nat →
  Net.ipv6_loop groups s ip e = Some (ip', e', r) → ip_prefix ip' e'.
Proof.
  revert s ip e. induction groups as [|n IH]; intros s ip e Hp Hl H; simpl in H; [by simplify_eq|].
  destruct (Net.span_hex s) as [h rest]. destruct (Z.ltb_spec 4 (str_len h)); [done|].
  case_bool_decide; [done|]. destruct Hp as (Hb & Hlen & He).
  assert (∀ v, parse_nat 16 h = Some v → Forall ip_byte (ip ++ [v / 256; v mod 256])) as Hg.
  { intros v Hv. destruct (ipv6_group_bytes h v) as [? ?]; [done..|].
    apply Forall_app. split; [done|]. by apply Forall_cons; split; [|apply Forall_singleton]. }
  assert (∀ v, length (ip ++ [v / 256; v mod 256]) = (length ip + 2)%nat) as Hgl
    by (intros; rewrite length_app; done).
  assert (∀ v, parse_nat 16 h = Some v → ip_prefix (ip ++ [v / 256; v mod 256]) e) as Hsame.
  { intros v Hv. split_and!; [by apply Hg|rewrite Hgl; lia|]. destruct e; [rewrite Hgl; lia|done]. }
  assert (∀ v, parse_nat 16 h = Some v → ip_prefix (ip ++ [v / 256; v mod 256])
    (Some (length (ip ++ [v / 256; v mod 256])))) as Hhere
    by (intros v Hv; split_and!; [by apply Hg|rewrite Hgl; lia|done]).
  destruct (HasPrefix rest ".").
  - destruct (match e with Some _ => _ | None => _ end); [done|].
    destruct (Nat.ltb_spec 16 (length ip + 4)); [done|].
    destruct (Net.parseIPv4Fields s) as [fs|] eqn:Ef; [|done]. simplify_eq.
    apply parseIPv4Fields_range in Ef as [Hfl Hf].
    split_and!; [by apply Forall_app|rewrite length_app; lia|].
    destruct e'; [rewrite length_app; lia|done].
  - destruct (parse_nat 16 h) as [v|]; [|done]. case_bool_decide; [simplify_eq; by auto|].
    destruct (CutPrefix rest ":") as [rest'|]; [|done]. case_bool_decide; [done|].
    destruct (CutPrefix rest' ":") as [rest''|].
    + destruct e; [done|]. case_bool_decide; [simplify_eq; by auto|].
      apply IH in H; [done| |rewrite Hgl; lia]; by auto.
    + apply IH in H; [done| |rewrite Hgl; lia]; by auto.
Qed.

Lemma ParseIP_wf s ip : Net.ParseIP s = Some ip → length ip = 16%nat ∧ Forall ip_byte ip.
Proof.
  assert (∀ n, Forall ip_byte (repeat 0 n)) as Hrep
    by (intros n; apply Forall_forall; intros x Hx%list_elem_of_In%repeat_spec; subst; done).
  unfold Net.ParseIP. destruct (negb _); [done|]. intros H. repeat case_match; try done.
  - destruct (Net.parseIPv4Fields s) as [fs|] eqn:E; [|done]. simplify_eq/=.
    apply parseIPv4Fields_range in E as [El Ef]. rewrite El. split; [done|].
    by repeat (apply Forall_cons; split; [done|]).
  - unfold Net.parseIPv6 in H. destruct (match CutPrefix s "::" with Some _ => _ | None => _ end) as [s' e] eqn:Es.
    assert (ip_prefix [] e) as He0 by (destruct (CutPrefix s "::"); simplify_eq; (split; [constructor|simpl; lia])).
    destruct (_ && _); [simplify_eq; split; [done|apply (Hrep 16%nat)]|].
    destruct (Net.ipv6_loop 8 s' [] e) as [[[ip' e'] r]|] eqn:E; [|done].
    case_bool_decide; [|done].
    apply ipv6_loop_prefix in E as (Hb & Hl & He); [|done|simpl; lia].
    destruct (Nat.ltb_spec (length ip') 16); [|destruct e'; [done|]; injection H as <-; split; [lia|done]].
    destruct e' as [n'|]; [|done]. injection H as <-.
    rewrite !length_app, length_take, length_drop, repeat_length. split; [lia|].
    rewrite !Forall_app. split_and!; [by apply Forall_take|apply Hrep|by apply Forall_drop].
Qed.

(** Every address that [ParseUsableIP] accepts, IPv4 or IPv6, is 16
    whole bytes that belong to none of the unspecified, loopback, multicast and
    link-local classes. *)
Theorem ParseUsableIP_sound address ip :
  ParseUsableIP address = Ok ip →
  length ip = 16%nat ∧ Forall ip_byte ip ∧ Net.IsUnspecified ip = false ∧ Net.IsLoopback ip = false ∧
  Net.IsMulticast ip = false ∧ Net.IsLinkLocalUnicast ip = false ∧ Net.IsLinkLocalMulticast ip = false.
Proof.
  unfold ParseUsableIP. intros H. destruct (Net.ParseIP address) as [ip'|] eqn:E; [|done].
  destruct (_ || _) eqn:G; [done|]. simplify_eq. apply ParseIP_wf in E as [? ?]. bool_to_prop. auto 10.
Qed.

Lemma ParseUsableIP_sound_witness :
  Net.IsLoopback [253; 0; 0; 0; 0; 0; 0; 0; 0; 0; 0; 0; 0; 0; 0; 23] = false.
Proof.
  destruct (ParseUsableIP_sound "fd00::17" [253; 0; 0; 0; 0; 0; 0; 0; 0; 0; 0; 0; 0; 0; 0; 23])
    as (_ & _ & _ & H & _); [vm_compute; reflexivity|exact H].
Defined.

(** ** Readiness *)

Section Readiness.
Context `{AM : ApiMachinery}.

(** A node validates exactly when its Ready condition is true, its
    heartbeat is fresh, its address is usable and its transport is RDMA. *)
Theorem rdma_Validate_exact (node : RDMAStorageNode) now :
  rdma_Validate node now = None ↔
  (∃ c, FindStatusCondition (nt_Conditions (Status node)) ReadyCondition = Some c ∧
        c_Status c = ConditionTrue) ∧
  HeartbeatIsFresh (nt_LastHeartbeatTime (Status node)) now = true ∧
  (∃ ip, ParseUsableIP (ns_RDMAIP (Spec node)) = Ok ip) ∧
  (ns_Transport (Spec node) = RDMATransportRoCEv2 ∨ ns_Transport (Spec node) = RDMATransportInfiniBand).
Proof.
  unfold rdma_Validate. cbv zeta.
  destruct (FindStatusCondition _ _) as [c|]; [|split; [done|by intros [(? & ? & _) _]]].
  case_bool_decide as Hc; simpl.
  - destruct (HeartbeatIsFresh _ _); [|split; [done|by intros (_ & ? & _)]].
    destruct (ParseUsableIP _) as [ip|e]; [|split; [done|by intros (_ & _ & [? ?] & _)]].
    simpl. repeat case_bool_decide; simpl; (split; [intros H'|intros (_ & _ & _ & [?|?])]); done || eauto 10.
  - split; [done|]. by intros [(? & [= <-] & ?) _].
Qed.

End Readiness.
