(* ===== verification/Prog.v ===== *)
(** * Effectful programs

    A function of the sources that talks to the API server, takes a mutex, reads
    the clock or drives a plugin is a program: a tree of operations whose
    continuations take the replies.  Every failing reply is a branch of the
    tree, so a statement about a program covers all its error paths.

    [wp] gives programs a rely/guarantee semantics.  Between two operations the
    environment may change the world within [rely]; every operation of the
    program must stay within [guar] and keep the invariant.  [pool_invariant] is
    the soundness theorem: in every interleaving of any number of such programs
    and the environment the invariant holds. *)

From S2P Require Import Prelude.

Inductive prog (Op : Type) (Rep : Op → Type) (A : Type) : Type :=
  | Ret (a : A)
  | Vis (o : Op) (k : Rep o → prog Op Rep A).
Arguments Ret {Op Rep A}.
Arguments Vis {Op Rep A}.

Section Prog.
Context {Op : Type} {Rep : Op → Type}.

Fixpoint bind {A B} (p : prog Op Rep A) (f : A → prog Op Rep B) : prog Op Rep B :=
  match p with
  | Ret a => f a
  | Vis o k => Vis o (λ x, bind (k x) f)
  end.

Definition call (o : Op) : prog Op Rep (Rep o) := Vis o Ret.

(** [for] over a list with early return: [inl] continues with the loop state,
    [inr] leaves the loop. *)
Fixpoint for_each {A S B} (l : list A) (s : S) (f : A → S → prog Op Rep (S + B)) : prog Op Rep (S + B) :=
  match l with
  | [] => Ret (inl s)
  | a :: l => bind (f a s) (λ r, match r with inl s => for_each l s f | inr b => Ret (inr b) end)
  end.

(** An endless loop, run for at most [fuel] rounds: [inl] goes on, [inr] leaves;
    [None] when the rounds are used up. *)
Fixpoint iterate {S A} (fuel : nat) (body : S → prog Op Rep (S + A)) (s : S) : prog Op Rep (option A) :=
  match fuel with
  | O => Ret None
  | Datatypes.S fuel =>
    bind (body s) (λ r, match r with inl s => iterate fuel body s | inr a => Ret (Some a) end)
  end.

End Prog.

Notation "'let!' x ':=' p 'in' k" := (bind p (λ x, k))
  (at level 10, x pattern, k at level 200) : go_scope.
(** A call returning a value and an error: continue with the value, or return
    the error. *)
Notation "'let!?' x ':=' p 'in' k" :=
    (bind p (λ r, match r with inl x => k | inr e => Ret (inr e) end))
  (at level 10, x name, k at level 200) : go_scope.
(** A call returning only an error: continue, or return the error. *)
Notation "'check!' p 'in' k" :=
    (bind p (λ r, match r with None => k | Some e => Ret (inr e) end))
  (at level 10, k at level 200) : go_scope.
(** A call that may run out of rounds. *)
Notation "'let~' x ':=' p 'in' k" :=
    (bind p (λ r, match r with Some x => k | None => Ret None end))
  (at level 10, x name, k at level 200) : go_scope.
Notation "p ;;; q" := (bind p (λ _, q)) (at level 80, q at level 200, right associativity) : go_scope.

(** What wakes a [select] over a ticker, a timer and the context. *)
Inductive wakeup := Tick | TimedOut | CtxDone (e : CtxErr).

(** Only the error of a write. *)
Definition error_of {A} (r : result A) : option error := match r with inl _ => None | inr e => Some e end.

(** Evaluation of a program against a deterministic handler. *)
Fixpoint run {Op Rep W A} (handle : W → ∀ o : Op, Rep o * W) (p : prog Op Rep A) (w : W) : A * W :=
  match p with
  | Ret a => (a, w)
  | Vis o k => let '(x, w') := handle w o in run handle (k x) w'
  end.

Section Logic.
Context {Op : Type} {Rep : Op → Type} {W : Type}.

(** What an operation may reply and do to the world. *)
Variable step : W → ∀ o : Op, Rep o → W → Prop.
Variables rely guar : W → W → Prop.
Variable inv : W → Prop.

Fixpoint wp {A} (p : prog Op Rep A) (w : W) (Q : A → W → Prop) : Prop :=
  match p with
  | Ret a => ∀ w1, rely w w1 → inv w1 → Q a w1
  | Vis o k => ∀ w1 x w2, rely w w1 → inv w1 → step w1 o x w2 →
      guar w1 w2 ∧ inv w2 ∧ wp (k x) w2 Q
  end.

Hypothesis rely_refl : ∀ w, rely w w.
Hypothesis rely_trans : ∀ w1 w2 w3, rely w1 w2 → rely w2 w3 → rely w1 w3.

Lemma wp_mono {A} (p : prog Op Rep A) w (Q Q' : A → W → Prop) :
  (∀ a w, Q a w → Q' a w) → wp p w Q → wp p w Q'.
Proof.
  revert w. induction p as [a|o k IH]; intros w HQ H; simpl in *.
  - by eauto.
  - intros w1 x w2 H1 Hi H2. destruct (H w1 x w2 H1 Hi H2) as (? & ? & ?). eauto.
Qed.

Lemma wp_rely {A} (p : prog Op Rep A) w w' Q : rely w w' → wp p w Q → wp p w' Q.
Proof. destruct p; simpl; intros Hr H; eauto. Qed.

Lemma wp_bind {A B} (p : prog Op Rep A) (f : A → prog Op Rep B) w Q :
  inv w → wp p w (λ a w', inv w' → wp (f a) w' Q) → wp (bind p f) w Q.
Proof.
  revert w. induction p as [a|o k IH]; intros w Hi H; simpl in *; [by eauto|].
  intros w1 x w2 H1 Hi1 H2. destruct (H w1 x w2 H1 Hi1 H2) as (? & ? & ?). eauto.
Qed.

Lemma wp_call {B} o (f : Rep o → prog Op Rep B) w Q :
  (∀ w1 x w2, rely w w1 → inv w1 → step w1 o x w2 → guar w1 w2 ∧ inv w2 ∧ wp (f x) w2 Q) →
  wp (bind (call o) f) w Q.
Proof. done. Qed.

(** The invariant rule of [for_each]; the loop invariant sees the elements
    already visited. *)
Lemma wp_for_each {A S B} (f : A → S → prog Op Rep (S + B)) (L : list A → S → W → Prop)
    (Q : S + B → W → Prop) l :
  (∀ pre a post s w, l = pre ++ a :: post → inv w → L pre s w →
    wp (f a s) w (λ r w', match r with inl s' => L (pre ++ [a]) s' w' | inr b => Q (inr b) w' end)) →
  (∀ pre s w w', rely w w' → inv w' → L pre s w → L pre s w') →
  (∀ b w w', rely w w' → inv w' → Q (inr b) w → Q (inr b) w') →
  (∀ s w, L l s w → Q (inl s) w) →
  ∀ s w, inv w → L [] s w → wp (for_each l s f) w Q.
Proof.
  intros Hf HL HQ Hend s w Hi H0.
  enough (∀ post pre s w, l = pre ++ post → inv w → L pre s w → wp (for_each post s f) w Q) as Hgen
    by (by apply (Hgen l [])).
  clear s w Hi H0. induction post as [|a post IH]; intros pre s w Hl Hi HLw; simpl.
  - intros w1 Hr Hi1. apply Hend. rewrite app_nil_r in Hl. subst. by eapply HL.
  - apply wp_bind; [done|]. eapply wp_mono; [|by eapply Hf]. intros [s'|b] w' Hb Hi'.
    + apply (IH (pre ++ [a])); [by rewrite <- app_assoc|done|done].
    + simpl. eauto.
Qed.

(** The invariant rule of [iterate]. *)
Lemma wp_iterate {S A} (body : S → prog Op Rep (S + A)) (L : S → W → Prop) (Q : option A → W → Prop) n s w :
  (∀ s w, inv w → L s w → wp (body s) w (λ r w', match r with inl s' => L s' w' | inr a => Q (Some a) w' end)) →
  (∀ s w, L s w → Q None w) → (∀ s w w', rely w w' → L s w → L s w') → (∀ a w w', rely w w' → Q a w → Q a w') →
  inv w → L s w → wp (iterate n body s) w Q.
Proof.
  intros Hb Hn HL HQ. revert s w. induction n as [|n IH]; intros s w Hi Hs; simpl; [intros w1 H1 _; eauto|].
  apply wp_bind; [done|]. eapply wp_mono; [|by apply Hb]. intros [s'|a] w' H Hi'; [by apply IH|].
  intros w1 Hr _. eapply HQ; [exact Hr|done].
Qed.

(** Operations that change nothing. *)
Lemma wp_call_read {B} o (f : Rep o → prog Op Rep B) w Q : (∀ w x w', step w o x w' → w' = w) → (∀ w, guar w w) →
  (∀ w1 x, rely w w1 → inv w1 → step w1 o x w1 → wp (f x) w1 Q) → wp (Vis o f) w Q.
Proof. intros Hs Hg H w1 x w2 Hr Hi H2. pose proof (Hs _ _ _ H2) as ->. by auto. Qed.

(** ** Interleavings *)

(** The environment acts before every operation; the states before and after
    each operation of the program are recorded. *)
Inductive disturbed {A} (env : W → W → Prop) : prog Op Rep A → W → list (W * W) → prog Op Rep A → W → Prop :=
  | disturbed_nil p w : disturbed env p w [] p w
  | disturbed_cons o k w w1 x w2 t q w' : env w w1 → step w1 o x w2 → disturbed env (k x) w2 t q w' →
      disturbed env (Vis o k) w ((w1, w2) :: t) q w'.

(** In a run that others disturb no more than the program relies on, every
    operation respects the guarantee. *)
Lemma wp_disturbed {A} (env : W → W → Prop) (p q : prog Op Rep A) w t w' Q :
  (∀ w w', inv w → env w w' → rely w w' ∧ inv w') → inv w → wp p w Q → disturbed env p w t q w' →
  inv w' ∧ wp q w' Q ∧ ∀ w1 w2, (w1, w2) ∈ t → guar w1 w2.
Proof.
  intros He Hi Hp Hd. induction Hd as [p w|o k w w1 x w2 t q w' H1 H2 _ IH].
  - split; [done|]. split; [done|]. by intros w1 w2 ?%not_elem_of_nil.
  - destruct (He _ _ Hi H1) as [Hr Hi1]. destruct (Hp w1 x w2 Hr Hi1 H2) as (Hg & Hi2 & Hk).
    destruct (IH Hi2 Hk) as (? & ? & Ht). split; [done|]. split; [done|].
    intros v v' [[= -> ->]|Hin]%elem_of_cons; [done|by apply Ht].
Qed.

End Logic.

Section Pool.
Context {Op : Type} {Rep : Op → Type} {W A : Type}.
Variable step : nat → W → ∀ o : Op, Rep o → W → Prop.
Variable env : W → W → Prop.
Variables rely guar : nat → W → W → Prop.
Variable inv : W → Prop.

(** A pool of running threads: the programs that remain to be run. *)
#[local] Abbreviation pool := (list (prog Op Rep A)).

Inductive pool_step : pool * W → pool * W → Prop :=
  | pool_env ts w w' : env w w' → pool_step (ts, w) (ts, w')
  | pool_op ts i o k w x w' :
      ts !! i = Some (Vis o k) → step i w o x w' →
      pool_step (ts, w) (<[i := k x]> ts, w').

(** A run of one thread of the pool against a handler whose replies are legal. *)
Fixpoint run_legal (i : nat) (handle : W → ∀ o : Op, Rep o * W) (p : prog Op Rep A) (w : W) : Prop :=
  match p with
  | Ret _ => True
  | Vis o k => step i w o (handle w o).1 (handle w o).2 ∧ run_legal i handle (k (handle w o).1) (handle w o).2
  end.

Lemma run_pool i handle p ts w a w' :
  ts !! i = Some p → run_legal i handle p w → run handle p w = (a, w') →
  rtc pool_step (ts, w) (<[i := Ret a]> ts, w').
Proof.
  revert ts w. induction p as [a'|o k IH]; intros ts w Hi Hl Hr; simpl in *.
  - simplify_eq. by rewrite list_insert_id.
  - destruct Hl as [Hs Hl]. destruct (handle w o) as [x w1] eqn:E. simpl in *.
    eapply rtc_l; [by eapply pool_op|]. rewrite <- (list_insert_insert_eq ts i (Ret a) (k x)).
    eapply IH; [|done|done]. apply list_lookup_insert_eq. by eapply lookup_lt_Some.
Qed.

Hypothesis rely_refl : ∀ i w, rely i w w.
Hypothesis rely_trans : ∀ i w1 w2 w3, rely i w1 w2 → rely i w2 w3 → rely i w1 w3.
Hypothesis env_rely : ∀ i w w', inv w → env w w' → rely i w w'.
Hypothesis env_inv : ∀ w w', inv w → env w w' → inv w'.
Hypothesis guar_rely : ∀ i j w w', i ≠ j → guar i w w' → rely j w w'.

Definition pool_ok (ts : pool) (w : W) : Prop :=
  inv w ∧ ∀ i p, ts !! i = Some p → wp (step i) (rely i) (guar i) inv p w (λ _ _, True).

Lemma pool_step_ok c c' : pool_step c c' → pool_ok c.1 c.2 → pool_ok c'.1 c'.2.
Proof.
  intros Hs [Hi Hok]. destruct Hs as [ts w w' He|ts i o k w x w' Hl Hstep]; simpl in *.
  - split; [by eapply env_inv|]. intros i p Hp. eapply wp_rely; [by apply rely_trans|by apply env_rely|by auto].
  - destruct (Hok i _ Hl w x w') as (Hg & Hi' & Hk); [done..|]. split; [done|].
    intros j p Hp. apply list_lookup_insert_Some in Hp as [(-> & <- & _)|[Hij Hp]]; [done|].
    eapply wp_rely; [by apply rely_trans|by eapply guar_rely|by auto].
Qed.

(** In every interleaving of threads that respect their guarantees with each
    other and with the environment, the invariant holds in every state. *)
Lemma pool_invariant ts w ts' w' :
  pool_ok ts w → rtc pool_step (ts, w) (ts', w') → inv w'.
Proof.
  intros H Hr. enough (pool_ok ts' w') as [? _] by done.
  change (pool_ok (ts', w').1 (ts', w').2). change (pool_ok (ts, w).1 (ts, w).2) in H.
  revert H. induction Hr as [|c c1 c2 Hs _ IH]; [done|]. intros H. by eapply IH, pool_step_ok.
Qed.

End Pool.

(** ** Histories

    The operations of a run with their replies, oldest first.  [hwp good] is the
    weakest precondition for a program all of whose operations are justified by
    what came before them, whatever the replies are. *)

Section Histories.
Context {Op : Type} {Rep : Op → Type}.

Definition event : Type := {o : Op & Rep o}.
Definition ev (o : Op) (x : Rep o) : event := existT o x.

(** [h] is what an unfinished or finished run of [p] has done. *)
Inductive emits {A} : prog Op Rep A → list event → Prop :=
  | emits_nil p : emits p []
  | emits_cons o k x h : emits (k x) h → emits (Vis o k) (ev o x :: h).

(** [p] does [h] and returns [a]. *)
Fixpoint returns {A} (p : prog Op Rep A) (h : list event) (a : A) : Prop :=
  match p, h with
  | Ret a', [] => a' = a
  | Vis o k, e :: h => ∃ x, e = ev o x ∧ returns (k x) h a
  | _, _ => False
  end.

Variable good : list event → event → Prop.

Definition justified (h : list event) : Prop :=
  ∀ pre e post, h = pre ++ e :: post → good pre e.

Fixpoint hwp {A} (p : prog Op Rep A) (h : list event) (Q : A → list event → Prop) : Prop :=
  match p with
  | Ret a => Q a h
  | Vis o k => ∀ x, good h (ev o x) ∧ hwp (k x) (h ++ [ev o x]) Q
  end.

Lemma hwp_mono {A} (p : prog Op Rep A) h (Q Q' : A → list event → Prop) :
  (∀ a h, Q a h → Q' a h) → hwp p h Q → hwp p h Q'.
Proof.
  revert h. induction p as [a|o k IH]; intros h HQ H; simpl in *; [by auto|].
  intros x. destruct (H x). eauto.
Qed.

Lemma hwp_bind {A B} (p : prog Op Rep A) (f : A → prog Op Rep B) h Q :
  hwp p h (λ a h', hwp (f a) h' Q) → hwp (bind p f) h Q.
Proof.
  revert h. induction p as [a|o k IH]; intros h H; simpl in *; [done|].
  intros x. destruct (H x). eauto.
Qed.

(** Histories only grow. *)
Lemma hwp_grows {A} (p : prog Op Rep A) h Q : hwp p h Q → hwp p h (λ a h', Q a h' ∧ ∃ t, h' = h ++ t).
Proof.
  revert h. induction p as [a|o k IH]; intros h H; simpl in *; [split; [done|]; exists []; by rewrite app_nil_r|].
  intros x. destruct (H x) as [Hg Hk]. split; [done|]. eapply hwp_mono; [|by apply IH].
  intros a h' [HQ [t ->]]. split; [done|]. exists (ev o x :: t). by rewrite <- app_assoc.
Qed.

Lemma hwp_vis {A} o (k : Rep o → prog Op Rep A) h Q :
  (∀ x, good h (ev o x)) → (∀ x, hwp (k x) (h ++ [ev o x]) Q) → hwp (Vis o k) h Q.
Proof. simpl. auto. Qed.

(** The invariant rule of [for_each]; the loop invariant sees the elements
    still to visit. *)
Lemma hwp_for_each {A S B} (f : A → S → prog Op Rep (S + B)) (L : list A → S → list event → Prop)
    (Q : S + B → list event → Prop) l s h :
  (∀ a rest s h, L (a :: rest) s h →
    hwp (f a s) h (λ r h', match r with inl s' => L rest s' h' | inr b => Q (inr b) h' end)) →
  (∀ s h, L [] s h → Q (inl s) h) → L l s h → hwp (for_each l s f) h Q.
Proof.
  intros Hf Hnil. revert s h. induction l as [|a l IH]; intros s h HL; simpl; [by apply Hnil|].
  apply hwp_bind. eapply hwp_mono; [|by apply Hf]. intros [s'|b] h' H; simpl in *; [by apply IH|done].
Qed.

(** The invariant rule of [iterate]. *)
Lemma hwp_iterate {S A} (body : S → prog Op Rep (S + A)) (I : S → list event → Prop) Q n s h :
  (∀ s h, I s h → hwp (body s) h (λ r h', match r with inl s' => I s' h' | inr a => Q (Some a) h' end)) →
  (∀ s h, I s h → Q None h) → I s h → hwp (iterate n body s) h Q.
Proof.
  intros Hb Hn. revert s h. induction n as [|n IH]; intros s h HI; simpl; [by eapply Hn|].
  apply hwp_bind. eapply hwp_mono; [|by apply Hb]. intros [s'|a] h'; [apply IH|done].
Qed.

Lemma hwp_emits {A} (p : prog Op Rep A) h0 h Q :
  hwp p h0 Q → emits p h → ∀ pre e post, h = pre ++ e :: post → good (h0 ++ pre) e.
Proof.
  intros H Hh. revert h0 H. induction Hh as [|o k x h Hh IH]; intros h0 H pre e post Heq.
  - by destruct pre.
  - destruct (H x) as [Hg Hk]. destruct pre as [|e' pre]; simplify_eq/=.
    + by rewrite app_nil_r.
    + replace (h0 ++ ev o x :: pre) with ((h0 ++ [ev o x]) ++ pre) by (by rewrite <- app_assoc). by eapply IH.
Qed.

(** Soundness: a program that [hwp] accepts only has justified histories. *)
Lemma hwp_justified {A} (p : prog Op Rep A) h Q : hwp p [] Q → emits p h → justified h.
Proof. intros H Hh pre e post Heq. by apply (hwp_emits p [] h Q H Hh pre e post). Qed.

Lemma hwp_returns {A} (p : prog Op Rep A) h0 h a Q : hwp p h0 Q → returns p h a → Q a (h0 ++ h).
Proof.
  revert h0 h. induction p as [a'|o k IH]; intros h0 [|e h] H Hr; simpl in *; try done.
  - subst. by rewrite app_nil_r.
  - destruct Hr as (x & -> & Hr). destruct (H x) as [_ Hk]. apply (IH _ _ _ Hk) in Hr. by rewrite <- app_assoc in Hr.
Qed.

End Histories.

#[global] Arguments hwp {Op Rep} good {A} p h Q : simpl never.

(** Case analysis on the guard that the program tests next. *)
Tactic Notation "guard" ident(H) :=
  match goal with |- hwp _ (if ?b then _ else _) _ _ => destruct b eqn:H end.

(** The history and result of a run against a handler. *)
Fixpoint trace {Op Rep W A} (handle : W → ∀ o : Op, Rep o * W) (p : prog Op Rep A) (w : W)
    : list (@event Op Rep) * A :=
  match p with
  | Ret a => ([], a)
  | Vis o k => let '(x, w') := handle w o in
               let '(h, a) := trace handle (k x) w' in (ev o x :: h, a)
  end.

Lemma trace_returns {Op Rep W A} (handle : W → ∀ o : Op, Rep o * W) (p : prog Op Rep A) w :
  returns p (trace handle p w).1 (trace handle p w).2.
Proof.
  revert w. induction p as [a|o k IH]; intros w; simpl; [done|].
  destruct (handle w o) as [x w']. specialize (IH x w'). destruct (trace handle (k x) w'). by exists x.
Qed.

Lemma trace_run {Op Rep W A} (handle : W → ∀ o : Op, Rep o * W) (p : prog Op Rep A) w : (trace handle p w).2 = (run handle p w).1.
Proof.
  revert w. induction p as [a|o k IH]; intros w; simpl; [done|].
  destruct (handle w o) as [x w']. rewrite <- IH. by destruct (trace handle (k x) w').
Qed.

Lemma returns_emits {Op Rep A} (p : prog Op Rep A) h a : returns p h a → emits p h.
Proof.
  revert h. induction p as [a'|o k IH]; intros [|e h] H; simpl in *; try done; [constructor..|].
  destruct H as (x & -> & H). constructor. by apply IH.
Qed.

Lemma returns_bind {Op Rep A B} (p : prog Op Rep A) (f : A → prog Op Rep B) h b :
  returns (bind p f) h b → ∃ h1 h2 a, h = h1 ++ h2 ∧ returns p h1 a ∧ returns (f a) h2 b.
Proof.
  revert h. induction p as [a|o k IH]; intros h H; simpl in H; [by exists [], h, a|].
  destruct h as [|e h]; [done|]. destruct H as (x & -> & H). apply IH in H as (h1 & h2 & a & -> & H1 & H2).
  exists (ev o x :: h1), h2, a. split_and!; [done|by exists x|done].
Qed.

(** A loop that uses up its fuel has gone round that often: a measure that every
    unfinished round increases by one equals the fuel. *)
Lemma iterate_exhausted {Op Rep S A} (measure : list (@event Op Rep) → nat)
    (body : S → prog Op Rep (S + A)) n s h :
  (∀ h h', measure (h ++ h') = (measure h + measure h')%nat) → measure [] = 0%nat →
  (∀ s h s', returns (body s) h (inl s') → measure h = 1%nat) →
  returns (iterate n body s) h None → measure h = n.
Proof.
  intros Happ H0 Hb. revert s h. induction n as [|n IH]; intros s h H; simpl in H; [by destruct h|].
  apply returns_bind in H as (h1 & h2 & [s'|a] & -> & H1 & H2).
  - rewrite Happ, (Hb _ _ _ H1), (IH _ _ H2). done.
  - by destruct h2.
Qed.

(** ** Retry on conflict

    [retry.RetryOnConflict] of client-go: the function is called again while it
    returns a conflict, a bounded number of times.  The closures of the sources
    change captured variables; [S] is what they capture. *)

Definition IsConflict (e : error) : bool := match e with ApiErr ReasonConflict => true | _ => false end.
Definition IsNotFound (e : error) : bool := match e with ApiErr ReasonNotFound => true | _ => false end.
Definition IsAlreadyExists (e : error) : bool := match e with ApiErr ReasonAlreadyExists => true | _ => false end.

(** [client.IgnoreNotFound] *)
Definition IgnoreNotFound (e : error) : option error := if IsNotFound e then None else Some e.

Fixpoint retry_loop {Op Rep S} (n : nat) (fn : S → prog Op Rep (S * option error)) (s : S)
    : prog Op Rep (S * option error) :=
  let! r := fn s in
  match r with
  | (s', Some e) =>
    if IsConflict e then match n with O => Ret r | Datatypes.S n => retry_loop n fn s' end else Ret r
  | _ => Ret r
  end.

Class RetryLib (Op : Type) (Rep : Op → Type) := {
  RetryOnConflict : ∀ {S : Type}, (S → prog Op Rep (S * option error)) → S → prog Op Rep (S * option error)
}.

(** The documented behaviour: at least one call, and calls again only after a
    conflict. *)
Class RetryLaws {Op Rep} (L : RetryLib Op Rep) := {
  retry_spec : ∀ S (fn : S → prog Op Rep (S * option error)) s,
    ∃ n, RetryOnConflict fn s = retry_loop n fn s
}.

#[export] Instance reference_retry Op Rep : RetryLib Op Rep :=
  {| RetryOnConflict := λ S fn s, retry_loop 4 fn s |}.
#[export] Instance reference_retry_laws Op Rep : RetryLaws (reference_retry Op Rep).
Proof. split. intros. by exists 4%nat. Qed.

Section RetryLogic.
Context {Op : Type} {Rep : Op → Type} {W : Type}.
Variable step : W → ∀ o : Op, Rep o → W → Prop.
Variables rely guar : W → W → Prop.
Variable inv : W → Prop.
Hypothesis rely_refl : ∀ w, rely w w.
Context {L : RetryLib Op Rep} {RL : RetryLaws L}.

Definition is_conflict {S} (r : S * option error) : bool :=
  match r.2 with Some e => IsConflict e | None => false end.

(** A retried function meets a postcondition if every call meets it, given a
    condition [J] that holds at first and again after every conflict. *)
Lemma wp_retry {S} (fn : S → prog Op Rep (S * option error)) (J : S → W → Prop)
    (Q : S * option error → W → Prop) :
  (∀ s w, inv w → J s w → wp step rely guar inv (fn s) w (λ r w', (is_conflict r = true → J r.1 w') ∧ Q r w')) →
  (∀ r w w', rely w w' → inv w' → Q r w → Q r w') →
  ∀ s w, inv w → J s w → wp step rely guar inv (RetryOnConflict fn s) w Q.
Proof.
  intros Hfn HQ s w Hi HJ. destruct (retry_spec S fn s) as [n ->].
  revert s w Hi HJ. induction n as [|n IH]; intros s w Hi HJ; simpl;
    (apply wp_bind; [done..|]; eapply wp_mono; [|by apply Hfn];
     intros [s' [e|]] w' [HJ' HQ'] Hi'; unfold is_conflict in HJ'; simpl in *;
     try destruct (IsConflict e); simpl; eauto).
Qed.

End RetryLogic.

(** ** A quiet environment

    With nothing else running, [wp] is a plain specification of one run. *)

Section Quiet.
Context {Op : Type} {Rep : Op → Type} {W : Type}.
Variable step : W → ∀ o : Op, Rep o → W → Prop.
Variable inv : W → Prop.

Definition qwp {A} (p : prog Op Rep A) (w : W) (Q : A → W → Prop) : Prop :=
  wp step eq (λ _ _, True) inv p w Q.

Lemma qwp_ret {A} (a : A) w Q : Q a w → qwp (Ret a) w Q.
Proof. intros H w1 <- _. done. Qed.

Lemma qwp_vis {A} o (k : Rep o → prog Op Rep A) w Q :
  inv w → (∀ x w', step w o x w' → inv w' ∧ qwp (k x) w' Q) → qwp (Vis o k) w Q.
Proof. intros Hi H w1 x w2 <- _ Hs. destruct (H x w2 Hs). done. Qed.

(** What [qwp] promises holds for a run against any handler that the
    operations allow. *)
Lemma qwp_run {A} handle (p : prog Op Rep A) w Q :
  (∀ w o, inv w → step w o (handle w o).1 (handle w o).2) → inv w → qwp p w Q →
  Q (run handle p w).1 (run handle p w).2.
Proof.
  intros Hh. revert w. induction p as [a|o k IH]; intros w Hi H; simpl in *; [by apply H|].
  destruct (H w _ _ eq_refl Hi (Hh w o Hi)) as (_ & Hi' & H').
  destruct (handle w o) as [x w']. by apply IH.
Qed.

Lemma qwp_mono {A} (p : prog Op Rep A) w (Q Q' : A → W → Prop) :
  (∀ a w, Q a w → Q' a w) → qwp p w Q → qwp p w Q'.
Proof. apply wp_mono. Qed.

Lemma qwp_and {A} (p : prog Op Rep A) w (Q Q' : A → W → Prop) :
  qwp p w Q → qwp p w Q' → qwp p w (λ a w', Q a w' ∧ Q' a w').
Proof.
  unfold qwp. revert w. induction p as [a|o k IH]; intros w H H'; [intros w1 <- Hi; by split; [apply H|apply H']|].
  intros w1 x w2 <- Hi Hs. destruct (H w x w2 eq_refl Hi Hs) as (_ & ? & ?). destruct (H' w x w2 eq_refl Hi Hs) as (_ & _ & ?).
  split_and!; [done|done|]. by apply IH.
Qed.

Lemma qwp_bind {A B} (p : prog Op Rep A) (f : A → prog Op Rep B) w Q :
  inv w → qwp p w (λ a w', inv w' → qwp (f a) w' Q) → qwp (bind p f) w Q.
Proof. by apply wp_bind. Qed.

Lemma qwp_for_each {A S B} (f : A → S → prog Op Rep (S + B)) (L : list A → S → W → Prop)
    (Q : S + B → W → Prop) l :
  (∀ pre a post s w, l = pre ++ a :: post → inv w → L pre s w →
    qwp (f a s) w (λ r w', match r with inl s' => L (pre ++ [a]) s' w' | inr b => Q (inr b) w' end)) →
  (∀ s w, L l s w → Q (inl s) w) →
  ∀ s w, inv w → L [] s w → qwp (for_each l s f) w Q.
Proof.
  intros Hf Hend. apply wp_for_each; try done; by intros; subst.
Qed.

Lemma qwp_retry `{RL : RetryLib Op Rep} {RLL : RetryLaws RL} {S}
    (fn : S → prog Op Rep (S * option error)) (J : S → W → Prop) (Q : S * option error → W → Prop) :
  (∀ s w, inv w → J s w → qwp (fn s) w (λ r w', (is_conflict r = true → J r.1 w') ∧ Q r w')) →
  ∀ s w, inv w → J s w → qwp (RetryOnConflict fn s) w Q.
Proof. intros Hfn. apply wp_retry; try done. intros; by subst. Qed.

End Quiet.

#[global] Arguments qwp {Op Rep W} step inv {A} p w Q : simpl never.

(** ** Runs in a world

    The states a program goes through when it alone changes the world.  The
    replies and effects of an operation are those [step] allows, failures
    included. *)

Section Runs.
Context {Op : Type} {Rep : Op → Type} {W : Type}.
Variable step : W → ∀ o : Op, Rep o → W → Prop.

(** [reaches p w q w']: a run of [p] from [w] is at [q] in [w']. *)
Inductive reaches {A} : prog Op Rep A → W → prog Op Rep A → W → Prop :=
  | reaches_refl p w : reaches p w p w
  | reaches_step o k x w w1 q w' : step w o x w1 → reaches (k x) w1 q w' → reaches (Vis o k) w q w'.

Variable inv : W → Prop.

(** Every state of a run from [w] satisfies [inv], and the result [Q]. *)
Fixpoint swp {A} (p : prog Op Rep A) (w : W) (Q : A → W → Prop) : Prop :=
  inv w ∧ match p with
          | Ret a => Q a w
          | Vis o k => ∀ x w', step w o x w' → swp (k x) w' Q
          end.

Lemma swp_mono {A} (p : prog Op Rep A) w (Q Q' : A → W → Prop) :
  (∀ a w, inv w → Q a w → Q' a w) → swp p w Q → swp p w Q'.
Proof. revert w. induction p as [a|o k IH]; intros w HQ [Hi H]; simpl in *; split; eauto. Qed.

Lemma swp_inv {A} (p : prog Op Rep A) w Q : swp p w Q → inv w.
Proof. by destruct p; intros []. Qed.

Lemma swp_bind {A B} (p : prog Op Rep A) (f : A → prog Op Rep B) w Q :
  swp p w (λ a w', swp (f a) w' Q) → swp (bind p f) w Q.
Proof. revert w. induction p as [a|o k IH]; intros w [Hi H]; simpl in *; [done|]. split; eauto. Qed.

Lemma swp_ret {A} (a : A) w (Q : A → W → Prop) : inv w → Q a w → swp (Ret a) w Q.
Proof. done. Qed.

Lemma swp_vis {A} o (k : Rep o → prog Op Rep A) w Q :
  inv w → (∀ x w', step w o x w' → swp (k x) w' Q) → swp (Vis o k) w Q.
Proof. done. Qed.

(** The invariant rule of [for_each]; the loop invariant sees the elements
    still to visit. *)
Lemma swp_for_each {A S B} (f : A → S → prog Op Rep (S + B)) (L : list A → S → W → Prop)
    (Q : S + B → W → Prop) l s w :
  (∀ a rest s w, L (a :: rest) s w →
    swp (f a s) w (λ r w', match r with inl s' => L rest s' w' | inr b => Q (inr b) w' end)) →
  (∀ s w, L [] s w → inv w ∧ Q (inl s) w) →
  L l s w → swp (for_each l s f) w Q.
Proof.
  intros Hf Hnil. revert s w. induction l as [|a l IH]; intros s w HL; simpl.
  - by apply Hnil.
  - apply swp_bind. eapply swp_mono; [|by apply Hf]. intros [s'|b] w' Hi H; simpl in *; [by apply IH|done].
Qed.

(** The invariant rule of [iterate]. *)
Lemma swp_iterate {S A} (body : S → prog Op Rep (S + A)) (L : S → W → Prop) (Q : option A → W → Prop) n s w :
  (∀ s w, L s w → swp (body s) w (λ r w', match r with inl s' => L s' w' | inr a => Q (Some a) w' end)) →
  (∀ s w, L s w → inv w ∧ Q None w) → L s w → swp (iterate n body s) w Q.
Proof.
  intros Hb Hn. revert s w. induction n as [|n IH]; intros s w HL; simpl; [by eapply Hn|].
  apply swp_bind. eapply swp_mono; [|by apply Hb]. intros [s'|a] w' Hi H; [by apply IH|by split].
Qed.

End Runs.

Lemma swp_weaken {Op Rep W A} (step : W → ∀ o : Op, Rep o → W → Prop) (inv inv' : W → Prop)
    (p : prog Op Rep A) w (Q : A → W → Prop) :
  (∀ w, inv w → inv' w) → swp step inv p w Q → swp step inv' p w Q.
Proof. intros Hi. revert w. induction p as [a|o k IH]; intros w [H1 H2]; split; auto. Qed.

Section RunsSound.
Context {Op : Type} {Rep : Op → Type} {W : Type}.
Variable step : W → ∀ o : Op, Rep o → W → Prop.
Variable inv : W → Prop.
Local Notation swp := (swp step inv).
Local Notation reaches := (reaches step).

(** Soundness. *)
Lemma swp_reaches {A} (p q : prog Op Rep A) w w' Q : reaches p w q w' → swp p w Q → swp q w' Q.
Proof. induction 1 as [|o k x w w1 q w' Hs Hr IH]; [done|]. intros [_ H]. apply IH. by apply H. Qed.

Lemma swp_sound {A} (p q : prog Op Rep A) w w' Q : swp p w Q → reaches p w q w' →
  inv w' ∧ ∀ a, q = Ret a → Q a w'.
Proof.
  intros H Hr. pose proof (swp_reaches _ _ _ _ _ Hr H) as H'. split; [by eapply swp_inv|].
  intros a ->. apply H'.
Qed.

Lemma reaches_trans {A} (p q r : prog Op Rep A) w w1 w2 : reaches p w q w1 → reaches q w1 r w2 → reaches p w r w2.
Proof. induction 1 as [|o k x w w1 q w' Hs Hr IH]; [done|]. intros H. by eapply reaches_step; [|apply IH]. Qed.

Lemma reaches_bind {A B} (p : prog Op Rep A) (f : A → prog Op Rep B) a q w w1 w2 :
  reaches p w (Ret a) w1 → reaches (f a) w1 q w2 → reaches (bind p f) w q w2.
Proof.
  remember (Ret a) as r eqn:Er. induction 1 as [|o k x w w1 q' w' Hs Hr IH]; intros H; subst; [done|].
  by apply (reaches_step _ o _ x w w1); [|apply IH].
Qed.

(** One operation. *)
Lemma reaches_call o x w w' : step w o x w' → reaches (call o) w (Ret x) w'.
Proof. intros H. by eapply (reaches_step _ o _ x w w'); [|apply reaches_refl]. Qed.

(** A run against a handler that [step] allows ends in a state it reaches. *)
Lemma run_reaches {A} (handle : W → ∀ o : Op, Rep o * W) (p : prog Op Rep A) w :
  (∀ w o, step w o (handle w o).1 (handle w o).2) →
  reaches p w (Ret (run handle p w).1) (run handle p w).2.
Proof.
  intros Hh. revert w. induction p as [a|o k IH]; intros w; simpl; [constructor|].
  specialize (Hh w o). destruct (handle w o) as [x w']. by apply (reaches_step _ o k x w w').
Qed.

End RunsSound.

#[global] Arguments swp {Op Rep W} step inv {A} p w Q : simpl never.

(** ** The operations of a program *)

Section Performs.
Context {Op : Type} {Rep : Op → Type}.
Variable P : Op → Prop.

(** Every operation a run may perform satisfies [P]. *)
Fixpoint performs {A} (p : prog Op Rep A) : Prop :=
  match p with
  | Ret _ => True
  | Vis o k => P o ∧ ∀ x, performs (k x)
  end.

Lemma performs_bind {A B} (p : prog Op Rep A) (f : A → prog Op Rep B) :
  performs p → (∀ a, performs (f a)) → performs (bind p f).
Proof. intros Hp Hf. induction p as [a|o k IH]; simpl in *; [done|]. destruct Hp. auto. Qed.

Lemma performs_iterate {S A} n (body : S → prog Op Rep (S + A)) s :
  (∀ s, performs (body s)) → performs (iterate n body s).
Proof.
  intros Hb. revert s. induction n as [|n IH]; intros s; simpl; [done|]. apply performs_bind; [done|]. by intros [s'|a]; simpl.
Qed.

Lemma performs_for_each {A S B} (f : A → S → prog Op Rep (S + B)) l s :
  (∀ a s, performs (f a s)) → performs (for_each l s f).
Proof.
  intros Hf. revert s. induction l as [|a l IH]; intros s; simpl; [done|]. apply performs_bind; [done|].
  by intros [s'|b]; simpl.
Qed.

(** What the operations keep, the program keeps. *)
Lemma swp_performs {W A} (step : W → ∀ o : Op, Rep o → W → Prop) (J : W → Prop) (p : prog Op Rep A) w :
  (∀ w o x w', P o → J w → step w o x w' → J w') → performs p → J w → swp step J p w (λ _ w', J w').
Proof.
  intros HJ. revert w. induction p as [a|o k IH]; intros w Hp Hw; simpl in *; [by apply swp_ret|].
  destruct Hp as [Ho Hk]. apply swp_vis; [done|]. intros x w' Hs. apply IH; [done|]. by eapply HJ.
Qed.

(** Nothing but such operations is added to the history. *)
Lemma hwp_performs {A} good (p : prog Op Rep A) h :
  (∀ h o x, P o → good h (ev o x)) → performs p → hwp good p h (λ _ h', ∃ b, h' = h ++ b ∧ Forall (λ e, P (projT1 e)) b).
Proof.
  intros Hg. revert h. induction p as [a|o k IH]; intros h Hp; simpl in Hp.
  - exists []. by rewrite app_nil_r.
  - destruct Hp as [Ho Hk]. apply hwp_vis; [intros x; by apply Hg|]. intros x. eapply hwp_mono; [|by apply IH].
    intros a h' (b & -> & Hb). exists (ev o x :: b). rewrite <- app_assoc. split; [done|]. by constructor.
Qed.

End Performs.

#[global] Arguments performs {Op Rep} P {A} p : simpl never.

Lemma performs_weaken {Op Rep A} (P P' : Op → Prop) (p : prog Op Rep A) :
  (∀ o, P o → P' o) → performs P p → performs P' p.
Proof.
  intros HP. induction p as [a|o k IH]; intros H; [done|]. destruct H as [H Hk]. split; [by apply HP|].
  intros x. by apply IH.
Qed.

(** By the structure of the program; the hints prove the calls to others. *)
Create HintDb performs discriminated.

Ltac performs_step :=
  match goal with
  | |- performs _ (Ret _) => exact I
  | |- performs _ (Vis _ _) => split; [|intros ?]
  | |- performs _ (bind _ _) => apply performs_bind; [|intros ?]
  | |- performs _ (for_each _ _ _) => apply performs_for_each; intros ? ?
  | |- performs _ (iterate _ _ _) => apply performs_iterate; intros ?
  | |- performs _ (match ?x with _ => _ end) => destruct x
  | |- performs _ _ => solve [eauto with performs]
  end.
Ltac performs := repeat performs_step.

(** ** Programs in terms of other programs *)

Section Interp.
Context {Op Op' : Type} {Rep : Op → Type} {Rep' : Op' → Type}.

(** [p] with every operation carried out by a program. *)
Fixpoint interp {A} (impl : ∀ o, prog Op' Rep' (Rep o)) (p : prog Op Rep A) : prog Op' Rep' A :=
  match p with
  | Ret a => Ret a
  | Vis o k => bind (impl o) (λ x, interp impl (k x))
  end.

Context {W : Type}.
Variable step : W → ∀ o : Op', Rep' o → W → Prop.

Lemma reaches_inv {A} (p q : prog Op' Rep' A) w w' : reaches step p w q w' →
  (q = p ∧ w' = w) ∨ match p with Ret _ => False | Vis o k => ∃ x w1, step w o x w1 ∧ reaches step (k x) w1 q w' end.
Proof. destruct 1 as [|o k x w w1 q w' Hs Hr]; [by left|]. right. by exists x, w1. Qed.

(** A run of a sequence is in its first part or has finished it. *)
Lemma reaches_bind_inv {A B} (p : prog Op' Rep' A) (f : A → prog Op' Rep' B) w q w' :
  reaches step (bind p f) w q w' →
  (∃ p', reaches step p w p' w' ∧ q = bind p' f) ∨ (∃ a w1, reaches step p w (Ret a) w1 ∧ reaches step (f a) w1 q w').
Proof.
  revert w. induction p as [a|o k IH]; intros w Hr; simpl in Hr.
  - right. exists a, w. split; [apply reaches_refl|done].
  - apply reaches_inv in Hr as [[-> ->]|(x & w1 & Hs & Hr)].
    + left. exists (Vis o k). split; [apply reaches_refl|done].
    + apply IH in Hr as [(p' & Hp & ->)|(a & w2 & Hp & Hf)].
      * left. exists p'. split; [by eapply reaches_step|done].
      * right. exists a, w2. split; [by eapply reaches_step|done].
Qed.

(** A finished run of [interp impl p] is a run of [p] in the world where an
    operation does what its implementation does. *)
Lemma interp_reaches {A} (impl : ∀ o, prog Op' Rep' (Rep o)) (p : prog Op Rep A) w a w' :
  reaches step (interp impl p) w (Ret a) w' →
  reaches (λ w o x w', reaches step (impl o) w (Ret x) w') p w (Ret a) w'.
Proof.
  revert w. induction p as [b|o k IH]; intros w Hr; simpl in Hr.
  - apply reaches_inv in Hr as [[[= ->] ->]|[]]. apply reaches_refl.
  - apply reaches_bind_inv in Hr as [(p' & Hp & Hq)|(x & w1 & Hp & Hk)].
    + destruct p' as [x|]; [|done]. by eapply reaches_step; [exact Hp|]; apply IH; rewrite Hq; apply reaches_refl.
    + by eapply reaches_step; [exact Hp|]; apply IH.
Qed.

End Interp.
