(* ===== verification/Kube.v ===== *)
(** * The Kubernetes API as the sources use it

    The API server and controller-runtime's client are not part of the
    repository.  The operations the sources perform on them are the type
    [kubeOp]; what an operation may reply and do to the stored objects is a
    parameter of every theorem, constrained by [kube_spec], which states the
    documented behaviour:

    - a live read returns the current object, a cached read some version of
      it, possibly stale;
    - a successful write gives the object a resource version never used
      before; [Update] is refused unless the caller's resource version is
      current; a merge patch is not guarded by the resource version and changes
      exactly the fields in which the caller's object differs from its base;
    - the status subresource changes only the status, the main resource only
      metadata and spec; a change of the spec increments the generation;
    - an object with a deletion time stamp disappears when its last finalizer
      is removed;
    - a not-found, already-exists or conflict reply means that nothing was
      changed; any other error leaves open whether the write was applied.

    [model_serve] is an executable server that satisfies it. *)

From S2P Require Import Prelude GoStrings ApiTypes Prog.

(** ** JSON merge patches

    [patch base new cur]: the current value after the patch that
    [client.MergeFrom(base)] computes for [new]. *)

Class Patchable (A : Type) := patch : A → A → A → A.

Definition patch_atomic {A} `{EqDecision A} (base new cur : A) : A :=
  if decide (base = new) then cur else new.

#[export] Instance patch_string : Patchable string := patch_atomic.
#[export] Instance patch_Z : Patchable Z := patch_atomic.
#[export] Instance patch_bool : Patchable bool := patch_atomic.
#[export] Instance patch_quantity : Patchable Quantity := patch_atomic.
#[export] Instance patch_conditions : Patchable (list Condition) := patch_atomic.
#[export] Instance patch_finalizers : Patchable (list string) := patch_atomic.
#[export] Instance patch_device_state : Patchable NVMeDeviceState := patch_atomic.
#[export] Instance patch_partition_state : Patchable NVMePartitionState := patch_atomic.
#[export] Instance patch_transport : Patchable RDMATransportType := patch_atomic.
#[export] Instance patch_volume_ref : Patchable NVMeVolumeReference := λ b n c,
  {| vr_Name := patch (vr_Name b) (vr_Name n) (vr_Name c);
     vr_UID := patch (vr_UID b) (vr_UID n) (vr_UID c) |}.

#[export] Instance patch_claim_ref : Patchable (option NVMeDeviceClaimReference) := λ b n c,
  match b, n with
  | None, None => c
  | None, Some n => Some n
  | Some _, None => None
  | Some b, Some n =>
    if decide (b = n) then c
    else
      let c := default {| ref_Namespace := ""; ref_Name := ""; ref_UID := "" |} c in
      Some {| ref_Namespace := patch (ref_Namespace b) (ref_Namespace n) (ref_Namespace c);
              ref_Name := patch (ref_Name b) (ref_Name n) (ref_Name c);
              ref_UID := patch (ref_UID b) (ref_UID n) (ref_UID c) |}
  end.

#[export] Instance patch_map : Patchable (gmap string string) := λ b n c,
  filter (λ kv, b !! kv.1 ≠ Some kv.2) n ∪ filter (λ kv, b !! kv.1 = None ∨ n !! kv.1 ≠ None) c.

#[export] Instance patch_partition_spec : Patchable NVMePartitionSpec := λ b n c,
  {|
     ps_Size := patch (ps_Size b) (ps_Size n) (ps_Size c);
     ps_NodeName := patch (ps_NodeName b) (ps_NodeName n) (ps_NodeName c);
     ps_ParentDeviceSerialNumber := patch (ps_ParentDeviceSerialNumber b) (ps_ParentDeviceSerialNumber n) (ps_ParentDeviceSerialNumber c);
     ps_ClaimRef := patch (ps_ClaimRef b) (ps_ClaimRef n) (ps_ClaimRef c);
     ps_AccessMode := patch (ps_AccessMode b) (ps_AccessMode n) (ps_AccessMode c);
     ps_Filesystem := patch (ps_Filesystem b) (ps_Filesystem n) (ps_Filesystem c);
     ps_RequestFingerprint := patch (ps_RequestFingerprint b) (ps_RequestFingerprint n) (ps_RequestFingerprint c);
     ps_TargetBackend := patch (ps_TargetBackend b) (ps_TargetBackend n) (ps_TargetBackend c);
     ps_VolumeManager := patch (ps_VolumeManager b) (ps_VolumeManager n) (ps_VolumeManager c);
     ps_TargetOptions := patch (ps_TargetOptions b) (ps_TargetOptions n) (ps_TargetOptions c)
  |}.

#[export] Instance patch_partition_status : Patchable NVMePartitionStatus := λ b n c,
  {|
     pt_PlacementFingerprint := patch (pt_PlacementFingerprint b) (pt_PlacementFingerprint n) (pt_PlacementFingerprint c);
     pt_State := patch (pt_State b) (pt_State n) (pt_State c);
     pt_ExternalID := patch (pt_ExternalID b) (pt_ExternalID n) (pt_ExternalID c);
     pt_VolumeID := patch (pt_VolumeID b) (pt_VolumeID n) (pt_VolumeID c);
     pt_BackendVolumeID := patch (pt_BackendVolumeID b) (pt_BackendVolumeID n) (pt_BackendVolumeID c);
     pt_AllocatedCapacity := patch (pt_AllocatedCapacity b) (pt_AllocatedCapacity n) (pt_AllocatedCapacity c);
     pt_SPDKBaseBdev := patch (pt_SPDKBaseBdev b) (pt_SPDKBaseBdev n) (pt_SPDKBaseBdev c);
     pt_SPDKLvstoreName := patch (pt_SPDKLvstoreName b) (pt_SPDKLvstoreName n) (pt_SPDKLvstoreName c);
     pt_SPDKLvstoreUUID := patch (pt_SPDKLvstoreUUID b) (pt_SPDKLvstoreUUID n) (pt_SPDKLvstoreUUID c);
     pt_SPDKLvolName := patch (pt_SPDKLvolName b) (pt_SPDKLvolName n) (pt_SPDKLvolName c);
     pt_SPDKLvolUUID := patch (pt_SPDKLvolUUID b) (pt_SPDKLvolUUID n) (pt_SPDKLvolUUID c);
     pt_NQN := patch (pt_NQN b) (pt_NQN n) (pt_NQN c);
     pt_PortalIP := patch (pt_PortalIP b) (pt_PortalIP n) (pt_PortalIP c);
     pt_PortalPort := patch (pt_PortalPort b) (pt_PortalPort n) (pt_PortalPort c);
     pt_Conditions := patch (pt_Conditions b) (pt_Conditions n) (pt_Conditions c)
  |}.

#[export] Instance patch_device_spec : Patchable NVMeDeviceSpec := λ b n c,
  {|
     ds_NodeName := patch (ds_NodeName b) (ds_NodeName n) (ds_NodeName c);
     ds_PCIAddress := patch (ds_PCIAddress b) (ds_PCIAddress n) (ds_PCIAddress c);
     ds_SerialNumber := patch (ds_SerialNumber b) (ds_SerialNumber n) (ds_SerialNumber c);
     ds_Model := patch (ds_Model b) (ds_Model n) (ds_Model c);
     ds_TotalCapacity := patch (ds_TotalCapacity b) (ds_TotalCapacity n) (ds_TotalCapacity c);
     ds_NUMANode := patch (ds_NUMANode b) (ds_NUMANode n) (ds_NUMANode c)
  |}.

#[export] Instance patch_device_status : Patchable NVMeDeviceStatus := λ b n c,
  {|
     dt_State := patch (dt_State b) (dt_State n) (dt_State c);
     dt_ClaimRef := patch (dt_ClaimRef b) (dt_ClaimRef n) (dt_ClaimRef c);
     dt_FreeCapacity := patch (dt_FreeCapacity b) (dt_FreeCapacity n) (dt_FreeCapacity c);
     dt_ActiveBackend := patch (dt_ActiveBackend b) (dt_ActiveBackend n) (dt_ActiveBackend c);
     dt_Conditions := patch (dt_Conditions b) (dt_Conditions n) (dt_Conditions c)
  |}.

#[export] Instance patch_claim_spec : Patchable NVMeDeviceClaimSpec := λ b n c,
  {|
     cs_SerialNumber := patch (cs_SerialNumber b) (cs_SerialNumber n) (cs_SerialNumber c)
  |}.

#[export] Instance patch_claim_status : Patchable NVMeDeviceClaimStatus := λ b n c,
  {|
     ct_Active := patch (ct_Active b) (ct_Active n) (ct_Active c);
     ct_MatchedDevice := patch (ct_MatchedDevice b) (ct_MatchedDevice n) (ct_MatchedDevice c);
     ct_NodeName := patch (ct_NodeName b) (ct_NodeName n) (ct_NodeName c);
     ct_Conditions := patch (ct_Conditions b) (ct_Conditions n) (ct_Conditions c)
  |}.

#[export] Instance patch_node_spec : Patchable RDMAStorageNodeSpec := λ b n c,
  {|
     ns_NodeName := patch (ns_NodeName b) (ns_NodeName n) (ns_NodeName c);
     ns_RDMAIP := patch (ns_RDMAIP b) (ns_RDMAIP n) (ns_RDMAIP c);
     ns_Transport := patch (ns_Transport b) (ns_Transport n) (ns_Transport c);
     ns_LinkSpeed := patch (ns_LinkSpeed b) (ns_LinkSpeed n) (ns_LinkSpeed c)
  |}.

#[export] Instance patch_node_status : Patchable RDMAStorageNodeStatus := λ b n c,
  {|
     nt_LastHeartbeatTime := patch (nt_LastHeartbeatTime b) (nt_LastHeartbeatTime n) (nt_LastHeartbeatTime c);
     nt_TotalCapacity := patch (nt_TotalCapacity b) (nt_TotalCapacity n) (nt_TotalCapacity c);
     nt_FreeCapacity := patch (nt_FreeCapacity b) (nt_FreeCapacity n) (nt_FreeCapacity c);
     nt_ActiveExports := patch (nt_ActiveExports b) (nt_ActiveExports n) (nt_ActiveExports c);
     nt_Conditions := patch (nt_Conditions b) (nt_Conditions n) (nt_Conditions c)
  |}.

#[export] Instance patch_attachment_spec : Patchable NVMeVolumeAttachmentSpec := λ b n c,
  {|
     as_VolumeRef := patch (as_VolumeRef b) (as_VolumeRef n) (as_VolumeRef c);
     as_NodeID := patch (as_NodeID b) (as_NodeID n) (as_NodeID c);
     as_HostNQN := patch (as_HostNQN b) (as_HostNQN n) (as_HostNQN c);
     as_AttachmentID := patch (as_AttachmentID b) (as_AttachmentID n) (as_AttachmentID c)
  |}.

#[export] Instance patch_attachment_status : Patchable NVMeVolumeAttachmentStatus := λ b n c,
  {|
     at_ObservedAttachmentID := patch (at_ObservedAttachmentID b) (at_ObservedAttachmentID n) (at_ObservedAttachmentID c);
     at_Conditions := patch (at_Conditions b) (at_Conditions n) (at_Conditions c)
  |}.
(** A patch applied to its own base gives the new value. *)
Lemma patch_atomic_same {A} `{EqDecision A} (b n : A) : patch_atomic b n b = n.
Proof. unfold patch_atomic. by case_decide. Qed.

Lemma patch_claim_ref_same (b n : option NVMeDeviceClaimReference) : patch b n b = n.
Proof.
  destruct b as [b|], n as [n|]; simpl; try done. unfold patch, patch_claim_ref. case_decide; [by subst|].
  simpl. unfold patch, patch_string. rewrite !patch_atomic_same. by destruct n.
Qed.

Lemma patch_partition_status_same (b n : NVMePartitionStatus) : patch b n b = n.
Proof.
  unfold patch, patch_partition_status. destruct n; f_equal; apply patch_atomic_same.
Qed.

Lemma patch_device_status_same (b n : NVMeDeviceStatus) : patch b n b = n.
Proof.
  unfold patch, patch_device_status. destruct n; f_equal; try apply patch_atomic_same.
  apply patch_claim_ref_same.
Qed.

Lemma patch_claim_status_same (b n : NVMeDeviceClaimStatus) : patch b n b = n.
Proof. unfold patch, patch_claim_status. destruct n; f_equal; apply patch_atomic_same. Qed.

Lemma patch_node_status_same (b n : RDMAStorageNodeStatus) : patch b n b = n.
Proof. unfold patch, patch_node_status. destruct n; f_equal; apply patch_atomic_same. Qed.

Lemma patch_attachment_status_same (b n : NVMeVolumeAttachmentStatus) : patch b n b = n.
Proof. unfold patch, patch_attachment_status. destruct n; f_equal; apply patch_atomic_same. Qed.

(** ** Objects and stores *)

Inductive kind := KPartition | KDevice | KClaim | KNode | KAttachment.

#[global] Instance kind_eq_dec : EqDecision kind.
Proof. solve_decision. Defined.

Definition KSpec (k : kind) : Type :=
  match k with
  | KPartition => NVMePartitionSpec
  | KDevice => NVMeDeviceSpec
  | KClaim => NVMeDeviceClaimSpec
  | KNode => RDMAStorageNodeSpec
  | KAttachment => NVMeVolumeAttachmentSpec
  end.

Definition KStatus (k : kind) : Type :=
  match k with
  | KPartition => NVMePartitionStatus
  | KDevice => NVMeDeviceStatus
  | KClaim => NVMeDeviceClaimStatus
  | KNode => RDMAStorageNodeStatus
  | KAttachment => NVMeVolumeAttachmentStatus
  end.

Definition obj (k : kind) : Type := KObject (KSpec k) (KStatus k).

#[export] Instance patch_KSpec k : Patchable (KSpec k).
Proof. destruct k; apply _. Defined.
#[export] Instance patch_KStatus k : Patchable (KStatus k).
Proof. destruct k; apply _. Defined.
#[global] Instance KSpec_eq_dec k : EqDecision (KSpec k).
Proof. destruct k; apply _. Defined.
#[global] Instance KStatus_eq_dec k : EqDecision (KStatus k).
Proof. destruct k; apply _. Defined.

(** The objects of one kind, and every version of them there has been, by
    resource version. *)
Record Store (k : kind) := mkStore {
  current : gmap ObjectKey (obj k);
  history : gmap string (obj k)
}.
Arguments mkStore {k}.
Arguments current {k}.
Arguments history {k}.

Record Cluster := {
  partitions : Store KPartition;
  devices : Store KDevice;
  claims : Store KClaim;
  nodes : Store KNode;
  attachments : Store KAttachment
}.

Definition store (c : Cluster) (k : kind) : Store k :=
  match k with
  | KPartition => partitions c
  | KDevice => devices c
  | KClaim => claims c
  | KNode => nodes c
  | KAttachment => attachments c
  end.

Definition set_store (c : Cluster) (k : kind) : Store k → Cluster :=
  match k return Store k → Cluster with
  | KPartition => λ s, {| partitions := s; devices := devices c; claims := claims c; nodes := nodes c; attachments := attachments c |}
  | KDevice => λ s, {| partitions := partitions c; devices := s; claims := claims c; nodes := nodes c; attachments := attachments c |}
  | KClaim => λ s, {| partitions := partitions c; devices := devices c; claims := s; nodes := nodes c; attachments := attachments c |}
  | KNode => λ s, {| partitions := partitions c; devices := devices c; claims := claims c; nodes := s; attachments := attachments c |}
  | KAttachment => λ s, {| partitions := partitions c; devices := devices c; claims := claims c; nodes := nodes c; attachments := s |}
  end.

Definition objects (c : Cluster) (k : kind) : gmap ObjectKey (obj k) := current (store c k).
Definition versions (c : Cluster) (k : kind) : gmap string (obj k) := history (store c k).

Lemma store_set_eq c k s : store (set_store c k s) k = s.
Proof. by destruct k. Qed.
Lemma store_set_ne c k k' s : k ≠ k' → store (set_store c k s) k' = store c k'.
Proof. by destruct k, k'. Qed.

(** ** Operations *)

(** [Live] is the API reader, [Cached] the informer-backed client. *)
Inductive source := Live | Cached.

Inductive kubeOp :=
  | Get (src : source) (k : kind) (key : ObjectKey)
  | List (src : source) (k : kind)
  | Create (k : kind) (o : obj k)
  | Update (k : kind) (o : obj k)
  | Patch (k : kind) (base o : obj k)
  | StatusPatch (k : kind) (base o : obj k)
  | Delete (k : kind) (o : obj k).

(** A write replies with the stored object, which the client copies into the
    caller's. *)
Definition kubeRep (o : kubeOp) : Type :=
  match o with
  | Get _ k _ => result (obj k)
  | List _ k => result (list (obj k))
  | Create k _ | Update k _ | Patch k _ _ | StatusPatch k _ _ => result (obj k)
  | Delete _ _ => option error
  end.

(** ** Documented behaviour *)

Definition same_identity {k} (cur ob : obj k) : Prop :=
  Name (Meta ob) = Name (Meta cur) ∧ Namespace (Meta ob) = Namespace (Meta cur) ∧
  UID (Meta ob) = UID (Meta cur) ∧ DeletionTimestamp (Meta ob) = DeletionTimestamp (Meta cur).

Definition next_generation {k} (cur : obj k) (spec : KSpec k) : Z :=
  if decide (spec = Spec cur) then Generation (Meta cur) else Generation (Meta cur) + 1.

(** [ob] is what an Update of [cur] with [o] stores. *)
Definition updated {k} (cur o ob : obj k) : Prop :=
  same_identity cur ob ∧ Finalizers (Meta ob) = Finalizers (Meta o) ∧
  Annotations (Meta ob) = Annotations (Meta o) ∧ OwnerReferences (Meta ob) = OwnerReferences (Meta o) ∧
  Spec ob = Spec o ∧ Status ob = Status cur ∧ Generation (Meta ob) = next_generation cur (Spec o).

(** [ob] is what a merge patch of the main resource stores. *)
Definition patched {k} (cur base o ob : obj k) : Prop :=
  same_identity cur ob ∧
  Finalizers (Meta ob) = patch (Finalizers (Meta base)) (Finalizers (Meta o)) (Finalizers (Meta cur)) ∧
  Annotations (Meta ob) = patch (Annotations (Meta base)) (Annotations (Meta o)) (Annotations (Meta cur)) ∧
  OwnerReferences (Meta ob) =
    patch_atomic (OwnerReferences (Meta base)) (OwnerReferences (Meta o)) (OwnerReferences (Meta cur)) ∧
  Spec ob = patch (Spec base) (Spec o) (Spec cur) ∧ Status ob = Status cur ∧
  Generation (Meta ob) = next_generation cur (patch (Spec base) (Spec o) (Spec cur)).

(** [ob] is what a merge patch of the status subresource stores. *)
Definition status_patched {k} (cur base o ob : obj k) : Prop :=
  same_identity cur ob ∧ Finalizers (Meta ob) = Finalizers (Meta cur) ∧
  Annotations (Meta ob) = Annotations (Meta cur) ∧ OwnerReferences (Meta ob) = OwnerReferences (Meta cur) ∧
  Spec ob = Spec cur ∧ Status ob = patch (Status base) (Status o) (Status cur) ∧
  Generation (Meta ob) = Generation (Meta cur).

(** A version never used before. *)
Definition fresh_version (c : Cluster) {k} (ob : obj k) : Prop :=
  versions c k !! ResourceVersion (Meta ob) = None.

(** Storing a version; an object being deleted goes with its last finalizer. *)
Definition settle (c : Cluster) (k : kind) (ob : obj k) : Cluster :=
  let s := store c k in
  let key := ObjectKeyFromObject ob in
  set_store c k
    (mkStore
       (if deleting ob && (Finalizers (Meta ob) ==? []) then delete key (current s)
        else <[key := ob]> (current s))
       (<[ResourceVersion (Meta ob) := ob]> (history s))).

Definition remove (c : Cluster) (k : kind) (key : ObjectKey) : Cluster :=
  set_store c k (mkStore (delete key (objects c k)) (versions c k)).

(** A write of [ob] over [cur]: a new version, or nothing if nothing changes. *)
Definition stored {k} (c : Cluster) (cur ob : obj k) (c' : Cluster) : Prop :=
  (fresh_version c ob ∧ c' = settle c k ob) ∨ (ob = cur ∧ c' = c).

Definition update_applied {k} (c : Cluster) (o ob : obj k) (c' : Cluster) : Prop :=
  ∃ cur : obj k, objects c k !! ObjectKeyFromObject o = Some cur ∧
    ResourceVersion (Meta cur) = ResourceVersion (Meta o) ∧ UID (Meta cur) = UID (Meta o) ∧
    updated cur o ob ∧ stored c cur ob c'.

Definition patch_applied {k} (c : Cluster) (base o ob : obj k) (c' : Cluster) : Prop :=
  ∃ cur : obj k, objects c k !! ObjectKeyFromObject o = Some cur ∧
    patched cur base o ob ∧ stored c cur ob c'.

Definition status_patch_applied {k} (c : Cluster) (base o ob : obj k) (c' : Cluster) : Prop :=
  ∃ cur : obj k, objects c k !! ObjectKeyFromObject o = Some cur ∧
    status_patched cur base o ob ∧ stored c cur ob c'.

Definition create_applied {k} (c : Cluster) (o ob : obj k) (c' : Cluster) : Prop :=
  objects c k !! ObjectKeyFromObject o = None ∧
  ObjectKeyFromObject ob = ObjectKeyFromObject o ∧ Spec ob = Spec o ∧
  Finalizers (Meta ob) = Finalizers (Meta o) ∧ Annotations (Meta ob) = Annotations (Meta o) ∧
  OwnerReferences (Meta ob) = OwnerReferences (Meta o) ∧
  DeletionTimestamp (Meta ob) = None ∧ Generation (Meta ob) = 1 ∧
  (∀ v (old : obj k), versions c k !! v = Some old → UID (Meta old) ≠ UID (Meta ob)) ∧
  fresh_version c ob ∧ c' = settle c k ob.

(** Deletion: the object goes at once, or is marked if it has finalizers. *)
Definition delete_applied {k} (c : Cluster) (o : obj k) (c' : Cluster) : Prop :=
  ∃ cur : obj k, objects c k !! ObjectKeyFromObject o = Some cur ∧
    ((Finalizers (Meta cur) = [] ∧ c' = remove c k (ObjectKeyFromObject o)) ∨
     (Finalizers (Meta cur) ≠ [] ∧ deleting cur = true ∧ c' = c) ∨
     (Finalizers (Meta cur) ≠ [] ∧ deleting cur = false ∧
      ∃ ob : obj k, Name (Meta ob) = Name (Meta cur) ∧ Namespace (Meta ob) = Namespace (Meta cur) ∧
        UID (Meta ob) = UID (Meta cur) ∧ Finalizers (Meta ob) = Finalizers (Meta cur) ∧
        Annotations (Meta ob) = Annotations (Meta cur) ∧
        OwnerReferences (Meta ob) = OwnerReferences (Meta cur) ∧ deleting ob = true ∧
        Spec ob = Spec cur ∧ Status ob = Status cur ∧ fresh_version c ob ∧ c' = settle c k ob)).

(** Errors that certify that nothing was written. *)
Definition definite (e : error) : bool := IsNotFound e || IsAlreadyExists e || IsConflict e.

Definition write_spec {k} (applied : obj k → Cluster → Prop) (c : Cluster) (r : result (obj k)) (c' : Cluster) : Prop :=
  match r with
  | inl ob => applied ob c'
  | inr e => c' = c ∨ (definite e = false ∧ ∃ ob : obj k, applied ob c')
  end.

Definition kube_spec (c : Cluster) (o : kubeOp) : kubeRep o → Cluster → Prop :=
  match o with
  | Get Live k key => λ r c', c' = c ∧
      match r with
      | inl ob => objects c k !! key = Some ob
      | inr e => IsNotFound e = true → objects c k !! key = None
      end
  | Get Cached k key => λ r c', c' = c ∧
      match r with
      | inl ob => versions c k !! ResourceVersion (Meta ob) = Some ob ∧ ObjectKeyFromObject ob = key
      | inr _ => True
      end
  | List Live k => λ r c', c' = c ∧
      match r with inl l => l ≡ₚ (map_to_list (objects c k)).*2 | inr _ => True end
  | List Cached k => λ r c', c' = c ∧
      match r with
      | inl l => NoDup (map ObjectKeyFromObject l) ∧
                 Forall (λ ob : obj k, versions c k !! ResourceVersion (Meta ob) = Some ob) l
      | inr _ => True
      end
  | Create k o => λ r c', write_spec (create_applied c o) c r c'
  | Update k o => λ r c', write_spec (update_applied c o) c r c'
  | Patch k base o => λ r c', write_spec (patch_applied c base o) c r c'
  | StatusPatch k base o => λ r c', write_spec (status_patch_applied c base o) c r c'
  | Delete k o => λ r c',
      match r with
      | None => delete_applied c o c'
      | Some e => c' = c ∨ (definite e = false ∧ delete_applied c o c')
      end
  end.

(** ** What every operation keeps *)

(** An object being deleted that nothing holds back any more. *)
Definition gone {k} (ob : obj k) : bool := deleting ob && (Finalizers (Meta ob) ==? []).

(** Objects are stored under their key, every current object is a recorded
    version, and objects that are gone are not stored. *)
Definition cluster_wf (c : Cluster) : Prop := ∀ k,
  (∀ key (ob : obj k), objects c k !! key = Some ob →
     ObjectKeyFromObject ob = key ∧ versions c k !! ResourceVersion (Meta ob) = Some ob) ∧
  (∀ v (ob : obj k), versions c k !! v = Some ob → ResourceVersion (Meta ob) = v) ∧
  (∀ key (ob : obj k), objects c k !! key = Some ob → gone ob = false).

(** Versions are never forgotten or reused. *)
Definition grows (c c' : Cluster) : Prop := ∀ k, versions c k ⊆ versions c' k.

Lemma grows_refl c : grows c c.
Proof. by intros k. Qed.

Lemma grows_trans c1 c2 c3 : grows c1 c2 → grows c2 c3 → grows c1 c3.
Proof. intros H1 H2 k. by transitivity (versions c2 k). Qed.

(** A resource version identifies an object for ever. *)
Lemma version_unique c c' k key (ob ob' : obj k) :
  cluster_wf c' → grows c c' → versions c k !! ResourceVersion (Meta ob) = Some ob →
  objects c' k !! key = Some ob' → ResourceVersion (Meta ob') = ResourceVersion (Meta ob) → ob' = ob.
Proof.
  intros Hwf Hg Hv Ho Hrv. destruct (Hwf k) as [Hk _]. destruct (Hk _ _ Ho) as [_ Hv'].
  rewrite Hrv in Hv'. pose proof (lookup_weaken _ _ _ _ Hv (Hg k)) as Hv2. congruence.
Qed.

Lemma key_same_identity {k} (cur ob : obj k) :
  same_identity cur ob → ObjectKeyFromObject ob = ObjectKeyFromObject cur.
Proof. unfold same_identity, ObjectKeyFromObject. by intros (-> & -> & _). Qed.

Lemma objects_settle_ne c k k' (ob : obj k) : k ≠ k' → objects (settle c k ob) k' = objects c k'.
Proof. intros H. unfold objects, settle. by rewrite store_set_ne. Qed.

Lemma versions_settle_ne c k k' (ob : obj k) : k ≠ k' → versions (settle c k ob) k' = versions c k'.
Proof. intros H. unfold versions, settle. by rewrite store_set_ne. Qed.

Lemma versions_settle c k (ob : obj k) :
  versions (settle c k ob) k = <[ResourceVersion (Meta ob) := ob]> (versions c k).
Proof. unfold versions, settle. by rewrite store_set_eq. Qed.

Lemma objects_settle c k (ob : obj k) : objects (settle c k ob) k =
  if deleting ob && (Finalizers (Meta ob) ==? []) then delete (ObjectKeyFromObject ob) (objects c k)
  else <[ObjectKeyFromObject ob := ob]> (objects c k).
Proof. unfold objects, settle. by rewrite store_set_eq. Qed.

Lemma lookup_settle_Some c k (ob ob' : obj k) key :
  objects (settle c k ob) k !! key = Some ob' →
  (key = ObjectKeyFromObject ob ∧ ob' = ob) ∨
  (key ≠ ObjectKeyFromObject ob ∧ objects c k !! key = Some ob').
Proof.
  rewrite objects_settle. destruct (_ && _).
  - intros [? ?]%lookup_delete_Some. auto.
  - intros [[? ?]|[? ?]]%lookup_insert_Some; subst; auto.
Qed.

Lemma lookup_settle_ne c k (ob : obj k) key :
  key ≠ ObjectKeyFromObject ob → objects (settle c k ob) k !! key = objects c k !! key.
Proof.
  intros H. rewrite objects_settle.
  destruct (_ && _); [by rewrite lookup_delete_ne|by rewrite lookup_insert_ne].
Qed.

Lemma grows_settle c k (ob : obj k) : fresh_version c ob → grows c (settle c k ob).
Proof.
  intros Hf k'. destruct (decide (k = k')) as [<-|Hk].
  - rewrite versions_settle. by apply insert_subseteq.
  - by rewrite versions_settle_ne.
Qed.

Lemma wf_settle c k (ob : obj k) : cluster_wf c → fresh_version c ob → cluster_wf (settle c k ob).
Proof.
  intros Hwf Hf k'. destruct (decide (k = k')) as [<-|Hk].
  - destruct (Hwf k) as (Ho & Hv & Hg). rewrite versions_settle. split_and!.
    + intros key ob' [[-> ->]|[Hne Hl]]%lookup_settle_Some.
      * by rewrite lookup_insert_eq.
      * destruct (Ho _ _ Hl) as [? Hv']. split; [done|]. rewrite lookup_insert_ne; [done|].
        intros E. rewrite <- E in Hv'. by rewrite Hf in Hv'.
    + intros v ob' [[? ?]|[? ?]]%lookup_insert_Some; subst; auto.
    + intros key ob'. rewrite objects_settle. fold (gone ob). destruct (gone ob) eqn:E.
      * intros [_ ?]%lookup_delete_Some. by eapply Hg.
      * intros [[_ <-]|[_ ?]]%lookup_insert_Some; [done|by eapply Hg].
  - rewrite objects_settle_ne, versions_settle_ne by done. apply Hwf.
Qed.

Lemma objects_remove_ne c k k' key : k ≠ k' → objects (remove c k key) k' = objects c k'.
Proof. intros H. unfold objects, remove. by rewrite store_set_ne. Qed.

Lemma objects_remove c k key : objects (remove c k key) k = delete key (objects c k).
Proof. unfold remove, objects at 1. by rewrite store_set_eq. Qed.

Lemma versions_remove c k k' key : versions (remove c k key) k' = versions c k'.
Proof.
  unfold versions at 1, remove. destruct (decide (k = k')) as [<-|]; [by rewrite store_set_eq|].
  by rewrite store_set_ne.
Qed.

Lemma wf_remove c k key : cluster_wf c → cluster_wf (remove c k key).
Proof.
  intros Hwf k'. rewrite versions_remove. destruct (decide (k = k')) as [<-|Hk].
  - destruct (Hwf k) as (Ho & Hv & Hg). rewrite objects_remove.
    split_and!; [|done|]; intros key' ob [_ ?]%lookup_delete_Some; [by apply Ho|by eapply Hg].
  - rewrite objects_remove_ne by done. apply Hwf.
Qed.

Lemma lookup_settle_eq c k (ob : obj k) : deleting ob = false →
  objects (settle c k ob) k !! ObjectKeyFromObject ob = Some ob.
Proof. intros H. rewrite objects_settle, H. simpl. apply lookup_insert_eq. Qed.

Lemma patch_status_same k (b n : KStatus k) : patch b n b = n.
Proof.
  destruct k; [apply patch_partition_status_same|apply patch_device_status_same|
    apply patch_claim_status_same|apply patch_node_status_same|apply patch_attachment_status_same].
Qed.

(** What a status patch of the current object does. *)
Definition patched_to {k} (c : Cluster) (cur o ob : obj k) (c' : Cluster) : Prop :=
  objects c' k !! ObjectKeyFromObject cur = Some ob ∧
  (∀ key, key ≠ ObjectKeyFromObject cur → objects c' k !! key = objects c k !! key) ∧
  (∀ k', k' ≠ k → objects c' k' = objects c k') ∧
  same_identity cur ob ∧ Finalizers (Meta ob) = Finalizers (Meta cur) ∧
  Generation (Meta ob) = Generation (Meta cur) ∧ Spec ob = Spec cur ∧ Status ob = Status o.

Lemma same_identity_gone {k} (cur ob : obj k) :
  same_identity cur ob → Finalizers (Meta ob) = Finalizers (Meta cur) → gone ob = gone cur.
Proof. intros (_ & _ & _ & Hd) Hf. unfold gone, deleting. by rewrite Hd, Hf. Qed.

Lemma status_patch_effect {k} c (base o cur ob : obj k) c' :
  cluster_wf c → objects c k !! ObjectKeyFromObject o = Some cur → Status base = Status cur →
  status_patch_applied c base o ob c' → patched_to c cur o ob c'.
Proof.
  intros Hwf Hcur Hb (cur' & Hcur' & (Hid & Hf & _ & _ & Hs & Hst & Hgen) & Hstored).
  rewrite Hcur in Hcur'. injection Hcur' as <-.
  destruct (Hwf k) as (Ho & _ & Hg). destruct (Ho _ _ Hcur) as [Hk _]. specialize (Hg _ _ Hcur).
  rewrite <- Hk in Hcur. pose proof (key_same_identity _ _ Hid) as Hkey.
  assert (gone ob = false) as Hgone by (rewrite <- Hg; by apply same_identity_gone).
  rewrite Hb, patch_status_same in Hst. unfold patched_to. rewrite <- Hkey.
  destruct Hstored as [[_ ->]|[-> ->]].
  - split_and!; try done.
    + rewrite objects_settle. fold (gone ob). rewrite Hgone. apply lookup_insert_eq.
    + intros key. apply lookup_settle_ne.
    + intros k' Hk'. by apply objects_settle_ne.
  - by split_and!.
Qed.

(** What another write of the current object does. *)
Definition written_to {k} (c : Cluster) (cur ob : obj k) (c' : Cluster) : Prop :=
  objects c' k !! ObjectKeyFromObject cur = (if gone ob then None else Some ob) ∧
  (∀ key, key ≠ ObjectKeyFromObject cur → objects c' k !! key = objects c k !! key) ∧
  (∀ k', k' ≠ k → objects c' k' = objects c k') ∧ same_identity cur ob.

Lemma stored_effect {k} c (cur ob : obj k) c' :
  cluster_wf c → objects c k !! ObjectKeyFromObject cur = Some cur → same_identity cur ob →
  stored c cur ob c' → written_to c cur ob c'.
Proof.
  intros Hwf Hcur Hid Hst. pose proof (key_same_identity _ _ Hid) as Hkey. unfold written_to.
  destruct Hst as [[_ ->]|[-> ->]].
  - split_and!; try done.
    + rewrite <- Hkey, objects_settle. fold (gone ob).
      destruct (gone ob); [apply lookup_delete_eq|apply lookup_insert_eq].
    + intros key Hne. apply lookup_settle_ne. by rewrite Hkey.
    + intros k' Hk'. by apply objects_settle_ne.
  - destruct (Hwf k) as (_ & _ & Hg). rewrite (Hg _ _ Hcur). by split_and!.
Qed.

(** One change of the store, or none. *)
Inductive change (c : Cluster) : Cluster → Prop :=
  | change_none : change c c
  | change_settle k (ob : obj k) : fresh_version c ob → change c (settle c k ob)
  | change_remove k key : change c (remove c k key).

Lemma change_wf c c' : change c c' → cluster_wf c → cluster_wf c' ∧ grows c c'.
Proof.
  intros [|k ob Hf|k key] Hwf.
  - split; [done|apply grows_refl].
  - split; [by apply wf_settle|by apply grows_settle].
  - split; [by apply wf_remove|]. intros k'. by rewrite versions_remove.
Qed.

Lemma stored_change {k} c (cur ob : obj k) c' : stored c cur ob c' → change c c'.
Proof. intros [[? ->]|[_ ->]]; by constructor. Qed.

Lemma delete_change {k} c (o : obj k) c' : delete_applied c o c' → change c c'.
Proof.
  intros (cur & _ & [[_ ->]|[(_ & _ & ->)|(_ & _ & ob & Hob)]]); try by constructor.
  destruct_and! Hob. subst c'. by constructor.
Qed.

Lemma kube_spec_change c o r c' : kube_spec c o r c' → change c c'.
Proof.
  assert (∀ k (applied : obj k → Cluster → Prop) r, (∀ ob, applied ob c' → change c c') →
    write_spec applied c r c' → change c c') as Hw.
  { intros k applied [ob|e] Ha; simpl; [by apply Ha|]. intros [->|[_ [ob H]]]; [constructor|by eapply Ha]. }
  destruct o as [[] k key|[] k|k o|k o|k b o|k b o|k o]; simpl; intros H;
    try (destruct H as [-> _]; constructor);
    try (eapply Hw, H; intros ob (cur & Hob); destruct_and! Hob; by eapply stored_change).
  - eapply Hw, H. intros ob Hob. unfold create_applied in Hob. destruct_and! Hob. subst. by constructor.
  - destruct r as [e|]; [|by eapply delete_change].
    destruct H as [->|[_ H]]; [constructor|by eapply delete_change].
Qed.

Lemma kube_spec_wf c o r c' : kube_spec c o r c' → cluster_wf c → cluster_wf c' ∧ grows c c'.
Proof. intros H. apply change_wf. by eapply kube_spec_change. Qed.

#[export] Hint Resolve grows_refl kube_spec_change : distort.

(** ** A server *)

Definition set_version (v : string) (m : ObjectMeta) (g : Z) : ObjectMeta :=
  {| Name := Name m; Namespace := Namespace m; UID := UID m; Generation := g; ResourceVersion := v;
     Finalizers := Finalizers m; Annotations := Annotations m; OwnerReferences := OwnerReferences m;
     DeletionTimestamp := DeletionTimestamp m |}.

Definition next_version (c : Cluster) (k : kind) : string :=
  infinite_fresh (map_to_list (versions c k)).*1.

Definition zero_status (k : kind) : KStatus k :=
  match k with
  | KPartition => {| pt_PlacementFingerprint := ""; pt_State := NVMePartitionStateUnset; pt_ExternalID := "";
      pt_VolumeID := ""; pt_BackendVolumeID := ""; pt_AllocatedCapacity := NewQuantity 0; pt_SPDKBaseBdev := "";
      pt_SPDKLvstoreName := ""; pt_SPDKLvstoreUUID := ""; pt_SPDKLvolName := ""; pt_SPDKLvolUUID := "";
      pt_NQN := ""; pt_PortalIP := ""; pt_PortalPort := 0; pt_Conditions := [] |}
  | KDevice => {| dt_State := NVMeDeviceStateUnset; dt_ClaimRef := None; dt_FreeCapacity := NewQuantity 0;
      dt_ActiveBackend := ""; dt_Conditions := [] |}
  | KClaim => {| ct_Active := false; ct_MatchedDevice := ""; ct_NodeName := ""; ct_Conditions := [] |}
  | KNode => {| nt_LastHeartbeatTime := zeroTime; nt_TotalCapacity := NewQuantity 0;
      nt_FreeCapacity := NewQuantity 0; nt_ActiveExports := 0; nt_Conditions := [] |}
  | KAttachment => {| at_ObservedAttachmentID := ""; at_Conditions := [] |}
  end.

Definition not_found : error := ApiErr ReasonNotFound.

(** Every read is answered from the current state and every legal write is
    applied. *)
Definition model_serve (c : Cluster) (o : kubeOp) : kubeRep o * Cluster :=
  match o with
  | Get _ k key => (match objects c k !! key with Some ob => inl ob | None => inr not_found end, c)
  | List _ k => (inl (map_to_list (objects c k)).*2, c)
  | Create k o =>
    match objects c k !! ObjectKeyFromObject o with
    | Some _ => (inr (ApiErr ReasonAlreadyExists), c)
    | None =>
      let uid := infinite_fresh (map (λ vo : string * obj k, UID (Meta vo.2)) (map_to_list (versions c k))) in
      let m := {| Name := Name (Meta o); Namespace := Namespace (Meta o); UID := uid; Generation := 1;
                  ResourceVersion := next_version c k; Finalizers := Finalizers (Meta o);
                  Annotations := Annotations (Meta o); OwnerReferences := OwnerReferences (Meta o);
                  DeletionTimestamp := None |} in
      let ob := mkObject m (Spec o) (zero_status k) in
      (inl ob, settle c k ob)
    end
  | Update k o =>
    match objects c k !! ObjectKeyFromObject o with
    | None => (inr not_found, c)
    | Some cur =>
      if (ResourceVersion (Meta cur) ==? ResourceVersion (Meta o)) && (UID (Meta cur) ==? UID (Meta o)) then
        let m := {| Name := Name (Meta cur); Namespace := Namespace (Meta cur); UID := UID (Meta cur);
                    Generation := next_generation cur (Spec o); ResourceVersion := next_version c k;
                    Finalizers := Finalizers (Meta o); Annotations := Annotations (Meta o);
                    OwnerReferences := OwnerReferences (Meta o);
                    DeletionTimestamp := DeletionTimestamp (Meta cur) |} in
        let ob := mkObject m (Spec o) (Status cur) in
        (inl ob, settle c k ob)
      else (inr (ApiErr ReasonConflict), c)
    end
  | Patch k base o =>
    match objects c k !! ObjectKeyFromObject o with
    | None => (inr not_found, c)
    | Some cur =>
      let spec := patch (Spec base) (Spec o) (Spec cur) in
      let m := {| Name := Name (Meta cur); Namespace := Namespace (Meta cur); UID := UID (Meta cur);
                  Generation := next_generation cur spec; ResourceVersion := next_version c k;
                  Finalizers := patch (Finalizers (Meta base)) (Finalizers (Meta o)) (Finalizers (Meta cur));
                  Annotations := patch (Annotations (Meta base)) (Annotations (Meta o)) (Annotations (Meta cur));
                  OwnerReferences := patch_atomic (OwnerReferences (Meta base)) (OwnerReferences (Meta o))
                                       (OwnerReferences (Meta cur));
                  DeletionTimestamp := DeletionTimestamp (Meta cur) |} in
      let ob := mkObject m spec (Status cur) in
      (inl ob, settle c k ob)
    end
  | StatusPatch k base o =>
    match objects c k !! ObjectKeyFromObject o with
    | None => (inr not_found, c)
    | Some cur =>
      let ob := mkObject (set_version (next_version c k) (Meta cur) (Generation (Meta cur)))
                  (Spec cur) (patch (Status base) (Status o) (Status cur)) in
      (inl ob, settle c k ob)
    end
  | Delete k o =>
    match objects c k !! ObjectKeyFromObject o with
    | None => (Some not_found, c)
    | Some cur =>
      if Finalizers (Meta cur) ==? [] then (None, remove c k (ObjectKeyFromObject o))
      else if deleting cur then (None, c)
      else
        let m := set_DeletionTimestamp (Some 1)
                   (set_version (next_version c k) (Meta cur) (Generation (Meta cur))) in
        (None, settle c k (mkObject m (Spec cur) (Status cur)))
    end
  end.

Lemma next_version_fresh c k : versions c k !! next_version c k = None.
Proof.
  destruct (versions c k !! next_version c k) as [ob|] eqn:E; [|done].
  apply elem_of_map_to_list in E. destruct (infinite_is_fresh (map_to_list (versions c k)).*1).
  apply list_elem_of_fmap. by exists (next_version c k, ob).
Qed.

Lemma model_serve_documented c o : cluster_wf c → kube_spec c o (model_serve c o).1 (model_serve c o).2.
Proof.
  intros Hwf. pose proof (next_version_fresh c) as Hnv.
  assert (∀ k key ob, objects c k !! key = Some ob → ObjectKeyFromObject ob = key) as Hkey
    by (intros k key ob E; by destruct (proj1 (Hwf k) _ _ E)).
  destruct o as [[] k key|[] k|k o|k o|k b o|k b o|k o]; simpl; try (split; [done|]).
  - by destruct (_ !! key).
  - destruct (objects c k !! key) eqn:E; [|done]. by destruct (proj1 (Hwf k) _ _ E).
  - done.
  - split.
    + rewrite <- list_fmap_compose. rewrite (list_fmap_ext _ fst).
      * apply NoDup_fst_map_to_list.
      * intros i [key ob] E. simpl. apply Hkey.
        apply elem_of_map_to_list. by eapply list_elem_of_lookup_2.
    + apply Forall_fmap, Forall_forall. intros [key ob] E%elem_of_map_to_list.
      by destruct (proj1 (Hwf k) _ _ E).
  - destruct (objects c k !! _) eqn:E; simpl; [by left|]. split_and!; try done.
    + intros v old Hv Hu.
      apply (infinite_is_fresh (map (λ vo : string * obj k, UID (Meta vo.2)) (map_to_list (versions c k)))).
      cbn in Hu. unfold fresh. rewrite <- Hu. apply list_elem_of_fmap. exists (v, old). by rewrite elem_of_map_to_list.
    + apply Hnv.
  - destruct (objects c k !! _) as [cur|] eqn:E; simpl; [|by left].
    destruct (_ && _) eqn:G; simpl; [|by left]. bool_to_prop.
    exists cur. split_and!; try done. left. split; [apply Hnv|done].
  - destruct (objects c k !! _) as [cur|] eqn:E; simpl; [|by left].
    exists cur. split_and!; try done. left. split; [apply Hnv|done].
  - destruct (objects c k !! _) as [cur|] eqn:E; simpl; [|by left].
    exists cur. split_and!; try done. left. split; [apply Hnv|done].
  - destruct (objects c k !! _) as [cur|] eqn:E; simpl; [|by left].
    case_bool_decide; simpl; [exists cur; auto|].
    destruct (deleting cur) eqn:Ed; simpl; exists cur; (split; [done|]); [by auto|].
    right. right. split; [done|]. split; [done|].
    eexists. split_and!; [..|reflexivity]; try done. apply Hnv.
Qed.

(** Write the types of the objects of a concrete kind with the names of the
    resources. *)
Ltac name_kind k spec status resource :=
  try change (obj k) with resource in *; try change (KSpec k) with spec in *;
  try change (KStatus k) with status in *; try change (KObject spec status) with resource in *.
Ltac kn :=
  name_kind KPartition NVMePartitionSpec NVMePartitionStatus NVMePartition;
  name_kind KDevice NVMeDeviceSpec NVMeDeviceStatus NVMeDevice;
  name_kind KClaim NVMeDeviceClaimSpec NVMeDeviceClaimStatus NVMeDeviceClaim;
  name_kind KNode RDMAStorageNodeSpec RDMAStorageNodeStatus RDMAStorageNode;
  name_kind KAttachment NVMeVolumeAttachmentSpec NVMeVolumeAttachmentStatus NVMeVolumeAttachment.

(** ** Concrete clusters *)

Definition mk_store {k} (l : list (obj k)) : Store k :=
  mkStore (list_to_map (map (λ ob, (ObjectKeyFromObject ob, ob)) l))
          (list_to_map (map (λ ob, (ResourceVersion (Meta ob), ob)) l)).

Definition store_wfb (c : Cluster) (k : kind) : bool :=
  bool_decide (map_Forall (λ key (ob : obj k), ObjectKeyFromObject ob = key ∧
    versions c k !! ResourceVersion (Meta ob) = Some ob) (objects c k)) &&
  bool_decide (map_Forall (λ v (ob : obj k), ResourceVersion (Meta ob) = v) (versions c k)) &&
  bool_decide (map_Forall (λ _ (ob : obj k), gone ob = false) (objects c k)).

Lemma cluster_wf_check c :
  forallb (store_wfb c) [KPartition; KDevice; KClaim; KNode; KAttachment] = true → cluster_wf c.
Proof.
  intros H k. assert (store_wfb c k = true) as Hk
    by (rewrite forallb_forall in H; apply H; destruct k; simpl; tauto).
  unfold store_wfb in Hk. bool_to_prop. done.
Qed.

(** The model server as a relation. *)
Definition model_serves (c : Cluster) (o : kubeOp) (r : kubeRep o) (c' : Cluster) : Prop :=
  cluster_wf c ∧ model_serve c o = (r, c').

Lemma model_serves_documented c o r c' : model_serves c o r c' → kube_spec c o r c'.
Proof. intros [Hwf H]. pose proof (model_serve_documented c o Hwf) as Hs. by rewrite H in Hs. Qed.
