(* ===== verification/Host.v ===== *)
(** * Programs on the host

    The plugins of the agent, its discovery and the CSI node service act on the
    host: they read and write files, run commands, and look at their context.
    Each is a program over [hostOp], one operation per call of package os,
    os/exec, net or context.  Replies are arbitrary, so a statement about such a
    program covers every failure of the host.

    The second part models src/internal/agent/plugins/spdk_rpc.go: an SPDK RPC
    is a run of rpc.py whose output is decoded by encoding/json, which is a
    parameter of the type of the result. *)

From S2P Require Import Prelude GoStrings GoPath Prog.

(** os.FileInfo: whether it is a symbolic link, and the file it describes as
    os.SameFile compares it. *)
Record FileInfo := { fi_Symlink : bool; fi_File : Z }.

Inductive hostOp :=
  | CtxErrOp
  | SelectOp
  | Getenv (name : string)
  | ReadFile (path : string)
  | WriteFile (path data : string)
  | Stat (path : string)
  | Lstat (path : string)
  | DeviceNumber (path : string)
  | Mkdir (path : string)
  | MkdirAll (path : string)
  | Remove (path : string)
  | Symlink (target path : string)
  | Readlink (path : string)
  | EvalSymlinks (path : string)
  | ReadDir (path : string)
  | Exec (env : list string) (command : string) (args : list string)
  | Rlimit
  | SetRlimit (cur : Z)
  | ManagedTarget
  | SetManagedTarget (b : bool)
  | TargetExited
  | StartTarget (args : list string)
  | KillTarget
  | ReapTarget
  | InterfaceUp (name : string)
  | InterfaceAddrs (name : string).

Definition hostRep (o : hostOp) : Type :=
  match o with
  | CtxErrOp => option CtxErr
  | SelectOp => wakeup
  | Getenv _ => string
  | ReadFile _ | Readlink _ | EvalSymlinks _ | DeviceNumber _ => result string
  | Stat _ | Lstat _ => result FileInfo
  | WriteFile _ _ | Mkdir _ | MkdirAll _ | Remove _ | Symlink _ _ | StartTarget _ | KillTarget
  | SetRlimit _ => option error
  | ReadDir _ | InterfaceAddrs _ => result (list string)
  | Exec _ _ _ => string * option error
  | Rlimit => result (Z * Z)
  | ManagedTarget | TargetExited | ReapTarget => bool
  | SetManagedTarget _ => unit
  | InterfaceUp _ => result bool
  end.

Abbreviation host A := (prog hostOp hostRep A).
Abbreviation hevent := (@event hostOp hostRep).

Definition hcall (o : hostOp) : host (hostRep o) := call o.

(** exec.CommandContext without additions to the environment. *)
Definition command (cmd : string) (args : list string) : host (string * option error) :=
  call (Rep := hostRep) (Exec [] cmd args).

Definition ctxErr : host (option CtxErr) := call (Rep := hostRep) CtxErrOp.

Section Calls.
Context {W : Type}.
Variable step : W → ∀ o : hostOp, hostRep o → W → Prop.

Lemma reaches_hcall o x w w' : step w o x w' → reaches step (hcall o) w (Ret x) w'.
Proof. apply reaches_call. Qed.

Lemma reaches_command cmd args x w w' : step w (Exec [] cmd args) x w' → reaches step (command cmd args) w (Ret x) w'.
Proof. apply (reaches_call step (Exec [] cmd args)). Qed.

End Calls.

(** The operations of host programs. *)
Ltac performs_call :=
  match goal with
  | |- performs _ (hcall _) => split; [|done]
  | |- performs _ (command _ _) => split; [|done]
  | |- performs _ ctxErr => split; [|done]
  end.
Ltac performs ::= repeat (performs_call || performs_step).

(** os.IsNotExist and os.IsExist. *)
Definition os_IsNotExist (e : error) : bool := match e with OsErr ENOENT => true | _ => false end.
Definition os_IsExist (e : error) : bool := match e with OsErr EEXIST => true | _ => false end.

Lemma os_IsNotExist_true e : os_IsNotExist e = true → e = OsErr ENOENT.
Proof. unfold os_IsNotExist. intros H. repeat case_match; congruence. Qed.

Lemma os_IsExist_true e : os_IsExist e = true → e = OsErr EEXIST.
Proof. unfold os_IsExist. intros H. repeat case_match; congruence. Qed.

(** errors.Join, flattened. *)
Definition errors_Join (errs : list error) : option error :=
  match errs with [] => None | e :: errs => Some (fold_left Join errs e) end.

(** os.ErrProcessDone *)
Definition ErrProcessDone : error := Errorf "os: process already finished".

(** A write whose failure counts only when [tolerated] does not hold of it. *)
Definition unless (tolerated : error → bool) (r : option error) : option error :=
  match r with Some e => if tolerated e then None else Some e | None => None end.

Lemma unless_none f r : unless f r = None → r = None ∨ ∃ e, r = Some e ∧ f e = true.
Proof. destruct r as [e|]; simpl; [|by left]. destruct (f e) eqn:E; [|done]. right. by exists e. Qed.

(** ** Decoding *)

(** json.Unmarshal into a value of type [A]. *)
Class Unmarshal (A : Type) := unmarshal : string → result A.

(** fmt's %q of a string. *)
Class Quoting := quote_q : string → string.

(** ** The SPDK RPC client *)

Definition spdkRPCExecutable : string := "/opt/spdk/scripts/rpc.py".

(** The output given to the JSON decoder: a bare word is quoted first. *)
Definition rpcOutput `{Quoting} (out : string) : string :=
  let out := TrimSpace out in
  match out with
  | EmptyString => out
  | String c _ =>
    if (c ==? "{"%char) || (c ==? "["%char) || (c ==? Ascii.ascii_of_nat 34) then out else quote_q out
  end.

Definition runSPDKRPC (method : string) (args : list string) : host (result string) :=
  let! x := command spdkRPCExecutable (method :: args) in
  match x with
  | (out, None) => Ret (Ok out)
  | (out, Some err) =>
    let! c := ctxErr in
    match c with
    | Some e => Ret (Err (Wrap "spdk_rpc.py interrupted" (CtxError e)))
    | None => Ret (Err (Errorf "spdk_rpc.py failed"))
    end
  end.

(** CallSPDKRPCContext with a nil result, and with a result of type [A]. *)
Definition CallSPDKRPC (method : string) (args : list string) : host (option error) :=
  let! r := runSPDKRPC method args in Ret (error_of r).

Definition CallSPDKRPCInto `{Quoting} {A} `{Unmarshal A} (method : string) (args : list string)
    : host (result A) :=
  let!? out := runSPDKRPC method args in
  match unmarshal (rpcOutput out) with
  | inl v => Ret (Ok v)
  | inr _ => Ret (Err (Errorf "failed to parse SPDK RPC response"))
  end.

(** ** Histories of host programs *)

(** Operations that only look at the host. *)
Definition observes (o : hostOp) : bool :=
  match o with
  | CtxErrOp | SelectOp | Getenv _ | ReadFile _ | Stat _ | Lstat _ | DeviceNumber _ | Readlink _
  | EvalSymlinks _ | ReadDir _ | Rlimit | ManagedTarget | TargetExited | InterfaceUp _
  | InterfaceAddrs _ => true
  | _ => false
  end.

Section Histories.
Variable good : list hevent → hevent → Prop.

Lemma h_ret {A} (a : A) h Q : Q a h → hwp good (Ret a) h Q.
Proof. done. Qed.

Lemma h_call {A} o (k : hostRep o → host A) h Q :
  (∀ x, good h (ev o x)) → (∀ x, hwp good (k x) (h ++ [ev o x]) Q) →
  hwp good (bind (hcall o) k) h Q.
Proof. intros Hg Hk. by apply hwp_vis. Qed.

Hypothesis good_observes : ∀ h o x, observes o = true → good h (ev o x).

Lemma h_look {A} o (k : hostRep o → host A) h Q : observes o = true →
  (∀ x, hwp good (k x) (h ++ [ev o x]) Q) → hwp good (bind (hcall o) k) h Q.
Proof. intros Ho Hk. apply hwp_vis; [|done]. intros x. by apply good_observes. Qed.

(** What a run of an RPC adds to the history. *)
Definition rpc_ran (method : string) (args : list string) (h h' : list hevent) (r : result string) : Prop :=
  ∃ out err, (err = None ∧ r = inl out ∧ h' = h ++ [ev (Rep := hostRep) (Exec [] spdkRPCExecutable (method :: args)) (out, None)] ∨
    ∃ e c e', err = Some e ∧ r = inr e' ∧
      h' = h ++ [ev (Rep := hostRep) (Exec [] spdkRPCExecutable (method :: args)) (out, Some e);
                 ev (Rep := hostRep) CtxErrOp c]).

Lemma runSPDKRPC_hwp method args h Q :
  (∀ x, good h (ev (Rep := hostRep) (Exec [] spdkRPCExecutable (method :: args)) x)) →
  (∀ r h', rpc_ran method args h h' r → Q r h') → hwp good (runSPDKRPC method args) h Q.
Proof.
  intros Hg HQ. unfold runSPDKRPC. apply hwp_vis; [exact Hg|]. intros [out [e|]]; simpl.
  - apply hwp_vis; [intros x; by apply good_observes|]. intros c. simpl.
    assert (∀ e', Q (inr e') ((h ++ [ev (Rep := hostRep) (Exec [] spdkRPCExecutable (method :: args)) (out, Some e)])
              ++ [ev (Rep := hostRep) CtxErrOp c])) as HQ'.
    { intros e'. apply HQ. exists out, (Some e). right. exists e, c, e'. by rewrite <- app_assoc. }
    destruct c; apply HQ'.
  - apply h_ret, HQ. exists out, None. by left.
Qed.

Lemma CallSPDKRPC_hwp method args h Q :
  (∀ x, good h (ev (Rep := hostRep) (Exec [] spdkRPCExecutable (method :: args)) x)) →
  (∀ r h', rpc_ran method args h h' r → Q (error_of r) h') → hwp good (CallSPDKRPC method args) h Q.
Proof. intros Hg HQ. apply hwp_bind, runSPDKRPC_hwp; [done|]. intros r h' Hr. by apply h_ret, HQ. Qed.

End Histories.

(** ** RPCs in a world

    [effect] is what a successful run of rpc.py with the given arguments does,
    [shows] what it prints, and [rest] what the other operations do.  A run that
    fails may still have had its effect. *)

Section RpcWorld.
Context {W : Type}.
Variable effect : list string → W → W → Prop.
Variable shows : list string → W → W → string → Prop.
Variable rest : W → hostOp → W → Prop.

Definition rpc_step (w : W) (o : hostOp) : hostRep o → W → Prop :=
  match o with
  | Exec _ cmd args => λ x w',
    if cmd ==? spdkRPCExecutable then
      match x with
      | (out, None) => effect args w w' ∧ shows args w w' out
      | (_, Some _) => w' = w ∨ effect args w w'
      end
    else rest w o w'
  | o => λ _ w', rest w o w'
  end.

Hypothesis rest_ctx : ∀ w w', rest w CtxErrOp w' → w' = w.
Variable inv : W → Prop.

Lemma runSPDKRPC_swp method args w Q : inv w →
  (∀ w', w' = w ∨ effect (method :: args) w w' → inv w' ∧ ∀ e, Q (inr e) w') →
  (∀ out w', effect (method :: args) w w' → shows (method :: args) w w' out → Q (inl out) w') →
  swp rpc_step inv (runSPDKRPC method args) w Q.
Proof.
  intros Hi Hinv Hk. apply swp_vis; [done|]. intros [out [e|]] w' Hs; unfold rpc_step in Hs;
    rewrite bool_decide_true in Hs by done; simpl.
  - destruct (Hinv w' Hs). apply swp_vis; [done|]. intros c w2 ->%rest_ctx. by destruct c; apply swp_ret.
  - destruct Hs. apply swp_ret; [|by apply Hk]. apply Hinv. auto.
Qed.

(** A call for its effect. *)
Lemma CallSPDKRPC_swp {A} method args (k : option error → host A) w Q : inv w →
  (∀ w', w' = w ∨ effect (method :: args) w w' → inv w' ∧ ∀ e, swp rpc_step inv (k (Some e)) w' Q) →
  (∀ w', effect (method :: args) w w' → swp rpc_step inv (k None) w' Q) →
  swp rpc_step inv (bind (CallSPDKRPC method args) k) w Q.
Proof.
  intros Hi Hinv Hk. unfold CallSPDKRPC. apply swp_bind, swp_bind, runSPDKRPC_swp; [done|..].
  - intros w' Hw. destruct (Hinv w' Hw). split; [done|]. intros e. simpl. by apply swp_ret; simpl.
  - intros out w' Hw _. destruct (Hinv w'); [by right|]. apply swp_ret; [done|]. simpl. by apply Hk.
Qed.

(** A call that only looks, and shows a [V]. *)
Lemma CallSPDKRPCInto_swp {A B} `{Quoting} `{Unmarshal B} method args (V : B → Prop) (k : result B → host A) w Q : inv w →
  (∀ w', effect (method :: args) w w' → w' = w) →
  (∀ out, shows (method :: args) w w out → ∃ v, unmarshal (rpcOutput out) = inl v ∧ V v) →
  (∀ e, swp rpc_step inv (k (inr e)) w Q) → (∀ v, V v → swp rpc_step inv (k (inl v)) w Q) →
  swp rpc_step inv (bind (CallSPDKRPCInto method args) k) w Q.
Proof.
  intros Hi Heq Hshow He Hk. unfold CallSPDKRPCInto. apply swp_bind, swp_bind, runSPDKRPC_swp; [done|..].
  - intros w' [->| ->%Heq]; (split; [done|]); intros e; apply swp_ret; done.
  - intros out w' Hw Hs. rewrite (Heq w' Hw) in *. destruct (Hshow out Hs) as (v & -> & Hv). apply swp_ret; [done|].
    by apply Hk.
Qed.

(** Runs in which the RPC succeeds. *)
Lemma runSPDKRPC_run method args out w w' : effect (method :: args) w w' → shows (method :: args) w w' out →
  reaches rpc_step (runSPDKRPC method args) w (Ret (inl out)) w'.
Proof.
  intros He Hs. eapply reaches_bind; [apply (reaches_command _ _ _ (out, None) w w')|apply reaches_refl].
  unfold rpc_step. by rewrite bool_decide_true.
Qed.

Lemma CallSPDKRPC_run method args out w w' : effect (method :: args) w w' → shows (method :: args) w w' out →
  reaches rpc_step (CallSPDKRPC method args) w (Ret None) w'.
Proof. intros He Hs. eapply reaches_bind; [by apply (runSPDKRPC_run _ _ out w w')|apply reaches_refl]. Qed.

Lemma CallSPDKRPCInto_run `{Quoting} `{Unmarshal B} method args out (v : B) w w' : effect (method :: args) w w' →
  shows (method :: args) w w' out → unmarshal (rpcOutput out) = inl v →
  reaches rpc_step (CallSPDKRPCInto method args) w (Ret (inl v)) w'.
Proof.
  intros He Hs Hv. eapply reaches_bind; [by apply (runSPDKRPC_run _ _ out w w')|]. cbn beta iota. rewrite Hv. apply reaches_refl.
Qed.

End RpcWorld.
