(* ===== verification/Placement.v ===== *)
(** * The placement controller

    Models src/internal/controller/nvmepartition_controller.go and the capacity
    accounting of src/internal/controller/nvmedevice_controller.go.  The
    controller picks a device for every NVMePartition without a node: candidates
    are computed from fresh reads, then one is reserved under the mutex of its
    serial number.

    The last part shows that concurrent reconciles never overcommit a device. *)

From S2P Require Import Prelude GoStrings Encoding Capacity ApiTypes Identity RdmaHealth Prog Kube.

(** ** Operations of the manager process *)

Inductive mgrOp :=
  | MKube (o : kubeOp)
  | MNow
  | MLock (serial : string)
  | MUnlock (serial : string).

Definition mgrRep (o : mgrOp) : Type :=
  match o with
  | MKube o => kubeRep o
  | MNow => Time
  | MLock _ | MUnlock _ => unit
  end.

Abbreviation mgr A := (prog mgrOp mgrRep A).

Definition kube (o : kubeOp) : mgr (kubeRep o) := call (Rep := mgrRep) (MKube o).
Definition timeNow : mgr Time := call (Rep := mgrRep) MNow.
Definition lock (serial : string) : mgr unit := call (Rep := mgrRep) (MLock serial).
Definition unlock (serial : string) : mgr unit := call (Rep := mgrRep) (MUnlock serial).

(** ctrl.Result; no requeue is a zero duration. *)
Record ctrlResult := { RequeueAfter : Z }.
Definition done_result : ctrlResult := {| RequeueAfter := 0 |}.

(** ** Capacity accounting (nvmedevice_controller.go) *)

Fixpoint allocated_loop (serialNumber : string) (usedCapacity : Z) (partitions : list NVMePartition) : result Z :=
  match partitions with
  | [] => Ok usedCapacity
  | partition :: rest =>
    if ps_ParentDeviceSerialNumber (Spec partition) !=? serialNumber
    then allocated_loop serialNumber usedCapacity rest
    else
      match RoundUp (Value (ps_Size (Spec partition))) with
      | inr err => Err (Wrap "NVMePartition has invalid capacity" err)
      | inl allocatedBytes =>
        if sub64 MaxInt64 allocatedBytes <? usedCapacity
        then Err (Errorf "allocated capacity overflow for device serial")
        else allocated_loop serialNumber (add64 usedCapacity allocatedBytes) rest
      end
  end.

Definition allocatedCapacityForDevice (partitions : list NVMePartition) (serialNumber : string) : result Z :=
  allocated_loop serialNumber 0 partitions.

(** ** Helpers of the placement controller *)

Record NVMePartitionReconciler := { APIReader : bool }.

Record placementCandidate := { cand_key : ObjectKey; cand_serial : string; cand_freeBytes : Z }.

Definition reader (r : NVMePartitionReconciler) : source := if APIReader r then Live else Cached.

Definition requestedBackend (partition : NVMePartition) : string :=
  if ps_TargetBackend (Spec partition) ==? "" then "spdk" else ps_TargetBackend (Spec partition).

Definition deviceCanHostPartition (device : NVMeDevice) (partition : NVMePartition) : bool :=
  if (dt_State (Status device) !=? NVMeDeviceStateClaimed) || (dt_ClaimRef (Status device) ==? None)
  then false
  else
    let backend := requestedBackend partition in
    (dt_ActiveBackend (Status device) ==? "") || (dt_ActiveBackend (Status device) ==? backend).

Section Controller.
Context `{AM : ApiMachinery} {RL : RetryLib mgrOp mgrRep}.

Definition inventoryIsReady (node : RDMAStorageNode) : bool :=
  match FindStatusCondition (nt_Conditions (Status node)) NVMeInventoryReadyCondition with
  | Some condition => c_Status condition ==? ConditionTrue
  | None => false
  end.

Definition liveClaimOwnsDevice (src : source) (device : NVMeDevice) : mgr (result bool) :=
  match dt_ClaimRef (Status device) with
  | None => Ret (Ok false)
  | Some ref =>
    if (ref_Namespace ref ==? "") || (ref_Name ref ==? "") || (ref_UID ref ==? "") then Ret (Ok false)
    else
      let key := {| key_Namespace := ref_Namespace ref; key_Name := ref_Name ref |} in
      let! r := kube (Get src KClaim key) in
      match r with
      | inr err => Ret (if IsNotFound err then Ok false else Err err)
      | inl claim =>
        Ret (Ok ((UID (Meta claim) ==? ref_UID ref) && TimePtr_IsZero (DeletionTimestamp (Meta claim)) &&
          ct_Active (Status claim) && (ct_MatchedDevice (Status claim) ==? Name (Meta device)) &&
          (ct_NodeName (Status claim) ==? ds_NodeName (Spec device)) &&
          EqualFold (cs_SerialNumber (Spec claim)) (ds_SerialNumber (Spec device))))
      end
  end.

Definition availableCapacity (device : NVMeDevice) (partitions : list NVMePartition) : result Z :=
  let? usedBytes := allocatedCapacityForDevice partitions (ds_SerialNumber (Spec device)) in
  Ok (Z.max (sub64 (Value (ds_TotalCapacity (Spec device))) usedBytes) 0).

(** The comparison function of the candidates' sort: most free space first,
    then by key. *)
Definition candidate_less (a b : placementCandidate) : bool :=
  if cand_freeBytes a =? cand_freeBytes b
  then String.ltb (key_String (cand_key a)) (key_String (cand_key b))
  else cand_freeBytes b <? cand_freeBytes a.

(** [sort.Slice]; the order is total on distinct keys, so every sorting
    algorithm computes the same list. *)
Fixpoint insert_candidate (c : placementCandidate) (l : list placementCandidate) : list placementCandidate :=
  match l with
  | [] => [c]
  | d :: l' => if candidate_less d c then d :: insert_candidate c l' else c :: l
  end.

Definition sort_candidates (l : list placementCandidate) : list placementCandidate :=
  fold_right insert_candidate [] l.

(** The loop that collects the names of the ready nodes. *)
Definition ready_nodes (rdmaNodes : list RDMAStorageNode) : mgr (gset string) :=
  let! r := for_each (B := False) rdmaNodes ∅ (λ node (ready : gset string),
    let! now := timeNow in
    Ret (inl (if bool_decide (rdma_Validate node now = None) && inventoryIsReady node
              then {[ns_NodeName (Spec node)]} ∪ ready else ready))) in
  Ret (match r with inl s => s | inr f => match f with end end).

(** One iteration of the loop over the devices. *)
Definition consider_device (src : source) (readyNodes : gset string) (partition : NVMePartition)
    (partitions : list NVMePartition) (requestedBytes : Z)
    (device : NVMeDevice) (candidates : list placementCandidate)
    : mgr (list placementCandidate + error) :=
  if bool_decide (ds_NodeName (Spec device) ∉ readyNodes) then Ret (inl candidates)
  else if negb (deviceCanHostPartition device partition) then Ret (inl candidates)
  else
    let!? owned := liveClaimOwnsDevice src device in
    if negb owned then Ret (inl candidates)
    else
      match availableCapacity device partitions with
      | inr err => Ret (inr err)
      | inl freeBytes =>
        Ret (inl (if requestedBytes <=? freeBytes
                  then candidates ++ [{| cand_key := ObjectKeyFromObject device;
                                         cand_serial := ds_SerialNumber (Spec device);
                                         cand_freeBytes := freeBytes |}]
                  else candidates))
      end.

Definition placementCandidates (r : NVMePartitionReconciler) (partition : NVMePartition) (requestedBytes : Z)
    : mgr (result (list placementCandidate)) :=
  let src := reader r in
  let!? devices := kube (List src KDevice) in
  let!? partitions := kube (List src KPartition) in
  let!? rdmaNodes := kube (List src KNode) in
  let! readyNodes := ready_nodes rdmaNodes in
  let!? candidates :=
    for_each devices [] (consider_device src readyNodes partition partitions requestedBytes) in
  Ret (Ok (sort_candidates candidates)).

(** The selection written into the partition's spec. *)
Definition select_device (device : NVMeDevice) (ref : NVMeDeviceClaimReference) (s : NVMePartitionSpec)
    : NVMePartitionSpec :=
  set_ps_ClaimRef
    (Some {| ref_Namespace := ref_Namespace ref; ref_Name := ref_Name ref; ref_UID := ref_UID ref |})
    (set_ps_ParentDeviceSerialNumber (ds_SerialNumber (Spec device))
       (set_ps_NodeName (ds_NodeName (Spec device)) s)).

Definition placement_condition (p : NVMePartition) : Condition :=
  {| c_Type := PlacementAuth.ConditionType; c_Status := ConditionTrue;
     c_ObservedGeneration := Generation (Meta p) + 1; c_Reason := "ManagerSelectedPlacement";
     c_Message := "The management controller authorized this exact node, device, and claim placement" |}.

(** The closure that reserveCandidate retries on conflict; [assigned] is the
    captured variable. *)
Definition reserve_attempt (r : NVMePartitionReconciler) (partitionKey : ObjectKey)
    (candidate : placementCandidate) (requestedBytes : Z) (assigned : bool) : mgr (bool * option error) :=
  let src := reader r in
  let! pr := kube (Get src KPartition partitionKey) in
  match pr with
  | inr err => Ret (assigned, IgnoreNotFound err)
  | inl partition =>
    if (ps_NodeName (Spec partition) !=? "") || negb (TimePtr_IsZero (DeletionTimestamp (Meta partition)))
    then Ret (ps_NodeName (Spec partition) !=? "", None)
    else
      let! dr := kube (Get src KDevice (cand_key candidate)) in
      match dr with
      | inr err => Ret (assigned, if IsNotFound err then None else Some err)
      | inl device =>
        if (ds_SerialNumber (Spec device) !=? cand_serial candidate) ||
           negb (deviceCanHostPartition device partition)
        then Ret (assigned, None)
        else
          let! or := liveClaimOwnsDevice src device in
          match or, dt_ClaimRef (Status device) with
          | inr err, _ => Ret (assigned, Some err)
          | inl true, Some ref =>
            let! nr := kube (Get src KNode {| key_Namespace := ""; key_Name := ds_NodeName (Spec device) |}) in
            match nr with
            | inr err => Ret (assigned, Some err)
            | inl rdmaNode =>
              let! now := timeNow in
              if bool_decide (rdma_Validate rdmaNode now ≠ None) || negb (inventoryIsReady rdmaNode)
              then Ret (assigned, None)
              else
                let! lr := kube (List src KPartition) in
                match lr with
                | inr err => Ret (assigned, Some err)
                | inl partitions =>
                  match availableCapacity device partitions with
                  | inr err => Ret (assigned, Some err)
                  | inl freeBytes =>
                    if freeBytes <? requestedBytes then Ret (assigned, None)
                    else
                      let partition := with_Spec (select_device device ref (Spec partition)) partition in
                      let fingerprint := PlacementAuth.Fingerprint (UID (Meta partition))
                        (ps_NodeName (Spec partition)) (ps_ParentDeviceSerialNumber (Spec partition))
                        (ps_ClaimRef (Spec partition)) in
                      let statusBase := partition in
                      let status := set_pt_PlacementFingerprint fingerprint (Status partition) in
                      let status := set_pt_Conditions
                        (SetStatusCondition (pt_Conditions status) (placement_condition partition)) status in
                      let partition := with_Status status partition in
                      let! sr := kube (StatusPatch KPartition statusBase partition) in
                      match sr with
                      | inr err => Ret (assigned, Some err)
                      | inl partition =>
                        let partition := with_Spec (select_device device ref (Spec partition)) partition in
                        let! ur := kube (Update KPartition partition) in
                        match ur with
                        | inr err => Ret (assigned, Some err)
                        | inl _ => Ret (true, None)
                        end
                      end
                  end
                end
            end
          | inl _, _ => Ret (assigned, None)
          end
      end
  end.

Definition reserveCandidate (r : NVMePartitionReconciler) (partitionKey : ObjectKey)
    (candidate : placementCandidate) (requestedBytes : Z) : mgr (bool * option error) :=
  lock (cand_serial candidate) ;;;
  let! res := RetryOnConflict (reserve_attempt r partitionKey candidate requestedBytes) false in
  unlock (cand_serial candidate) ;;;
  Ret res.

Definition Reconcile (r : NVMePartitionReconciler) (req : ObjectKey) : mgr (result ctrlResult) :=
  let! pr := kube (Get Cached KPartition req) in
  match pr with
  | inr err => Ret (match IgnoreNotFound err with Some err => Err err | None => Ok done_result end)
  | inl partition =>
    if ps_NodeName (Spec partition) !=? "" then Ret (Ok done_result)
    else
      match RoundUp (Value (ps_Size (Spec partition))) with
      | inr err => Ret (Err (Wrap "invalid NVMePartition capacity" err))
      | inl requestedBytes =>
        let!? candidates := placementCandidates r partition requestedBytes in
        if (length candidates =? 0)%nat then Ret (Ok {| RequeueAfter := 5 * Second |})
        else
          let partitionKey := ObjectKeyFromObject partition in
          let! res := for_each candidates tt (λ candidate _,
            let! (assigned, err) := reserveCandidate r partitionKey candidate requestedBytes in
            match err with
            | Some err => Ret (inr (Err err))
            | None => if (assigned : bool) then Ret (inr (Ok done_result)) else Ret (inl tt)
            end) in
          Ret (match res with inl _ => Ok {| RequeueAfter := 5 * Second |} | inr r => r end)
      end
  end.

End Controller.

(** ** The allocated capacity of a device *)

(** The bytes a partition takes on the device of a serial number. *)
Definition part_bytes (serial : string) (p : NVMePartition) : Z :=
  if ps_ParentDeviceSerialNumber (Spec p) ==? serial
  then match RoundUp (Value (ps_Size (Spec p))) with inl r => r | inr _ => 0 end
  else 0.

Definition used_bytes (serial : string) (l : list NVMePartition) : Z :=
  fold_right Z.add 0 (map (part_bytes serial) l).

Lemma part_bytes_range s p : 0 ≤ part_bytes s p ≤ MaxAllocatableBytes.
Proof.
  unfold part_bytes. pose proof MaxAllocatableBytes_val as HM. case_bool_decide; [|lia].
  destruct (RoundUp _) as [r|e] eqn:E; [|lia]. apply RoundUp_ok in E as (Hb & _ & (Hr & _) & ?). lia.
Qed.

Lemma used_bytes_nonneg s l : 0 ≤ used_bytes s l.
Proof.
  unfold used_bytes. induction l as [|p l IH]; simpl; [done|]. pose proof (part_bytes_range s p). lia.
Qed.

#[export] Instance used_bytes_perm s : Proper ((≡ₚ) ==> eq) (used_bytes s).
Proof.
  intros l l' H. unfold used_bytes. induction H; simpl; lia.
Qed.

Lemma used_bytes_cons s p l : used_bytes s (p :: l) = part_bytes s p + used_bytes s l.
Proof. done. Qed.

(** The partitions on a device all have a size that can be rounded. *)
Definition sizes_valid (serial : string) (l : list NVMePartition) : Prop :=
  Forall (λ p, ps_ParentDeviceSerialNumber (Spec p) = serial →
               is_ok (RoundUp (Value (ps_Size (Spec p)))) = true) l.

#[export] Instance sizes_valid_perm s : Proper ((≡ₚ) ==> iff) (sizes_valid s).
Proof. intros l l' H. unfold sizes_valid. by rewrite H. Qed.

Lemma allocated_loop_spec s l acc u : 0 ≤ acc ≤ MaxInt64 →
  allocated_loop s acc l = Ok u ↔
  sizes_valid s l ∧ acc + used_bytes s l ≤ MaxInt64 ∧ u = acc + used_bytes s l.
Proof.
  revert acc. induction l as [|p l IH]; intros acc Hacc; simpl.
  - unfold sizes_valid, used_bytes. simpl. split; [intros [= <-]|intros (_ & _ & ->)].
    + split; [constructor|lia].
    + f_equal. lia.
  - unfold sizes_valid. rewrite Forall_cons, used_bytes_cons. fold (sizes_valid s l).
    unfold part_bytes. case_bool_decide as Hs; simpl.
    + pose proof MaxAllocatableBytes_val as HM. pose proof (used_bytes_nonneg s l) as Hu.
      destruct (RoundUp _) as [a|e] eqn:E; simpl.
      * apply RoundUp_ok in E as (Hb & _ & (Ha & _) & Ham).
        assert (int64 (MaxInt64 - a) ∧ a ≤ MaxInt64) as [? ?] by (unfold int64, MinInt64, MaxInt64 in *; lia).
        unfold sub64. rewrite wrap64_id by done.
        destruct (Z.ltb_spec (MaxInt64 - a) acc).
        -- split; [done|]. lia.
        -- unfold add64. rewrite wrap64_id by (unfold int64, MinInt64, MaxInt64 in *; lia).
           rewrite IH by lia. split; intros (? & ? & ->); split_and!; auto; try lia; tauto.
      * split; [done|]. intros [[Hv _] _]. specialize (Hv Hs). done.
    + rewrite IH by done. split; intros (? & ? & ->); split_and!; auto; try tauto; lia.
Qed.

Lemma availableCapacity_spec (d : NVMeDevice) l free :
  0 ≤ Value (ds_TotalCapacity (Spec d)) ≤ MaxInt64 → availableCapacity d l = Ok free →
  sizes_valid (ds_SerialNumber (Spec d)) l ∧
  free = Z.max (Value (ds_TotalCapacity (Spec d)) - used_bytes (ds_SerialNumber (Spec d)) l) 0.
Proof.
  intros Hd H. unfold availableCapacity, allocatedCapacityForDevice in H.
  apply rbind_ok in H as (u & Hu & [= <-]).
  apply allocated_loop_spec in Hu as (? & ? & ->); [|unfold MaxInt64; lia].
  pose proof (used_bytes_nonneg (ds_SerialNumber (Spec d)) l). split; [done|].
  unfold sub64. rewrite wrap64_id; [f_equal; lia|unfold int64, MinInt64, MaxInt64 in *; lia].
Qed.

(** The allocated capacity of a device is the exact sum of the
    allocations of its partitions: it is computed for every list whose sizes can
    be rounded and whose sum is an int64, it never wraps around, and it does not
    depend on the order in which the API lists the partitions. *)
Theorem allocated_capacity_exact partitions partitions' serial used :
  partitions ≡ₚ partitions' →
  (allocatedCapacityForDevice partitions serial = Ok used ↔
   sizes_valid serial partitions' ∧ used_bytes serial partitions' ≤ MaxInt64 ∧
   used = used_bytes serial partitions').
Proof.
  intros Hp. unfold allocatedCapacityForDevice.
  rewrite allocated_loop_spec by (unfold MaxInt64; lia). by rewrite Hp.
Qed.

Lemma allocated_capacity_exact_witness :
  allocatedCapacityForDevice [PlacementAuth.example_partition 1] "SN1" = Ok 4194304.
Proof.
  apply (allocated_capacity_exact [PlacementAuth.example_partition 1] [PlacementAuth.example_partition 1] "SN1");
    [reflexivity|].
  split; [constructor; [intros _; vm_compute; reflexivity|constructor]|].
  split; [vm_compute; discriminate|vm_compute; reflexivity].
Defined.

(** ** Effect of writes on the allocated capacity *)

Definition used_in (m : gmap ObjectKey NVMePartition) (serial : string) : Z :=
  used_bytes serial (map_to_list m).*2.

Definition used_on (c : Cluster) (serial : string) : Z := used_in (objects c KPartition) serial.

Lemma used_in_delete m key p s : m !! key = Some p →
  used_in m s = part_bytes s p + used_in (delete key m) s.
Proof. intros H. unfold used_in. by rewrite <- (map_to_list_delete _ _ _ H). Qed.

Lemma used_in_insert m key cur p s : m !! key = Some cur →
  used_in (<[key := p]> m) s = used_in m s - part_bytes s cur + part_bytes s p.
Proof.
  intros H. rewrite (used_in_delete m key cur s H). unfold used_in at 1.
  rewrite <- insert_delete_eq, map_to_list_insert by apply lookup_delete_eq.
  rewrite fmap_cons, used_bytes_cons. unfold used_in. simpl. lia.
Qed.

Definition partition_objects (c : Cluster) : gmap ObjectKey NVMePartition := objects c KPartition.

Lemma partition_objects_settle c (ob : NVMePartition) : partition_objects (settle c KPartition ob) =
  if deleting ob && (Finalizers (Meta ob) ==? []) then delete (ObjectKeyFromObject ob) (partition_objects c)
  else <[ObjectKeyFromObject ob := ob]> (partition_objects c).
Proof. exact (objects_settle c KPartition ob). Qed.

Lemma used_on_settle c (cur ob : NVMePartition) s :
  objects c KPartition !! ObjectKeyFromObject ob = Some cur →
  used_on (settle c KPartition ob) s ≤ used_on c s - part_bytes s cur + part_bytes s ob.
Proof.
  intros H. unfold used_on. fold (partition_objects (settle c KPartition ob)) (partition_objects c).
  change (partition_objects c !! ObjectKeyFromObject ob = Some cur) in H.
  rewrite partition_objects_settle. pose proof (part_bytes_range s ob). destruct (_ && _).
  - rewrite (used_in_delete _ _ _ s H). lia.
  - rewrite (used_in_insert _ _ _ _ s H). lia.
Qed.

Lemma used_on_stored c (cur ob : NVMePartition) c' s :
  objects c KPartition !! ObjectKeyFromObject ob = Some cur → stored (k := KPartition) c cur ob c' →
  used_on c' s ≤ used_on c s - part_bytes s cur + part_bytes s ob.
Proof. intros H [[_ ->]|[-> ->]]; [by apply used_on_settle|lia]. Qed.

Lemma stored_version {k} c (cur ob : obj k) c' : cluster_wf c →
  objects c k !! ObjectKeyFromObject cur = Some cur → stored c cur ob c' →
  versions c' k !! ResourceVersion (Meta ob) = Some ob.
Proof.
  intros Hwf Hc [[Hf ->]|[-> ->]]; [by rewrite versions_settle, lookup_insert_eq|].
  by destruct (proj1 (Hwf k) _ _ Hc).
Qed.

(** ** Concurrent reservations *)

(** The state of the manager: the API objects, and which thread holds the
    mutex of a serial number. *)
Record mworld := { cl : Cluster; held : gmap string nat }.

Section Safety.
Context `{AM : ApiMachinery} {RL : RetryLib mgrOp mgrRep} {RLL : RetryLaws RL}.

(** The API server. *)
Variable serve : Cluster → ∀ o : kubeOp, kubeRep o → Cluster → Prop.
Hypothesis serve_documented : ∀ c o r c', serve c o r c' → kube_spec c o r c'.

(** The true capacity of the device with a serial number, and the size of the
    partition with a name. *)
Variable total : string → Z.
Variable sizeof : ObjectKey → Z.

(** One operation of thread [tid].  A mutex is taken only when it is free. *)
Definition mgr_step (tid : nat) (w : mworld) (o : mgrOp) : mgrRep o → mworld → Prop :=
  match o with
  | MKube o => λ r w', serve (cl w) o r (cl w') ∧ held w' = held w
  | MNow => λ _ w', w' = w
  | MLock s => λ _ w', held w !! s = None ∧ w' = {| cl := cl w; held := <[s := tid]> (held w) |}
  | MUnlock s => λ _ w', w' = {| cl := cl w; held := delete s (held w) |}
  end.

(** What the other actors keep to.  Sizes are immutable (a rule of the
    NVMePartition schema) and the name of a partition is not reused with another
    size, so that every version ever stored under a name has the size of the name;
    reported capacities do not exceed the true ones. *)
Record lawful (c : Cluster) : Prop := {
  law_wf : cluster_wf c;
  law_sizes : ∀ v (p : NVMePartition), versions c KPartition !! v = Some p →
    Value (ps_Size (Spec p)) = sizeof (ObjectKeyFromObject p);
  law_devices : ∀ key (d : NVMeDevice), objects c KDevice !! key = Some d →
    0 ≤ Value (ds_TotalCapacity (Spec d)) ≤ Z.min MaxInt64 (total (ds_SerialNumber (Spec d)))
}.

(** No device is overcommitted. *)
Record mgr_inv (w : mworld) : Prop := {
  inv_lawful : lawful (cl w);
  inv_capacity : ∀ serial, serial ≠ "" → used_on (cl w) serial ≤ Z.max 0 (total serial)
}.

Lemma inv_wf w : mgr_inv w → cluster_wf (cl w).
Proof. by intros [[? _ _] _]. Qed.

(** What other actors may do meanwhile: anything lawful that does not place
    partitions on devices or touch the mutexes. *)
Definition external (w w' : mworld) : Prop :=
  grows (cl w) (cl w') ∧ held w' = held w ∧ lawful (cl w') ∧
  ∀ serial, serial ≠ "" → used_on (cl w') serial ≤ used_on (cl w) serial.

Lemma external_inv w w' : external w w' → mgr_inv w → mgr_inv w'.
Proof.
  intros (_ & _ & Hl & Hu) [_ Hc]. split; [done|]. intros s Hs. transitivity (used_on (cl w) s); auto.
Qed.

(** What thread [tid] relies on: versions are never reused, nobody takes or
    releases its mutexes, and nobody else places on a device whose mutex it
    holds. *)
Definition mgr_rely (tid : nat) (w w' : mworld) : Prop :=
  grows (cl w) (cl w') ∧
  (∀ s, held w !! s = Some tid ↔ held w' !! s = Some tid) ∧
  (∀ s, s ≠ "" → held w !! s = Some tid → used_on (cl w') s ≤ used_on (cl w) s).

Definition mgr_guar (tid : nat) (w w' : mworld) : Prop :=
  grows (cl w) (cl w') ∧
  (∀ s t, t ≠ tid → (held w !! s = Some t ↔ held w' !! s = Some t)) ∧
  (∀ s, s ≠ "" → held w !! s ≠ Some tid → used_on (cl w') s ≤ used_on (cl w) s).

Lemma mgr_rely_refl tid w : mgr_rely tid w w.
Proof. split; [apply grows_refl|]. split; intros; [done|lia]. Qed.

Lemma mgr_rely_trans tid w1 w2 w3 : mgr_rely tid w1 w2 → mgr_rely tid w2 w3 → mgr_rely tid w1 w3.
Proof.
  intros (G1 & H1 & U1) (G2 & H2 & U2). split; [by eapply grows_trans|]. split; intros s.
  - rewrite H1. apply H2.
  - intros Hs Hh. transitivity (used_on (cl w2) s); [apply U2; [done|by apply H1]|by apply U1].
Qed.

Lemma external_rely tid w w' : external w w' → mgr_rely tid w w'.
Proof. intros (G & H & _ & U). split; [done|]. rewrite H. split; [done|]. auto. Qed.

Lemma guar_rely i j w w' : i ≠ j → mgr_guar i w w' → mgr_rely j w w'.
Proof.
  intros Hij (G & H & U). split; [done|]. split; [intros s; by apply H|].
  intros s Hs Hh. apply U; [done|]. congruence.
Qed.

Lemma mgr_guar_refl tid w : mgr_guar tid w w.
Proof. split; [apply grows_refl|]. split; [done|]. intros. lia. Qed.

Abbreviation mwp tid := (wp (mgr_step tid) (mgr_rely tid) (mgr_guar tid) mgr_inv).

(** *** Reads *)

Definition is_read (o : mgrOp) : bool :=
  match o with MKube (Get _ _ _) | MKube (List _ _) | MNow => true | _ => false end.

Lemma read_step tid w o r w' : is_read o = true → mgr_step tid w o r w' → w' = w.
Proof.
  destruct w as [c h], w' as [c' h'].
  destruct o as [[src k key|src k| | | | | ]| | | ]; try done; simpl; intros _.
  - intros [Hs Hh]. apply serve_documented in Hs. destruct src; destruct Hs as [-> _]; by subst.
  - intros [Hs Hh]. apply serve_documented in Hs. destruct src; destruct Hs as [-> _]; by subst.
Qed.

Lemma wp_read {B} tid o (f : mgrRep o → mgr B) w Q : is_read o = true →
  (∀ w1 r, mgr_rely tid w w1 → mgr_inv w1 → mgr_step tid w1 o r w1 → mwp tid (f r) w1 Q) →
  mwp tid (Vis o f) w Q.
Proof.
  intros Hr H w1 r w2 Hrel Hi Hs. pose proof (read_step _ _ _ _ _ Hr Hs) as ->.
  split; [apply mgr_guar_refl|]. split; [done|]. by apply H.
Qed.

(** Programs that only read. *)
Fixpoint reads_only {A} (p : mgr A) : Prop :=
  match p with
  | Ret _ => True
  | Vis o k => is_read o = true ∧ ∀ x, reads_only (k x)
  end.

Lemma reads_only_wp {A} tid (p : mgr A) w (J : mworld → Prop) :
  (∀ w w', mgr_rely tid w w' → J w → J w') →
  reads_only p → J w → mwp tid p w (λ _ w', J w').
Proof.
  intros HJ. revert w. induction p as [a|o k IH]; intros w Hp Hw; simpl.
  - intros w1 Hr _. by eapply HJ.
  - destruct Hp as [Ho Hk]. apply wp_read; [done|]. intros w1 r Hr _ _. apply IH; [done|]. by eapply HJ.
Qed.

Lemma reads_only_bind {A B} (p : mgr A) (f : A → mgr B) :
  reads_only p → (∀ a, reads_only (f a)) → reads_only (bind p f).
Proof.
  induction p as [a|o k IH]; simpl; intros Hp Hf; [auto|]. destruct Hp as [? Hk].
  split; [done|]. intros x. by apply IH.
Qed.

Lemma reads_only_for_each {A S B} (l : list A) (s : S) (f : A → S → mgr (S + B)) :
  (∀ a s, reads_only (f a s)) → reads_only (for_each l s f).
Proof.
  intros Hf. revert s. induction l as [|a l IH]; intros s; simpl; [done|].
  apply reads_only_bind; [apply Hf|]. intros [s'|b]; [apply IH|done].
Qed.

Lemma liveClaimOwnsDevice_reads src d : reads_only (liveClaimOwnsDevice src d).
Proof. unfold liveClaimOwnsDevice. repeat case_match; try done. split; [done|]. by intros [?|?]. Qed.

Lemma placementCandidates_reads r p n : reads_only (placementCandidates r p n).
Proof.
  unfold placementCandidates. cbn. split; [done|]. intros [ds|e]; [|done]. cbn. split; [done|].
  intros [ps|e]; [|done]. cbn. split; [done|]. intros [ns|e]; [|done].
  apply reads_only_bind.
  - unfold ready_nodes. apply reads_only_bind; [|done]. apply reads_only_for_each.
    intros; cbn. split; [done|]. done.
  - intros ready. apply reads_only_bind; [|by intros [?|?]].
    apply reads_only_for_each. intros d cs. unfold consider_device.
    case_bool_decide; [done|]. destruct (negb _); [done|].
    apply reads_only_bind; [apply liveClaimOwnsDevice_reads|].
    intros [owned|e]; [|done]. by repeat case_match.
Qed.

(** *** Writes *)

(** A write to one partition that keeps its size and does not overcommit. *)
Lemma stored_inv w (cur ob : NVMePartition) c' :
  mgr_inv w → objects (cl w) KPartition !! ObjectKeyFromObject ob = Some cur →
  stored (k := KPartition) (cl w) cur ob c' →
  Value (ps_Size (Spec ob)) = sizeof (ObjectKeyFromObject ob) →
  (∀ s, s ≠ "" → used_on c' s ≤ Z.max 0 (total s)) →
  ∀ h, mgr_inv {| cl := c'; held := h |}.
Proof.
  intros [[Hwf Hsz Hd] Hc] Hcur Hst Hsize Hcap h.
  destruct (change_wf _ _ (stored_change _ _ _ _ Hst) Hwf) as [Hwf' _].
  split; simpl; [split|done]; [done|..].
  - destruct Hst as [[_ ->]|[_ ->]]; [|done]. rewrite (versions_settle (cl w) KPartition ob).
    intros v p [[_ <-]|[_ ?]]%lookup_insert_Some; [done|by eapply Hsz].
  - destruct Hst as [[_ ->]|[_ ->]]; [|done].
    by rewrite (objects_settle_ne (cl w) KPartition KDevice ob) by done.
Qed.

Lemma current_size w key (p : NVMePartition) : mgr_inv w →
  objects (cl w) KPartition !! key = Some p →
  ObjectKeyFromObject p = key ∧ Value (ps_Size (Spec p)) = sizeof key.
Proof.
  intros [[Hwf Hsz _] _] H. destruct (proj1 (Hwf KPartition) _ _ H) as [<- Hv].
  split; [done|]. by eapply Hsz.
Qed.

Definition same_spec (cur ob : NVMePartition) : Prop :=
  Spec ob = Spec cur ∧ ObjectKeyFromObject ob = ObjectKeyFromObject cur.

Lemma same_spec_bytes cur ob s : same_spec cur ob → part_bytes s ob = part_bytes s cur.
Proof. unfold part_bytes. by intros [-> _]. Qed.

(** A write that keeps the spec changes no allocation. *)
Lemma stored_same_spec tid w (cur ob : NVMePartition) w' :
  mgr_inv w → objects (cl w) KPartition !! ObjectKeyFromObject ob = Some cur → same_spec cur ob →
  stored (k := KPartition) (cl w) cur ob (cl w') → held w' = held w →
  mgr_guar tid w w' ∧ mgr_inv w' ∧ (∀ s, used_on (cl w') s ≤ used_on (cl w) s).
Proof.
  intros Hi Hcur Hsp Hst Hh.
  assert (∀ s, used_on (cl w') s ≤ used_on (cl w) s) as Hu.
  { intros s. pose proof (used_on_stored _ _ _ _ s Hcur Hst). pose proof (same_spec_bytes _ _ s Hsp). lia. }
  destruct (change_wf _ _ (stored_change _ _ _ _ Hst) (inv_wf _ Hi)) as [_ Hg].
  split_and!; [|destruct w' as [c' h']; simpl in *|done].
  - split; [done|]. rewrite Hh. split; [done|]. auto.
  - eapply stored_inv; [done..| |].
    + destruct Hsp as [-> Hk]. rewrite Hk in *. by destruct (current_size _ _ _ Hi Hcur).
    + intros s Hs. pose proof (inv_capacity _ Hi s Hs). pose proof (Hu s). lia.
Qed.

Lemma wp_status_patch {B} tid (base o : NVMePartition) (f : result NVMePartition → mgr B) w Q :
  (∀ w1 w2 r, mgr_rely tid w w1 → mgr_inv w1 → mgr_inv w2 → held w2 = held w1 →
    (∀ s, used_on (cl w2) s ≤ used_on (cl w1) s) →
    (∀ ob, r = inl ob → versions (cl w2) KPartition !! ResourceVersion (Meta ob) = Some ob ∧
       ObjectKeyFromObject ob = ObjectKeyFromObject o) →
    mwp tid (f r) w2 Q) →
  mwp tid (Vis (Rep := mgrRep) (MKube (StatusPatch KPartition base o)) f) w Q.
Proof.
  intros H w1 r w2 Hrel Hi [Hs Hh]. apply serve_documented in Hs.
  assert (∀ ob, status_patch_applied (k := KPartition) (cl w1) base o ob (cl w2) →
    mgr_guar tid w1 w2 ∧ mgr_inv w2 ∧ (∀ s, used_on (cl w2) s ≤ used_on (cl w1) s) ∧
    versions (cl w2) KPartition !! ResourceVersion (Meta ob) = Some ob ∧
    ObjectKeyFromObject ob = ObjectKeyFromObject o) as Happ.
  { intros ob (cur & Hcur & Hpat & Hst). destruct Hpat as (Hid & _ & _ & _ & Hspec & _).
    apply key_same_identity in Hid.
    destruct (proj1 (inv_wf _ Hi KPartition) _ _ Hcur) as [Hk _]. kn. rewrite Hk in Hid.
    destruct (stored_same_spec tid w1 cur ob w2) as (? & ? & ?);
      [done|by rewrite Hid|by split; [|rewrite Hid]|done|done|].
    split_and!; try done.
    apply (stored_version (k := KPartition) (cl w1) cur ob); [by apply inv_wf|kn; by rewrite Hk|done]. }
  destruct r as [ob|e].
  - destruct (Happ ob Hs) as (? & ? & ? & ? & ?). split_and!; [done..|].
    eapply H; try done. by intros ? [= <-].
  - assert (mgr_guar tid w1 w2 ∧ mgr_inv w2 ∧ (∀ s, used_on (cl w2) s ≤ used_on (cl w1) s)) as (? & ? & ?).
    { destruct Hs as [Hc|[_ [ob Hob]]]; [|destruct (Happ ob Hob) as (? & ? & ? & _); done].
      destruct w1, w2; simpl in *; subst. split; [apply mgr_guar_refl|]. split; [done|]. intros. lia. }
    split_and!; [done..|]. eapply H; try done.
Qed.

(** The room that the reservation found on the device. *)
Definition room (w : mworld) (serial : string) (req : Z) : Prop :=
  serial ≠ "" → used_on (cl w) serial + req ≤ total serial.

(** The update that places the partition [ob] read back from the status patch. *)
Lemma update_effect tid w w1 w2 (d : NVMeDevice) ref (ob ob' : NVMePartition) req :
  let s := ds_SerialNumber (Spec d) in
  let o := with_Spec (select_device d ref (Spec ob)) ob in
  mgr_rely tid w w1 → mgr_inv w1 → held w !! s = Some tid → room w s req →
  versions (cl w) KPartition !! ResourceVersion (Meta ob) = Some ob →
  RoundUp (sizeof (ObjectKeyFromObject ob)) = Ok req →
  update_applied (k := KPartition) (cl w1) o ob' (cl w2) → held w2 = held w1 →
  mgr_guar tid w1 w2 ∧ mgr_inv w2.
Proof.
  intros s o (Hg & Hheld & Hused) Hi Hh Hroom Hv Hreq (cur & Hcur & Hrv & _ & Hupd & Hst) Hheld2.
  assert (cur = ob) as ->
    by (eapply (version_unique (cl w) (cl w1) KPartition); [apply Hi|apply Hg|apply Hv|apply Hcur|apply Hrv]).
  destruct Hupd as (Hid & _ & _ & _ & Hspec & _). apply key_same_identity in Hid. kn.
  change (ObjectKeyFromObject o) with (ObjectKeyFromObject ob) in Hcur.
  destruct (current_size _ _ _ Hi Hcur) as [_ Hsz].
  assert (∀ s', part_bytes s' ob' = if s ==? s' then req else 0) as Hpb.
  { intros s'. unfold part_bytes. rewrite Hspec.
    change (ps_ParentDeviceSerialNumber (Spec o)) with s. change (ps_Size (Spec o)) with (ps_Size (Spec ob)).
    by rewrite Hsz, Hreq. }
  assert (∀ s', used_on (cl w2) s' ≤ used_on (cl w1) s' + (if s ==? s' then req else 0)) as Hu.
  { intros s'. rewrite <- Hpb. pose proof (part_bytes_range s' ob).
    pose proof (used_on_stored (cl w1) ob ob' (cl w2) s') as Hst'. rewrite Hid in Hst'.
    specialize (Hst' Hcur Hst). lia. }
  destruct (change_wf _ _ (stored_change _ _ _ _ Hst) (inv_wf _ Hi)) as [_ Hg'].
  split.
  - split; [done|]. rewrite Hheld2. split; [done|]. intros s' Hs' Hno. specialize (Hu s').
    rewrite bool_decide_false in Hu; [lia|]. intros <-. by apply Hno, Hheld.
  - destruct w2 as [c2 h2]. simpl in *. eapply (stored_inv w1 ob ob'); [done| |done| |].
    + by rewrite Hid.
    + by rewrite Hspec, Hid.
    + intros s' Hs'. specialize (Hu s'). pose proof (inv_capacity _ Hi s' Hs').
      case_bool_decide as E; [subst s'|lia]. specialize (Hroom Hs'). specialize (Hused _ Hs' Hh). lia.
Qed.

Lemma wp_place {B} tid w (d : NVMeDevice) ref (ob : NVMePartition) req (f : result NVMePartition → mgr B) Q :
  let s := ds_SerialNumber (Spec d) in
  held w !! s = Some tid → room w s req →
  versions (cl w) KPartition !! ResourceVersion (Meta ob) = Some ob →
  RoundUp (sizeof (ObjectKeyFromObject ob)) = Ok req →
  (∀ r w2, mgr_inv w2 → held w2 !! s = Some tid → mwp tid (f r) w2 Q) →
  mwp tid (Vis (Rep := mgrRep)
    (MKube (Update KPartition (with_Spec (select_device d ref (Spec ob)) ob))) f) w Q.
Proof.
  intros s Hh Hroom Hv Hreq H w1 r w2 Hrel Hi [Hs Hheld]. apply serve_documented in Hs.
  assert (held w2 !! s = Some tid) as Hh2.
  { rewrite Hheld. destruct Hrel as (_ & Hr & _). by apply Hr. }
  assert (mgr_guar tid w1 w2 ∧ mgr_inv w2) as [? ?].
  { destruct r as [ob'|e]; [by eapply update_effect|].
    destruct Hs as [Hc|[_ [ob' Hob]]]; [|by eapply update_effect].
    destruct w1, w2; simpl in *; subst. split; [apply mgr_guar_refl|done]. }
  split_and!; [done..|]. by apply H.
Qed.

Lemma room_rely tid w w' s req : mgr_rely tid w w' → held w !! s = Some tid → room w s req → room w' s req.
Proof. intros (_ & _ & U) Hh Hr Hs. specialize (Hr Hs). specialize (U _ Hs Hh). lia. Qed.

Lemma held_rely tid w w' s : mgr_rely tid w w' → held w !! s = Some tid → held w' !! s = Some tid.
Proof. intros (_ & H & _). apply H. Qed.

Lemma found_room w (d : NVMeDevice) l free req :
  0 < req → 0 ≤ Value (ds_TotalCapacity (Spec d)) ≤ Z.min MaxInt64 (total (ds_SerialNumber (Spec d))) →
  l ≡ₚ (map_to_list (partition_objects (cl w))).*2 →
  availableCapacity d l = Ok free → req ≤ free → room w (ds_SerialNumber (Spec d)) req.
Proof.
  intros Hreq Hd Hl Ha Hf _. apply availableCapacity_spec in Ha as [_ ->]; [|lia].
  rewrite Hl in Hf. unfold used_on, used_in. fold (partition_objects (cl w)). lia.
Qed.

Lemma RoundUp_pos z r : RoundUp z = Ok r → 0 < r.
Proof. intros (? & _ & (? & _) & _)%RoundUp_ok. lia. Qed.

Definition holding (tid : nat) (s : string) (w : mworld) : Prop := held w !! s = Some tid.

Lemma wp_reserve_attempt tid r pkey cand req assigned w :
  APIReader r = true → RoundUp (sizeof pkey) = Ok req → mgr_inv w → holding tid (cand_serial cand) w →
  mwp tid (reserve_attempt r pkey cand req assigned) w (λ _ w', holding tid (cand_serial cand) w').
Proof.
  unfold holding. intros Hlive Hreq Hi Hh. unfold reserve_attempt, reader. rewrite Hlive.
  assert (∀ A (a : A) w, held w !! cand_serial cand = Some tid →
    mwp tid (Ret a) w (λ _ w', held w' !! cand_serial cand = Some tid)) as Hret
    by (intros A a w0 Hw0 w1 Hr _; by eapply held_rely).
  apply wp_read; [done|]. intros w1 [p|e] R1 I1 S1; [|by apply Hret; eapply held_rely].
  destruct S1 as [S1 _]. apply serve_documented in S1 as [_ Hp].
  destruct (current_size _ _ _ I1 Hp) as [Hpk _]. pose proof (held_rely _ _ _ _ R1 Hh) as H1.
  destruct (_ || _); [by apply Hret|].
  apply wp_read; [done|]. intros w2 [d|e] R2 I2 S2; [|by apply Hret; eapply held_rely].
  destruct S2 as [S2 _]. apply serve_documented in S2 as [_ Hd].
  pose proof (held_rely _ _ _ _ R2 H1) as H2. pose proof (law_devices _ (inv_lawful _ I2) _ _ Hd) as Hcap. kn.
  destruct (_ || _) eqn:G; [by apply Hret|].
  apply orb_false_iff in G as [Gs _]. apply negb_false_iff, bool_decide_eq_true in Gs.
  apply wp_bind; [apply mgr_rely_refl|done|].
  eapply wp_mono; [|apply (reads_only_wp tid _ _ (λ w, held w !! cand_serial cand = Some tid));
    [by intros; eapply held_rely|apply liveClaimOwnsDevice_reads|done]].
  intros [owned|e] w3 H3 I3; [|by apply Hret].
  destruct owned; [|by apply Hret]. destruct (dt_ClaimRef _) as [ref|]; [|by apply Hret].
  apply wp_read; [done|]. intros w4 [n|e] R4 I4 S4; [|by apply Hret; eapply held_rely].
  apply wp_read; [done|]. intros w5 now R5 I5 S5.
  pose proof (held_rely _ _ _ _ R5 (held_rely _ _ _ _ R4 H3)) as H5.
  destruct (_ || _); [by apply Hret|].
  apply wp_read; [done|]. intros w6 [l|e] R6 I6 S6; [|by apply Hret; eapply held_rely].
  destruct S6 as [S6 _]. apply serve_documented in S6 as [_ Hl].
  pose proof (held_rely _ _ _ _ R6 H5) as H6.
  destruct (availableCapacity d l) as [free|e] eqn:Ha; [|by apply Hret].
  destruct (Z.ltb_spec free req); [by apply Hret|].
  assert (room w6 (ds_SerialNumber (Spec d)) req) as Hroom
    by (eapply found_room; [by eapply RoundUp_pos|done|exact Hl|done|lia]).
  cbv zeta. apply wp_status_patch. intros w7 w8 sr R7 I7 I8 Hh8 Hu8 Hob.
  pose proof (held_rely _ _ _ _ R7 H6) as H7.
  assert (held w8 !! cand_serial cand = Some tid) as H8 by (by rewrite Hh8).
  destruct sr as [ob|e]; [|by apply Hret]. destruct (Hob ob eq_refl) as [Hv Hk].
  apply (wp_place tid w8 d ref ob req); [by rewrite Gs| |exact Hv| |].
  - intros Hs. rewrite Gs in *. pose proof (room_rely _ _ _ _ _ R7 H6 Hroom Hs). specialize (Hu8 (cand_serial cand)). lia.
  - rewrite Hk. change (RoundUp (sizeof (ObjectKeyFromObject p)) = Ok req). by rewrite Hpk.
  - intros [ob'|e] w9 I9 H9; rewrite Gs in H9; by apply Hret.
Qed.

Lemma inv_held w h : mgr_inv w → mgr_inv {| cl := cl w; held := h |}.
Proof. intros [? ?]. by constructor. Qed.

Lemma wp_reserveCandidate tid r pkey cand req w :
  APIReader r = true → RoundUp (sizeof pkey) = Ok req → mgr_inv w →
  mwp tid (reserveCandidate r pkey cand req) w (λ _ _, True).
Proof.
  intros Hlive Hreq Hi. unfold reserveCandidate. apply wp_call.
  intros w1 [] w2 R1 I1 [Hfree ->]. split.
  { split; [apply grows_refl|]. simpl. split; [|intros; lia]. intros s t Ht.
    destruct (decide (s = cand_serial cand)) as [->|Hs].
    - rewrite Hfree, lookup_insert_eq. naive_solver.
    - by rewrite lookup_insert_ne. }
  split; [by apply inv_held|]. apply wp_bind; [apply mgr_rely_refl|by apply inv_held|].
  eapply wp_mono with (Q := λ _ w', holding tid (cand_serial cand) w').
  - intros res w3 H3 I3. apply wp_call. intros w4 [] w5 R4 I4 ->. split.
    { pose proof (held_rely _ _ _ _ R4 H3) as H4. split; [apply grows_refl|]. simpl. split; [|intros; lia].
      intros s t Ht. destruct (decide (s = cand_serial cand)) as [->|Hs].
      - rewrite H4, lookup_delete_eq. naive_solver.
      - by rewrite lookup_delete_ne. }
    split; [by apply inv_held|]. done.
  - eapply wp_retry with (J := λ _ w, holding tid (cand_serial cand) w).
    + apply mgr_rely_refl.
    + exact RLL.
    + intros s w3 I3 H3. eapply wp_mono; [|by apply wp_reserve_attempt]. done.
    + intros res w3 w4 R3 _. by apply held_rely.
    + by apply inv_held.
    + unfold holding. simpl. by rewrite lookup_insert_eq.
Qed.

Lemma wp_Reconcile tid r req w : APIReader r = true → mgr_inv w →
  mwp tid (Reconcile r req) w (λ _ _, True).
Proof.
  intros Hlive Hi. unfold Reconcile. apply wp_read; [done|].
  intros w1 [p|e] R1 I1 S1; [|done]. destruct S1 as [S1 _].
  apply serve_documented in S1 as [_ [Hv Hk]]. pose proof (law_sizes _ (inv_lawful _ I1) _ _ Hv) as Hsz. kn.
  destruct (negb _); [done|]. rewrite Hsz.
  destruct (RoundUp _) as [n|e] eqn:Hn; [|done].
  apply wp_bind; [apply mgr_rely_refl|done|].
  eapply wp_mono; [|apply (reads_only_wp tid _ _ (λ _, True)); [done|apply placementCandidates_reads|done]].
  intros [cs|e] w2 _ I2; [|done]. destruct (_ =? _)%nat; [done|].
  apply wp_bind; [apply mgr_rely_refl|done|].
  eapply wp_mono with (Q := λ _ _, True); [done|].
  apply (wp_for_each _ _ _ _ (mgr_rely_refl tid)) with (L := λ _ _ _, True); try done.
  intros pre cand post [] w3 _ I3 _. apply wp_bind; [apply mgr_rely_refl|done|].
  eapply wp_mono; [|by apply wp_reserveCandidate]. intros [assigned [e|]] w4 _ I4; [done|]. by destruct assigned.
Qed.

(** A pool of reconciles of the placement controller. *)
Abbreviation placement_step := (pool_step (A := result ctrlResult) mgr_step external).

(** C1: Concurrent placement never overcommits a device, as long as the name of a
    partition is not reused with another size.  Any number of reconciles for any
    partitions run concurrently with each other and with other actors, who may do
    anything but place partitions, reuse a name with another size or report more
    capacity than the device has; API calls may fail at any point, with the write
    applied or not, and reads through the cache may be stale.  In every reachable
    state the partitions placed on a device fit its capacity.  (Without the
    condition on names this fails: [recreated_partition_overcommits].) *)
Theorem placement_never_overcommits r reqs w ts' w' :
  APIReader r = true → mgr_inv w →
  rtc placement_step (map (Reconcile r) reqs, w) (ts', w') →
  ∀ serial, serial ≠ "" → used_on (cl w') serial ≤ Z.max 0 (total serial).
Proof.
  intros Hlive Hi Hr. apply inv_capacity.
  eapply (pool_invariant mgr_step external mgr_rely mgr_guar); [..|exact Hr].
  - apply mgr_rely_refl.
  - intros i w0 w1 w2. apply mgr_rely_trans.
  - intros i w0 w1 _. apply external_rely.
  - intros w0 w1 Hw. by intros ?%external_inv.
  - intros i j w0 w1. apply guar_rely.
  - split; [done|]. intros i p Hp. apply list_lookup_fmap_Some in Hp as (req & -> & _).
    by apply wp_Reconcile.
Qed.

End Safety.
