(* ===== verification/MgrQuiet.v ===== *)
(** * One run of a manager controller

    The manager's operations with nothing else running and the clock standing
    still, and the rules for reasoning about such a run. *)

From S2P Require Import Prelude GoStrings ApiTypes Prog Kube Placement.

Section Quiet.
Variable serve : Cluster → ∀ o : kubeOp, kubeRep o → Cluster → Prop.
Hypothesis serve_documented : ∀ c o r c', serve c o r c' → kube_spec c o r c'.
Variable now : Time.

Definition quiet_step (c : Cluster) (o : mgrOp) : mgrRep o → Cluster → Prop :=
  match o with
  | MKube o => λ r c', serve c o r c'
  | MNow => λ t c', t = now ∧ c' = c
  | MLock _ | MUnlock _ => λ _ c', c' = c
  end.

#[local] Abbreviation mq := (qwp quiet_step cluster_wf).

Lemma quiet_read {B} o (f : mgrRep o → mgr B) c Q : is_read o = true → cluster_wf c →
  (∀ r, quiet_step c o r c → mq (f r) c Q) → mq (Vis o f) c Q.
Proof.
  intros Ho Hwf H. apply qwp_vis; [done|]. intros r c' Hs.
  assert (c' = c) as ->; [|split; [done|by apply H]].
  destruct o as [[[] k key|[] k| | | | | ]| | | ]; try done; simpl in Hs;
    try (by apply serve_documented in Hs as [-> _]). by destruct Hs.
Qed.

(** A status patch of the current object: nothing happens and an error is
    returned, or the patch is applied, and then either the new object or (on an
    error that leaves it open) an error is returned. *)
Lemma quiet_status_patch {B} k (base o cur : obj k) (f : result (obj k) → mgr B) c Q :
  cluster_wf c → objects c k !! ObjectKeyFromObject o = Some cur → Status base = Status cur →
  (∀ e, mq (f (inr e)) c Q) →
  (∀ ob c', cluster_wf c' → patched_to c cur o ob c' → mq (f (inl ob)) c' Q ∧ ∀ e, mq (f (inr e)) c' Q) →
  mq (Vis (Rep := mgrRep) (MKube (StatusPatch k base o)) f) c Q.
Proof.
  intros Hwf Hcur Hb Herr Hok. apply qwp_vis; [done|]. intros r c' Hs. apply serve_documented in Hs.
  assert (cluster_wf c') as Hwf' by (by eapply kube_spec_wf). split; [done|].
  destruct r as [ob|e].
  - apply (Hok ob c'); [done|]. by eapply status_patch_effect.
  - destruct Hs as [->|[_ [ob Hs]]]; [done|]. apply (Hok ob c'); [done|]. by eapply status_patch_effect.
Qed.

Lemma quiet_update {B} k (o cur : obj k) (f : result (obj k) → mgr B) c Q :
  cluster_wf c → objects c k !! ObjectKeyFromObject o = Some cur →
  (∀ e, mq (f (inr e)) c Q) →
  (∀ ob c', cluster_wf c' → written_to c cur ob c' → updated cur o ob →
     mq (f (inl ob)) c' Q ∧ ∀ e, mq (f (inr e)) c' Q) →
  mq (Vis (Rep := mgrRep) (MKube (Update k o)) f) c Q.
Proof.
  intros Hwf Hcur Herr Hok. apply qwp_vis; [done|]. intros r c' Hs. apply serve_documented in Hs.
  assert (cluster_wf c') as Hwf' by (by eapply kube_spec_wf). split; [done|].
  destruct (proj1 (Hwf k) _ _ Hcur) as [Hk _].
  assert (∀ ob, update_applied c o ob c' → mq (f (inl ob)) c' Q ∧ ∀ e, mq (f (inr e)) c' Q) as H.
  { intros ob (cur' & Hcur' & _ & _ & Hu & Hst). rewrite Hcur in Hcur'. injection Hcur' as <-.
    apply (Hok ob c'); [done| |done]. apply stored_effect; [done|by rewrite Hk|by destruct Hu|done]. }
  destruct r as [ob|e]; [by apply H|]. destruct Hs as [->|[_ [ob Hs]]]; [done|by eapply H].
Qed.

Lemma quiet_patch {B} k (base o cur : obj k) (f : result (obj k) → mgr B) c Q :
  cluster_wf c → objects c k !! ObjectKeyFromObject o = Some cur →
  (∀ e, mq (f (inr e)) c Q) →
  (∀ ob c', cluster_wf c' → written_to c cur ob c' → patched cur base o ob →
     mq (f (inl ob)) c' Q ∧ ∀ e, mq (f (inr e)) c' Q) →
  mq (Vis (Rep := mgrRep) (MKube (Patch k base o)) f) c Q.
Proof.
  intros Hwf Hcur Herr Hok. apply qwp_vis; [done|]. intros r c' Hs. apply serve_documented in Hs.
  assert (cluster_wf c') as Hwf' by (by eapply kube_spec_wf). split; [done|].
  destruct (proj1 (Hwf k) _ _ Hcur) as [Hk _].
  assert (∀ ob, patch_applied c base o ob c' → mq (f (inl ob)) c' Q ∧ ∀ e, mq (f (inr e)) c' Q) as H.
  { intros ob (cur' & Hcur' & Hu & Hst). rewrite Hcur in Hcur'. injection Hcur' as <-.
    apply (Hok ob c'); [done| |done]. apply stored_effect; [done|by rewrite Hk|by destruct Hu|done]. }
  destruct r as [ob|e]; [by apply H|]. destruct Hs as [->|[_ [ob Hs]]]; [done|by eapply H].
Qed.

End Quiet.

(** A server whose caches are up to date. *)
Definition fresh_spec (c : Cluster) (o : kubeOp) : kubeRep o → Cluster → Prop :=
  match o with
  | Get _ k key => kube_spec c (Get Live k key)
  | List _ k => kube_spec c (List Live k)
  | o => kube_spec c o
  end.

Definition quiet_handle (t : Time) (c : Cluster) (o : mgrOp) : mgrRep o * Cluster :=
  match o with
  | MKube o => model_serve c o
  | MNow => (t, c)
  | MLock _ | MUnlock _ => (tt, c)
  end.

Lemma quiet_handle_legal t c o : cluster_wf c →
  quiet_step model_serves t c o (quiet_handle t c o).1 (quiet_handle t c o).2.
Proof. intros Hwf. destruct o; simpl; try done. split; [done|]. apply surjective_pairing. Qed.


Lemma model_serves_fresh c o r c' : model_serves c o r c' → fresh_spec c o r c'.
Proof.
  intros Hs. pose proof (model_serves_documented _ _ _ _ Hs) as Hk. destruct Hs as [Hwf H].
  destruct o as [src k key|src k| | | | | ]; [| |exact Hk..]; simpl in *; injection H as <- <-.
  - split; [done|]. by destruct (objects c k !! key).
  - done.
Qed.
