(* ===== verification/PlacementProps.v ===== *)
(** * What one reconcile of the placement controller computes

    The candidates are exactly the eligible devices, best first, and a
    successful reservation leaves an authorized placement on an eligible device.
    These are statements about one run with nothing else running and the clock
    standing still; Placement.v treats concurrency. *)

From S2P Require Import Prelude GoStrings Encoding Capacity ApiTypes Identity RdmaHealth Prog Kube Placement MgrQuiet.

(** ** Sorting *)

Lemma candidate_less_asym a b : candidate_less a b = true → candidate_less b a = false.
Proof.
  unfold candidate_less. rewrite (Z.eqb_sym (cand_freeBytes b)).
  destruct (Z.eqb_spec (cand_freeBytes a) (cand_freeBytes b)); [|lia].
  unfold String.ltb. rewrite (String.compare_antisym (key_String (cand_key a))).
  by destruct (String.compare _ _).
Qed.

(** The order of the candidates: most free space first, then by key. *)
Definition candidate_le (a b : placementCandidate) : Prop :=
  cand_freeBytes b < cand_freeBytes a ∨
  (cand_freeBytes a = cand_freeBytes b ∧ String.leb (key_String (cand_key a)) (key_String (cand_key b)) = true).

Lemma not_less_le a b : candidate_less b a = false → candidate_le a b.
Proof.
  unfold candidate_less, candidate_le. destruct (Z.eqb_spec (cand_freeBytes b) (cand_freeBytes a)) as [E|E].
  - right. split; [done|]. unfold String.leb, String.ltb in *. rewrite (String.compare_antisym (key_String (cand_key a))) in *.
    by destruct (String.compare _ _).
  - left. bool_to_prop. lia.
Qed.

Lemma insert_candidate_perm c l : insert_candidate c l ≡ₚ c :: l.
Proof.
  induction l as [|d l IH]; simpl; [done|]. destruct (candidate_less d c); [|done].
  rewrite IH. apply Permutation_swap.
Qed.

Lemma insert_candidate_sorted c l : Sorted candidate_le l → Sorted candidate_le (insert_candidate c l).
Proof.
  induction 1 as [|d l Hl IH Hd]; simpl; [by repeat constructor|].
  destruct (candidate_less d c) eqn:E.
  - apply candidate_less_asym, not_less_le in E. constructor; [done|]. destruct l as [|d' l]; simpl in *; [by constructor|].
    destruct (candidate_less d' c); constructor; [by inversion Hd|done].
  - apply not_less_le in E. constructor; [by constructor|by constructor].
Qed.

Lemma sort_candidates_spec l : sort_candidates l ≡ₚ l ∧ Sorted candidate_le (sort_candidates l).
Proof.
  unfold sort_candidates. induction l as [|c l [IHp IHs]]; simpl; [by repeat constructor|].
  split; [by rewrite insert_candidate_perm, IHp|by apply insert_candidate_sorted].
Qed.

(** ** Eligible devices *)

Section Quiet.
Context `{AM : ApiMachinery} {AML : ApiMachineryLaws AM}.
Context {RL : RetryLib mgrOp mgrRep} {RLL : RetryLaws RL}.

Variable serve : Cluster → ∀ o : kubeOp, kubeRep o → Cluster → Prop.
Hypothesis serve_documented : ∀ c o r c', serve c o r c' → kube_spec c o r c'.
Variable now : Time.

Abbreviation mq := (qwp (quiet_step serve now) cluster_wf).

Definition node_ready (c : Cluster) (name : string) : Prop :=
  ∃ key (n : RDMAStorageNode), objects c KNode !! key = Some n ∧ ns_NodeName (Spec n) = name ∧
    rdma_Validate n now = None ∧ inventoryIsReady n = true.

(** The device is bound to a live claim that says so too. *)
Definition claim_owns (c : Cluster) (d : NVMeDevice) : Prop :=
  ∃ ref (claim : NVMeDeviceClaim), dt_ClaimRef (Status d) = Some ref ∧
    ref_Namespace ref ≠ "" ∧ ref_Name ref ≠ "" ∧ ref_UID ref ≠ "" ∧
    objects c KClaim !! {| key_Namespace := ref_Namespace ref; key_Name := ref_Name ref |} = Some claim ∧
    UID (Meta claim) = ref_UID ref ∧ deleting claim = false ∧ ct_Active (Status claim) = true ∧
    ct_MatchedDevice (Status claim) = Name (Meta d) ∧ ct_NodeName (Status claim) = ds_NodeName (Spec d) ∧
    EqualFold (cs_SerialNumber (Spec claim)) (ds_SerialNumber (Spec d)) = true.

Definition free_on (c : Cluster) (d : NVMeDevice) : Z :=
  Z.max (Value (ds_TotalCapacity (Spec d)) - used_on c (ds_SerialNumber (Spec d))) 0.

Definition eligible (c : Cluster) (p : NVMePartition) (req : Z) (d : NVMeDevice) : Prop :=
  node_ready c (ds_NodeName (Spec d)) ∧ deviceCanHostPartition d p = true ∧ claim_owns c d ∧ req ≤ free_on c d.

Definition candidate_of (c : Cluster) (d : NVMeDevice) : placementCandidate :=
  {| cand_key := ObjectKeyFromObject d; cand_serial := ds_SerialNumber (Spec d); cand_freeBytes := free_on c d |}.

Lemma quiet_owns c d : cluster_wf c →
  mq (liveClaimOwnsDevice Live d) c (λ r c', c' = c ∧
    match r with inl b => b = true ↔ claim_owns c d | inr _ => True end).
Proof.
  intros Hwf. unfold liveClaimOwnsDevice, claim_owns. destruct (dt_ClaimRef (Status d)) as [ref|] eqn:Er.
  2:{ apply qwp_ret. split; [done|]. split; [done|]. by intros (? & ? & ? & _). }
  destruct (_ || _) eqn:G.
  { apply qwp_ret. split; [done|]. split; [done|]. intros (ref' & claim & [= <-] & H1 & H2 & H3 & _).
    by rewrite !bool_decide_false in G by done. }
  bool_to_prop. apply (quiet_read serve serve_documented now); [done..|]. intros r Hr. apply serve_documented in Hr as [_ Hr].
  destruct r as [claim|e]; apply qwp_ret; (split; [done|]).
  - kn. split.
    + intros E. bool_to_prop. exists ref, claim. unfold deleting. rewrite negb_false_iff. auto 20.
    + intros (ref' & claim' & [= <-] & _ & _ & _ & Ho & Hx). rewrite Hr in Ho. simplify_eq.
      unfold deleting in Hx. rewrite negb_false_iff in Hx. destruct Hx as (-> & -> & -> & -> & -> & ->).
      by rewrite !bool_decide_true.
  - destruct (IsNotFound e) eqn:En; [|done]. split; [done|]. specialize (Hr eq_refl). kn.
    intros (? & ? & [= <-] & _ & _ & _ & Ho & _). by rewrite Hr in Ho.
Qed.

Lemma quiet_ready_nodes c l : cluster_wf c →
  mq (ready_nodes l) c (λ s c', c' = c ∧ ∀ name, name ∈ s ↔
    ∃ n, n ∈ l ∧ ns_NodeName (Spec n) = name ∧ rdma_Validate n now = None ∧ inventoryIsReady n = true).
Proof.
  intros Hwf. unfold ready_nodes. apply qwp_bind; [done|].
  apply (qwp_for_each _ _ _ (λ pre s c', c' = c ∧ ∀ name, name ∈ s ↔
    ∃ n, n ∈ pre ∧ ns_NodeName (Spec n) = name ∧ rdma_Validate n now = None ∧ inventoryIsReady n = true)).
  - intros pre n post s c' _ Hwf' [-> Hs]. apply (quiet_read serve serve_documented now); [done..|]. intros t [-> _].
    apply qwp_ret. split; [done|]. intros name. setoid_rewrite elem_of_snoc.
    destruct (_ && _) eqn:G; [rewrite elem_of_union, elem_of_singleton|]; rewrite Hs.
    + bool_to_prop. split; [intros [->|(n' & ? & ?)]; eauto 10|]. intros (n' & [?| ->] & ? & ?); eauto 10.
    + split; [intros (n' & ? & ?); eauto|]. intros (n' & [?| ->] & ? & Hv & Hir); [eauto|].
      by rewrite bool_decide_true, Hir in G.
  - intros s c' [-> Hs] Hwf'. by apply qwp_ret.
  - done.
  - split; [done|]. intros name. split; [set_solver|]. by intros (n & ?%not_elem_of_nil & _).
Qed.
(** Reported capacities are non-negative int64 values. *)
Definition capacities_ok (c : Cluster) : Prop := ∀ key (d : NVMeDevice),
  objects c KDevice !! key = Some d → 0 ≤ Value (ds_TotalCapacity (Spec d)) ≤ MaxInt64.

Lemma available_free_on c (d : NVMeDevice) l free :
  0 ≤ Value (ds_TotalCapacity (Spec d)) ≤ MaxInt64 →
  l ≡ₚ (map_to_list (partition_objects c)).*2 → availableCapacity d l = Ok free → free = free_on c d.
Proof.
  intros Hc Hl Ha. apply availableCapacity_spec in Ha as [_ ->]; [|done]. by rewrite Hl.
Qed.

Lemma in_objects c k (l : list (obj k)) ob : l ≡ₚ (map_to_list (objects c k)).*2 →
  ob ∈ l ↔ ∃ key, objects c k !! key = Some ob.
Proof.
  intros ->. rewrite list_elem_of_fmap. split.
  - intros ([key ob'] & -> & H%elem_of_map_to_list). by exists key.
  - intros [key H]. exists (key, ob). by rewrite elem_of_map_to_list.
Qed.

Lemma quiet_consider c ready p l req d cs : cluster_wf c →
  0 ≤ Value (ds_TotalCapacity (Spec d)) ≤ MaxInt64 →
  (∀ name, name ∈ ready ↔ node_ready c name) →
  l ≡ₚ (map_to_list (partition_objects c)).*2 →
  mq (consider_device Live ready p l req d cs) c (λ res c', c' = c ∧
    match res with
    | inl cs' => ∀ cand, cand ∈ cs' ↔ cand ∈ cs ∨ (eligible c p req d ∧ cand = candidate_of c d)
    | inr _ => True
    end).
Proof.
  intros Hwf Hcap Hready Hl. unfold consider_device, eligible.
  assert (∀ P : Prop, ¬ P → mq (Ret (inl cs)) c (λ (res : list placementCandidate + error) c', c' = c ∧
    match res with
    | inl cs' => ∀ cand, cand ∈ cs' ↔ cand ∈ cs ∨ (P ∧ cand = candidate_of c d)
    | inr _ => True
    end)) as Hskip by (intros P HP; apply qwp_ret; split; [done|]; tauto).
  case_bool_decide as Hn; [apply Hskip; rewrite <- Hready; tauto|].
  rewrite Hready in Hn.
  destruct (deviceCanHostPartition d p); [|apply Hskip; by intros (_ & ? & _)].
  apply qwp_bind; [done|]. eapply qwp_mono; [|by apply quiet_owns].
  intros [owned|e] c' [-> Ho] _; [|by apply qwp_ret]. destruct owned; simpl.
  - destruct (availableCapacity d l) as [free|e] eqn:Ha; [|by apply qwp_ret].
    pose proof (available_free_on c d l free Hcap Hl Ha) as ->. apply qwp_ret. split; [done|].
    intros cand. destruct (Z.leb_spec req (free_on c d)).
    + rewrite elem_of_snoc. fold (candidate_of c d). tauto.
    + split; [tauto|]. intros [?|[(_ & _ & _ & ?) _]]; [done|lia].
  - apply Hskip. intros (_ & _ & ? & _). by apply Ho in H.
Qed.

Lemma placementCandidates_spec r p req c :
  APIReader r = true → cluster_wf c → capacities_ok c →
  mq (placementCandidates r p req) c (λ res c', c' = c ∧
    match res with
    | inl cs => Sorted candidate_le cs ∧
        ∀ cand, cand ∈ cs ↔ ∃ key (d : NVMeDevice), objects c KDevice !! key = Some d ∧
          eligible c p req d ∧ cand = candidate_of c d
    | inr _ => True
    end).
Proof.
  intros Hlive Hwf Hcap. unfold placementCandidates, reader. rewrite Hlive.
  apply (quiet_read serve serve_documented now); [done..|]. intros [ds|e] Hds; [|by apply qwp_ret].
  apply serve_documented in Hds as [_ Hds]. apply (quiet_read serve serve_documented now); [done..|].
  intros [l|e] Hl; [|by apply qwp_ret]. apply serve_documented in Hl as [_ Hl].
  apply (quiet_read serve serve_documented now); [done..|]. intros [ns|e] Hns; [|by apply qwp_ret].
  apply serve_documented in Hns as [_ Hns]. kn.
  apply qwp_bind; [done|]. eapply qwp_mono; [|by apply quiet_ready_nodes].
  intros ready c' [-> Hready] _.
  assert (∀ name, name ∈ ready ↔ node_ready c name) as Hready'.
  { intros name. rewrite Hready. unfold node_ready. setoid_rewrite (in_objects c KNode ns); [|done].
    naive_solver. }
  apply qwp_bind; [done|].
  apply (qwp_for_each _ _ _ (λ pre cs c', c' = c ∧ ∀ cand, cand ∈ cs ↔ ∃ d, d ∈ pre ∧
    eligible c p req d ∧ cand = candidate_of c d)).
  - intros pre d post cs c' Hsplit _ [-> Hcs].
    assert (∃ key, objects c KDevice !! key = Some d) as [key Hd].
    { apply (in_objects c KDevice ds); [done|]. rewrite Hsplit. set_solver. }
    eapply qwp_mono; [|apply quiet_consider; [done|by eapply Hcap|done|done]].
    intros [cs'|e] c' [-> Hcs']; [|by intros _; apply qwp_ret].
    split; [done|]. intros cand. rewrite Hcs', Hcs. setoid_rewrite elem_of_snoc. naive_solver.
  - intros cs c' [-> Hcs] _. apply qwp_ret. split; [done|].
    destruct (sort_candidates_spec cs) as [Hperm Hsort]. split; [done|].
    intros cand. rewrite Hperm, Hcs. setoid_rewrite (in_objects c KDevice ds); [|done]. naive_solver.
  - done.
  - split; [done|]. intros cand. split; [by intros ?%not_elem_of_nil|]. by intros (d & ?%not_elem_of_nil & _).
Qed.

(** C26: The candidates are exactly the eligible devices, in order.  When live reads
    are used and nobody writes while they are collected, the list, if no read fails
    and it is returned, has an entry for
    a device if and only if it sits on a node that is ready at the time, can host
    the partition's backend, is owned by a live claim and has the requested space
    free; the entry gives the true free space, and the entry with more free space
    comes first, with equal space the one with the smaller key. *)
Theorem placement_candidates_exact r p req c :
  APIReader r = true → cluster_wf c → capacities_ok c →
  mq (placementCandidates r p req) c (λ res c', c' = c ∧
    match res with
    | inl cs => Sorted candidate_le cs ∧
        ∀ cand, cand ∈ cs ↔ ∃ key (d : NVMeDevice), objects c KDevice !! key = Some d ∧
          eligible c p req d ∧ cand = candidate_of c d
    | inr _ => True
    end).
Proof. apply placementCandidates_spec. Qed.

(** ** Reservation *)

Definition node_named_ready (c : Cluster) (name : string) : Prop :=
  ∃ n : RDMAStorageNode, objects c KNode !! {| key_Namespace := ""; key_Name := name |} = Some n ∧
    rdma_Validate n now = None ∧ inventoryIsReady n = true.

(** The partition is placed on the device for the claim that the device names. *)
Definition placed_on (p : NVMePartition) (d : NVMeDevice) : Prop :=
  ps_NodeName (Spec p) = ds_NodeName (Spec d) ∧
  ps_ParentDeviceSerialNumber (Spec p) = ds_SerialNumber (Spec d) ∧
  ps_ClaimRef (Spec p) = dt_ClaimRef (Status d) ∧ ps_ClaimRef (Spec p) ≠ None.

(** The state between the attempts: as at first, except for the status and the
    resource version of the partition. *)
Definition unplaced (c : Cluster) (pkey : ObjectKey) (p : NVMePartition) (c' : Cluster) : Prop :=
  (∀ k, k ≠ KPartition → objects c' k = objects c k) ∧
  (∀ s, used_on c' s = used_on c s) ∧
  ∃ p1 : NVMePartition, objects c' KPartition !! pkey = Some p1 ∧ Spec p1 = Spec p ∧
    UID (Meta p1) = UID (Meta p) ∧ Generation (Meta p1) = Generation (Meta p) ∧ deleting p1 = deleting p.

Lemma stored_other_kinds {k} c (cur ob : obj k) c' k' : stored c cur ob c' → k' ≠ k → objects c' k' = objects c k'.
Proof. intros [[_ ->]|[_ ->]] Hk; [|done]. by apply objects_settle_ne. Qed.

Lemma stored_lookup {k} c (cur ob : obj k) c' : deleting ob = false →
  objects c k !! ObjectKeyFromObject ob = Some cur → stored c cur ob c' →
  objects c' k !! ObjectKeyFromObject ob = Some ob.
Proof. intros Hd Hc [[_ ->]|[-> ->]]; [by apply lookup_settle_eq|done]. Qed.

Lemma used_on_same_spec c (cur ob : NVMePartition) c' s :
  objects c KPartition !! ObjectKeyFromObject ob = Some cur → Spec ob = Spec cur → deleting ob = false →
  stored (k := KPartition) c cur ob c' → used_on c' s = used_on c s.
Proof.
  intros Hc Hs Hd [[_ ->]|[_ ->]]; [|done]. unfold used_on.
  fold (partition_objects (settle c KPartition ob)) (partition_objects c).
  rewrite partition_objects_settle, Hd. simpl.
  change (partition_objects c !! ObjectKeyFromObject ob = Some cur) in Hc.
  rewrite (used_in_insert _ _ _ _ s Hc). unfold part_bytes. rewrite Hs. lia.
Qed.

(** The status patch of the reservation on an unplaced partition. *)
Lemma reserve_status_patch c pkey (p : NVMePartition) c1 (p1 base o ob : NVMePartition) c2 :
  cluster_wf c1 → deleting p = false → unplaced c pkey p c1 → objects c1 KPartition !! pkey = Some p1 →
  Status base = Status p1 → ObjectKeyFromObject o = pkey →
  status_patch_applied (k := KPartition) c1 base o ob c2 →
  unplaced c pkey p c2 ∧ objects c2 KPartition !! pkey = Some ob ∧ Status ob = Status o.
Proof.
  intros Hwf Hdel (Hk & Hu & q & Hq & Hsp & Huid & Hgen & Hd) Hp1 Hbase Ho (cur & Hcur & Hpat & Hst).
  kn. rewrite Ho, Hq in Hcur. injection Hcur as <-. rewrite Hq in Hp1. injection Hp1 as <-.
  destruct Hpat as (Hid & _ & _ & _ & Hspec & Hstat & Hgen'). kn.
  destruct (proj1 (Hwf KPartition) _ _ Hq) as [Hqk _]. kn.
  assert (ObjectKeyFromObject ob = pkey) as Hobk.
  { rewrite <- Hqk. by apply (key_same_identity (k := KPartition)). }
  destruct Hid as (_ & _ & Hid & Hdt). kn.
  assert (deleting ob = deleting q) as Hdob by (unfold deleting; by rewrite Hdt).
  assert (deleting ob = false) as Hobd by (rewrite Hdob, Hd; exact Hdel).
  assert (objects c2 KPartition !! pkey = Some ob) as Hob.
  { rewrite <- Hobk. eapply (stored_lookup (k := KPartition) c1 q); [exact Hobd|kn; by rewrite Hobk|done]. }
  split; [|split; [done|]].
  - split_and!.
    + intros k Hne. rewrite (stored_other_kinds _ _ _ _ _ Hst Hne). by apply Hk.
    + intros s. rewrite (used_on_same_spec c1 q ob c2 s); [apply Hu|by rewrite Hobk|done|done|done].
    + exists ob. split_and!; [done|congruence..].
  - rewrite Hstat, Hbase. apply (patch_status_same KPartition).
Qed.

(** The status that the reservation writes authorizes the placement once the
    spec has been updated. *)
Definition reserved_status (d : NVMeDevice) (ref : NVMeDeviceClaimReference) (p : NVMePartition) : NVMePartitionStatus :=
  let p := with_Spec (select_device d ref (Spec p)) p in
  let status := set_pt_PlacementFingerprint
    (PlacementAuth.Fingerprint (UID (Meta p)) (ps_NodeName (Spec p)) (ps_ParentDeviceSerialNumber (Spec p))
       (ps_ClaimRef (Spec p))) (Status p) in
  set_pt_Conditions (SetStatusCondition (pt_Conditions status) (placement_condition p)) status.

Lemma reserved_authorizes d ref (p p' : NVMePartition) :
  Status p' = reserved_status d ref p → Spec p' = select_device d ref (Spec p') →
  Generation (Meta p') = Generation (Meta p) + 1 → UID (Meta p') = UID (Meta p) →
  Forall (.≠ "") (PlacementAuth.components (UID (Meta p)) (ds_NodeName (Spec d)) (ds_SerialNumber (Spec d)) ref) →
  PlacementAuth.IsAuthorized p' = true.
Proof.
  intros Hst Hsp Hg Hu Hne. apply PlacementAuth.IsAuthorized_true.
  exists (placement_condition p), ref. rewrite Hst. split.
  { simpl. apply (find_set_eq _ (placement_condition p)). }
  rewrite Hsp, Hg, Hu. simpl. destruct ref. by split_and!.
Qed.

Definition device_names_ok (c : Cluster) : Prop := ∀ key (d : NVMeDevice),
  objects c KDevice !! key = Some d → ds_NodeName (Spec d) ≠ "" ∧ ds_SerialNumber (Spec d) ≠ "".

(** What a reservation of [p] on a device may establish. *)
Definition reserved (c : Cluster) (pkey : ObjectKey) (cand : placementCandidate) (req : Z) (p : NVMePartition)
    (c' : Cluster) : Prop :=
  ∃ (d : NVMeDevice) (p' : NVMePartition),
    objects c KDevice !! cand_key cand = Some d ∧ ds_SerialNumber (Spec d) = cand_serial cand ∧
    deviceCanHostPartition d p = true ∧ claim_owns c d ∧ node_named_ready c (ds_NodeName (Spec d)) ∧
    req ≤ free_on c d ∧
    objects c' KPartition !! pkey = Some p' ∧ UID (Meta p') = UID (Meta p) ∧
    Spec p' = select_device d (default {| ref_Namespace := ""; ref_Name := ""; ref_UID := "" |}
                                 (dt_ClaimRef (Status d))) (Spec p) ∧
    placed_on p' d ∧ PlacementAuth.IsAuthorized p' = true.

Lemma reserve_update c pkey (p : NVMePartition) c2 (p1 ob ob' : NVMePartition) (d : NVMeDevice) ref c3 :
  cluster_wf c2 → deleting p = false → ps_NodeName (Spec p) = "" →
  unplaced c pkey p c2 → objects c2 KPartition !! pkey = Some ob →
  Status ob = reserved_status d ref p1 → UID (Meta p1) = UID (Meta p) → Generation (Meta p1) = Generation (Meta p) →
  dt_ClaimRef (Status d) = Some ref →
  Forall (.≠ "") (PlacementAuth.components (UID (Meta p)) (ds_NodeName (Spec d)) (ds_SerialNumber (Spec d)) ref) →
  update_applied (k := KPartition) c2 (with_Spec (select_device d ref (Spec ob)) ob) ob' c3 →
  objects c3 KPartition !! pkey = Some ob' ∧ UID (Meta ob') = UID (Meta p) ∧
  Spec ob' = select_device d ref (Spec p) ∧ placed_on ob' d ∧ PlacementAuth.IsAuthorized ob' = true.
Proof.
  intros Hwf Hdel Hnn (_ & _ & q & Hq & Hsp & Huid & Hgen & Hd) Hob Hst Hu1 Hg1 Href Hne
    (cur & Hcur & _ & _ & Hupd & Hstored). kn.
  rewrite Hob in Hq. injection Hq as <-.
  destruct (proj1 (Hwf KPartition) _ _ Hob) as [Hobk _]. kn.
  change (ObjectKeyFromObject (with_Spec _ ob)) with (ObjectKeyFromObject ob) in Hcur.
  rewrite Hobk, Hob in Hcur. injection Hcur as <-.
  destruct Hupd as (Hid & _ & _ & _ & Hspec & Hstat & Hgen'). kn.
  assert (ObjectKeyFromObject ob' = pkey) as Hk'
    by (rewrite <- Hobk; by apply (key_same_identity (k := KPartition))).
  destruct Hid as (_ & _ & Hid & Hdt). kn.
  assert (deleting ob' = false) as Hd'.
  { unfold deleting in *. rewrite Hdt, Hd. exact Hdel. }
  assert (Spec ob' = select_device d ref (Spec p)) as Hspec' by (rewrite Hspec; simpl; by rewrite Hsp).
  split_and!; [|congruence|done| |].
  - rewrite <- Hk'. apply (stored_lookup (k := KPartition) c2 ob ob' c3); [done|kn; by rewrite Hk'|done].
  - unfold placed_on. rewrite Hspec', Href. simpl. by destruct ref.
  - apply (reserved_authorizes d ref p1); [by rewrite Hstat|by rewrite Hspec'| |congruence|by rewrite Hu1].
    rewrite Hgen', Hg1. unfold next_generation. rewrite decide_False; [kn; by rewrite Hgen|].
    simpl. rewrite Hsp. intros E. apply (f_equal ps_NodeName) in E. simpl in E. rewrite Hnn in E.
    unfold PlacementAuth.components in Hne. by decompose_Forall_hyps.
Qed.

Definition reserve_post (c : Cluster) pkey cand req p (res : bool * option error) (c' : Cluster) : Prop :=
  (is_conflict res = true → res.1 = false ∧ unplaced c pkey p c') ∧
  (res.2 = None → if res.1 then reserved c pkey cand req p c' else unplaced c pkey p c').

Lemma write_kept {k} (applied : obj k → Cluster → Prop) c e c' (P : Cluster → Prop) :
  write_spec applied c (inr e) c' → P c → IsConflict e = true → P c'.
Proof.
  intros [->|[Hd _]] HP Hc; [done|]. unfold definite in Hd. by rewrite Hc, !orb_true_r in Hd.
Qed.

Lemma quiet_reserve_attempt r pkey cand req c p c1 : let P := reserve_post c pkey cand req p in
  APIReader r = true → cluster_wf c1 → capacities_ok c → device_names_ok c →
  ps_NodeName (Spec p) = "" → deleting p = false → UID (Meta p) ≠ "" → unplaced c pkey p c1 →
  mq (reserve_attempt r pkey cand req false) c1 P.
Proof.
  intros P Hlive Hwf Hcap Hnames Hnn Hdel Huid Hun. unfold reserve_attempt, reader. rewrite Hlive.
  assert (∀ e c', unplaced c pkey p c' → mq (Ret (false, e)) c' P) as Hkeep
    by (intros e c' Hc'; apply qwp_ret; split; by intros _).
  pose proof Hun as (Hk & Hused & p1 & Hp1 & Hsp & Hu1 & Hg1 & Hd1).
  apply (quiet_read serve serve_documented now); [done..|]. intros [q|e] Hq; [|by apply Hkeep].
  apply serve_documented in Hq as [_ Hq]. kn. rewrite Hp1 in Hq. injection Hq as <-.
  fold (deleting p1). assert ((ps_NodeName (Spec p1) !=? "") || deleting p1 = false) as ->
    by (rewrite Hsp, Hnn, Hd1, Hdel; done).
  apply (quiet_read serve serve_documented now); [done..|]. intros [d|e] Hd; [|by apply Hkeep].
  apply serve_documented in Hd as [_ Hd]. rewrite (Hk KDevice) in Hd by done. kn.
  destruct (_ || _) eqn:G; [by apply Hkeep|]. apply orb_false_iff in G as [Gs Gh].
  apply negb_false_iff, bool_decide_eq_true in Gs. apply negb_false_iff in Gh.
  apply qwp_bind; [done|]. eapply qwp_mono; [|by apply quiet_owns].
  intros [owned|e] c' [-> Ho] _; [|by apply Hkeep]. destruct owned; [|by apply Hkeep].
  assert (claim_owns c d) as Howns.
  { destruct Ho as [Ho _]. specialize (Ho eq_refl). unfold claim_owns in *. by rewrite (Hk KClaim) in Ho. }
  destruct (dt_ClaimRef (Status d)) as [ref|] eqn:Href; [|by apply Hkeep].
  assert (Forall (.≠ "") (PlacementAuth.components (UID (Meta p)) (ds_NodeName (Spec d)) (ds_SerialNumber (Spec d)) ref))
    as Hne.
  { destruct Howns as (ref' & ? & Hr' & ? & ? & ? & _). rewrite Href in Hr'. injection Hr' as <-.
    destruct (Hnames _ _ Hd). unfold PlacementAuth.components. auto 10. }
  apply (quiet_read serve serve_documented now); [done..|]. intros [n|e] Hn; [|by apply Hkeep].
  apply serve_documented in Hn as [_ Hn]. rewrite (Hk KNode) in Hn by done. kn.
  apply (quiet_read serve serve_documented now); [done..|]. intros t [-> _].
  destruct (_ || _) eqn:Gn; [by apply Hkeep|]. apply orb_false_iff in Gn as [Gv Gi].
  apply bool_decide_eq_false, dec_stable in Gv. apply negb_false_iff in Gi.
  apply (quiet_read serve serve_documented now); [done..|]. intros [l|e] Hl; [|by apply Hkeep].
  apply serve_documented in Hl as [_ Hl].
  destruct (availableCapacity d l) as [free|e] eqn:Ha; [|by apply Hkeep].
  destruct (Z.ltb_spec free req) as [|Hfree]; [by apply Hkeep|].
  apply (available_free_on c1) in Ha; [subst free|by eapply Hcap|exact Hl].
  unfold free_on in Hfree. rewrite Hused in Hfree. fold (free_on c d) in Hfree.
  cbv zeta. apply qwp_vis; [done|]. intros sr c2 Hs. apply serve_documented in Hs.
  split; [by eapply kube_spec_wf|]. assert (cluster_wf c2) as Hwf2 by (by eapply kube_spec_wf).
  destruct sr as [ob|e].
  2:{ apply qwp_ret. split; [|done]. intros He. split; [done|].
      by apply (write_kept _ _ _ _ _ Hs). }
  destruct (proj1 (Hwf KPartition) _ _ Hp1) as [Hkey _].
  eapply (reserve_status_patch c pkey p c1 p1) in Hs as (Hun2 & Hob & Hobst);
    [|done|done|done|exact Hp1|reflexivity|exact Hkey].
  apply qwp_vis; [done|]. intros ur c3 Hs3. apply serve_documented in Hs3.
  split; [by eapply kube_spec_wf|]. destruct ur as [ob'|e].
  - apply qwp_ret. split; [done|]. intros _.
    destruct (reserve_update c pkey p c2 p1 ob ob' d ref c3) as (? & ? & ? & ? & ?); try done.
    exists d, ob'. rewrite Href. simpl. split_and!; try done.
    + revert Gh. unfold deviceCanHostPartition, requestedBackend. by rewrite Hsp.
    + by exists n.
  - apply qwp_ret. split; [|done]. intros He. split; [done|]. by apply (write_kept _ _ _ _ _ Hs3).
Qed.

(** C14: When nobody else writes meanwhile and the clock stands still, a
    reservation that reports success has written an authorized placement.  The
    partition's spec now names the node, the serial number and the claim of a
    device that was checked to be claimed by a live claim, on a ready node, with
    the requested space free; nothing else in the spec changed, and the partition
    passes [IsAuthorized], although status and spec are written by two calls of
    which each may conflict and be retried.  A reservation that reports neither
    success nor an error left the partition unplaced. *)
Theorem reservation_authorized r pkey cand req c p :
  APIReader r = true → cluster_wf c → capacities_ok c → device_names_ok c →
  objects c KPartition !! pkey = Some p → ps_NodeName (Spec p) = "" → deleting p = false → UID (Meta p) ≠ "" →
  mq (reserveCandidate r pkey cand req) c (λ res c', res.2 = None →
    if res.1 then reserved c pkey cand req p c' else unplaced c pkey p c').
Proof.
  intros Hlive Hwf Hcap Hnames Hp Hnn Hdel Huid. unfold reserveCandidate.
  apply qwp_vis; [done|]. intros [] c0 ->. split; [done|].
  apply qwp_bind; [done|]. eapply qwp_mono; [|eapply (qwp_retry _ _ _
    (λ s c', s = false ∧ unplaced c pkey p c')
    (λ res c', res.2 = None → if res.1 then reserved c pkey cand req p c' else unplaced c pkey p c'))].
  - intros res c1 Hres Hwf1. apply qwp_vis; [done|]. intros [] c2 ->. split; [done|]. by apply qwp_ret.
  - intros s c1 Hwf1 [-> Hun]. by apply quiet_reserve_attempt.
  - done.
  - split; [done|]. split; [done|]. split; [done|]. by exists p.
Qed.

End Quiet.

(** ** A concrete manager *)

(** The manager against the model server at a fixed time. *)
Definition mgr_handle (tid : nat) (t : Time) (w : mworld) (o : mgrOp) : mgrRep o * mworld :=
  match o with
  | MKube o => let '(r, c') := model_serve (cl w) o in (r, {| cl := c'; held := held w |})
  | MNow => (t, w)
  | MLock s => (tt, {| cl := cl w; held := <[s := tid]> (held w) |})
  | MUnlock s => (tt, {| cl := cl w; held := delete s (held w) |})
  end.

(** Every mutex that a run takes is free. *)
Fixpoint locks_free {A} (tid : nat) (t : Time) (p : mgr A) (w : mworld) : bool :=
  match p with
  | Ret _ => true
  | Vis o k =>
    match o with MLock s => bool_decide (held w !! s = None) | _ => true end &&
    locks_free tid t (k (mgr_handle tid t w o).1) (mgr_handle tid t w o).2
  end.

Lemma mgr_handle_wf tid t w o : cluster_wf (cl w) → cluster_wf (cl (mgr_handle tid t w o).2).
Proof.
  intros Hwf. destruct o as [o| | | ]; simpl; try done.
  pose proof (model_serve_documented (cl w) o Hwf) as Hs.
  destruct (model_serve (cl w) o) as [r c']. by apply kube_spec_wf in Hs as [? _].
Qed.

Lemma model_run_legal serve tid t (p : mgr (result ctrlResult)) w :
  (∀ c o, cluster_wf c → serve c o (model_serve c o).1 (model_serve c o).2) →
  cluster_wf (cl w) → locks_free tid t p w = true →
  run_legal (mgr_step serve) tid (mgr_handle tid t) p w.
Proof.
  intros Hserve. revert w. induction p as [a|o k IH]; intros w Hwf Hl; [done|]. cbn [locks_free] in Hl.
  apply andb_true_iff in Hl as [Ho Hl]. split; [|by apply IH; [apply mgr_handle_wf|]].
  destruct o as [o| | | ]; simpl; try done.
  - specialize (Hserve (cl w) o Hwf). by destruct (model_serve (cl w) o) as [r c'].
  - by apply bool_decide_eq_true in Ho.
Qed.

Lemma model_run_wf {A} tid t (p : mgr A) w :
  cluster_wf (cl w) → cluster_wf (cl (run (mgr_handle tid t) p w).2).
Proof.
  revert w. induction p as [a|o k IH]; intros w Hwf; [done|]. cbn [run].
  pose proof (mgr_handle_wf tid t w o Hwf) as Hwf'. destruct (mgr_handle tid t w o) as [x w']. by apply IH.
Qed.

(** One device of 8 MiB and three partitions of 4 MiB. *)
Definition example_meta (name ns uid : string) : ObjectMeta :=
  {| Name := name; Namespace := ns; UID := uid; Generation := 1; ResourceVersion := "rv-" +:+ uid;
     Finalizers := []; Annotations := ∅; OwnerReferences := []; DeletionTimestamp := None |}.

Definition ready_condition (t : string) : Condition :=
  {| c_Type := t; c_Status := ConditionTrue; c_ObservedGeneration := 1; c_Reason := "Ready"; c_Message := "" |}.

Definition example_unplaced (name uid : string) (size : Z) : NVMePartition :=
  mkObject (example_meta name "default" uid)
    {| ps_Size := NewQuantity size; ps_NodeName := ""; ps_ParentDeviceSerialNumber := "";
       ps_ClaimRef := None; ps_AccessMode := ""; ps_Filesystem := ""; ps_RequestFingerprint := "";
       ps_TargetBackend := "spdk"; ps_VolumeManager := "partition"; ps_TargetOptions := ∅ |}
    (zero_status KPartition).

Definition example_device : NVMeDevice :=
  mkObject (example_meta "dev-1" "" "d-1")
    {| ds_NodeName := "node-1"; ds_PCIAddress := "0000:01:00.0"; ds_SerialNumber := "SN1"; ds_Model := "m";
       ds_TotalCapacity := NewQuantity 8388608; ds_NUMANode := 0 |}
    {| dt_State := NVMeDeviceStateClaimed; dt_ClaimRef := Some PlacementAuth.example_ref;
       dt_FreeCapacity := NewQuantity 0; dt_ActiveBackend := ""; dt_Conditions := [] |}.

Definition example_claim : NVMeDeviceClaim :=
  mkObject (example_meta "claim-a" "default" "c-1") {| cs_SerialNumber := "sn1" |}
    {| ct_Active := true; ct_MatchedDevice := "dev-1"; ct_NodeName := "node-1"; ct_Conditions := [] |}.

Definition example_node : RDMAStorageNode :=
  mkObject (example_meta "node-1" "" "n-1")
    {| ns_NodeName := "node-1"; ns_RDMAIP := "10.0.0.7"; ns_Transport := RDMATransportRoCEv2; ns_LinkSpeed := "" |}
    {| nt_LastHeartbeatTime := 100 * Second; nt_TotalCapacity := NewQuantity 0; nt_FreeCapacity := NewQuantity 0;
       nt_ActiveExports := 0;
       nt_Conditions := [ready_condition ReadyCondition; ready_condition NVMeInventoryReadyCondition] |}.

Definition example_cluster (ps : list NVMePartition) : Cluster :=
  {| partitions := mk_store (k := KPartition) ps; devices := mk_store (k := KDevice) [example_device];
     claims := mk_store (k := KClaim) [example_claim]; nodes := mk_store (k := KNode) [example_node];
     attachments := mk_store (k := KAttachment) [] |}.

Definition example_world : mworld :=
  {| cl := example_cluster [example_unplaced "a" "p-a" 4194304; example_unplaced "b" "p-b" 4194304;
                            example_unplaced "c" "p-c" 4194304];
     held := ∅ |}.

Definition example_key (name : string) : ObjectKey := {| key_Namespace := "default"; key_Name := name |}.
Definition example_time : Time := 110 * Second.
Definition live_reconciler : NVMePartitionReconciler := {| APIReader := true |}.

Definition example_run (tid : nat) (name : string) (w : mworld) : result ctrlResult * mworld :=
  run (mgr_handle tid example_time) (Reconcile live_reconciler (example_key name)) w.

Example example_all_run :
  let w1 := (example_run 0 "a" example_world).2 in
  let w2 := (example_run 1 "b" w1).2 in
  let '(r3, w3) := example_run 2 "c" w2 in
  used_on (cl w1) "SN1" = 4194304 ∧ used_on (cl w2) "SN1" = 8388608 ∧
  used_on (cl w3) "SN1" = 8388608 ∧ r3 = Ok {| RequeueAfter := 5 * Second |}.
Proof. vm_compute. auto. Qed.

Definition example_total (serial : string) : Z := if serial ==? "SN1" then 8388608 else 0.
Definition example_size (key : ObjectKey) : Z := 4194304.

Lemma used_nowhere c serial :
  Forall (λ p : NVMePartition, ps_ParentDeviceSerialNumber (Spec p) = "") (map_to_list (partition_objects c)).*2 →
  serial ≠ "" → used_on c serial = 0.
Proof.
  unfold used_on, used_in. fold (partition_objects c). intros H Hs. induction H as [|p l Hp _ IH]; [done|].
  rewrite used_bytes_cons, IH. unfold part_bytes. rewrite bool_decide_false; [done|congruence].
Qed.

Lemma example_inv : mgr_inv example_total example_size example_world.
Proof.
  split; [split|].
  - apply cluster_wf_check. vm_compute. reflexivity.
  - apply (map_Forall_to_list (λ _ (p : NVMePartition), Value (ps_Size (Spec p)) = 4194304)).
    vm_compute. repeat constructor.
  - apply (map_Forall_to_list (λ _ (d : NVMeDevice), 0 ≤ Value (ds_TotalCapacity (Spec d)) ≤
      Z.min MaxInt64 (example_total (ds_SerialNumber (Spec d))))).
    vm_compute. repeat constructor; discriminate.
  - intros serial Hs. rewrite used_nowhere; [lia| |done]. vm_compute. repeat constructor.
Qed.

Abbreviation example_steps :=
  (rtc (pool_step (A := result ctrlResult) (mgr_step model_serves) (external example_total example_size))).

Lemma example_step i name ts w : ts !! i = Some (Reconcile live_reconciler (example_key name)) →
  cluster_wf (cl w) → locks_free i example_time (Reconcile live_reconciler (example_key name)) w = true →
  example_steps (ts, w) (<[i := Ret (example_run i name w).1]> ts, (example_run i name w).2).
Proof.
  intros Hi Hwf Hl. eapply run_pool; [exact Hi| |apply surjective_pairing].
  apply model_run_legal; [|done|done]. intros c o Hc. split; [done|]. apply surjective_pairing.
Qed.

Lemma placement_never_overcommits_witness :
  ∃ ts' w', example_steps
      (map (Reconcile live_reconciler) (map example_key ["a"; "b"; "c"]), example_world) (ts', w') ∧
    used_on (cl w') "SN1" = 8388608 ∧ used_on (cl w') "SN1" ≤ Z.max 0 (example_total "SN1").
Proof.
  set (P := λ name, Reconcile live_reconciler (example_key name)).
  set (w1 := (example_run 0 "a" example_world).2). set (w2 := (example_run 1 "b" w1).2).
  set (w3 := (example_run 2 "c" w2).2).
  assert (cluster_wf (cl example_world)) as Hwf by (apply (inv_wf _ _ _ example_inv)).
  assert (cluster_wf (cl w1)) as Hwf1 by (by apply model_run_wf).
  assert (cluster_wf (cl w2)) as Hwf2 by (by apply model_run_wf).
  assert (example_steps ([P "a"; P "b"; P "c"], example_world)
    (<[2%nat := Ret (example_run 2 "c" w2).1]> (<[1%nat := Ret (example_run 1 "b" w1).1]>
       (<[0%nat := Ret (example_run 0 "a" example_world).1]> [P "a"; P "b"; P "c"])), w3)) as Hrun.
  { etransitivity; [etransitivity|].
    - apply (example_step 0 "a"); [reflexivity|exact Hwf|vm_compute; reflexivity].
    - apply (example_step 1 "b"); [reflexivity|exact Hwf1|vm_compute; reflexivity].
    - apply (example_step 2 "c"); [reflexivity|exact Hwf2|vm_compute; reflexivity]. }
  eexists _, w3. split; [exact Hrun|]. split; [vm_compute; reflexivity|].
  refine (placement_never_overcommits model_serves model_serves_documented example_total example_size
    live_reconciler (map example_key ["a"; "b"; "c"]) example_world _ w3 _ example_inv Hrun "SN1" _);
    [reflexivity|discriminate].
Defined.

Definition example_cluster1 : Cluster := example_cluster [example_unplaced "a" "p-a" 4194304].

Lemma example_cluster1_ok :
  cluster_wf example_cluster1 ∧ capacities_ok example_cluster1 ∧ device_names_ok example_cluster1.
Proof.
  split; [apply cluster_wf_check; vm_compute; reflexivity|]. split.
  - apply (bool_decide_unpack (map_Forall (λ _ (d : NVMeDevice),
      0 ≤ Value (ds_TotalCapacity (Spec d)) ≤ MaxInt64) (objects example_cluster1 KDevice))). vm_compute. exact I.
  - apply (bool_decide_unpack (map_Forall (λ _ (d : NVMeDevice),
      ds_NodeName (Spec d) ≠ "" ∧ ds_SerialNumber (Spec d) ≠ "") (objects example_cluster1 KDevice))).
    vm_compute. exact I.
Qed.

Lemma placement_candidates_exact_witness :
  (run (quiet_handle example_time) (placementCandidates live_reconciler
    (example_unplaced "a" "p-a" 4194304) 4194304) example_cluster1).1 =
    inl [candidate_of example_cluster1 example_device] ∧
  ∀ cand, cand ∈ [candidate_of example_cluster1 example_device] ↔
    ∃ key (d : NVMeDevice), objects example_cluster1 KDevice !! key = Some d ∧
      eligible example_time example_cluster1 (example_unplaced "a" "p-a" 4194304) 4194304 d ∧
      cand = candidate_of example_cluster1 d.
Proof.
  pose proof (qwp_run _ _ (quiet_handle example_time) _ _ _ (quiet_handle_legal example_time)
    (proj1 example_cluster1_ok)
    (placement_candidates_exact model_serves model_serves_documented example_time live_reconciler
       (example_unplaced "a" "p-a" 4194304) 4194304 example_cluster1 eq_refl
       (proj1 example_cluster1_ok) (proj1 (proj2 example_cluster1_ok)))) as [_ H].
  assert ((run (quiet_handle example_time) (placementCandidates live_reconciler
    (example_unplaced "a" "p-a" 4194304) 4194304) example_cluster1).1 =
    inl [candidate_of example_cluster1 example_device]) as E by (vm_compute; reflexivity).
  split; [exact E|]. rewrite E in H. exact (proj2 H).
Defined.

Lemma reservation_authorized_witness :
  (run (quiet_handle example_time) (reserveCandidate live_reconciler (example_key "a")
     (candidate_of example_cluster1 example_device) 4194304) example_cluster1).1 = (true, None) ∧
  reserved example_time example_cluster1 (example_key "a") (candidate_of example_cluster1 example_device)
    4194304 (example_unplaced "a" "p-a" 4194304)
    (run (quiet_handle example_time) (reserveCandidate live_reconciler (example_key "a")
       (candidate_of example_cluster1 example_device) 4194304) example_cluster1).2.
Proof.
  destruct example_cluster1_ok as (Hwf & Hcap & Hnames).
  pose proof (qwp_run _ _ (quiet_handle example_time) _ _ _ (quiet_handle_legal example_time) Hwf
    (reservation_authorized model_serves model_serves_documented example_time live_reconciler
       (example_key "a") (candidate_of example_cluster1 example_device) 4194304 example_cluster1
       (example_unplaced "a" "p-a" 4194304) eq_refl Hwf Hcap Hnames
       ltac:(vm_compute; reflexivity) eq_refl eq_refl ltac:(discriminate))) as H.
  cbv beta in H.
  assert ((run (quiet_handle example_time) (reserveCandidate live_reconciler (example_key "a")
     (candidate_of example_cluster1 example_device) 4194304) example_cluster1).1 = (true, None)) as E
    by (vm_compute; reflexivity).
  split; [exact E|]. rewrite E in H. exact (H eq_refl).
Defined.

(** ** A recreated partition

    Reconcile computes the requested bytes from the cached partition and
    reserveCandidate does not compare the UID or the size of the partition it
    reads again. *)

Definition old_partition : NVMePartition := example_unplaced "a" "p-old" 4194304.
Definition new_partition : NVMePartition := example_unplaced "a" "p-new" 16777216.

(** The partition "a" of 4 MiB has been deleted and created again with 16 MiB. *)
Definition recreated_world : mworld :=
  let c := example_cluster [new_partition] in
  {| cl := {| partitions := mkStore (k := KPartition) (objects c KPartition)
                (<["rv-p-old" := old_partition]> (versions c KPartition));
              devices := devices c; claims := claims c; nodes := nodes c; attachments := attachments c |};
     held := ∅ |}.

(** A partition recreated with another size can overcommit its device:
    the cached read returns the old partition, every other call answers from the
    current state, and the reconcile places 16 MiB on a device of 8 MiB. *)
Theorem recreated_partition_overcommits :
  cluster_wf (cl recreated_world) ∧
  objects (cl recreated_world) KDevice !! {| key_Namespace := ""; key_Name := "dev-1" |} = Some example_device ∧
  ∃ ts' w', rtc (pool_step (A := result ctrlResult) (mgr_step kube_spec) (λ _ _, False))
      ([Reconcile live_reconciler (example_key "a")], recreated_world) (ts', w') ∧
    used_on (cl w') "SN1" = 16777216 ∧ Value (ds_TotalCapacity (Spec example_device)) = 8388608.
Proof.
  assert (cluster_wf (cl recreated_world)) as Hwf by (apply cluster_wf_check; vm_compute; reflexivity).
  split; [done|]. split; [vm_compute; reflexivity|].
  eexists _, _. split; [|split; [|reflexivity]].
  - eapply rtc_l.
    + eapply (pool_op _ _ _ 0%nat (MKube (Get Cached KPartition (example_key "a"))) _ _
        (inl old_partition : mgrRep (MKube (Get Cached KPartition (example_key "a")))) recreated_world);
        [reflexivity|]. split; [|done]. vm_compute. done.
    + eapply (run_pool _ _ 0%nat (mgr_handle 0 example_time)); [reflexivity| |apply surjective_pairing].
      apply model_run_legal; [|done|vm_compute; reflexivity]. apply model_serve_documented.
  - vm_compute. reflexivity.
Qed.
