(* ===== verification/ClaimController.v ===== *)
(** * The claim, device and node controllers

    Models src/internal/controller/nvmedeviceclaim_controller.go (which binds a
    claim to the one present device with its serial number and releases it when
    the claim goes), the reconciler of
    src/internal/controller/nvmedevice_controller.go (which publishes the free
    capacity of a device) and src/internal/controller/rdmastoragenode_controller.go
    (which expires stale readiness). *)

From S2P Require Import Prelude GoStrings Encoding Capacity ApiTypes Identity RdmaHealth Prog Kube Placement.

Definition claimFinalizer : string := "storage.distort.io/claim-cleanup".
Definition claimBoundCondition : string := "Bound".
Definition deviceReadyCondition : string := "HardwareAvailable".
Definition claimRequeueInterval : Z := 30 * Second.
Definition claimDeleteInterval : Z := 5 * Second.

Definition requeue (d : Z) : ctrlResult := {| RequeueAfter := d |}.

Section ClaimController.
Context `{AM : ApiMachinery}.

(** ** Watch mappings *)

(** claimsForDevice: the claims to reconcile when a device changes. *)
Definition claimsForDevice (device : NVMeDevice) : mgr (list ObjectKey) :=
  if ds_SerialNumber (Spec device) ==? "" then Ret []
  else
    let! r := kube (List Cached KClaim) in
    Ret (match r with
         | inr _ => []
         | inl claims =>
           map ObjectKeyFromObject
             (List.filter (λ claim, EqualFold (cs_SerialNumber (Spec claim)) (ds_SerialNumber (Spec device))) claims)
         end).

Definition claimForPartition (partition : NVMePartition) : list ObjectKey :=
  match ps_ClaimRef (Spec partition) with
  | None => []
  | Some ref => [{| key_Namespace := ref_Namespace ref; key_Name := ref_Name ref |}]
  end.

(** ** Binding *)

Definition deviceIsPresent (device : NVMeDevice) : bool :=
  if dt_State (Status device) ==? NVMeDeviceStateUnavailable then false
  else match FindStatusCondition (dt_Conditions (Status device)) deviceReadyCondition with
       | None => true
       | Some condition => c_Status condition !=? ConditionFalse
       end.

Definition claimOwnsDevice (claim : NVMeDeviceClaim) (device : NVMeDevice) : bool :=
  match dt_ClaimRef (Status device) with
  | None => false
  | Some ref => (ref_Namespace ref ==? Namespace (Meta claim)) && (ref_Name ref ==? Name (Meta claim)) &&
                (ref_UID ref ==? UID (Meta claim))
  end.

(** The fields that updateClaimStatus writes. *)
Definition claim_status (active : bool) (device node : string) (cond : Condition) (s : NVMeDeviceClaimStatus)
    : NVMeDeviceClaimStatus :=
  {| ct_Active := active; ct_MatchedDevice := device; ct_NodeName := node;
     ct_Conditions := SetStatusCondition (ct_Conditions s) cond |}.

Definition updateClaimStatus (claim : NVMeDeviceClaim) (active : bool) (device node : string)
    (conditionStatus : ConditionStatus) (reason message : string) : mgr (option error) :=
  let! r := kube (Get Cached KClaim (ObjectKeyFromObject claim)) in
  match r with
  | inr err => Ret (Some err)
  | inl latest =>
    let base := latest in
    let cond := {| c_Type := claimBoundCondition; c_Status := conditionStatus;
                   c_ObservedGeneration := Generation (Meta latest); c_Reason := reason; c_Message := message |} in
    let latest := with_Status (claim_status active device node cond (Status latest)) latest in
    let! r := kube (StatusPatch KClaim base latest) in
    Ret (error_of r)
  end.

(** The device after releaseDevice has changed it. *)
Definition released_device (device : NVMeDevice) : NVMeDevice :=
  let device := with_Status (set_dt_ClaimRef None (Status device)) device in
  if deviceIsPresent device
  then with_Status (set_dt_State NVMeDeviceStateAvailable (Status device)) device
  else with_Status (set_dt_State NVMeDeviceStateUnavailable (Status device)) device.

Definition releaseDevice (claim : NVMeDeviceClaim) (device : NVMeDevice) : mgr (option error) :=
  if negb (claimOwnsDevice claim device) then Ret None
  else
    let! r := kube (StatusPatch KDevice device (released_device device)) in
    Ret (error_of r).

Definition references_claim (claim : NVMeDeviceClaim) (partition : NVMePartition) : bool :=
  match ps_ClaimRef (Spec partition) with
  | Some ref => ref_UID ref ==? UID (Meta claim)
  | None => false
  end.

(** Release of the devices in [devices] that the claim owns, except the one
    named [except]. *)
Definition release_others (claim : NVMeDeviceClaim) (except : string) (devices : list NVMeDevice)
    : mgr (unit + error) :=
  for_each devices tt (λ device _,
    if (Name (Meta device) !=? except) && claimOwnsDevice claim device
    then check! releaseDevice claim device in Ret (inl tt)
    else Ret (inl tt)).

(** Releasing the device that the claim's status names. *)
Definition release_matched (claim : NVMeDeviceClaim) : mgr (result unit) :=
  if ct_MatchedDevice (Status claim) !=? "" then
    let! r := kube (Get Cached KDevice {| key_Namespace := ""; key_Name := ct_MatchedDevice (Status claim) |}) in
    match r with
    | inr err => Ret (if IsNotFound err then Ok tt else Err err)
    | inl device => check! releaseDevice claim device in Ret (Ok tt)
    end
  else Ret (Ok tt).

Definition finalizeClaim (claim : NVMeDeviceClaim) : mgr (result ctrlResult) :=
  if negb (ContainsFinalizer (Finalizers (Meta claim)) claimFinalizer) then Ret (Ok done_result)
  else
    let!? partitions := kube (List Cached KPartition) in
    if existsb (references_claim claim) partitions then Ret (Ok (requeue claimDeleteInterval))
    else
      let!? _u := release_matched claim in
      let!? devices := kube (List Cached KDevice) in
      let!? _u := release_others claim (ct_MatchedDevice (Status claim)) devices in
      let base := claim in
      let claim := with_Meta (set_Finalizers (RemoveFinalizer (Finalizers (Meta claim)) claimFinalizer) (Meta claim)) claim in
      let! r := kube (Patch KClaim base claim) in
      Ret (match r with inl _ => Ok done_result | inr err => Err err end).

(** Report that the claim is not bound, keeping the last match. *)
Definition not_bound (claim : NVMeDeviceClaim) (reason message : string) : mgr (result ctrlResult) :=
  check! updateClaimStatus claim false (ct_MatchedDevice (Status claim)) (ct_NodeName (Status claim))
    ConditionFalse reason message in
  Ret (Ok (requeue claimRequeueInterval)).

(** The device as the binding writes it. *)
Definition bound_device (claim : NVMeDeviceClaim) (device : NVMeDevice) : NVMeDevice :=
  with_Status (set_dt_ClaimRef
    (Some {| ref_Namespace := Namespace (Meta claim); ref_Name := Name (Meta claim); ref_UID := UID (Meta claim) |})
    (set_dt_State NVMeDeviceStateClaimed (Status device))) device.

Definition matching_devices (claim : NVMeDeviceClaim) (devices : list NVMeDevice) : list NVMeDevice :=
  List.filter (λ dev, EqualFold (ds_SerialNumber (Spec dev)) (cs_SerialNumber (Spec claim))) devices.

Definition present_devices (claim : NVMeDeviceClaim) (devices : list NVMeDevice) : list NVMeDevice :=
  List.filter deviceIsPresent (matching_devices claim devices).

Definition ownership_conflict (claim : NVMeDeviceClaim) (device : NVMeDevice) : bool :=
  let legacyMatch := (dt_ClaimRef (Status device) ==? None) && ct_Active (Status claim) &&
                     (ct_MatchedDevice (Status claim) ==? Name (Meta device)) in
  let ownedByAnotherClaim := (dt_ClaimRef (Status device) !=? None) && negb (claimOwnsDevice claim device) in
  let legacyOwnershipConflict := (dt_State (Status device) ==? NVMeDeviceStateClaimed) &&
                     negb (claimOwnsDevice claim device) && negb legacyMatch in
  ownedByAnotherClaim || legacyOwnershipConflict.

Definition reconcileClaimBinding (claim : NVMeDeviceClaim) : mgr (result ctrlResult) :=
  let!? deviceList := kube (List Cached KDevice) in
  match present_devices claim deviceList with
  | [] => not_bound claim "DeviceUnavailable" "No currently available NVMeDevice has the requested serial number"
  | _ :: _ :: _ =>
    not_bound claim "AmbiguousDevices" "Multiple available NVMeDevices have the requested serial number"
  | [device] =>
    if ownership_conflict claim device
    then not_bound claim "OwnedByAnotherClaim" "The matching NVMeDevice is owned by another claim"
    else
      (* the reply is decoded into [device] *)
      let!? device := kube (StatusPatch KDevice device (bound_device claim device)) in
      let!? _u := release_others claim (Name (Meta device))
        (map (λ old, if ObjectKeyFromObject old ==? ObjectKeyFromObject device then device else old)
           (matching_devices claim deviceList)) in
      check! updateClaimStatus claim true (Name (Meta device)) (ds_NodeName (Spec device))
        ConditionTrue "DeviceBound" "The claim is bound to an available NVMeDevice" in
      Ret (Ok (requeue claimRequeueInterval))
  end.

Definition claim_Reconcile (req : ObjectKey) : mgr (result ctrlResult) :=
  let! r := kube (Get Cached KClaim req) in
  match r with
  | inr err => Ret (match IgnoreNotFound err with Some err => Err err | None => Ok done_result end)
  | inl claim =>
    if deleting claim then finalizeClaim claim
    else if negb (ContainsFinalizer (Finalizers (Meta claim)) claimFinalizer) then
      let claim := with_Meta (set_Finalizers (AddFinalizer (Finalizers (Meta claim)) claimFinalizer) (Meta claim)) claim in
      let!? claim := kube (Update KClaim claim) in
      reconcileClaimBinding claim
    else reconcileClaimBinding claim
  end.

(** ** The device controller *)

Definition device_Reconcile (req : ObjectKey) : mgr (result ctrlResult) :=
  let! r := kube (Get Cached KDevice req) in
  match r with
  | inr err => Ret (match IgnoreNotFound err with Some err => Err err | None => Ok done_result end)
  | inl device =>
    let!? partitionList := kube (List Cached KPartition) in
    let totalCapacity := Value (ds_TotalCapacity (Spec device)) in
    match allocatedCapacityForDevice partitionList (ds_SerialNumber (Spec device)) with
    | inr err => Ret (Err err)
    | inl usedCapacity =>
      let freeCapacity := Z.max (sub64 totalCapacity usedCapacity) 0 in
      let newFreeCapacity := NewQuantity freeCapacity in
      if Quantity_differs (dt_FreeCapacity (Status device)) newFreeCapacity then
        let base := device in
        let device := with_Status (set_dt_FreeCapacity newFreeCapacity (Status device)) device in
        let!? _d := kube (StatusPatch KDevice base device) in
        Ret (Ok done_result)
      else Ret (Ok done_result)
    end
  end.

(** The mapping of SetupWithManager from a partition to its device. *)
Definition device_for_partition (partition : NVMePartition) : mgr (list ObjectKey) :=
  if ps_ParentDeviceSerialNumber (Spec partition) ==? "" then Ret []
  else
    let! r := kube (List Cached KDevice) in
    Ret (match r with
         | inr _ => []
         | inl devices =>
           match List.find (λ dev, ds_SerialNumber (Spec dev) ==? ps_ParentDeviceSerialNumber (Spec partition)) devices with
           | Some dev => [ObjectKeyFromObject dev]
           | None => []
           end
         end).

(** ** The node controller *)

Definition node_Reconcile (req : ObjectKey) : mgr (result ctrlResult) :=
  let! r := kube (Get Cached KNode req) in
  match r with
  | inr err => Ret (match IgnoreNotFound err with Some err => Err err | None => Ok done_result end)
  | inl node =>
    let! now := timeNow in
    let expired :=
      match FindStatusCondition (nt_Conditions (Status node)) ReadyCondition with
      | Some condition => (c_Status condition ==? ConditionTrue) &&
                          negb (HeartbeatIsFresh (nt_LastHeartbeatTime (Status node)) now)
      | None => false
      end in
    if expired then
      let base := node in
      let node := with_Status (set_nt_Conditions (SetStatusCondition (nt_Conditions (Status node))
        {| c_Type := ReadyCondition; c_Status := ConditionFalse; c_ObservedGeneration := Generation (Meta node);
           c_Reason := "StaleHeartbeat";
           c_Message := "The RDMA reporter heartbeat is stale or outside the allowed clock skew" |})
        (Status node)) node in
      let!? _n := kube (StatusPatch KNode base node) in
      Ret (Ok (requeue (div64 FreshnessWindow 2)))
    else Ret (Ok (requeue (div64 FreshnessWindow 2)))
  end.

End ClaimController.
