(* ===== verification/ClaimWrites.v ===== *)
(** * What the claim controller writes

    The claim reconciler reads through the cache, so what it decides on may be
    out of date.  The statements of this file hold for every history of a
    reconcile, with any replies at all: each write is justified by what the same
    run has read before. *)

From S2P Require Import Prelude GoStrings Encoding Capacity ApiTypes Identity RdmaHealth Prog Kube.
From S2P Require Import Placement ClaimController.

Abbreviation mevent := (@event mgrOp mgrRep).

Definition evm (o : kubeOp) (x : kubeRep o) : mevent := ev (Rep := mgrRep) (MKube o) x.

Section Writes.
Context `{AM : ApiMachinery}.

(** ** Ownership *)

Definition claim_ref (claim : NVMeDeviceClaim) : NVMeDeviceClaimReference :=
  {| ref_Namespace := Namespace (Meta claim); ref_Name := Name (Meta claim); ref_UID := UID (Meta claim) |}.

Lemma claimOwnsDevice_iff claim d : claimOwnsDevice claim d = true ↔ dt_ClaimRef (Status d) = Some (claim_ref claim).
Proof.
  unfold claimOwnsDevice, claim_ref. destruct (dt_ClaimRef (Status d)) as [[n m u]|]; [|done]. simpl.
  rewrite !andb_true_iff, !bool_decide_eq_true. naive_solver.
Qed.

(** The claim may take the device: it owns it already, or nobody does; a device
    that is marked claimed without naming an owner is the one that the active
    claim is bound to. *)
Definition claimable (claim : NVMeDeviceClaim) (d : NVMeDevice) : Prop :=
  dt_ClaimRef (Status d) = Some (claim_ref claim) ∨
  dt_ClaimRef (Status d) = None ∧
  (dt_State (Status d) = NVMeDeviceStateClaimed →
   ct_Active (Status claim) = true ∧ ct_MatchedDevice (Status claim) = Name (Meta d)).

Lemma ownership_conflict_iff claim d : ownership_conflict claim d = false ↔ claimable claim d.
Proof.
  unfold ownership_conflict, claimable. pose proof (claimOwnsDevice_iff claim d) as Ho.
  destruct (claimOwnsDevice claim d) eqn:E.
  - cbn [negb]. rewrite !andb_false_r. split; [|done]. intros _. left. by apply Ho.
  - assert (dt_ClaimRef (Status d) ≠ Some (claim_ref claim)) as Hn by (intros H; by apply Ho in H).
    destruct (dt_ClaimRef (Status d)) as [ref|]; simpl.
    + split; [done|]. naive_solver.
    + destruct (ct_Active (Status claim)); repeat case_bool_decide; simpl; naive_solver.
Qed.

(** ** What a run has seen *)

Variable req : ObjectKey.

(** The claim as this run has read it, or as the API server returned it when its
    finalizer was added. *)
Definition live_claim (h : list mevent) (claim : NVMeDeviceClaim) : Prop :=
  (evm (Get Cached KClaim req) (inl claim) ∈ h ∧ deleting claim = false) ∨
  ∃ o : NVMeDeviceClaim, evm (Update KClaim o) (inl claim) ∈ h.

Definition deleted_claim_read (h : list mevent) (claim : NVMeDeviceClaim) : Prop :=
  evm (Get Cached KClaim req) (inl claim) ∈ h ∧ deleting claim = true.

(** The device, as it was read, does not belong to the claim or has been
    released. *)
Definition let_go (h : list mevent) (claim : NVMeDeviceClaim) (d : NVMeDevice) : Prop :=
  dt_ClaimRef (Status d) ≠ Some (claim_ref claim) ∨
  ∃ ob : NVMeDevice, evm (StatusPatch KDevice d (released_device d)) (inl ob) ∈ h.

(** The reads show no partition that refers to the claim. *)
Definition no_dependents (h : list mevent) (claim : NVMeDeviceClaim) : Prop :=
  ∃ ps : list NVMePartition, evm (List Cached KPartition) (inl ps) ∈ h ∧
    ∀ p ref, p ∈ ps → ps_ClaimRef (Spec p) = Some ref → ref_UID ref ≠ UID (Meta claim).

Definition matched_key (claim : NVMeDeviceClaim) : ObjectKey :=
  {| key_Namespace := ""; key_Name := ct_MatchedDevice (Status claim) |}.

(** The device that the claim's status names is not there, or let go. *)
Definition matched_let_go (h : list mevent) (claim : NVMeDeviceClaim) : Prop :=
  ct_MatchedDevice (Status claim) ≠ "" →
  (∃ e, IsNotFound e = true ∧ evm (Get Cached KDevice (matched_key claim)) (inr e) ∈ h) ∨
  (∃ d : NVMeDevice, evm (Get Cached KDevice (matched_key claim)) (inl d) ∈ h ∧ let_go h claim d).

(** So is every other device. *)
Definition others_let_go (h : list mevent) (claim : NVMeDeviceClaim) : Prop :=
  ∃ ds : list NVMeDevice, evm (List Cached KDevice) (inl ds) ∈ h ∧
    ∀ d, d ∈ ds → Name (Meta d) ≠ ct_MatchedDevice (Status claim) → let_go h claim d.

(** The device was listed as the one present device with the claim's serial
    number, and the claim may take it. *)
Definition sole_match (h : list mevent) (claim : NVMeDeviceClaim) (d : NVMeDevice) : Prop :=
  (∃ ds : list NVMeDevice, evm (List Cached KDevice) (inl ds) ∈ h ∧
     List.filter (λ x, EqualFold (ds_SerialNumber (Spec x)) (cs_SerialNumber (Spec claim)) && deviceIsPresent x) ds = [d]) ∧
  claimable claim d.

(** ** The writes *)

(** A device is written to bind it to the live claim that it alone matches, or
    to release it from the claim that it names. *)
Definition device_write_warranted (h : list mevent) (d d' : NVMeDevice) : Prop :=
  (∃ claim, live_claim h claim ∧ sole_match h claim d ∧ d' = bound_device claim d) ∨
  (∃ claim, (live_claim h claim ∨ deleted_claim_read h claim ∧ no_dependents h claim) ∧
     dt_ClaimRef (Status d) = Some (claim_ref claim) ∧ d' = released_device d).

(** A claim is reported active only after its device has been bound to it. *)
Definition report_warranted (h : list mevent) (s : NVMeDeviceClaimStatus) : Prop :=
  ct_Active s = true → ∃ claim (d ob : NVMeDevice), live_claim h claim ∧ sole_match h claim d ∧
    evm (StatusPatch KDevice d (bound_device claim d)) (inl ob) ∈ h ∧
    ct_MatchedDevice s = Name (Meta ob) ∧ ct_NodeName s = ds_NodeName (Spec ob).

(** The finalizer is removed from a claim that was read as being deleted, after
    no partition was listed that refers to it and every device that was read
    with it as the owner has been released. *)
Definition finalization_warranted (h : list mevent) (base o : NVMeDeviceClaim) : Prop :=
  deleted_claim_read h base ∧ no_dependents h base ∧ matched_let_go h base ∧ others_let_go h base ∧
  o = with_Meta (set_Finalizers (RemoveFinalizer (Finalizers (Meta base)) claimFinalizer) (Meta base)) base.

Definition claim_write_ok (h : list mevent) (o : mgrOp) : Prop :=
  match o with
  | MKube (Get _ _ _) | MKube (List _ _) => True
  | MKube (Update KClaim o) => ∃ claim : NVMeDeviceClaim, evm (Get Cached KClaim req) (inl claim) ∈ h ∧
      deleting claim = false ∧
      o = with_Meta (set_Finalizers (AddFinalizer (Finalizers (Meta claim)) claimFinalizer) (Meta claim)) claim
  | MKube (StatusPatch KDevice d d') => device_write_warranted h d d'
  | MKube (StatusPatch KClaim base o) => report_warranted h (Status o)
  | MKube (Patch KClaim base o) => finalization_warranted h base o
  | _ => False
  end.

Definition claim_good (h : list mevent) (e : mevent) : Prop := claim_write_ok h (projT1 e).

#[local] Abbreviation ok := (hwp claim_good).

Lemma m_ret {A} (a : A) h Q : Q a h → ok (Ret a) h Q.
Proof. done. Qed.

Lemma m_vis {A} o (k : mgrRep o → mgr A) h Q :
  claim_write_ok h o → (∀ x, ok (k x) (h ++ [ev o x]) Q) → ok (Vis o k) h Q.
Proof. intros Ho Hk. by apply hwp_vis. Qed.

(** *** What was seen stays seen *)

Lemma live_claim_app a b claim : live_claim a claim → live_claim (a ++ b) claim.
Proof. unfold live_claim. setoid_rewrite elem_of_app. naive_solver. Qed.

Lemma deleted_claim_read_app a b claim : deleted_claim_read a claim → deleted_claim_read (a ++ b) claim.
Proof. unfold deleted_claim_read. rewrite elem_of_app. naive_solver. Qed.

Lemma let_go_app a b claim d : let_go a claim d → let_go (a ++ b) claim d.
Proof. unfold let_go. setoid_rewrite elem_of_app. naive_solver. Qed.

Lemma no_dependents_app a b claim : no_dependents a claim → no_dependents (a ++ b) claim.
Proof. intros (ps & ? & ?). exists ps. rewrite elem_of_app. naive_solver. Qed.

Lemma matched_let_go_app a b claim : matched_let_go a claim → matched_let_go (a ++ b) claim.
Proof.
  intros H Hn. destruct (H Hn) as [(e & ? & ?)|(d & ? & ?)]; [left; exists e|right; exists d];
    rewrite elem_of_app; auto using let_go_app.
Qed.

Lemma sole_match_app a b claim d : sole_match a claim d → sole_match (a ++ b) claim d.
Proof. intros [(ds & ? & ?) ?]. split; [exists ds; rewrite elem_of_app; auto|done]. Qed.

(** The claim may release its devices. *)
Definition may_release (h : list mevent) (claim : NVMeDeviceClaim) : Prop :=
  live_claim h claim ∨ deleted_claim_read h claim ∧ no_dependents h claim.

Lemma may_release_app a b claim : may_release a claim → may_release (a ++ b) claim.
Proof. unfold may_release. naive_solver eauto using live_claim_app, deleted_claim_read_app, no_dependents_app. Qed.

(** *** The procedures *)

Lemma releaseDevice_hwp claim d h Q : may_release h claim →
  (∀ r b, (r = None → let_go (h ++ b) claim d) → Q r (h ++ b)) → ok (releaseDevice claim d) h Q.
Proof.
  intros Hm HQ. unfold releaseDevice. destruct (claimOwnsDevice claim d) eqn:Ho; cbn [negb].
  - apply claimOwnsDevice_iff in Ho. apply m_vis; [right; eauto|]. intros x. apply m_ret, HQ.
    destruct x as [ob|e]; [|done]. intros _. right. exists ob. apply elem_of_app. right. apply list_elem_of_here.
  - apply m_ret. rewrite <- (app_nil_r h). apply HQ. intros _. left.
    intros Hr%claimOwnsDevice_iff. congruence.
Qed.

Lemma release_others_hwp claim except ds h Q : may_release h claim →
  (∀ r b, (r = inl tt → ∀ d, d ∈ ds → Name (Meta d) ≠ except → let_go (h ++ b) claim d) → Q r (h ++ b)) →
  ok (release_others claim except ds) h Q.
Proof.
  intros Hm HQ. unfold release_others.
  apply (hwp_for_each _ _ (λ rest _ h', ∃ pre b, ds = pre ++ rest ∧ h' = h ++ b ∧
    ∀ d, d ∈ pre → Name (Meta d) ≠ except → let_go h' claim d)).
  - intros d rest [] h' (pre & b & -> & -> & Hpre).
    assert (∀ b', let_go (h ++ b ++ b') claim d ∨ Name (Meta d) = except →
      ∃ pre' b'', pre ++ d :: rest = pre' ++ rest ∧ h ++ b ++ b' = h ++ b'' ∧
        ∀ d, d ∈ pre' → Name (Meta d) ≠ except → let_go (h ++ b ++ b') claim d) as Hnext.
    { intros b' Hd. exists (pre ++ [d]), (b ++ b'). rewrite <- app_assoc. split_and!; try done.
      intros d0 [Hd0| ->]%elem_of_snoc Hn; [|naive_solver]. rewrite app_assoc. by apply let_go_app, Hpre. }
    destruct (_ && _) eqn:G.
    + apply hwp_bind, releaseDevice_hwp; [by apply may_release_app|]. intros r b' Hr. rewrite <- app_assoc in *.
      destruct r as [e|]; apply m_ret; [by apply HQ|]. apply Hnext. auto.
    + apply m_ret. rewrite <- (app_nil_r b). apply Hnext. apply andb_false_iff in G as [G|G]; [right|left].
      * by bool_to_prop.
      * left. intros Hr%claimOwnsDevice_iff. congruence.
  - intros [] h' (pre & b & -> & -> & Hpre). apply HQ. intros _ d Hd. apply Hpre. by rewrite app_nil_r in Hd.
  - exists [], []. rewrite app_nil_r. split_and!; try done. by intros d ?%not_elem_of_nil.
Qed.

Lemma updateClaimStatus_hwp claim active device node st reason message h Q :
  (∀ b, active = true → report_warranted (h ++ b)
     {| ct_Active := active; ct_MatchedDevice := device; ct_NodeName := node; ct_Conditions := [] |}) →
  (∀ r h', Q r h') → ok (updateClaimStatus claim active device node st reason message) h Q.
Proof.
  intros Hw HQ. unfold updateClaimStatus. apply m_vis; [done|]. intros [latest|e]; [|by apply m_ret]. cbv zeta.
  apply m_vis; [|intros x; by apply m_ret]. intros Ha. by apply Hw.
Qed.

Lemma not_bound_hwp claim reason message h Q :
  (∀ r h', Q r h') → ok (not_bound claim reason message) h Q.
Proof.
  intros HQ. unfold not_bound. apply hwp_bind, updateClaimStatus_hwp; [done|].
  intros [e|] h'; by apply m_ret.
Qed.

Lemma last_seen (h : list mevent) e : e ∈ h ++ [e].
Proof. apply elem_of_app. right. apply list_elem_of_here. Qed.

Lemma present_devices_filter claim ds : present_devices claim ds =
  List.filter (λ x, EqualFold (ds_SerialNumber (Spec x)) (cs_SerialNumber (Spec claim)) && deviceIsPresent x) ds.
Proof.
  unfold present_devices, matching_devices. induction ds as [|d ds IH]; simpl; [done|].
  destruct (EqualFold _ _); simpl; [|done]. by destruct (deviceIsPresent d); rewrite IH.
Qed.

Lemma reconcileClaimBinding_hwp claim h : live_claim h claim → ok (reconcileClaimBinding claim) h (λ _ _, True).
Proof.
  intros Hl. unfold reconcileClaimBinding. apply m_vis; [done|]. intros [ds|e]; [|by apply m_ret].
  pose proof (last_seen h (evm (List Cached KDevice) (inl ds))) as Hds. set (h1 := h ++ _) in *.
  assert (live_claim h1 claim) as Hl1 by (by apply live_claim_app).
  destruct (present_devices claim ds) as [|d [|]] eqn:Hp; [by apply not_bound_hwp| |by apply not_bound_hwp].
  destruct (ownership_conflict claim d) eqn:Hc; [by apply not_bound_hwp|].
  rewrite present_devices_filter in Hp. apply ownership_conflict_iff in Hc.
  assert (sole_match h1 claim d) as Hs by (split; eauto).
  apply m_vis; [left; eauto|]. intros [ob|e]; [|by apply m_ret].
  pose proof (last_seen h1 (evm (StatusPatch KDevice d (bound_device claim d)) (inl ob))) as Hob.
  apply hwp_bind, release_others_hwp; [left; by apply live_claim_app|].
  intros [[]|e] b _; [|by apply m_ret]. apply hwp_bind, updateClaimStatus_hwp; [|intros [e|] h'; by apply m_ret].
  intros b' _ _. exists claim, d, ob. rewrite <- !app_assoc. split_and!; try done.
  - by apply live_claim_app.
  - by apply sole_match_app.
  - rewrite app_assoc. apply elem_of_app. by left.
Qed.

Lemma release_matched_hwp claim h Q : may_release h claim →
  (∀ r b, (r = Ok tt → matched_let_go (h ++ b) claim) → Q r (h ++ b)) → ok (release_matched claim) h Q.
Proof.
  intros Hm HQ. unfold release_matched. case_bool_decide as Hn; cbn [negb].
  { apply m_ret. rewrite <- (app_nil_r h). apply HQ. by intros _ ?. }
  apply m_vis; [done|]. intros [d|e].
  - pose proof (last_seen h (evm (Get Cached KDevice (matched_key claim)) (inl d))) as Hd.
    apply hwp_bind, releaseDevice_hwp; [by apply may_release_app|]. intros r b Hr. rewrite <- app_assoc in Hr |- *.
    destruct r as [e|]; apply m_ret, HQ; [done|]. intros _ _. right. exists d. split; [|by apply Hr].
    rewrite app_assoc. apply elem_of_app. by left.
  - apply m_ret, HQ. destruct (IsNotFound e) eqn:E; [|done]. intros _ _. left. exists e. split; [done|apply last_seen].
Qed.

Lemma finalizeClaim_hwp claim h : deleted_claim_read h claim → ok (finalizeClaim claim) h (λ _ _, True).
Proof.
  intros Hc. unfold finalizeClaim. guard G; [by apply m_ret|]. apply m_vis; [done|]. intros [ps|e]; [|by apply m_ret].
  pose proof (last_seen h (evm (List Cached KPartition) (inl ps))) as Hps. set (h1 := h ++ _) in *.
  destruct (existsb _ _) eqn:Hex; [by apply m_ret|].
  assert (deleted_claim_read h1 claim ∧ no_dependents h1 claim) as [Hc1 Hno].
  { split; [by apply deleted_claim_read_app|]. exists ps. split; [done|]. intros p ref Hp Hr Hu.
    rewrite <- not_true_iff_false, existsb_exists in Hex. destruct Hex. exists p. apply list_elem_of_In in Hp.
    unfold references_claim. rewrite Hr. split; [done|]. by apply bool_decide_eq_true. }
  apply hwp_bind, release_matched_hwp; [by right|]. intros [[]|e] b Hm; [|by apply m_ret].
  specialize (Hm eq_refl). apply m_vis; [done|]. intros [ds|e]; [|by apply m_ret].
  pose proof (last_seen (h1 ++ b) (evm (List Cached KDevice) (inl ds))) as Hds.
  apply hwp_bind, release_others_hwp; [right; rewrite <- app_assoc; auto using deleted_claim_read_app, no_dependents_app|].
  intros [[]|e] b' Ho; [|by apply m_ret]. specialize (Ho eq_refl). cbv zeta.
  apply m_vis; [|intros [|]; by apply m_ret].
  split_and!; [by rewrite <- !app_assoc; apply deleted_claim_read_app|by rewrite <- !app_assoc; apply no_dependents_app| | |done].
  - by apply matched_let_go_app, matched_let_go_app.
  - exists ds. split; [|done]. apply elem_of_app. by left.
Qed.

Lemma claim_Reconcile_hwp : ok (claim_Reconcile req) [] (λ _ _, True).
Proof.
  unfold claim_Reconcile. apply m_vis; [done|]. intros [claim|e]; [|by apply m_ret].
  destruct (deleting claim) eqn:Hd.
  - apply finalizeClaim_hwp. split; [apply list_elem_of_here|done].
  - guard G.
    + cbv zeta. apply m_vis; [exists claim; split_and!; [apply list_elem_of_here|done..]|].
      intros [claim'|e]; [|by apply m_ret]. apply reconcileClaimBinding_hwp. right. eexists. apply last_seen.
    + apply reconcileClaimBinding_hwp. left. split; [apply list_elem_of_here|done].
Qed.

Lemma claim_writes h pre o x post : emits (claim_Reconcile req) h → h = pre ++ evm o x :: post →
  claim_write_ok pre (MKube o).
Proof. intros Hh Heq. exact (hwp_justified _ _ _ _ claim_Reconcile_hwp Hh _ _ _ Heq). Qed.

End Writes.
