(* ===== verification/ClaimProps.v ===== *)
(** * Correctness of the claim, device and node controllers

    Statements about one run of a reconciler with up-to-date caches and nothing
    else running, over every combination of failing API calls, together with what
    ClaimWrites.v shows of its writes when the caches are stale. *)

From S2P Require Import Prelude GoStrings Encoding Capacity ApiTypes Identity RdmaHealth Prog Kube.
From S2P Require Import Placement MgrQuiet PlacementProps ClaimController ClaimWrites.

Section Claims.
Context `{AM : ApiMachinery} {AML : ApiMachineryLaws AM}.
Variable serve : Cluster → ∀ o : kubeOp, kubeRep o → Cluster → Prop.
Hypothesis serve_documented : ∀ c o r c', serve c o r c' → kube_spec c o r c'.
Hypothesis serve_fresh : ∀ c o r c', serve c o r c' → fresh_spec c o r c'.
Variable now : Time.

Abbreviation mq := (qwp (quiet_step serve now) cluster_wf).

Lemma quiet_get {B} src k key (f : result (obj k) → mgr B) c Q : cluster_wf c →
  (∀ ob, objects c k !! key = Some ob → mq (f (inl ob)) c Q) →
  (∀ e, (IsNotFound e = true → objects c k !! key = None) → mq (f (inr e)) c Q) →
  mq (Vis (Rep := mgrRep) (MKube (Get src k key)) f) c Q.
Proof.
  intros Hwf Hok Herr. apply (quiet_read serve serve_documented now); [done..|].
  intros r Hr. apply serve_fresh in Hr. destruct Hr as [_ Hr]. destruct r; auto.
Qed.

Lemma quiet_list {B} src k (f : result (list (obj k)) → mgr B) c Q : cluster_wf c →
  (∀ l, l ≡ₚ (map_to_list (objects c k)).*2 → mq (f (inl l)) c Q) →
  (∀ e, mq (f (inr e)) c Q) →
  mq (Vis (Rep := mgrRep) (MKube (List src k)) f) c Q.
Proof.
  intros Hwf Hok Herr. apply (quiet_read serve serve_documented now); [done..|].
  intros r Hr. apply serve_fresh in Hr. destruct Hr as [_ Hr]. destruct r; auto.
Qed.

(** ** Listed devices *)

(** A list of current devices. *)
Definition current_devices (c : Cluster) (ds : list NVMeDevice) : Prop :=
  NoDup (map ObjectKeyFromObject ds) ∧ ∀ d, d ∈ ds → objects c KDevice !! ObjectKeyFromObject d = Some d.

Lemma listed_current c (l : list NVMeDevice) : cluster_wf c →
  l ≡ₚ (map_to_list (objects c KDevice)).*2 →
  current_devices c l ∧ ∀ key d, objects c KDevice !! key = Some d → d ∈ l.
Proof.
  intros Hwf Hl.
  assert (∀ key d, (key, d) ∈ map_to_list (objects c KDevice) → ObjectKeyFromObject d = key) as Hkey
    by (intros key d E%elem_of_map_to_list; by destruct (proj1 (Hwf KDevice) _ _ E)).
  split; [split|].
  - assert (map ObjectKeyFromObject l ≡ₚ (map_to_list (objects c KDevice)).*1) as ->.
    { change (map (ObjectKeyFromObject (Sp := NVMeDeviceSpec) (St := NVMeDeviceStatus)) l) with
        ((ObjectKeyFromObject (Sp := NVMeDeviceSpec) (St := NVMeDeviceStatus)) <$> l).
      rewrite Hl, <- list_fmap_compose. erewrite list_fmap_ext; [done|].
      intros i [key d] E. simpl. apply Hkey. by eapply list_elem_of_lookup_2. }
    apply NoDup_fst_map_to_list.
  - intros d. rewrite Hl. intros ([key d'] & -> & E)%list_elem_of_fmap. simpl in *. kn.
    rewrite (Hkey _ _ E). by apply elem_of_map_to_list.
  - intros key d E. rewrite Hl. apply list_elem_of_fmap. exists (key, d). by rewrite elem_of_map_to_list.
Qed.

Lemma current_filter c (f : NVMeDevice → bool) ds : current_devices c ds → current_devices c (List.filter f ds).
Proof.
  intros [Hnd Hc]. split.
  - clear Hc. induction ds as [|d ds IH]; simpl in *; [constructor|]. apply NoDup_cons in Hnd as [Hn Hnd].
    destruct (f d); simpl; [|by apply IH]. apply NoDup_cons. split; [|by apply IH].
    intros Hin%list_elem_of_In. apply in_map_iff in Hin as (x & Ex & Hin%filter_In). apply Hn.
    rewrite <- Ex. apply list_elem_of_In, in_map. tauto.
  - intros d Hin%list_elem_of_In. apply filter_In in Hin as [Hin _]. by apply Hc, list_elem_of_In.
Qed.

(** ** Releasing devices *)

Definition released (d d' : NVMeDevice) : Prop :=
  same_identity (k := KDevice) d d' ∧ Spec d' = Spec d ∧ Status d' = Status (released_device d).

Lemma released_unowned d d' claim : released d d' → dt_ClaimRef (Status d') = None ∧ claimOwnsDevice claim d' = false.
Proof.
  intros (_ & _ & Hs). assert (dt_ClaimRef (Status d') = None) as Hr
    by (rewrite Hs; unfold released_device; cbv zeta; by destruct (deviceIsPresent _)).
  split; [done|]. unfold claimOwnsDevice. by rewrite Hr.
Qed.

Lemma released_key d : ObjectKeyFromObject (released_device d) = ObjectKeyFromObject d.
Proof. unfold released_device. cbv zeta. by destruct (deviceIsPresent _). Qed.

Lemma quiet_release claim d c : cluster_wf c → objects c KDevice !! ObjectKeyFromObject d = Some d →
  mq (releaseDevice claim d) c (λ r c',
    (c' = c ∧ (claimOwnsDevice claim d = true → r ≠ None)) ∨
    (claimOwnsDevice claim d = true ∧ ∃ ob, patched_to (k := KDevice) c d (released_device d) ob c')).
Proof.
  intros Hwf Hd. unfold releaseDevice. destruct (claimOwnsDevice claim d) eqn:Eo; simpl.
  - apply (quiet_status_patch serve serve_documented now KDevice d _ d); [done|by rewrite released_key|done| |].
    + intros e. apply qwp_ret. left. done.
    + intros ob c' Hwf' Hp. split; [|intros e]; apply qwp_ret; right; eauto.
  - apply qwp_ret. by left.
Qed.

(** The devices of [c'] are those of [c], of which some owned by the claim
    have been released. *)
Definition only_released (claim : NVMeDeviceClaim) (P : NVMeDevice → Prop) (c c' : Cluster) : Prop :=
  (∀ k, k ≠ KDevice → objects c' k = objects c k) ∧
  (∀ key, objects c KDevice !! key = None → objects c' KDevice !! key = None) ∧
  (∀ key d, objects c KDevice !! key = Some d → ∃ d', objects c' KDevice !! key = Some d' ∧
     (d' = d ∨ (P d ∧ claimOwnsDevice claim d = true ∧ released d d'))).

Lemma only_released_refl claim P c : only_released claim P c c.
Proof. split_and!; [done|done|]. eauto. Qed.

Lemma patched_released c d ob c' : patched_to (k := KDevice) c d (released_device d) ob c' → released d ob.
Proof. intros (_ & _ & _ & Hid & _ & _ & Hs & Hst). by split_and!. Qed.

Lemma only_released_step claim P c c1 d ob c' : only_released claim P c c1 →
  objects c KDevice !! ObjectKeyFromObject d = Some d → P d → claimOwnsDevice claim d = true →
  patched_to (k := KDevice) c1 d (released_device d) ob c' → only_released claim P c c'.
Proof.
  intros (Hk & Hn & Hs) Hd HP Ho Hp. pose proof (patched_released _ _ _ _ Hp) as Hrel.
  destruct Hp as (Hnew & Hother & Hkinds & _). kn. split_and!.
  - intros k Hne. rewrite Hkinds by done. by apply Hk.
  - intros key Hnone. destruct (decide (key = ObjectKeyFromObject d)) as [->|Hne]; [kn; congruence|].
    rewrite Hother by done. by apply Hn.
  - intros key d0 Hd0. destruct (decide (key = ObjectKeyFromObject d)) as [->|Hne].
    + kn. assert (d0 = d) as -> by congruence. exists ob. auto.
    + rewrite Hother by done. by apply Hs.
Qed.
Lemma current_devices_later c ds pre d post : current_devices c ds → ds = pre ++ d :: post →
  ∀ d', d' ∈ post → ObjectKeyFromObject d' ≠ ObjectKeyFromObject d.
Proof.
  intros [Hnd _] -> d' Hd' E. rewrite map_app, NoDup_app in Hnd. destruct Hnd as (_ & _ & Hnd).
  simpl in Hnd. apply NoDup_cons in Hnd as [Hn _]. apply Hn. rewrite <- E.
  apply list_elem_of_In, in_map. by apply list_elem_of_In.
Qed.

(** Between the iterations of the release loop over [ds]: the devices after
    [pre] are untouched, those of [pre] that had to be are released. *)
Definition releasing (claim : NVMeDeviceClaim) (except : string) (ds : list NVMeDevice) (c : Cluster)
    (pre : list NVMeDevice) (c' : Cluster) : Prop :=
  only_released claim (λ d, d ∈ ds ∧ Name (Meta d) ≠ except) c c' ∧
  (∀ post d, ds = pre ++ post → d ∈ post → objects c' KDevice !! ObjectKeyFromObject d = Some d) ∧
  (∀ d, d ∈ pre → Name (Meta d) ≠ except → claimOwnsDevice claim d = true →
     ∃ d', objects c' KDevice !! ObjectKeyFromObject d = Some d' ∧ released d d').

Lemma releasing_skip claim except ds c pre d post c' : ds = pre ++ d :: post →
  (Name (Meta d) ≠ except → claimOwnsDevice claim d = true → False) →
  releasing claim except ds c pre c' → releasing claim except ds c (pre ++ [d]) c'.
Proof.
  intros Hs Hno (Hrel & Htodo & Hdone). split_and!; [done| |].
  - intros post' d0 E Hd0. apply (Htodo (d :: post')); [by rewrite E, <- app_assoc|set_solver].
  - intros d0 [Hd0| ->]%elem_of_snoc; [by apply Hdone|]. intros; by destruct Hno.
Qed.

Lemma releasing_step claim except ds c pre d post c1 ob c' : current_devices c ds → ds = pre ++ d :: post →
  Name (Meta d) ≠ except → claimOwnsDevice claim d = true →
  patched_to (k := KDevice) c1 d (released_device d) ob c' →
  releasing claim except ds c pre c1 → releasing claim except ds c (pre ++ [d]) c'.
Proof.
  intros Hcur Hs Hn Ho Hp (Hrel & Htodo & Hdone).
  assert (d ∈ ds) as Hin by (rewrite Hs; set_solver).
  pose proof (patched_released _ _ _ _ Hp) as Hr. split_and!.
  - eapply only_released_step; [done| |done|done|exact Hp]. by apply Hcur.
  - intros post' d0 E Hd0. destruct Hp as (_ & Hother & _). kn. rewrite Hother.
    + apply (Htodo (d :: post')); [by rewrite E, <- app_assoc|set_solver].
    + apply (current_devices_later c ds pre d post'); [done|by rewrite E, <- app_assoc|done].
  - destruct Hp as (Hnew & Hother & _). kn.
    intros d0 [Hd0| ->]%elem_of_snoc Hn0 Ho0; [|by exists ob].
    destruct (decide (ObjectKeyFromObject d0 = ObjectKeyFromObject d)) as [E|E].
    + assert (d0 = d) as ->; [|by exists ob].
      assert (d0 ∈ ds) as Hin0 by (rewrite Hs; set_solver).
      apply Hcur in Hin, Hin0. kn. rewrite E in Hin0. congruence.
    + rewrite Hother by done. by apply Hdone.
Qed.

Lemma quiet_release_others claim except ds c : cluster_wf c → current_devices c ds →
  mq (release_others claim except ds) c (λ r c',
    only_released claim (λ d, d ∈ ds ∧ Name (Meta d) ≠ except) c c' ∧
    ∀ u, r = inl u → ∀ d, d ∈ ds → Name (Meta d) ≠ except → claimOwnsDevice claim d = true →
      ∃ d', objects c' KDevice !! ObjectKeyFromObject d = Some d' ∧ released d d').
Proof.
  intros Hwf Hcur.
  apply (qwp_for_each _ _ _ (λ pre _ c', releasing claim except ds c pre c')).
  - intros pre d post [] c1 Hsplit Hwf1 HL.
    destruct (_ && _) eqn:G.
    + apply andb_true_iff in G as [Gn Go]. apply negb_true_iff, bool_decide_eq_false in Gn.
      apply qwp_bind; [done|]. eapply qwp_mono; [|apply quiet_release; [done|]].
      2:{ destruct HL as (_ & Htodo & _). apply (Htodo (d :: post)); [done|set_solver]. }
      intros r c2 [[-> Hr]|[_ [ob Hp]]] Hwf2.
      * specialize (Hr Go). destruct r as [e|]; [|done]. apply qwp_ret. by destruct HL as (? & _).
      * assert (releasing claim except ds c (pre ++ [d]) c2) as HL' by (by eapply releasing_step).
        destruct r as [e|]; apply qwp_ret; [by destruct HL' as (? & _)|done].
    + apply qwp_ret. eapply releasing_skip; [done| |done]. intros Hn Ho.
      by rewrite Ho, bool_decide_false in G.
  - intros [] c1 (Hrel & _ & Hdone). split; [done|]. intros u _. apply Hdone.
  - done.
  - split_and!; [apply only_released_refl| |by intros d ?%not_elem_of_nil].
    intros post d -> Hd. by apply Hcur.
Qed.

(** ** Updating the claim *)

Lemma quiet_updateClaimStatus claim active device node st reason message latest c :
  cluster_wf c → objects c KClaim !! ObjectKeyFromObject claim = Some latest →
  mq (updateClaimStatus claim active device node st reason message) c (λ r c',
    (c' = c ∧ r ≠ None) ∨
    ∃ ob, patched_to (k := KClaim) c latest
      (with_Status (claim_status active device node
         {| c_Type := claimBoundCondition; c_Status := st; c_ObservedGeneration := Generation (Meta latest);
            c_Reason := reason; c_Message := message |} (Status latest)) latest) ob c').
Proof.
  intros Hwf Hl. unfold updateClaimStatus. apply quiet_get; [done| |].
  - intros ob Ho. kn. rewrite Hl in Ho. injection Ho as <-. cbv zeta.
    destruct (proj1 (Hwf KClaim) _ _ Hl) as [Hk _]. kn.
    apply (quiet_status_patch serve serve_documented now KClaim latest _ latest);
      [done|kn; by rewrite <- Hk in Hl|done| |].
    + intros e. apply qwp_ret. left. done.
    + intros ob c' Hwf' Hp. split; [|intros e]; apply qwp_ret; right; eauto.
  - intros e _. apply qwp_ret. by left.
Qed.

(** ** Binding *)

(** Devices of other claims are untouched. *)
Definition others_kept (claim : NVMeDeviceClaim) (c c' : Cluster) : Prop := ∀ key (d : NVMeDevice) ref,
  objects c KDevice !! key = Some d → dt_ClaimRef (Status d) = Some ref → ref ≠ claim_ref claim →
  objects c' KDevice !! key = Some d.

Lemma others_kept_devices claim c c' : objects c' KDevice = objects c KDevice → others_kept claim c c'.
Proof. intros E key d ref Hd _ _. by rewrite E. Qed.

Lemma others_kept_trans claim c1 c2 c3 : others_kept claim c1 c2 → others_kept claim c2 c3 → others_kept claim c1 c3.
Proof. intros H1 H2 key d ref Hd Hr Hne. by eapply H2; [eapply H1|..]. Qed.

Lemma only_released_others claim P c c' : only_released claim P c c' → others_kept claim c c'.
Proof.
  intros (_ & _ & H) key d ref Hd Hr Hne. destruct (H _ _ Hd) as (d' & Hd' & [->|(_ & Ho & _)]); [done|].
  apply claimOwnsDevice_iff in Ho. congruence.
Qed.

(** The device is present and has the serial number that the claim asks for. *)
Definition matching (claim : NVMeDeviceClaim) (c : Cluster) (key : ObjectKey) (d : NVMeDevice) : Prop :=
  objects c KDevice !! key = Some d ∧ deviceIsPresent d = true ∧
  EqualFold (ds_SerialNumber (Spec d)) (cs_SerialNumber (Spec claim)) = true.

Definition only_matching (claim : NVMeDeviceClaim) (c : Cluster) (key : ObjectKey) (d : NVMeDevice) : Prop :=
  matching claim c key d ∧ ∀ key2 d2, matching claim c key2 d2 → key2 = key.

(** The claim is bound to the one present device with its serial number. *)
Definition bound (claim claim' : NVMeDeviceClaim) (c c' : Cluster) : Prop :=
  ∃ key (d d' : NVMeDevice), only_matching claim c key d ∧ claimable claim d ∧
    objects c' KDevice !! key = Some d' ∧ Spec d' = Spec d ∧ UID (Meta d') = UID (Meta d) ∧
    dt_ClaimRef (Status d') = Some (claim_ref claim) ∧ dt_State (Status d') = NVMeDeviceStateClaimed ∧
    ct_MatchedDevice (Status claim') = Name (Meta d') ∧ ct_NodeName (Status claim') = ds_NodeName (Spec d') ∧
    (∀ key2 (d2 : NVMeDevice), objects c' KDevice !! key2 = Some d2 →
       dt_ClaimRef (Status d2) = Some (claim_ref claim) →
       EqualFold (ds_SerialNumber (Spec d2)) (cs_SerialNumber (Spec claim)) = true →
       Name (Meta d2) = Name (Meta d')).

(** What the claim reports: whether it is active, and why. *)
Definition reports (claim : NVMeDeviceClaim) (active : bool) (st : ConditionStatus) (reason : string) : Prop :=
  ct_Active (Status claim) = active ∧
  ∃ cond, FindStatusCondition (ct_Conditions (Status claim)) claimBoundCondition = Some cond ∧
    c_Status cond = st ∧ c_Reason cond = reason.

(** The four outcomes of a binding: no device matches, several do, the one that
    matches is taken, or the claim is bound to it. *)
Definition outcome (claim claim' : NVMeDeviceClaim) (c c' : Cluster) : Prop :=
  ((∀ key d, ¬ matching claim c key d) ∧ reports claim' false ConditionFalse "DeviceUnavailable") ∨
  ((∃ key1 d1 key2 d2, key1 ≠ key2 ∧ matching claim c key1 d1 ∧ matching claim c key2 d2) ∧
   reports claim' false ConditionFalse "AmbiguousDevices") ∨
  ((∃ key d, only_matching claim c key d ∧ ¬ claimable claim d) ∧
   reports claim' false ConditionFalse "OwnedByAnotherClaim") ∨
  (bound claim claim' c c' ∧ reports claim' true ConditionTrue "DeviceBound").

(** What a binding attempt establishes for the current claim. *)
Definition binding_post (claim : NVMeDeviceClaim) (c : Cluster) (res : result ctrlResult) (c' : Cluster) : Prop :=
  others_kept claim c c' ∧
  ∀ r, res = inl r → ∃ claim' : NVMeDeviceClaim, objects c' KClaim !! ObjectKeyFromObject claim = Some claim' ∧
    UID (Meta claim') = UID (Meta claim) ∧ Finalizers (Meta claim') = Finalizers (Meta claim) ∧
    outcome claim claim' c c'.

Lemma reports_status claim active device node st reason message gen s :
  Status claim = claim_status active device node
    {| c_Type := claimBoundCondition; c_Status := st; c_ObservedGeneration := gen;
       c_Reason := reason; c_Message := message |} s → reports claim active st reason.
Proof. intros H. unfold reports. rewrite H. split; [done|]. eexists. split; [apply find_set_eq|done]. Qed.

Lemma quiet_not_bound claim reason message c : cluster_wf c →
  objects c KClaim !! ObjectKeyFromObject claim = Some claim →
  (∀ claim' c', reports claim' false ConditionFalse reason → outcome claim claim' c c') →
  mq (not_bound claim reason message) c (binding_post claim c).
Proof.
  intros Hwf Hc Hout. unfold not_bound. apply qwp_bind; [done|].
  eapply qwp_mono; [|by eapply quiet_updateClaimStatus].
  intros r c' [[-> Hr]|(ob & Hp)] Hwf'.
  - destruct r; [|done]. apply qwp_ret. split; [by apply others_kept_devices|done].
  - destruct Hp as (Hnew & _ & Hkinds & (_ & _ & Hid & _) & Hf & _ & _ & Hst). kn.
    assert (others_kept claim c c') by (apply others_kept_devices, Hkinds; done).
    destruct r as [e|]; apply qwp_ret; (split; [done|]); [done|].
    intros _ _. exists ob. split_and!; try done. eapply Hout, reports_status. exact Hst.
Qed.

Definition replace_device (device : NVMeDevice) (ds : list NVMeDevice) : list NVMeDevice :=
  map (λ old, if ObjectKeyFromObject old ==? ObjectKeyFromObject device then device else old) ds.

Lemma replace_device_current c c1 (d ob o : NVMeDevice) ds : current_devices c ds →
  patched_to (k := KDevice) c d o ob c1 → current_devices c1 (replace_device ob ds).
Proof.
  intros [Hnd Hc] (Hnew & Hother & _ & Hid & _). pose proof (key_same_identity (k := KDevice) _ _ Hid) as Hk. kn.
  split.
  - unfold replace_device. rewrite map_map. erewrite map_ext; [exact Hnd|].
    intros old. simpl. by case_bool_decide.
  - intros d0 Hd0. unfold replace_device in Hd0.
    apply list_elem_of_In, in_map_iff in Hd0 as (old & <- & Hin). case_bool_decide as E.
    + by rewrite Hk.
    + rewrite Hother; [|kn; congruence]. by apply Hc, list_elem_of_In.
Qed.

Lemma in_present claim l d : d ∈ present_devices claim l ↔
  d ∈ l ∧ EqualFold (ds_SerialNumber (Spec d)) (cs_SerialNumber (Spec claim)) = true ∧ deviceIsPresent d = true.
Proof.
  unfold present_devices, matching_devices. rewrite !list_elem_of_In, !filter_In. tauto.
Qed.

(** After the device was patched and the others released, the claim owns no
    other device with its serial number. *)
Lemma sole_owner claim (d o ob : NVMeDevice) l c c1 c2 :
  cluster_wf c1 → l ≡ₚ (map_to_list (objects c KDevice)).*2 → cluster_wf c →
  patched_to (k := KDevice) c d o ob c1 →
  only_released claim (λ d, d ∈ replace_device ob (matching_devices claim l) ∧ Name (Meta d) ≠ Name (Meta ob)) c1 c2 →
  (∀ d1, d1 ∈ replace_device ob (matching_devices claim l) → Name (Meta d1) ≠ Name (Meta ob) →
     claimOwnsDevice claim d1 = true → ∃ d', objects c2 KDevice !! ObjectKeyFromObject d1 = Some d' ∧ released d1 d') →
  ∀ key2 (d2 : NVMeDevice), objects c2 KDevice !! key2 = Some d2 → dt_ClaimRef (Status d2) = Some (claim_ref claim) →
    EqualFold (ds_SerialNumber (Spec d2)) (cs_SerialNumber (Spec claim)) = true → Name (Meta d2) = Name (Meta ob).
Proof.
  intros Hwf1 Hl Hwf (Hnew & Hother & _ & Hid & _) (_ & Hnone & Hrel) Hdone key2 d2 Hd2 Href Hser.
  pose proof (key_same_identity (k := KDevice) _ _ Hid) as Hk. kn.
  destruct (objects c1 KDevice !! key2) as [d1|] eqn:Hd1; [|apply Hnone in Hd1; kn; congruence].
  destruct (Hrel _ _ Hd1) as (d2' & Hd2' & Hcase). kn. assert (d2' = d2) as -> by congruence.
  destruct Hcase as [->|(_ & _ & Hr)].
  2:{ destruct (released_unowned _ _ claim Hr) as [Hnoref _]. congruence. }
  destruct (decide (Name (Meta d1) = Name (Meta ob))) as [|Hne]; [done|]. exfalso.
  destruct (proj1 (Hwf1 KDevice) _ _ Hd1) as [Hk1 _]. kn.
  assert (key2 ≠ ObjectKeyFromObject d) as Hkd.
  { intros ->. assert (d1 = ob) as -> by congruence. done. }
  destruct (Hdone d1) as (d' & Hd' & Hr); [|done|by apply claimOwnsDevice_iff|].
  - unfold replace_device. apply list_elem_of_In, in_map_iff. exists d1.
    rewrite bool_decide_false by congruence. split; [done|]. unfold matching_devices. apply filter_In.
    split; [|done]. apply list_elem_of_In.
    rewrite Hother in Hd1 by done. by eapply (listed_current c l).
  - rewrite Hk1 in Hd'. kn. assert (d' = d1) as -> by congruence.
    destruct (released_unowned _ _ claim Hr) as [Hnoref _]. congruence.
Qed.

(** The listed devices that match are those of the cluster. *)
Lemma present_matching claim c l : cluster_wf c → l ≡ₚ (map_to_list (objects c KDevice)).*2 →
  NoDup (map ObjectKeyFromObject (present_devices claim l)) ∧
  (∀ d, d ∈ present_devices claim l → matching claim c (ObjectKeyFromObject d) d) ∧
  (∀ key d, matching claim c key d → d ∈ present_devices claim l ∧ ObjectKeyFromObject d = key).
Proof.
  intros Hwf Hl. destruct (listed_current c l Hwf Hl) as [Hcur Hall]. split_and!.
  - by apply (current_filter c), current_filter.
  - intros d (Hd & Hs & Hp)%in_present. split_and!; [by apply Hcur|done..].
  - intros key d (Hd & Hp & Hs). split; [apply in_present; eauto|]. by destruct (proj1 (Hwf KDevice) _ _ Hd).
Qed.

Lemma quiet_binding claim c : cluster_wf c → objects c KClaim !! ObjectKeyFromObject claim = Some claim →
  mq (reconcileClaimBinding claim) c (binding_post claim c).
Proof.
  intros Hwf Hc. unfold reconcileClaimBinding. apply quiet_list; [done| |].
  2:{ intros e. apply qwp_ret. split; [by apply others_kept_devices|done]. }
  intros l Hl. kn. destruct (listed_current c l Hwf Hl) as [Hcur Hall].
  destruct (present_matching claim c l Hwf Hl) as (Hnd & Hmatch & Hmatched).
  destruct (present_devices claim l) as [|d [|d' ds]] eqn:Hpres.
  { apply quiet_not_bound; [done..|]. intros claim' c' Hr. left. split; [|done].
    intros key d Hd. apply Hmatched in Hd as [Hd _]. by apply not_elem_of_nil in Hd. }
  2:{ apply quiet_not_bound; [done..|]. intros claim' c' Hr. right. left. split; [|done].
      exists (ObjectKeyFromObject d), d, (ObjectKeyFromObject d'), d'. simpl in Hnd. apply NoDup_cons in Hnd as [Hn _].
      split_and!; [|apply Hmatch; set_solver..]. intros E. apply Hn. rewrite E. apply list_elem_of_here. }
  assert (only_matching claim c (ObjectKeyFromObject d) d) as Honly.
  { split; [apply Hmatch; set_solver|]. intros key2 d2 H2. apply Hmatched in H2 as [H2 <-].
    by apply list_elem_of_singleton in H2 as ->. }
  destruct (ownership_conflict claim d) eqn:Hconf.
  { apply quiet_not_bound; [done..|]. intros claim' c' Hr. right. right. left. split; [|done].
    exists (ObjectKeyFromObject d), d. split; [done|]. rewrite <- ownership_conflict_iff. congruence. }
  apply ownership_conflict_iff in Hconf as Hfree. clear Hnd Hmatch Hmatched.
  assert (d ∈ present_devices claim l) as Hd by (rewrite Hpres; set_solver).
  apply in_present in Hd as (Hdl & Hser & Hdp). pose proof (proj2 Hcur _ Hdl) as Hdc.
  apply (quiet_status_patch serve serve_documented now KDevice d _ d); [done|done|done| |].
  { intros e. apply qwp_ret. split; [by apply others_kept_devices|done]. }
  intros ob c1 Hwf1 Hp.
  assert (others_kept claim c c1) as Hkept1.
  { intros key d0 ref Hd0 Hr Hne. destruct Hp as (_ & Hother & _). kn. rewrite Hother; [done|].
    intros ->. assert (d0 = d) as -> by congruence. destruct Hfree as [|[? _]]; congruence. }
  split; [|intros e; by apply qwp_ret]. fold (replace_device ob (matching_devices claim l)).
  assert (current_devices c1 (replace_device ob (matching_devices claim l))) as Hcur1
    by (eapply replace_device_current; [by apply current_filter|done]).
  apply qwp_bind; [done|]. eapply qwp_mono; [|by apply quiet_release_others].
  intros r c2 [Hrel Hdone] Hwf2.
  assert (others_kept claim c c2) as Hkept2
    by (eapply others_kept_trans; [done|by eapply only_released_others]).
  destruct r as [[]|e]; [|by apply qwp_ret].
  pose proof (sole_owner claim d _ ob l c c1 c2 Hwf1 Hl Hwf Hp Hrel (Hdone tt eq_refl)) as Hsole.
  destruct Hp as (Hnew & _ & Hkinds1 & Hid1 & _ & _ & Hspec1 & Hst1). kn.
  assert (objects c2 KClaim !! ObjectKeyFromObject claim = Some claim) as Hc2.
  { destruct Hrel as (Hk2 & _). rewrite Hk2, Hkinds1 by done. done. }
  apply qwp_bind; [done|]. eapply qwp_mono; [|by eapply quiet_updateClaimStatus].
  intros r c3 [[-> Hr]|(cl' & Hp3)] Hwf3; [destruct r; [by apply qwp_ret|done]|].
  destruct Hp3 as (Hnew3 & _ & Hkinds3 & (_ & _ & Hid3 & _) & Hf3 & _ & _ & Hst3). kn.
  assert (objects c3 KDevice = objects c2 KDevice) as Hdev3 by (by apply Hkinds3).
  assert (others_kept claim c c3) by (eapply others_kept_trans; [done|by apply others_kept_devices]).
  destruct r as [e|]; [by apply qwp_ret|]. apply qwp_ret. split; [done|]. intros _ _.
  exists cl'. split_and!; try done. right. right. right. split; [|eapply reports_status; exact Hst3].
  assert (objects c2 KDevice !! ObjectKeyFromObject d = Some ob) as Hob2.
  { destruct Hrel as (_ & _ & Hrel). destruct (Hrel _ _ Hnew) as (d' & Hd' & [->|([_ Hn] & _)]); done. }
  exists (ObjectKeyFromObject d), d, ob. rewrite Hdev3, Hst3. destruct Hid1 as (_ & _ & Hu1 & _). kn.
  split_and!; try done; by rewrite Hst1.
Qed.

Lemma claim_ref_identity (claim claim' : NVMeDeviceClaim) :
  same_identity (k := KClaim) claim claim' → claim_ref claim' = claim_ref claim.
Proof. unfold claim_ref. intros (H1 & H2 & H3 & _). kn. by rewrite H1, H2, H3. Qed.

Lemma outcome_ext (claim1 claim claim' : NVMeDeviceClaim) c1 c c' :
  claim_ref claim1 = claim_ref claim → Spec claim1 = Spec claim → Status claim1 = Status claim →
  objects c1 KDevice = objects c KDevice → outcome claim1 claim' c1 c' → outcome claim claim' c c'.
Proof.
  intros Href Hspec Hst Hdev. unfold outcome, bound, only_matching, matching, claimable.
  by rewrite Href, Hspec, Hst, Hdev.
Qed.

(** What a reconcile does with a claim that is not being deleted. *)
Lemma quiet_live_claim req c (claim : NVMeDeviceClaim) :
  cluster_wf c → objects c KClaim !! req = Some claim → deleting claim = false →
  mq (claim_Reconcile req) c (λ res c',
    others_kept claim c c' ∧
    ∀ r, res = inl r → ∃ claim' : NVMeDeviceClaim, objects c' KClaim !! req = Some claim' ∧
      UID (Meta claim') = UID (Meta claim) ∧ claimFinalizer ∈ Finalizers (Meta claim') ∧
      outcome claim claim' c c').
Proof.
  intros Hwf Hc Hdel. unfold claim_Reconcile. apply quiet_get; [done| |].
  2:{ intros e Hn. apply qwp_ret. split; [by apply others_kept_devices|].
      intros r Hr. unfold IgnoreNotFound in Hr. destruct (IsNotFound e); [|done].
      specialize (Hn eq_refl). kn. congruence. }
  intros claim0 Hc0. kn. assert (claim0 = claim) as -> by congruence. rewrite Hdel.
  destruct (proj1 (Hwf KClaim) _ _ Hc) as [Hk _]. kn.
  destruct (ContainsFinalizer _ _) eqn:Hfin; cbn [negb].
  - apply contains_finalizer in Hfin. eapply qwp_mono; [|apply quiet_binding; [done|by rewrite Hk]].
    intros res c' [Hkept Hres]. split; [done|]. intros r Hr. destruct (Hres r Hr) as (cl' & Hcl & Hu & Hf & Hb).
    rewrite Hk in Hcl. exists cl'. split_and!; try done. by rewrite Hf.
  - apply (quiet_update serve serve_documented now KClaim _ claim); [done|by rewrite <- Hk in Hc| |].
    { intros e. apply qwp_ret. split; [by apply others_kept_devices|done]. }
    intros ob c1 Hwf1 (Hnew & _ & Hkinds & Hid) (_ & Hf & _ & _ & Hspec & Hstat & _).
    assert (others_kept claim c c1) by (apply others_kept_devices, Hkinds; done).
    split; [|intros e; by apply qwp_ret].
    assert (gone (k := KClaim) ob = false) as Hgone.
    { unfold gone, deleting in *. destruct Hid as (_ & _ & _ & Hd). kn. rewrite Hd, Hdel. done. }
    rewrite Hgone in Hnew. pose proof (key_same_identity (k := KClaim) _ _ Hid) as Hkey.
    pose proof (claim_ref_identity _ _ Hid) as Href. kn.
    eapply qwp_mono; [|apply quiet_binding; [done|by rewrite Hkey]].
    intros res c' [Hkept Hres]. split.
    + eapply others_kept_trans; [done|]. intros key d ref Hd Hr Hne. apply (Hkept key d ref); try done. by rewrite Href.
    + intros r Hr. destruct (Hres r Hr) as (cl' & Hcl & Hu & Hf' & Hb). rewrite Hkey, Hk in Hcl.
      exists cl'. destruct Hid as (_ & _ & Hid & _). kn. split_and!; try done; [congruence| |].
      * rewrite Hf', Hf. apply add_finalizer. by right.
      * eapply outcome_ext; [exact Href|exact Hspec|exact Hstat|by apply Hkinds|exact Hb].
Qed.

(** ** Finalization *)

(** Devices are cluster-scoped and have a name. *)
Definition cluster_scoped (c : Cluster) : Prop := ∀ key (d : NVMeDevice),
  objects c KDevice !! key = Some d → key_Namespace key = "" ∧ key_Name key ≠ "".

(** Nothing depends on the claim any more. *)
Definition claim_unused (claim : NVMeDeviceClaim) (c : Cluster) : Prop :=
  (∀ key (p : NVMePartition), objects c KPartition !! key = Some p → references_claim claim p = false) ∧
  (∀ key (d : NVMeDevice), objects c KDevice !! key = Some d → claimOwnsDevice claim d = false).

(** The claim is still there and still protected by its finalizer. *)
Definition claim_protected (req : ObjectKey) (c : Cluster) : Prop :=
  ∃ claim : NVMeDeviceClaim, objects c KClaim !! req = Some claim ∧ claimFinalizer ∈ Finalizers (Meta claim).

Lemma no_reference claim c (l : list NVMePartition) : l ≡ₚ (map_to_list (objects c KPartition)).*2 →
  existsb (references_claim claim) l = false →
  ∀ key (p : NVMePartition), objects c KPartition !! key = Some p → references_claim claim p = false.
Proof.
  intros Hl He key p Hp. destruct (references_claim claim p) eqn:E; [|done].
  rewrite <- not_true_iff_false, existsb_exists in He. destruct He. exists p. split; [|done].
  apply list_elem_of_In. rewrite Hl. apply list_elem_of_fmap. exists (key, p). by rewrite elem_of_map_to_list.
Qed.

Lemma quiet_release_matched claim c : cluster_wf c → cluster_scoped c →
  mq (release_matched claim) c (λ r c', only_released claim (λ _, True) c c' ∧
    (r = inl tt → ∀ (d : NVMeDevice),
      objects c' KDevice !! {| key_Namespace := ""; key_Name := ct_MatchedDevice (Status claim) |} = Some d →
      claimOwnsDevice claim d = false)).
Proof.
  intros Hwf Hsc. unfold release_matched. case_bool_decide as Hm; cbn [negb].
  { apply qwp_ret. split; [apply only_released_refl|]. intros _ d Hd. rewrite Hm in Hd.
    destruct (Hsc _ _ Hd) as [_ Hne]. by destruct Hne. }
  apply quiet_get; [done| |].
  - intros d Hd. kn. destruct (proj1 (Hwf KDevice) _ _ Hd) as [Hk _]. kn.
    assert (objects c KDevice !! ObjectKeyFromObject d = Some d) as Hdc by (by rewrite Hk).
    apply qwp_bind; [done|]. eapply qwp_mono; [|by apply quiet_release].
    intros r c1 [[-> Hr]|[Ho [ob Hp]]] Hwf1.
    + assert (only_released claim (λ _, True) c c) by apply only_released_refl.
      destruct r as [e|]; apply qwp_ret; (split; [done|]); [done|]. intros _ d' Hd'.
      kn. assert (d' = d) as -> by congruence. apply not_true_iff_false. intros Ho. by apply Hr.
    + assert (only_released claim (λ _, True) c c1)
        by (eapply only_released_step; [apply only_released_refl|done..]).
      destruct r as [e|]; apply qwp_ret; (split; [done|]); [done|]. intros _ d' Hd'.
      pose proof (patched_released _ _ _ _ Hp) as Hrel. destruct Hp as (Hnew & _). kn. rewrite Hk in Hnew.
      assert (d' = ob) as -> by congruence. by apply (released_unowned d).
  - intros e Hn. assert (only_released claim (λ _, True) c c) by apply only_released_refl.
    destruct (IsNotFound e); apply qwp_ret; (split; [done|]); [|done].
    intros _ d Hd. specialize (Hn eq_refl). kn. congruence.
Qed.

(** What a reconcile does with a claim that is being deleted. *)
Lemma quiet_deleted_claim req c (claim : NVMeDeviceClaim) :
  cluster_wf c → cluster_scoped c → objects c KClaim !! req = Some claim →
  deleting claim = true → claimFinalizer ∈ Finalizers (Meta claim) →
  mq (claim_Reconcile req) c (λ _ c', others_kept claim c c' ∧ (claim_protected req c' ∨ claim_unused claim c')).
Proof.
  intros Hwf Hsc Hc Hdel Hfin. unfold claim_Reconcile.
  assert (∀ c' (r : result ctrlResult), others_kept claim c c' → objects c' KClaim = objects c KClaim →
    mq (Ret r) c' (λ _ c', others_kept claim c c' ∧ (claim_protected req c' ∨ claim_unused claim c'))) as Hkeep.
  { intros c' r Hk E. apply qwp_ret. split; [done|]. left. exists claim. by rewrite E. }
  assert (others_kept claim c c) as Hrefl by (by apply others_kept_devices).
  apply quiet_get; [done| |by intros; apply Hkeep].
  intros claim0 Hc0. kn. assert (claim0 = claim) as -> by congruence. rewrite Hdel.
  destruct (proj1 (Hwf KClaim) _ _ Hc) as [Hk _]. kn.
  unfold finalizeClaim. apply contains_finalizer in Hfin as Hcont. rewrite Hcont. cbn [negb].
  apply quiet_list; [done| |by intros; apply Hkeep]. intros ps Hps.
  destruct (existsb _ _) eqn:Hex; [by apply Hkeep|]. pose proof (no_reference claim c ps Hps Hex) as Hnoref.
  apply qwp_bind; [done|]. eapply qwp_mono; [|by apply quiet_release_matched].
  intros r c1 [Hrel1 Hm] Hwf1. pose proof (only_released_others _ _ _ _ Hrel1) as Hkept1.
  pose proof Hrel1 as (Hkinds1 & Hnone1 & Hsome1).
  destruct r as [[]|e]; [|apply Hkeep; [done|by apply (Hkinds1 KClaim)]]. specialize (Hm eq_refl).
  apply quiet_list; [done| |by intros; apply Hkeep; [done|by apply (Hkinds1 KClaim)]]. intros l Hl. kn.
  destruct (listed_current c1 l Hwf1 Hl) as [Hcur Hall].
  apply qwp_bind; [done|]. eapply qwp_mono; [|by apply quiet_release_others].
  intros r c2 [Hrel2 Hdone] Hwf2. pose proof (only_released_others _ _ _ _ Hrel2) as Hkept2.
  pose proof Hrel2 as (Hkinds2 & Hnone2 & Hsome2).
  assert (others_kept claim c c2) as Hkept by (by eapply others_kept_trans).
  assert (∀ k, k ≠ KDevice → objects c2 k = objects c k) as Hkinds
    by (intros k Hne; rewrite Hkinds2, Hkinds1; done).
  destruct r as [[]|e]; [|apply Hkeep; [done|by apply (Hkinds KClaim)]]. specialize (Hdone tt eq_refl).
  assert (∀ key (d : NVMeDevice), objects c2 KDevice !! key = Some d → claimOwnsDevice claim d = false) as Hfree.
  { intros key d2 Hd2. destruct (objects c1 KDevice !! key) as [d1|] eqn:Hd1; [|apply Hnone2 in Hd1; kn; congruence].
    destruct (Hsome2 _ _ Hd1) as (d2' & Hd2' & Hcase). kn. assert (d2' = d2) as -> by congruence.
    destruct Hcase as [->|(_ & _ & Hr)]; [|by apply (released_unowned d1)].
    destruct (proj1 (Hwf1 KDevice) _ _ Hd1) as [Hk1 _]. kn.
    destruct (decide (Name (Meta d1) = ct_MatchedDevice (Status claim))) as [En|En].
    - apply Hm. rewrite <- Hd1. f_equal. rewrite <- Hk1. unfold ObjectKeyFromObject. f_equal; [|done].
      destruct (objects c KDevice !! key) as [d0|] eqn:Hd0; [|apply Hnone1 in Hd0; kn; congruence].
      destruct (Hsc _ _ Hd0) as [Hns _]. rewrite <- Hns, <- Hk1. done.
    - destruct (claimOwnsDevice claim d1) eqn:Ho; [|done].
      destruct (Hdone d1) as (d' & Hd' & Hr); [by eapply Hall|done|done|].
      rewrite Hk1 in Hd'. kn. assert (d' = d1) as -> by congruence.
      destruct (released_unowned _ _ claim Hr) as [_ Ho']. congruence. }
  assert (claim_unused claim c2) as Hun.
  { split; [|done]. intros key p. rewrite Hkinds by done. apply Hnoref. }
  cbv zeta. apply (quiet_patch serve serve_documented now KClaim claim _ claim); [done| | |].
  - rewrite Hkinds by done. kn. by rewrite <- Hk in Hc.
  - intros e. apply qwp_ret. auto.
  - intros ob c3 Hwf3 (_ & _ & Hkinds3 & _) _.
    assert (others_kept claim c c3 ∧ claim_unused claim c3) as [? ?].
    { split; [eapply others_kept_trans; [done|by apply others_kept_devices, Hkinds3]|].
      unfold claim_unused. rewrite !Hkinds3 by done. done. }
    split; [|intros e]; apply qwp_ret; auto.
Qed.

(** ** Published capacity and readiness *)

(** The published free capacity is the capacity minus the allocations.
    A successful reconcile of a device leaves its status with exactly the total
    capacity minus the rounded sizes of the partitions placed on it (never
    negative), and touches nothing else in the cluster. *)
Theorem device_free_capacity_exact req c (device : NVMeDevice) :
  cluster_wf c → objects c KDevice !! req = Some device →
  0 ≤ Value (ds_TotalCapacity (Spec device)) ≤ MaxInt64 →
  mq (device_Reconcile req) c (λ res c',
    (∀ k, k ≠ KDevice → objects c' k = objects c k) ∧
    (∀ key, key ≠ req → objects c' KDevice !! key = objects c KDevice !! key) ∧
    ∀ r, res = inl r → ∃ d' : NVMeDevice, objects c' KDevice !! req = Some d' ∧ Spec d' = Spec device ∧
      Status d' = set_dt_FreeCapacity
        (NewQuantity (Z.max (Value (ds_TotalCapacity (Spec device)) -
                             used_on c (ds_SerialNumber (Spec device))) 0)) (Status device)).
Proof.
  intros Hwf Hd Hcap. unfold device_Reconcile. apply quiet_get; [done| |].
  2:{ intros e Hn. apply qwp_ret. split_and!; try done. intros r Hr. unfold IgnoreNotFound in Hr.
      destruct (IsNotFound e); [|done]. specialize (Hn eq_refl). kn. congruence. }
  intros d0 Hd0. kn. assert (d0 = device) as -> by congruence.
  apply quiet_list; [done| |by intros e; apply qwp_ret]. intros l Hl.
  destruct (allocatedCapacityForDevice _ _) as [used|e] eqn:Hal; [|by apply qwp_ret].
  unfold allocatedCapacityForDevice in Hal. apply allocated_loop_spec in Hal as (_ & Hle & ->); [|unfold MaxInt64; lia].
  assert (used_bytes (ds_SerialNumber (Spec device)) l = used_on c (ds_SerialNumber (Spec device))) as Hused
    by (unfold used_on, used_in; by rewrite <- Hl).
  rewrite Z.add_0_l, Hused in *. pose proof (used_bytes_nonneg (ds_SerialNumber (Spec device)) l) as Hnn.
  rewrite Hused in Hnn.
  assert (sub64 (Value (ds_TotalCapacity (Spec device))) (used_on c (ds_SerialNumber (Spec device))) =
    Value (ds_TotalCapacity (Spec device)) - used_on c (ds_SerialNumber (Spec device))) as ->
    by (apply wrap64_id; unfold int64, MinInt64, MaxInt64 in *; lia).
  destruct (proj1 (Hwf KDevice) _ _ Hd) as [Hk _]. kn. cbv zeta.
  unfold Quantity_differs. cbn [Value]. destruct (Z.eqb_spec (Value (dt_FreeCapacity (Status device)))
    (Z.max (Value (ds_TotalCapacity (Spec device)) - used_on c (ds_SerialNumber (Spec device))) 0)) as [E|E]; cbn [negb].
  - apply qwp_ret. split_and!; try done. intros _ _. exists device. split_and!; try done.
    rewrite <- E. by destruct device as [m sp [? ? [?] ? ?]].
  - apply (quiet_status_patch serve serve_documented now KDevice device _ device); [done|by rewrite <- Hk in Hd|done| |].
    + intros e. by apply qwp_ret.
    + intros ob c' Hwf' (Hnew & Hother & Hkinds & _ & _ & _ & Hs & Hst). kn. rewrite Hk in *.
      split; [|intros e]; apply qwp_ret; split_and!; try done. intros _ _. by exists ob.
Qed.

(** Stale readiness expires.  After a successful reconcile of a node its
    Ready condition is not true unless its heartbeat is fresh; nothing else of
    the node changes. *)
Theorem node_readiness_expires req c (node : RDMAStorageNode) :
  cluster_wf c → objects c KNode !! req = Some node →
  mq (node_Reconcile req) c (λ res c',
    ∀ r, res = inl r → ∃ n' : RDMAStorageNode, objects c' KNode !! req = Some n' ∧ Spec n' = Spec node ∧
      nt_LastHeartbeatTime (Status n') = nt_LastHeartbeatTime (Status node) ∧
      (IsStatusConditionTrue (nt_Conditions (Status n')) ReadyCondition = true →
       HeartbeatIsFresh (nt_LastHeartbeatTime (Status n')) now = true) ∧
      RequeueAfter r = 22500000000).
Proof.
  intros Hwf Hn. unfold node_Reconcile. apply quiet_get; [done| |].
  2:{ intros e Hnf. apply qwp_ret. intros r Hr. unfold IgnoreNotFound in Hr.
      destruct (IsNotFound e); [|done]. specialize (Hnf eq_refl). kn. congruence. }
  intros n0 Hn0. kn. assert (n0 = node) as -> by congruence.
  apply (quiet_read serve serve_documented now); [done..|]. intros t [-> _]. cbv zeta.
  destruct (proj1 (Hwf KNode) _ _ Hn) as [Hk _]. kn.
  destruct (match FindStatusCondition _ _ with Some _ => _ | None => _ end) eqn:Hexp.
  - apply (quiet_status_patch serve serve_documented now KNode node _ node); [done|by rewrite <- Hk in Hn|done| |].
    + intros e. by apply qwp_ret.
    + intros ob c' Hwf' (Hnew & _ & _ & _ & _ & _ & Hs & Hst). kn. rewrite Hk in *.
      split; [|intros e; by apply qwp_ret]. apply qwp_ret. intros r [= <-]. exists ob.
      rewrite Hst. split_and!; try done. cbn. intros Ht. apply condition_true in Ht as (cond & Hf & Ht).
      rewrite find_set_eq in Hf. by simplify_eq/=.
  - apply qwp_ret. intros r [= <-]. exists node. split_and!; try done.
    intros Ht. apply condition_true in Ht as (cond & Hf & Ht). rewrite Hf, Ht in Hexp.
    rewrite bool_decide_true in Hexp by done. by apply negb_false_iff in Hexp.
Qed.

End Claims.

(** ** The claim controller *)

(** An API server with current caches, all of whose calls may fail. *)
Definition current_serve (c : Cluster) (o : kubeOp) (r : kubeRep o) (c' : Cluster) : Prop :=
  cluster_wf c ∧ fresh_spec c o r c'.

Lemma current_serve_fresh c o r c' : current_serve c o r c' → fresh_spec c o r c'.
Proof. by intros [_ H]. Qed.

Lemma current_serve_documented c o r c' : current_serve c o r c' → kube_spec c o r c'.
Proof.
  intros [Hwf H]. destruct o as [[] k key|[] k| | | | | ]; try exact H.
  - destruct H as [-> H]. split; [done|]. destruct r as [ob|e]; [|done]. by destruct (proj1 (Hwf k) _ _ H).
  - destruct H as [-> H]. split; [done|]. destruct r as [l|e]; [|done].
    assert (∀ key (ob : obj k), (key, ob) ∈ map_to_list (objects c k) → ObjectKeyFromObject ob = key) as Hkey
      by (intros key ob E%elem_of_map_to_list; by destruct (proj1 (Hwf k) _ _ E)).
    split.
    + assert (map ObjectKeyFromObject l ≡ₚ (map_to_list (objects c k)).*1) as ->; [|apply NoDup_fst_map_to_list].
      change (ObjectKeyFromObject <$> l ≡ₚ (map_to_list (objects c k)).*1). rewrite H, <- list_fmap_compose.
      erewrite list_fmap_ext; [done|]. intros i [key ob] E. simpl. apply Hkey. by eapply list_elem_of_lookup_2.
    + apply Forall_forall. intros ob Hob. rewrite H in Hob. apply list_elem_of_fmap in Hob as ([key ob'] & -> & E).
      apply elem_of_map_to_list in E. by destruct (proj1 (Hwf k) _ _ E).
Qed.

(** What a write of a claim reconcile has to be justified by as far as the
    binding is concerned. *)
Definition binding_warranted `{AM : ApiMachinery} (req : ObjectKey) (h : list mevent) (o : kubeOp) : Prop :=
  match o with
  | StatusPatch KDevice d d' => device_write_warranted req h d d'
  | StatusPatch KClaim _ o => report_warranted req h (Status o)
  | _ => True
  end.

(** C24: The binding of claims.  With any replies, also from stale caches: a
    reconcile writes a device only to bind it to a live claim, when the list that
    it read has the device as the only present one with the claim's serial number
    and the device as listed is owned by nobody else, or to release it from the
    claim that it names; and it reports the claim as active only after the API
    server has accepted the binding of the device that it reports.  When in
    addition the caches are current and nobody else writes during the reconcile of
    a live claim, whichever of the calls fail: devices of other claims are
    untouched, and if the reconcile returns without error, the claim carries the
    finalizer and reports, with its reason, the one of four outcomes that holds:
    no device is present with the serial number, several are, the only one is
    taken, or the claim is bound, which means that the device is marked claimed
    and names this claim, the claim names the device and its node, and no other
    device with the serial number still names the claim. *)
Theorem claim_binding_correct `{AM : ApiMachinery} {AML : ApiMachineryLaws AM} req :
  (∀ h pre o x post, emits (claim_Reconcile req) h → h = pre ++ evm o x :: post → binding_warranted req pre o) ∧
  (∀ now c (claim : NVMeDeviceClaim),
     cluster_wf c → objects c KClaim !! req = Some claim → deleting claim = false →
     qwp (quiet_step current_serve now) cluster_wf (claim_Reconcile req) c (λ res c',
       others_kept claim c c' ∧
       ∀ r, res = inl r → ∃ claim' : NVMeDeviceClaim, objects c' KClaim !! req = Some claim' ∧
         UID (Meta claim') = UID (Meta claim) ∧ claimFinalizer ∈ Finalizers (Meta claim') ∧
         outcome claim claim' c c')).
Proof.
  split.
  - intros h pre o x post Hh Heq. pose proof (claim_writes req h pre o x post Hh Heq) as Hw.
    destruct o as [| | | | |[]|]; try done; exact Hw.
  - intros now c claim. apply quiet_live_claim; [apply current_serve_documented|apply current_serve_fresh].
Qed.


(** ** Concrete runs *)

Definition free_device (name : string) : NVMeDevice :=
  mkObject (example_meta name "" name) (Spec example_device)
    {| dt_State := NVMeDeviceStateAvailable; dt_ClaimRef := None; dt_FreeCapacity := NewQuantity 0;
       dt_ActiveBackend := ""; dt_Conditions := [] |}.

Definition unbound_claim : NVMeDeviceClaim :=
  mkObject (Meta example_claim) (Spec example_claim) (zero_status KClaim).

Definition deleted_claim : NVMeDeviceClaim :=
  mkObject (set_DeletionTimestamp (Some 1) (set_Finalizers [claimFinalizer] (Meta example_claim)))
    (Spec example_claim) (Status example_claim).

Definition stale_node : RDMAStorageNode := example_node.

Definition claims_cluster (ds : list NVMeDevice) (cs : list NVMeDeviceClaim) : Cluster :=
  {| partitions := mk_store (k := KPartition) [PlacementAuth.example_partition 1];
     devices := mk_store (k := KDevice) ds; claims := mk_store (k := KClaim) cs;
     nodes := mk_store (k := KNode) [stale_node]; attachments := mk_store (k := KAttachment) [] |}.

Definition claim_key : ObjectKey := example_key "claim-a".

(** A run of a reconciler against the model server. *)
Definition quiet_run {A} (t : Time) (p : mgr A) (c : Cluster) : A * Cluster := run (quiet_handle t) p c.

Lemma quiet_run_post {A} t (p : mgr A) c Q : cluster_wf c →
  qwp (quiet_step model_serves t) cluster_wf p c Q → Q (quiet_run t p c).1 (quiet_run t p c).2.
Proof. intros Hwf. by apply qwp_run; [apply quiet_handle_legal|]. Qed.

Lemma current_run_post {A} t (p : mgr A) c Q : cluster_wf c →
  qwp (quiet_step current_serve t) cluster_wf p c Q → Q (quiet_run t p c).1 (quiet_run t p c).2.
Proof.
  intros Hwf. apply qwp_run; [|done]. intros w o Hw. pose proof (quiet_handle_legal t w o Hw) as H.
  destruct o; simpl in *; try done. split; [done|by apply model_serves_fresh].
Qed.

Lemma claim_binding_correct_witness :
  let c := claims_cluster [free_device "dev-1"] [unbound_claim] in
  ∃ claim' : NVMeDeviceClaim,
    objects (quiet_run 0 (claim_Reconcile claim_key) c).2 KClaim !! claim_key = Some claim' ∧
    ct_Active (Status claim') = true ∧ bound unbound_claim claim' c (quiet_run 0 (claim_Reconcile claim_key) c).2.
Proof.
  intros c. assert (cluster_wf c) as Hwf by (apply cluster_wf_check; vm_compute; reflexivity).
  destruct (current_run_post 0 _ c _ Hwf (proj2 (claim_binding_correct claim_key)
    0 c unbound_claim Hwf ltac:(vm_compute; reflexivity) eq_refl)) as [_ H].
  destruct (H (requeue claimRequeueInterval)) as (claim' & Hc & _ & _ & Hb); [vm_compute; reflexivity|].
  exists claim'. split; [exact Hc|].
  assert (ct_Active (Status claim') = true) as Ha.
  { vm_compute in Hc. injection Hc as <-. vm_compute. reflexivity. }
  split; [exact Ha|]. destruct Hb as [[_ [Hb _]]|[[_ [Hb _]]|[[_ [Hb _]]|[Hb _]]]]; [congruence..|exact Hb].
Defined.


Lemma device_free_capacity_exact_witness :
  let c := claims_cluster [example_device] [example_claim] in
  ∃ d' : NVMeDevice, objects (quiet_run 0 (device_Reconcile {| key_Namespace := ""; key_Name := "dev-1" |}) c).2
      KDevice !! {| key_Namespace := ""; key_Name := "dev-1" |} = Some d' ∧
    Value (dt_FreeCapacity (Status d')) = 4194304.
Proof.
  intros c. assert (cluster_wf c) as Hwf by (apply cluster_wf_check; vm_compute; reflexivity).
  destruct (quiet_run_post 0 _ c _ Hwf (device_free_capacity_exact model_serves model_serves_documented
    model_serves_fresh 0 {| key_Namespace := ""; key_Name := "dev-1" |} c example_device Hwf
    ltac:(vm_compute; reflexivity) ltac:(split; vm_compute; discriminate))) as (_ & _ & H).
  destruct (H done_result) as (d' & Hd & _ & Hs); [vm_compute; reflexivity|].
  exists d'. split; [exact Hd|]. rewrite Hs. vm_compute. reflexivity.
Defined.

Lemma node_readiness_expires_witness :
  let c := claims_cluster [example_device] [example_claim] in
  let key := {| key_Namespace := ""; key_Name := "node-1" |} in
  ∃ n' : RDMAStorageNode, objects (quiet_run (200 * Second) (node_Reconcile key) c).2 KNode !! key = Some n' ∧
    (IsStatusConditionTrue (nt_Conditions (Status n')) ReadyCondition = true →
     HeartbeatIsFresh (nt_LastHeartbeatTime (Status n')) (200 * Second) = true).
Proof.
  intros c key. assert (cluster_wf c) as Hwf by (apply cluster_wf_check; vm_compute; reflexivity).
  destruct (quiet_run_post (200 * Second) _ c _ Hwf (node_readiness_expires model_serves model_serves_documented
    model_serves_fresh (200 * Second) key c stale_node Hwf ltac:(vm_compute; reflexivity))
    (requeue (div64 FreshnessWindow 2))) as (n' & Hn & _ & _ & H & _); [vm_compute; reflexivity|].
  exists n'. split; [exact Hn|exact H].
Defined.

(** The model server with a cache that does not show any partition yet. *)
Definition stale_handle (c : Cluster) (o : mgrOp) : mgrRep o * Cluster :=
  match o with
  | MKube (List Cached KPartition) => (inl [], c)
  | o => quiet_handle 0 c o
  end.

Lemma stale_handle_documented c o : cluster_wf c →
  quiet_step kube_spec 0 c o (stale_handle c o).1 (stale_handle c o).2.
Proof.
  intros Hwf. assert (quiet_step kube_spec 0 c o (quiet_handle 0 c o).1 (quiet_handle 0 c o).2).
  { pose proof (quiet_handle_legal 0 c o Hwf) as H. destruct o; try done. by apply model_serves_documented. }
  destruct o as [[| [] []| | | | |]| | |]; try done. simpl. split; [done|]. split; [constructor|done].
Qed.

(** A stale list of partitions lets a claim go that a partition refers to: each
    answer is one that an informer cache may give. *)
Lemma stale_list_drops_claim :
  let c := claims_cluster [example_device] [deleted_claim] in
  let c' := (run stale_handle (claim_Reconcile claim_key) c).2 in
  cluster_wf c ∧ objects c' KClaim !! claim_key = None ∧
  ∃ key (p : NVMePartition), objects c' KPartition !! key = Some p ∧ references_claim deleted_claim p = true.
Proof.
  intros c c'. split; [apply cluster_wf_check; vm_compute; reflexivity|]. split; [vm_compute; reflexivity|].
  exists (ObjectKeyFromObject (PlacementAuth.example_partition 1)), (PlacementAuth.example_partition 1).
  split; vm_compute; reflexivity.
Qed.
