(* ===== verification/Plugins.v ===== *)
(** * The plugin interfaces of the agent

    Models src/internal/agent/plugins/interface.go: the registries, the volume
    identity, and the operations that the partition manager calls on a target
    backend and a volume manager.  The implementations are programs over lower
    level operations; the partition manager sees only what is declared here. *)

From S2P Require Import Prelude GoStrings ApiTypes Prog Kube.

Module Plugins.

(** [errors.As(err, *ExportObservationError)]: some error of the chain is one. *)
Fixpoint IsExportObservationError (err : error) : bool :=
  match err with
  | ObservationErr _ => true
  | Wrap _ e | PartedErr _ e | KernelErr e | SPDKErr e => IsExportObservationError e
  | Join e1 e2 | DiscoveryErr e1 e2 => IsExportObservationError e1 || IsExportObservationError e2
  | _ => false
  end.

Record VolumeIdentity := {
  BackendVolumeID : string;
  CapacityBytes : Z;
  BaseBdev : string;
  VolumeStoreName : string;
  VolumeStoreUUID : string;
  VolumeName : string;
  VolumeUUID : string
}.

#[global] Instance VolumeIdentity_eq_dec : EqDecision VolumeIdentity.
Proof. solve_decision. Defined.

(** A registered plugin: its name, and for a backend whether it also implements
    ExportHealthChecker. *)
Record TargetBackend := { backend_Name : string; isExportHealthChecker : bool }.
Record VolumeManager := { manager_Name : string }.

Record Registry := {
  backends : gmap string TargetBackend;
  volumeManagers : gmap string VolumeManager
}.

Definition RegisterTargetBackend (b : TargetBackend) (r : Registry) : Registry :=
  {| backends := <[backend_Name b := b]> (backends r); volumeManagers := volumeManagers r |}.

Definition GetTargetBackend (r : Registry) (name : string) : result TargetBackend :=
  match backends r !! name with
  | None => Err (Errorf "target backend not found")
  | Some b => Ok b
  end.

Definition RegisterVolumeManager (vm : VolumeManager) (r : Registry) : Registry :=
  {| backends := backends r; volumeManagers := <[manager_Name vm := vm]> (volumeManagers r) |}.

Definition GetVolumeManager (r : Registry) (name : string) : result VolumeManager :=
  match volumeManagers r !! name with
  | None => Err (Errorf "volume manager not found")
  | Some vm => Ok vm
  end.

End Plugins.

(** A namespace found by discovery (src/internal/agent/nvme_discovery.go). *)
Record HardwareNVMe := {
  hw_Name : string;
  hw_PCIAddress : string;
  hw_SerialNumber : string;
  hw_Model : string;
  hw_TotalBytes : Z;
  hw_NUMANode : Z
}.

#[global] Instance HardwareNVMe_eq_dec : EqDecision HardwareNVMe.
Proof. solve_decision. Defined.

(** The operations of the agent's partition manager: API server requests, the
    clock, discovery, and the methods of the plugin of the given name. *)
Inductive agentOp :=
  | AKube (o : kubeOp)
  | ANow
  | ADiscover
  | SetupDevice (backend pciAddress deviceName : string) (options : gmap string string)
  | ExportVolume (backend volumeName blockPath portalIP : string) (portalPort : Z)
      (options : gmap string string)
  | UnexportVolume (backend nqn : string)
  | ReconcileHostAccess (backend nqn hostNQN : string)
  | CheckExport (backend nqn blockPath portalIP : string) (portalPort : Z) (options : gmap string string)
  | SetupStorage (manager devicePath deviceName : string)
  | CreateVolume (manager devicePath deviceName volumeName : string) (sizeBytes : Z)
  | DeleteVolume (manager devicePath deviceName volumeName : string) (identity : Plugins.VolumeIdentity).

(** Discovery returns the devices it found together with an error for the
    sources it could not read. *)
Definition agentRep (o : agentOp) : Type :=
  match o with
  | AKube o => kubeRep o
  | ANow => Time
  | ADiscover => list HardwareNVMe * option error
  | ExportVolume _ _ _ _ _ _ => result string
  | CreateVolume _ _ _ _ _ => result Plugins.VolumeIdentity
  | SetupDevice _ _ _ _ | UnexportVolume _ _ | ReconcileHostAccess _ _ _
  | CheckExport _ _ _ _ _ _ | SetupStorage _ _ _ | DeleteVolume _ _ _ _ _ => option error
  end.

Abbreviation agent A := (prog agentOp agentRep A).

Definition acall (o : agentOp) : agent (agentRep o) := call o.
Definition akube (o : kubeOp) : agent (kubeRep o) := call (Rep := agentRep) (AKube o).
