(* ===== verification/Parted.v ===== *)
(** * The partition volume manager

    Models src/internal/agent/plugins/vol_partition.go: reading and parsing the
    partition table that parted prints, choosing a free extent and a partition
    number, and the methods of PartedVolumeManager.  Each method holds the lock
    of its device from its first to its last operation, so the model is the
    critical section.  [Error] is the text of an error. *)

From S2P Require Import Prelude GoStrings GoPath Capacity ApiTypes Prog Kube Host Plugins.

Module Parted.

Definition partitionAlignmentBytes : Z := 1024 * 1024.
Definition partitionPollCount : nat := 15.

Record partedPartition := { number : Z; start : Z; end_ : Z; name : string }.
Record partedExtent := { ext_start : Z; ext_end : Z }.

#[global] Instance partedPartition_eq_dec : EqDecision partedPartition.
Proof. solve_decision. Defined.
#[global] Instance partedExtent_eq_dec : EqDecision partedExtent.
Proof. solve_decision. Defined.


Definition parseByteField (value : string) : option Z := ParseInt (TrimSuffix value "B") 10 64.

(** One line of the table. *)
Inductive row := SkipRow | FreeRow (e : partedExtent) | PartitionRow (p : partedPartition).

Definition parseRow (line : string) : result row :=
  let line := TrimSpace (TrimSuffix line ";") in
  if (line ==? "") || (line ==? "BYT") || HasPrefix line "/" then Ok SkipRow
  else
    let fields := Split ":" line in
    let field i := default "" (fields !! i) in
    if (length fields =? 5)%nat && (field 4%nat ==? "free") then
      match parseByteField (field 1%nat), parseByteField (field 2%nat) with
      | Some s, Some e => Ok (FreeRow {| ext_start := s; ext_end := e |})
      | _, _ => Err (Errorf "parse free extent")
      end
    else if (length fields <? 7)%nat then Err (Errorf "parse partition table row")
    else
      match Atoi (field 0%nat), parseByteField (field 1%nat), parseByteField (field 2%nat) with
      | Some n, Some s, Some e =>
        if n <? 1 then Err (Errorf "parse partition table row")
        else Ok (PartitionRow {| number := n; start := s; end_ := e; name := field 5%nat |})
      | _, _, _ => Err (Errorf "parse partition table row")
      end.

Fixpoint parseRows (lines : list string) : result (list partedPartition * list partedExtent) :=
  match lines with
  | [] => Ok ([], [])
  | line :: lines =>
    let? r := parseRow line in
    let? t := parseRows lines in
    match r with
    | SkipRow => Ok t
    | FreeRow e => Ok (t.1, e :: t.2)
    | PartitionRow p => Ok (p :: t.1, t.2)
    end
  end.

Definition parsePartedTable (output : string) : result (list partedPartition * list partedExtent) :=
  parseRows (Split newline output).

Definition alignUp (value alignment : Z) : Z :=
  mul64 (div64 (sub64 (add64 value alignment) 1) alignment) alignment.

Fixpoint firstExtent (extents : list partedExtent) (sizeBytes : Z) : result (Z * Z) :=
  match extents with
  | [] => Err (Errorf "no free extent can satisfy the partition")
  | extent :: extents =>
    let s := alignUp (ext_start extent) partitionAlignmentBytes in
    if (s <=? ext_end extent) && (sub64 sizeBytes 1 <=? sub64 (ext_end extent) s)
    then Ok (s, sub64 (add64 s sizeBytes) 1)
    else firstExtent extents sizeBytes
  end.

Definition selectFreeExtent (extents : list partedExtent) (sizeBytes : Z) : result (Z * Z) :=
  if sizeBytes <=? 0 then Err (Errorf "partition size must be positive")
  else firstExtent extents sizeBytes.

(** The endless search for a number.  One of the first [length partitions + 1]
    numbers is free, so the search ends before its bound
    (PartedProps.lowestAvailable_spec). *)
Fixpoint lowestFrom (fuel : nat) (used : gset Z) (n : Z) : option Z :=
  match fuel with
  | O => None
  | S fuel => if bool_decide (n ∈ used) then lowestFrom fuel used (n + 1) else Some n
  end.

Definition usedNumbers (partitions : list partedPartition) : gset Z := list_to_set (number <$> partitions).

Definition lowestAvailablePartitionNumber (partitions : list partedPartition) : Z :=
  default 0 (lowestFrom (S (length partitions)) (usedNumbers partitions) 1).

Definition partitionsNamed (partitions : list partedPartition) (nm : string) : list partedPartition :=
  List.filter (λ p, name p ==? nm) partitions.

Definition partitionCapacity (p : partedPartition) : result Z :=
  if (start p <? 0) || (end_ p <? start p) then Err (Errorf "partition has invalid boundaries")
  else Ok (add64 (sub64 (end_ p) (start p)) 1).

Definition partitionPath (devicePath : string) (n : Z) : string := devicePath +:+ "p" +:+ Itoa n.

Definition partitionNumberFromPath (devicePath backendVolumeID : string) : result Z :=
  match CutPrefix backendVolumeID (devicePath +:+ "p") with
  | None => Err (Errorf "backend volume does not belong to device")
  | Some rest =>
    match Atoi rest with
    | Some n =>
      if (n <? 1) || (Clean backendVolumeID !=? backendVolumeID)
      then Err (Errorf "backend volume has no valid partition number") else Ok n
    | None => Err (Errorf "backend volume has no valid partition number")
    end
  end.

Section Manager.
Variable Error : error → string.

(** partedCommandError has no field for the arguments here: only its output and
    cause are looked at. *)
Definition runParted (args : list string) : host (result string) :=
  let! x := command "parted" args in
  match x with
  | (out, Some err) => Ret (Err (PartedErr (TrimSpace out) err))
  | (out, None) => Ret (Ok out)
  end.

Definition isUnrecognizedDiskLabel (err : error) : bool :=
  match err with
  | PartedErr output e =>
    let detail := ToLower (output +:+ " " +:+ Error e) in
    Contains detail "unrecognised disk label" || Contains detail "unrecognized disk label"
  | _ => false
  end.

Definition printArgs (devicePath : string) (includeFree : bool) : list string :=
  ["-m"; "-s"; devicePath; "unit"; "B"; "print"] ++ (if includeFree then ["free"] else []).

Definition readPartedTable (devicePath : string) (includeFree : bool)
    : host (result (list partedPartition * list partedExtent)) :=
  let!? out := runParted (printArgs devicePath includeFree) in
  Ret (parsePartedTable out).

Definition waitForPartition (path : string) : host (option error) :=
  let! r := for_each (seq 0 partitionPollCount) tt (λ _ _,
    let! s := hcall (Stat path) in
    match s with
    | inl _ => Ret (inr None)
    | inr _ =>
      let! w := hcall SelectOp in
      match w with CtxDone e => Ret (inr (Some (CtxError e))) | _ => Ret (inl tt) end
    end) in
  match r with
  | inl _ => Ret (Some (Errorf "partition device did not appear"))
  | inr e => Ret e
  end.

Definition SetupStorage (devicePath deviceName : string) : host (option error) :=
  let! t := readPartedTable devicePath false in
  match t with
  | inl _ => Ret None
  | inr err =>
    if negb (isUnrecognizedDiskLabel err) then Ret (Some (Wrap "inspect partition table" err))
    else
      let! w := command "wipefs" ["-a"; devicePath] in
      match w with
      | (_, Some err) => Ret (Some (Wrap "wipe signatures" err))
      | (_, None) =>
        let! l := runParted ["-s"; devicePath; "mklabel"; "gpt"] in
        match l with
        | inr err => Ret (Some err)
        | inl _ =>
          let! t := readPartedTable devicePath false in
          match t with
          | inr err => Ret (Some (Wrap "verify GPT label" err))
          | inl _ => Ret None
          end
        end
      end
  end.

Definition volumeIdentity (path : string) (capacityBytes : Z) (volumeName : string) : Plugins.VolumeIdentity :=
  {| Plugins.BackendVolumeID := path; Plugins.CapacityBytes := capacityBytes; Plugins.BaseBdev := "";
     Plugins.VolumeStoreName := ""; Plugins.VolumeStoreUUID := ""; Plugins.VolumeName := volumeName;
     Plugins.VolumeUUID := "" |}.

(** The last step of CreateVolume: the device node of the partition appears. *)
Definition presentVolume (devicePath : string) (n : Z) (capacityBytes : Z) (volumeName : string)
    : host (result Plugins.VolumeIdentity) :=
  let path := partitionPath devicePath n in
  let! w := waitForPartition path in
  match w with
  | Some err => Ret (Err err)
  | None => Ret (Ok (volumeIdentity path capacityBytes volumeName))
  end.

Definition reuseVolume (devicePath volumeName : string) (allocatedBytes : Z) (p : partedPartition)
    : host (result Plugins.VolumeIdentity) :=
  match partitionCapacity p with
  | inr err => Ret (Err err)
  | inl capacityBytes =>
    if negb (capacityBytes =? allocatedBytes) then Ret (Err (Errorf "existing partition has another capacity"))
    else presentVolume devicePath (number p) capacityBytes volumeName
  end.

Definition mkpartArgs (devicePath volumeName : string) (s e : Z) : list string :=
  ["-s"; "-a"; "optimal"; devicePath; "mkpart"; volumeName; Itoa s +:+ "B"; Itoa e +:+ "B"].

(** What CreateVolume verifies after mkpart. *)
Definition verifyCreated (created : list partedPartition) (partitionNumber s e allocatedBytes : Z)
    : result Z :=
  match created with
  | [p] =>
    if negb (number p =? partitionNumber) then Err (Errorf "partition-number allocation raced")
    else if negb (start p =? s) || negb (end_ p =? e) then Err (Errorf "partition boundaries differ after creation")
    else
      let? capacityBytes := partitionCapacity p in
      if negb (capacityBytes =? allocatedBytes) then Err (Errorf "partition capacity differs after creation")
      else Ok capacityBytes
  | _ => Err (Errorf "partition table contains other than one partition of the volume after creation")
  end.

Definition carveVolume (devicePath volumeName : string) (allocatedBytes : Z)
    (partitions : list partedPartition) (freeExtents : list partedExtent) : host (result Plugins.VolumeIdentity) :=
  let partitionNumber := lowestAvailablePartitionNumber partitions in
  match selectFreeExtent freeExtents allocatedBytes with
  | inr err => Ret (Err err)
  | inl (s, e) =>
    let!? _ := runParted (mkpartArgs devicePath volumeName s e) in
    let!? t := readPartedTable devicePath false in
    match verifyCreated (partitionsNamed t.1 volumeName) partitionNumber s e allocatedBytes with
    | inr err => Ret (Err err)
    | inl capacityBytes => presentVolume devicePath partitionNumber capacityBytes volumeName
    end
  end.

Definition CreateVolume (devicePath deviceName volumeName : string) (sizeBytes : Z)
    : host (result Plugins.VolumeIdentity) :=
  match RoundUp sizeBytes with
  | inr err => Ret (Err err)
  | inl allocatedBytes =>
    let!? t := readPartedTable devicePath true in
    match partitionsNamed t.1 volumeName with
    | [] => carveVolume devicePath volumeName allocatedBytes t.1 t.2
    | [p] => reuseVolume devicePath volumeName allocatedBytes p
    | _ => Ret (Err (Errorf "multiple physical partitions claim ownership by the volume"))
    end
  end.

Fixpoint findNumber (n : Z) (partitions : list partedPartition) : option partedPartition :=
  match partitions with
  | [] => None
  | p :: partitions => if number p =? n then Some p else findNumber n partitions
  end.

(** The partition DeleteVolume removes, or none. *)
Definition deletionTarget (devicePath volumeName : string) (identity : Plugins.VolumeIdentity)
    (partitions : list partedPartition) : result (option partedPartition) :=
  if Plugins.BackendVolumeID identity !=? "" then
    let? n := partitionNumberFromPath devicePath (Plugins.BackendVolumeID identity) in
    match findNumber n partitions with
    | None => Ok None
    | Some target =>
      if name target !=? volumeName then Err (Errorf "refusing to delete: partition is owned by another volume")
      else Ok (Some target)
    end
  else
    match partitionsNamed partitions volumeName with
    | [] => Ok None
    | [p] => Ok (Some p)
    | _ => Err (Errorf "refusing ambiguous deletion")
    end.

Definition DeleteVolume (devicePath deviceName volumeName : string) (identity : Plugins.VolumeIdentity)
    : host (option error) :=
  let! t := readPartedTable devicePath false in
  match t with
  | inr err => Ret (Some err)
  | inl (partitions, _) =>
    match deletionTarget devicePath volumeName identity partitions with
    | inr err => Ret (Some err)
    | inl None => Ret None
    | inl (Some target) =>
      let! r := runParted ["-s"; devicePath; "rm"; Itoa (number target)] in Ret (error_of r)
    end
  end.

End Manager.

End Parted.
