(* ===== verification/PartedProps.v ===== *)
(** * Correctness of the partition volume manager

    The pure parts of the manager (extents, numbers, paths, the table printed by
    parted), and its methods on a model of the disk. *)

From S2P Require Import Prelude GoStrings GoPath Capacity ApiTypes Prog Kube Host Plugins Parted.
Import Parted.

(** ** Extents *)

(** Byte offsets that can be aligned without overflow. *)
Definition offset_ok (z : Z) : Prop := 0 ≤ z ≤ MaxInt64 - partitionAlignmentBytes.
Definition extent_ok (x : partedExtent) : Prop := offset_ok (ext_start x) ∧ offset_ok (ext_end x).

Lemma alignUp_spec v : offset_ok v →
  v ≤ alignUp v partitionAlignmentBytes < v + partitionAlignmentBytes ∧
  (partitionAlignmentBytes | alignUp v partitionAlignmentBytes).
Proof.
  unfold offset_ok. intros Hv.
  pose proof (round_up_spec v partitionAlignmentBytes ltac:(done)) as [Hr Hd].
  assert (alignUp v partitionAlignmentBytes =
    (v + partitionAlignmentBytes - 1) / partitionAlignmentBytes * partitionAlignmentBytes) as ->; [|done].
  unfold alignUp, add64, sub64, mul64, partitionAlignmentBytes, MaxInt64 in *.
  rewrite <- Z.add_opp_r, wrap64_add_l, Z.add_opp_r.
  rewrite (wrap64_id (v + _ - 1)) by (unfold int64, MinInt64, MaxInt64; lia).
  rewrite div64_pos by (unfold MaxInt64; lia). apply wrap64_id. unfold int64, MinInt64, MaxInt64. lia.
Qed.

(** Where a partition of the given size starts in an extent, if it fits. *)
Definition fits (x : partedExtent) (size s : Z) : Prop :=
  (partitionAlignmentBytes | s) ∧ ext_start x ≤ s ∧ s + size - 1 ≤ ext_end x.

Lemma firstExtent_ok xs size s e : Forall extent_ok xs → 0 < size ≤ MaxInt64 →
  firstExtent xs size = inl (s, e) → ∃ x, x ∈ xs ∧ fits x size s ∧ e = s + size - 1.
Proof.
  intros Hxs Hsz. induction Hxs as [|x xs [Hs He] Hxs IH]; cbn [firstExtent]; [done|].
  pose proof (alignUp_spec _ Hs) as [Ha Hd]. set (a := alignUp (ext_start x) partitionAlignmentBytes) in *.
  unfold offset_ok in *. destruct (_ && _) eqn:E.
  - intros [= <- <-]. bool_to_prop. exists x. split; [by left|].
    unfold sub64, add64, partitionAlignmentBytes, MaxInt64 in *.
    rewrite !wrap64_id in H0 by (unfold int64, MinInt64, MaxInt64; lia).
    rewrite (wrap64_id (a + size)) by (unfold int64, MinInt64, MaxInt64; lia).
    rewrite wrap64_id by (unfold int64, MinInt64, MaxInt64; lia).
    split; [|lia]. split_and!; [done|lia|lia].
  - intros H. destruct (IH H) as (x' & ? & ?). exists x'. split; [by right|done].
Qed.

Lemma firstExtent_err xs size err : Forall extent_ok xs → 0 < size ≤ MaxInt64 →
  firstExtent xs size = inr err → ∀ x s, x ∈ xs → ¬ fits x size s.
Proof.
  intros Hxs Hsz. induction Hxs as [|x xs [Hs He] Hxs IH]; cbn [firstExtent]; [by intros _ x s ?%elem_of_nil|].
  pose proof (alignUp_spec _ Hs) as [Ha Hd]. set (a := alignUp (ext_start x) partitionAlignmentBytes) in *.
  unfold offset_ok in *. destruct (_ && _) eqn:E; [done|]. intros H x' s [->|Hx']%elem_of_cons; [|by apply IH].
  intros (Hds & Hle & Hfit).
  assert (a ≤ s). { apply (multiple_least partitionAlignmentBytes a s (ext_start x)); done || lia. }
  apply andb_false_iff in E. unfold sub64, partitionAlignmentBytes, MaxInt64 in *.
  destruct E as [E|E]; bool_to_prop; [lia|].
  rewrite !wrap64_id in E by (unfold int64, MinInt64, MaxInt64; lia). lia.
Qed.

(** selectFreeExtent finds an aligned extent of exactly the requested size inside
    a free extent, and fails only when there is none. *)
Lemma selectFreeExtent_exact xs size : Forall extent_ok xs → 0 < size ≤ MaxInt64 →
  match selectFreeExtent xs size with
  | inl (s, e) => ∃ x, x ∈ xs ∧ fits x size s ∧ e = s + size - 1
  | inr _ => ∀ x s, x ∈ xs → ¬ fits x size s
  end.
Proof.
  intros Hxs Hsz. unfold selectFreeExtent. destruct (size <=? 0) eqn:E; bool_to_prop; [lia|].
  destruct (firstExtent xs size) as [[s e]|err] eqn:Ef.
  - by apply firstExtent_ok.
  - by eapply firstExtent_err.
Qed.

(** ** Partition numbers *)

Lemma lowestFrom_some fuel used n m : lowestFrom fuel used n = Some m →
  n ≤ m ∧ m ∉ used ∧ ∀ k, n ≤ k < m → k ∈ used.
Proof.
  revert n. induction fuel as [|fuel IH]; intros n; simpl; [done|]. case_bool_decide as H.
  - intros (? & ? & Hk)%IH. split; [lia|]. split; [done|]. intros k ?.
    destruct (decide (k = n)) as [->|]; [done|]. apply Hk. lia.
  - intros [= <-]. split; [lia|]. split; [done|]. lia.
Qed.

Lemma lowestFrom_none fuel used n : lowestFrom fuel used n = None → (fuel ≤ size used)%nat.
Proof.
  intros H. assert (∀ k, n ≤ k < n + Z.of_nat fuel → k ∈ used) as Hk.
  { revert n H. induction fuel as [|fuel IH]; intros n H k Hk; simpl in *; [lia|]. case_bool_decide; [|done].
    destruct (decide (k = n)) as [->|]; [done|]. apply (IH (n + 1)); [done|lia]. }
  assert (list_to_set (seqZ n (Z.of_nat fuel)) ⊆ used) as Hsub.
  { intros k Hin. apply elem_of_list_to_set, elem_of_seqZ in Hin. auto. }
  apply subseteq_size in Hsub. rewrite size_list_to_set, length_seqZ in Hsub by apply NoDup_seqZ. lia.
Qed.

Lemma size_list_to_set_le (l : list Z) : (size (list_to_set l : gset Z) ≤ length l)%nat.
Proof.
  induction l as [|x l IH]; simpl; [done|].
  destruct (decide (x ∈ (list_to_set l : gset Z))).
  - rewrite subseteq_union_1_L by set_solver. lia.
  - rewrite size_union, size_singleton by set_solver. lia.
Qed.

(** The search ends, with the least positive number that no partition has. *)
Lemma lowestAvailable_spec ps :
  let n := lowestAvailablePartitionNumber ps in
  1 ≤ n ∧ n ∉ (number <$> ps) ∧ ∀ k, 1 ≤ k < n → k ∈ (number <$> ps).
Proof.
  unfold lowestAvailablePartitionNumber. cbv zeta.
  destruct (lowestFrom _ _ _) as [m|] eqn:E; simpl.
  - apply lowestFrom_some in E as (? & Hm & Hk). unfold usedNumbers in *. set_solver.
  - apply lowestFrom_none in E. exfalso. unfold usedNumbers in E.
    pose proof (size_list_to_set_le (number <$> ps)) as Hle. rewrite length_fmap in Hle. lia.
Qed.

(** ** Paths *)

Lemma Itoa_app_inj d n m : 0 ≤ n → 0 ≤ m → partitionPath d n = partitionPath d m → n = m.
Proof.
  intros Hn Hm H. unfold partitionPath in H.
  apply (f_equal str_list) in H. rewrite !str_list_app in H. apply app_inv_head, app_inv_head in H.
  apply str_list_inj in H. unfold Itoa, FormatInt in H.
  destruct (Z.ltb_spec n 0), (Z.ltb_spec m 0); try lia. by apply (format_nat_inj 10) in H.
Qed.

(** The backend identifier of a volume names its partition. *)
Lemma partitionNumber_path d n : 1 ≤ n ≤ MaxInt64 → Clean (partitionPath d n) = partitionPath d n →
  partitionNumberFromPath d (partitionPath d n) = inl n.
Proof.
  intros Hn Hc. unfold partitionNumberFromPath.
  assert (partitionPath d n = (d +:+ "p") +:+ Itoa n) as Hp by (unfold partitionPath; by rewrite str_app_assoc).
  rewrite Hp at 1. rewrite CutPrefix_app, Atoi_Itoa by (unfold int64, MinInt64, MaxInt64 in *; lia).
  destruct (Z.ltb_spec n 1); [lia|]. rewrite Hc, bool_decide_true by done. done.
Qed.

Lemma partitionNumberFromPath_ok d id n : partitionNumberFromPath d id = inl n →
  1 ≤ n ∧ ∃ rest, id = d +:+ "p" +:+ rest ∧ Atoi rest = Some n.
Proof.
  unfold partitionNumberFromPath. destruct (CutPrefix id _) as [rest|] eqn:E; [|done].
  destruct (Atoi rest) as [m|] eqn:Ea; [|done]. destruct (_ || _) eqn:G; [done|]. intros [= <-].
  bool_to_prop. split; [lia|]. exists rest. apply CutPrefix_spec in E. by rewrite <- str_app_assoc in E.
Qed.

(** ** The table that parted prints

    The lines of [parted -m -s DEVICE unit B print free], without the semicolon
    at their end: the two header lines, free extents, and partitions with their
    size, file system and flags. *)

Inductive line :=
  | HeaderLine (text : string)
  | FreeLine (x : partedExtent) (size : string)
  | PartitionLine (p : partedPartition) (size fs flags : string).

Definition bytes (z : Z) : string := Itoa z +:+ "B".

Definition line_fields (l : line) : list string :=
  match l with
  | HeaderLine text => [text]
  | FreeLine x size => ["1"; bytes (ext_start x); bytes (ext_end x); size; "free"]
  | PartitionLine p size fs flags =>
    [Itoa (number p); bytes (start p); bytes (end_ p); size; fs; name p; flags]
  end.

Definition line_text (l : line) : string := JoinStrings (line_fields l) ":".

Definition plain (s : string) : bool := no_byte ":" s && no_byte newline s.

Definition line_ok (l : line) : Prop :=
  TrimSpace (line_text l) = line_text l ∧
  match l with
  | HeaderLine text => (text = "BYT" ∨ HasPrefix text "/" = true) ∧ no_byte newline text = true
  | FreeLine x size => plain size = true ∧ 0 ≤ ext_start x ≤ MaxInt64 ∧ 0 ≤ ext_end x ≤ MaxInt64
  | PartitionLine p size fs flags =>
    plain size = true ∧ plain fs = true ∧ plain (name p) = true ∧ plain flags = true ∧
    1 ≤ number p ≤ MaxInt64 ∧ 0 ≤ start p ≤ MaxInt64 ∧ 0 ≤ end_ p ≤ MaxInt64
  end.

Definition line_row (l : line) : row :=
  match l with
  | HeaderLine _ => SkipRow
  | FreeLine x _ => FreeRow x
  | PartitionLine p _ _ _ => PartitionRow p
  end.

Definition render (ls : list line) : string :=
  JoinStrings (map (λ l, line_text l +:+ ";") ls ++ [""]) (String newline "").

Fixpoint table_of (ls : list line) : list partedPartition * list partedExtent :=
  match ls with
  | [] => ([], [])
  | HeaderLine _ :: ls => table_of ls
  | FreeLine x _ :: ls => let t := table_of ls in (t.1, x :: t.2)
  | PartitionLine p _ _ _ :: ls => let t := table_of ls in (p :: t.1, t.2)
  end.

(** A decimal number starts with a digit and holds nothing else. *)
Lemma Itoa_format z : 0 ≤ z → ∃ d ds, Itoa z = list_str (map digit_char (d :: ds)) ∧
  Forall (λ d, 0 ≤ d < 10) (d :: ds).
Proof.
  intros Hz. unfold Itoa, FormatInt. destruct (Z.ltb_spec z 0); [lia|].
  destruct (format_nat_spec 10 z) as (d & ds & -> & Hf & _); [lia|done|]. by exists d, ds.
Qed.

Lemma digit_char_val d : 0 ≤ d < 10 → byte_val (digit_char d) = 48 + d.
Proof. intros Hd. unfold digit_char. destruct (Z.ltb_spec d 10); [|lia]. apply byte_val_chr. lia. Qed.

Lemma Itoa_no_byte c z : 0 ≤ z → is_digit c = false → no_byte c (Itoa z) = true.
Proof.
  intros Hz Hc. destruct (Itoa_format z Hz) as (d & ds & -> & Hf).
  unfold no_byte, str_all. rewrite str_list_str. apply forallb_forall. intros x [y [<- Hy]]%in_map_iff.
  apply negb_true_iff, bool_decide_eq_false. intros <-.
  assert (0 ≤ y < 10) as Hy' by (apply (proj1 (List.Forall_forall _ _) Hf y Hy)).
  unfold is_digit in Hc. rewrite digit_char_val in Hc by done. lia.
Qed.

Lemma bytes_plain z : 0 ≤ z → plain (bytes z) = true.
Proof. intros Hz. unfold plain, bytes. by rewrite !no_byte_app, !Itoa_no_byte. Qed.

Lemma parseByteField_bytes z : 0 ≤ z ≤ MaxInt64 → parseByteField (bytes z) = Some z.
Proof.
  intros Hz. unfold parseByteField, bytes. rewrite TrimSuffix_app.
  apply (Atoi_Itoa z). unfold int64, MinInt64, MaxInt64 in *. lia.
Qed.

(** A text that starts with a number is no header. *)
Lemma digit_line z rest : 0 ≤ z → let t := Itoa z +:+ rest in
  t ≠ "" ∧ t ≠ "BYT" ∧ HasPrefix t "/" = false.
Proof.
  intros Hz. destruct (Itoa_format z Hz) as (d & ds & -> & Hf). inversion_clear Hf as [|?? Hd _].
  cbv zeta. simpl list_str. rewrite str_app_cons.
  assert (∀ c, byte_val c < 48 ∨ 57 < byte_val c → digit_char d ≠ c) as Hne.
  { intros c Hc <-. rewrite digit_char_val in Hc by done. lia. }
  split_and!; [done| |].
  - intros [= H _]. revert H. apply Hne. right. done.
  - destruct (HasPrefix _ _) eqn:E; [|done]. apply HasPrefix_spec in E as [r E]. rewrite str_app_cons in E.
    injection E as E _. exfalso. revert E. apply Hne. left. done.
Qed.

Lemma plain_fields l : line_ok l →
  match l with HeaderLine _ => True | _ => Forall (λ w, plain w = true) (line_fields l) end.
Proof.
  destruct l as [t|x size|p size fs flags]; intros [_ H]; [done| |]; simpl.
  - destruct H as (? & ? & ?). repeat constructor; first [done | by apply bytes_plain; lia].
  - destruct H as (? & ? & ? & ? & ? & ? & ?). repeat constructor; try done; try (apply bytes_plain; lia).
    unfold plain. by rewrite !Itoa_no_byte by (done || lia).
Qed.

Lemma Split_fields l : Forall (λ w, plain w = true) (line_fields l) →
  Split ":" (line_text l) = line_fields l.
Proof.
  intros H. unfold line_text. apply (Split_join ":"%char); [by destruct l|].
  eapply Forall_impl; [done|]. intros w. unfold plain. intros Hw. by bool_to_prop.
Qed.

Lemma parseRow_line l : line_ok l → parseRow (line_text l +:+ ";") = inl (line_row l).
Proof.
  intros Hl. pose proof (plain_fields l Hl) as Hf. destruct Hl as [Ht Hl].
  unfold parseRow. rewrite TrimSuffix_app, Ht. destruct l as [t|x size|p size fs flags].
  - unfold line_text. simpl. destruct Hl as [[->|E] _]; [done|]. by rewrite E, !orb_true_r.
  - rewrite Split_fields by done. destruct Hl as (_ & Hs & He).
    destruct (digit_line 1 (":" +:+ JoinStrings [bytes (ext_start x); bytes (ext_end x); size; "free"] ":"))
      as (H1 & H2 & H3); [done|].
    change (Itoa 1 +:+ _) with (line_text (FreeLine x size)) in H1, H2, H3.
    rewrite H3, !bool_decide_false by done. simpl. rewrite !parseByteField_bytes by lia. by destruct x.
  - rewrite Split_fields by done. destruct Hl as (_ & _ & _ & _ & Hn & Hs & He).
    destruct (digit_line (number p) (":" +:+ JoinStrings [bytes (start p); bytes (end_ p); size; fs; name p; flags] ":"))
      as (H1 & H2 & H3); [lia|].
    change (Itoa (number p) +:+ _) with (line_text (PartitionLine p size fs flags)) in H1, H2, H3.
    rewrite H3, !bool_decide_false by done. simpl.
    rewrite !parseByteField_bytes, Atoi_Itoa by (unfold int64, MinInt64, MaxInt64 in *; lia).
    destruct (Z.ltb_spec (number p) 1); [lia|]. by destruct p.
Qed.

Lemma no_newline_text l : line_ok l → no_byte newline (line_text l) = true.
Proof.
  intros Hl. pose proof (plain_fields l Hl) as Hf. unfold line_text.
  destruct l as [t|x size|p size fs flags]; [exact (proj2 (proj2 Hl))|..];
    simpl in *; unfold plain in Hf; rewrite !Forall_cons, !andb_true_iff in Hf; destruct_and! Hf;
    repeat (rewrite no_byte_app; apply andb_true_iff; split; [done|]); done.
Qed.

(** Parsing the table that parted prints gives its partitions and free extents. *)
Theorem parse_printed_table ls : Forall line_ok ls →
  parsePartedTable (render ls) = inl (table_of ls).
Proof.
  intros H. unfold parsePartedTable, render. rewrite Split_join.
  - induction H as [|l ls Hl Hls IH]; [done|]. cbn [map List.app parseRows].
    rewrite parseRow_line, IH by done. cbn [rbind]. by destruct l.
  - by destruct ls.
  - apply Forall_app. split; [|by repeat constructor]. apply Forall_map. eapply Forall_impl; [done|].
    intros l Hl. simpl. by rewrite no_byte_app, no_newline_text.
Qed.

(** ** The disk

    [disk_step] says what parted and the other commands may do to the disk at
    [dev].  The documented behaviour relied on: printing shows the table and only
    free extents; mkpart inside a free extent adds one partition there (and could
    do anything elsewhere); rm removes the partition of the number; a command
    that fails may still have had its effect; a labelled disk is not reported as
    unlabelled. *)

Record disk := { labelled : bool; table : list partedPartition }.

Definition partition_ok (p : partedPartition) : Prop :=
  1 ≤ number p ≤ MaxInt64 ∧ offset_ok (start p) ∧ offset_ok (end_ p) ∧ start p ≤ end_ p.

Definition overlap (p q : partedPartition) : Prop := start p ≤ end_ q ∧ start q ≤ end_ p.

Definition free_in (t : list partedPartition) (x : partedExtent) : Prop :=
  extent_ok x ∧ ∀ p, p ∈ t → ext_end x < start p ∨ end_ p < ext_start x.

(** Partitions have different numbers and do not overlap. *)
Definition disk_ok (d : disk) : Prop :=
  Forall partition_ok (table d) ∧ NoDup (number <$> table d) ∧
  ∀ p q, p ∈ table d → q ∈ table d → overlap p q → p = q.

Section Disk.
Variable Error : error → string.
Variable dev : string.

Definition printed (d : disk) (out : string) : Prop :=
  labelled d = true ∧
  ∃ ls, Forall line_ok ls ∧ out = render ls ∧ (table_of ls).1 = table d ∧ Forall (free_in (table d)) (table_of ls).2.

Definition added (nm : string) (s e : Z) (d d' : disk) : Prop :=
  ∃ p, name p = nm ∧ s ≤ start p ∧ start p ≤ end_ p ≤ e ∧ 1 ≤ number p ≤ MaxInt64 ∧ number p ∉ (number <$> table d) ∧
       labelled d' = labelled d ∧ table d' ≡ₚ p :: table d.

Definition removed (n : Z) (d d' : disk) : Prop :=
  labelled d' = labelled d ∧ table d' = List.filter (λ p, negb (number p =? n)) (table d).

Definition parted_effect (args : list string) (d d' : disk) : Prop :=
  (∀ b, args = printArgs dev b → d' = d) ∧
  (∀ nm s e, args = mkpartArgs dev nm s e → s ≤ e → free_in (table d) {| ext_start := s; ext_end := e |} →
     added nm s e d d') ∧
  (∀ n, args = ["-s"; dev; "rm"; Itoa n] → 1 ≤ n ≤ MaxInt64 → removed n d d').

Definition parted_reply (args : list string) (d : disk) (x : string * option error) (d' : disk) : Prop :=
  match x with
  | (out, None) => parted_effect args d d' ∧ (∀ b, args = printArgs dev b → printed d out)
  | (out, Some e) => (d' = d ∨ parted_effect args d d') ∧
      (∀ b, args = printArgs dev b → labelled d = true →
        isUnrecognizedDiskLabel Error (PartedErr (TrimSpace out) e) = false)
  end.

Definition disk_step (d : disk) (o : hostOp) : hostRep o → disk → Prop :=
  match o with
  | Exec _ cmd args => λ x d', if cmd ==? "parted" then parted_reply args d x d'
                               else if cmd ==? "wipefs" then True else d' = d
  | _ => λ _ d', d' = d
  end.

Section Inv.
Variable inv : disk → Prop.

Lemma runParted_swp {A} args (k : result string → host A) d Q : inv d →
  (∀ out e d', (d' = d ∨ parted_effect args d d') →
     (∀ b, args = printArgs dev b → labelled d = true → isUnrecognizedDiskLabel Error (PartedErr (TrimSpace out) e) = false) →
     swp disk_step inv (k (inr (PartedErr (TrimSpace out) e))) d' Q) →
  (∀ out d', parted_effect args d d' → (∀ b, args = printArgs dev b → printed d out) →
     swp disk_step inv (k (inl out)) d' Q) →
  swp disk_step inv (bind (runParted args) k) d Q.
Proof.
  intros Hi He Hk. apply swp_vis; [done|]. intros [out [e|]] d' Hs; unfold disk_step in Hs;
    rewrite bool_decide_true in Hs by done; destruct Hs as [Hs1 Hs2]; [by apply He|by apply Hk].
Qed.

Lemma readTable_swp {A} b (k : result (list partedPartition * list partedExtent) → host A) d Q : inv d →
  (∀ e, (labelled d = true → isUnrecognizedDiskLabel Error e = false) → swp disk_step inv (k (inr e)) d Q) →
  (∀ xs, labelled d = true → Forall (free_in (table d)) xs → swp disk_step inv (k (inl (table d, xs))) d Q) →
  swp disk_step inv (bind (readPartedTable dev b) k) d Q.
Proof.
  intros Hi He Hk. unfold readPartedTable. apply swp_bind. apply runParted_swp; [done|..].
  - intros out e d' Hd Hu. assert (d' = d) as -> by (destruct Hd as [->|[Hd _]]; [done|by eapply Hd]).
    apply swp_ret; [done|]. apply He. by apply (Hu b).
  - intros out d' [Hd _] Hp. rewrite (Hd b eq_refl). destruct (Hp b eq_refl) as (Hl & ls & Hls & -> & Ht & Hf).
    apply swp_ret; [done|]. rewrite parse_printed_table by done. destruct (table_of ls) as [t xs].
    simpl in *. subst t. by apply Hk.
Qed.

Lemma waitForPartition_swp {A} path (k : option error → host A) d Q : inv d →
  (∀ r, swp disk_step inv (k r) d Q) → swp disk_step inv (bind (waitForPartition path) k) d Q.
Proof.
  intros Hi Hk. apply swp_bind. unfold waitForPartition. apply swp_bind.
  apply (swp_for_each _ _ _ (λ _ _ d', d' = d)); [| |done].
  - intros _ rest [] _ ->. apply swp_vis; [done|]. intros [fi|e] d' ->; simpl; [|].
    + apply swp_ret; [done|]. apply swp_ret; [done|]. apply Hk.
    + apply swp_vis; [done|]. intros [| |c] d' ->; (apply swp_ret; [done|]); [done..|].
      apply swp_ret; [done|]. apply Hk.
  - intros [] _ ->. split; [done|]. apply swp_ret; [done|]. apply Hk.
Qed.

End Inv.

(** The volumes other than [vol] are the same. *)
Definition others (vol : string) (d d' : disk) : Prop :=
  ∀ p, name p ≠ vol → p ∈ table d' ↔ p ∈ table d.

Lemma added_ok nm s e d d' : disk_ok d → free_in (table d) {| ext_start := s; ext_end := e |} →
  added nm s e d d' → disk_ok d' ∧ others nm d d'.
Proof.
  intros (Hok & Hnd & Hov) [[Hs He] Hfree] (p & Hnm & Hsp & Hep & Hn & Hfresh & _ & Ht).
  unfold offset_ok in *. simpl in *. split.
  - unfold disk_ok. rewrite Ht. split; [|split].
    + constructor; [|done]. unfold partition_ok, offset_ok. lia.
    + by apply NoDup_cons.
    + assert (∀ q, q ∈ table d → ¬ overlap p q) as Hp.
      { intros q Hq [? ?]. destruct (Hfree q Hq); lia. }
      intros q1 q2. rewrite !Ht, !elem_of_cons. intros [->|H1] [->|H2] H12; [done| | |by apply Hov].
      * by destruct (Hp q2).
      * destruct (Hp q1); [done|]. by destruct H12.
  - intros q Hq. rewrite Ht, elem_of_cons. naive_solver.
Qed.

Lemma removed_ok n d d' : disk_ok d → removed n d d' →
  disk_ok d' ∧ (∀ p, p ∈ table d' ↔ p ∈ table d ∧ number p ≠ n).
Proof.
  intros (Hok & Hnd & Hov) [_ Ht].
  assert (∀ p, p ∈ table d' ↔ p ∈ table d ∧ number p ≠ n) as Hin.
  { intros p. rewrite Ht. rewrite !list_elem_of_In, filter_In, negb_true_iff, Z.eqb_neq. done. }
  split; [|done]. split; [|split].
  - apply Forall_forall. intros p [Hp _]%Hin. by eapply Forall_forall in Hok.
  - rewrite Ht. clear -Hnd. induction (table d) as [|p t IH]; simpl in *; [constructor|].
    inversion_clear Hnd as [|?? Hp Ht]. destruct (negb _); [|by apply IH]. simpl. constructor; [|by apply IH].
    contradict Hp. apply list_elem_of_fmap in Hp as (q & -> & Hq). apply list_elem_of_fmap_2.
    rewrite list_elem_of_In, filter_In, <- list_elem_of_In in Hq. by destruct Hq.
  - intros p q [? _]%Hin [? _]%Hin. by apply Hov.
Qed.

Lemma partitionsNamed_elem ps nm p : p ∈ partitionsNamed ps nm ↔ p ∈ ps ∧ name p = nm.
Proof. unfold partitionsNamed. rewrite !list_elem_of_In, filter_In, bool_decide_eq_true. done. Qed.

(** ** CreateVolume *)

Section Create.
Variables (deviceName vol : string) (sizeBytes : Z) (d0 : disk).
Hypothesis d0_ok : disk_ok d0.

(** Along the run: the disk is well formed, other volumes are untouched, and
    nothing changes when the volume is there already. *)
Definition create_inv (d : disk) : Prop :=
  disk_ok d ∧ others vol d0 d ∧ (partitionsNamed (table d0) vol ≠ [] → d = d0).

(** The result denotes the only partition of the volume, of the rounded size. *)
Definition created (r : result Plugins.VolumeIdentity) (d : disk) : Prop :=
  match r with
  | inl id => ∃ p size, partitionsNamed (table d) vol = [p] ∧ RoundUp sizeBytes = inl size ∧
      end_ p - start p + 1 = size ∧ id = volumeIdentity (partitionPath dev (number p)) size vol
  | inr _ => True
  end.

Lemma parted_create_inv_start : create_inv d0.
Proof. split_and!; done. Qed.

Lemma parted_capacity_ok p c : partition_ok p → partitionCapacity p = inl c → c = end_ p - start p + 1.
Proof.
  intros (_ & Hs & He & Hle) H. unfold partitionCapacity in H. destruct (_ || _) eqn:G; [done|].
  injection H as <-. unfold offset_ok, partitionAlignmentBytes, add64, sub64, MaxInt64 in *.
  rewrite !wrap64_id; unfold int64, MinInt64, MaxInt64; rewrite ?wrap64_id; unfold int64, MinInt64, MaxInt64; lia.
Qed.

Lemma presentVolume_swp p size d : create_inv d → partitionsNamed (table d) vol = [p] →
  RoundUp sizeBytes = inl size → end_ p - start p + 1 = size →
  swp disk_step create_inv (presentVolume dev (number p) size vol) d created.
Proof.
  intros Hi Hp Hr Hs. unfold presentVolume. apply waitForPartition_swp; [done|].
  intros [e|]; (apply swp_ret; [done|]); [done|]. by exists p, size.
Qed.

Lemma partition_named_ok d p ps : disk_ok d → partitionsNamed (table d) vol = p :: ps → partition_ok p.
Proof.
  intros [Hok _] Ep. rewrite Forall_forall in Hok. apply Hok.
  eapply partitionsNamed_elem. rewrite Ep. by apply list_elem_of_here.
Qed.

Lemma reuseVolume_swp p size : partitionsNamed (table d0) vol = [p] → RoundUp sizeBytes = inl size →
  swp disk_step create_inv (reuseVolume dev vol size p) d0 created.
Proof.
  intros En Hr. pose proof parted_create_inv_start. unfold reuseVolume.
  destruct (partitionCapacity p) as [c|] eqn:Ec; simpl; [|by apply swp_ret].
  destruct (Z.eqb_spec c size) as [->|]; simpl; [|by apply swp_ret].
  apply presentVolume_swp; [done..|]. symmetry. apply parted_capacity_ok; [|done]. by eapply partition_named_ok.
Qed.

Lemma verify_swp d s e size : create_inv d → RoundUp sizeBytes = inl size →
  swp disk_step create_inv
    match verifyCreated (partitionsNamed (table d) vol) (lowestAvailablePartitionNumber (table d0)) s e size with
    | inr err => Ret (Err err)
    | inl c => presentVolume dev (lowestAvailablePartitionNumber (table d0)) c vol
    end d created.
Proof.
  intros Hi Hr. unfold verifyCreated.
  destruct (partitionsNamed (table d) vol) as [|p [|]] eqn:Ep; try (by apply swp_ret).
  destruct (Z.eqb_spec (number p) (lowestAvailablePartitionNumber (table d0))) as [<-|]; [|by apply swp_ret].
  simpl. destruct (negb _ || negb _); [by apply swp_ret|].
  destruct (partitionCapacity p) as [c|] eqn:Ec; simpl; [|by apply swp_ret].
  destruct (Z.eqb_spec c size) as [->|]; simpl; [|by apply swp_ret].
  apply presentVolume_swp; [done..|]. symmetry. apply parted_capacity_ok; [|done].
  destruct Hi as [? _]. by eapply partition_named_ok.
Qed.

Lemma carveVolume_swp xs size : partitionsNamed (table d0) vol = [] → RoundUp sizeBytes = inl size →
  Forall (free_in (table d0)) xs →
  swp disk_step create_inv (carveVolume dev vol size (table d0) xs) d0 created.
Proof.
  intros En Hr Hxs. pose proof parted_create_inv_start as Hi0.
  destruct (RoundUp_ok _ _ Hr) as (Hb & _ & (Hsz & _ & _) & Hmax). unfold carveVolume.
  pose proof (selectFreeExtent_exact xs size) as Hsel.
  destruct (selectFreeExtent xs size) as [[s e]|err]; [|by apply swp_ret].
  destruct Hsel as (x & Hx & (_ & Hsx & Hex) & ->).
  { eapply Forall_impl; [done|]. by intros ? []. }
  { rewrite MaxAllocatableBytes_val in Hmax. unfold MaxInt64. lia. }
  pose proof (proj1 (Forall_forall _ _) Hxs x Hx) as [[Hx1 Hx2] Hxf].
  assert (free_in (table d0) {| ext_start := s; ext_end := s + size - 1 |}) as Hfree.
  { unfold offset_ok in *. split; [split; unfold offset_ok; simpl; lia|]. intros q Hq. simpl.
    destruct (Hxf q Hq); lia. }
  assert (∀ d, d = d0 ∨ parted_effect (mkpartArgs dev vol s (s + size - 1)) d0 d → create_inv d) as Hinv.
  { intros d [->|(_ & Hadd & _)]; [done|].
    destruct (added_ok vol s (s + size - 1) d0 d) as [? ?]; [done|done|by apply Hadd; [|lia|]|].
    split_and!; [done|done|by rewrite En]. }
  apply runParted_swp; [done| |].
  - intros out e d Hd _. apply swp_ret; [by apply Hinv|done].
  - intros out d Hd _. pose proof (Hinv d (or_intror Hd)) as Hi.
    apply readTable_swp; [done|intros; by apply swp_ret|]. intros xs' _ _. by apply verify_swp.
Qed.

Lemma parted_CreateVolume_swp : swp disk_step create_inv (CreateVolume dev deviceName vol sizeBytes) d0 created.
Proof.
  pose proof parted_create_inv_start as Hi0. unfold CreateVolume.
  destruct (RoundUp sizeBytes) as [size|err] eqn:Hr; [|by apply swp_ret].
  apply readTable_swp; [done|intros; by apply swp_ret|]. intros xs _ Hxs. simpl fst. simpl snd.
  destruct (partitionsNamed (table d0) vol) as [|p [|p' ps]] eqn:En;
    [by apply carveVolume_swp|by apply reuseVolume_swp|by apply swp_ret].
Qed.

End Create.

(** ** DeleteVolume *)

Section Delete.
Variables (deviceName vol : string) (identity : Plugins.VolumeIdentity) (d0 : disk).
Hypothesis d0_ok : disk_ok d0.

Definition delete_inv (d : disk) : Prop :=
  disk_ok d ∧ others vol d0 d ∧ ∀ p, p ∈ table d → p ∈ table d0.

(** The partition of the identity, or of the name when there is no identity, is
    gone. *)
Definition deleted (r : option error) (d : disk) : Prop :=
  r = None →
  if Plugins.BackendVolumeID identity ==? "" then ∀ p, p ∈ table d → name p ≠ vol
  else ∃ n, partitionNumberFromPath dev (Plugins.BackendVolumeID identity) = inl n ∧
       ∀ p, p ∈ table d → number p ≠ n.

Lemma findNumber_none n ps : findNumber n ps = None → ∀ p, p ∈ ps → number p ≠ n.
Proof.
  induction ps as [|q ps IH]; simpl; [set_solver|]. destruct (Z.eqb_spec (number q) n); [done|].
  intros H p [->|Hp]%elem_of_cons; [done|by apply IH].
Qed.

Lemma findNumber_some n ps p : findNumber n ps = Some p → p ∈ ps ∧ number p = n.
Proof.
  induction ps as [|q ps IH]; simpl; [done|]. destruct (Z.eqb_spec (number q) n); [intros [= <-]; set_solver|].
  intros [? ?]%IH. set_solver.
Qed.

Lemma NoDup_number (d : disk) p q : disk_ok d → p ∈ table d → q ∈ table d → number p = number q → p = q.
Proof.
  intros (_ & Hnd & _) [i Hi]%list_elem_of_lookup_1 [j Hj]%list_elem_of_lookup_1 He.
  assert (i = j) as ->; [|congruence].
  eapply (NoDup_lookup _ i j (number p)) in Hnd; [done|..]; rewrite list_lookup_fmap; [by rewrite Hi|rewrite Hj].
  simpl. by rewrite He.
Qed.

(** What deletionTarget selects has the name of the volume, and removing it
    leaves nothing to delete. *)
Lemma deletionTarget_ok r : deletionTarget dev vol identity (table d0) = inl r →
  match r with
  | Some t => t ∈ table d0 ∧ name t = vol ∧ ∀ d, (∀ p, p ∈ table d ↔ p ∈ table d0 ∧ number p ≠ number t) → deleted None d
  | None => deleted None d0
  end.
Proof.
  unfold deletionTarget, deleted. destruct (bool_decide_reflect (Plugins.BackendVolumeID identity = "")) as [Eb|Eb]; simpl.
  - destruct (partitionsNamed (table d0) vol) as [|p [|]] eqn:E; [| |done]; intros [= <-].
    + intros _ p Hp Hn. assert (p ∈ partitionsNamed (table d0) vol) by (by apply partitionsNamed_elem).
      rewrite E in *. set_solver.
    + assert (p ∈ partitionsNamed (table d0) vol) as [Hp Hn]%partitionsNamed_elem by (rewrite E; set_solver).
      split_and!; [done|done|]. intros d Hd _ q [Hq Hne]%Hd Hqn.
      assert (q ∈ partitionsNamed (table d0) vol) as Hq' by (by apply partitionsNamed_elem).
      rewrite E in Hq'. set_solver.
  - destruct (partitionNumberFromPath dev _) as [n|err]; simpl; [|done].
    destruct (findNumber n (table d0)) as [t|] eqn:Ef.
    + destruct (bool_decide_reflect (name t = vol)); simpl; [|done]. intros [= <-].
      apply findNumber_some in Ef as [? <-]. split_and!; [done|done|]. intros d Hd _. exists (number t).
      split; [done|]. by intros p [? ?]%Hd.
    + intros [= <-] _. exists n. split; [done|]. by apply findNumber_none.
Qed.

Lemma parted_DeleteVolume_swp : swp disk_step delete_inv (DeleteVolume dev deviceName vol identity) d0 deleted.
Proof.
  assert (delete_inv d0) as Hi0 by (split_and!; done). unfold DeleteVolume.
  apply readTable_swp; [done|intros; by apply swp_ret|]. intros xs _ _. simpl.
  pose proof deletionTarget_ok as Ht. destruct (deletionTarget _ _ _ _) as [[t|]|err]; [| |by apply swp_ret].
  2:{ apply swp_ret; [done|]. by apply (Ht None). }
  destruct (Ht (Some t) eq_refl) as (Hin & Hnm & Hdel).
  assert (1 ≤ number t ≤ MaxInt64) as Hn.
  { destruct d0_ok as [Hok _]. by apply (proj1 (Forall_forall _ _) Hok). }
  assert (∀ d, removed (number t) d0 d → delete_inv d ∧ deleted None d) as Hrm.
  { intros d Hd. destruct (removed_ok _ _ _ d0_ok Hd) as [? Hd']. split; [|by apply Hdel].
    split_and!; [done| |intros p; by rewrite Hd'; intros []]. intros p Hp. rewrite Hd'.
    split; [by intros []|]. intros Hp0. split; [done|]. intros He. contradict Hp.
    by rewrite (NoDup_number d0 p t). }
  apply runParted_swp; [done|..].
  - intros out e d [->|(_ & _ & Hd)] _; (apply swp_ret; [|done]); [done|]. by apply Hrm, Hd.
  - intros out d (_ & _ & Hd) _. apply swp_ret; apply Hrm, Hd; done.
Qed.

End Delete.

(** ** SetupStorage *)

(** A disk that has a partition table is left alone. *)
Lemma SetupStorage_swp deviceName d0 : labelled d0 = true →
  swp disk_step (λ d, d = d0) (SetupStorage Error dev deviceName) d0 (λ _ _, True).
Proof.
  intros Hl. unfold SetupStorage. apply readTable_swp; [done|..].
  - intros e He. rewrite He by done. by apply swp_ret.
  - intros xs _ _. by apply swp_ret.
Qed.

(** ** The life of a volume *)

(** A volume that is created and then deleted by its identity. *)
Definition createThenDelete (deviceName vol : string) (sizeBytes : Z) : host (option error) :=
  let! r := CreateVolume dev deviceName vol sizeBytes in
  match r with
  | inr err => Ret (Some err)
  | inl identity => DeleteVolume dev deviceName vol identity
  end.

Lemma partitionPath_nonempty n : partitionPath dev n ≠ "".
Proof. unfold partitionPath. by destruct dev. Qed.

Lemma Clean_named p id n : 1 ≤ number p ≤ MaxInt64 → id = partitionPath dev (number p) →
  partitionNumberFromPath dev id = inl n → n = number p.
Proof.
  intros Hp -> H. apply partitionNumberFromPath_ok in H as (_ & rest & Hr & Ha). unfold partitionPath in Hr.
  apply (f_equal str_list) in Hr. rewrite !str_list_app in Hr. apply app_inv_head, app_inv_head, str_list_inj in Hr as <-.
  rewrite Atoi_Itoa in Ha by (unfold int64, MinInt64, MaxInt64 in *; lia). congruence.
Qed.

Lemma parted_createThenDelete_swp deviceName vol sizeBytes d0 : disk_ok d0 →
  swp disk_step (λ d, disk_ok d ∧ others vol d0 d) (createThenDelete deviceName vol sizeBytes) d0
    (λ r d, r = None → ∀ p, p ∈ table d ↔ p ∈ table d0 ∧ name p ≠ vol).
Proof.
  intros Hok. unfold createThenDelete. apply swp_bind. eapply swp_mono; [|eapply swp_weaken; [|by apply parted_CreateVolume_swp]].
  2:{ by intros d (? & ? & _). }
  intros [id|e] d1 [Hok1 Ho1] Hc; [|by apply swp_ret]. destruct Hc as (p & size & Hp & _ & _ & Hid).
  eapply swp_weaken; [|eapply swp_mono; [|by apply (parted_DeleteVolume_swp deviceName vol id d1)]].
  { intros d (? & Ho & _). split; [done|]. intros q Hq. rewrite (Ho q Hq). by apply Ho1. }
  intros r d (_ & Ho & Hsub) Hdel Hr q. specialize (Hdel Hr).
  assert (p ∈ table d1 ∧ name p = vol) as [Hp1 Hpn].
  { apply partitionsNamed_elem. rewrite Hp. by apply list_elem_of_here. }
  assert (1 ≤ number p ≤ MaxInt64) as Hn by (by apply (partition_named_ok vol d1 p [])).
  assert (Plugins.BackendVolumeID id = partitionPath dev (number p)) as Hb by (by rewrite Hid).
  rewrite bool_decide_false in Hdel by (rewrite Hb; by apply partitionPath_nonempty).
  destruct Hdel as (n & Hn' & Hgone). apply (Clean_named p) in Hn' as ->; [|done..].
  destruct (decide (name q = vol)) as [Hq|Hq]; [|rewrite (Ho q Hq), (Ho1 q Hq); tauto].
  split; [|by intros []]. intros Hqd. exfalso. assert (q ∈ partitionsNamed (table d1) vol) as Hq1.
  { apply partitionsNamed_elem. auto. }
  rewrite Hp in Hq1. apply list_elem_of_singleton in Hq1 as ->. by apply (Hgone p).
Qed.

(** ** Runs of parted that the model admits *)

Lemma print_step d b out : printed d out → disk_step d (Exec [] "parted" (printArgs dev b)) (out, None) d.
Proof.
  intros Hp. split; [|done]. split_and!; [done|..].
  - intros nm s e H. exfalso. by destruct b.
  - intros n H. exfalso. by destruct b.
Qed.

Lemma bytes_inj s e : 0 ≤ s → 0 ≤ e → bytes s = bytes e → s = e.
Proof.
  unfold bytes. intros Hs He H. apply (f_equal str_list) in H. rewrite !str_list_app in H.
  apply app_inv_tail, str_list_inj in H. by apply Itoa_inj.
Qed.

Lemma mkpart_step d d' nm s e : 0 ≤ s → 0 ≤ e → added nm s e d d' →
  disk_step d (Exec [] "parted" (mkpartArgs dev nm s e)) ("", None) d'.
Proof.
  intros Hs He Ha. split; [split_and!|].
  - intros b H. exfalso. by destruct b.
  - intros nm' s' e' H _ [[Hs' He'] _]. unfold offset_ok in *. simpl in *. injection H as <- H1 H2.
    apply bytes_inj in H1 as <-; [|lia..]. apply bytes_inj in H2 as <-; [done|lia..].
  - intros n H. by exfalso.
  - intros b H. exfalso. by destruct b.
Qed.

Lemma rm_step d d' n : 1 ≤ n → removed n d d' → disk_step d (Exec [] "parted" ["-s"; dev; "rm"; Itoa n]) ("", None) d'.
Proof.
  intros Hn Hr. split; [split_and!|].
  - intros b H. exfalso. by destruct b.
  - intros nm s e H. by exfalso.
  - intros m H Hm. injection H as H. apply Itoa_inj in H as ->; [done|lia..].
  - intros b H. exfalso. by destruct b.
Qed.

Lemma read_run b d ls : labelled d = true → Forall line_ok ls → (table_of ls).1 = table d →
  Forall (free_in (table d)) (table_of ls).2 →
  reaches disk_step (readPartedTable dev b) d (Ret (inl (table d, (table_of ls).2))) d.
Proof.
  intros Hl Hls Ht Hf. eapply reaches_bind.
  - eapply reaches_bind; [eapply reaches_command, print_step|apply reaches_refl]. split; [done|]. by exists ls.
  - cbn beta iota. rewrite parse_printed_table by done. rewrite <- Ht, <- surjective_pairing. apply reaches_refl.
Qed.

Lemma present_run n size vol d :
  reaches disk_step (presentVolume dev n size vol) d (Ret (inl (volumeIdentity (partitionPath dev n) size vol))) d.
Proof.
  unfold presentVolume, waitForPartition, partitionPollCount. simpl.
  by apply (reaches_step _ (Stat _) _ (inl {| fi_Symlink := false; fi_File := 0 |}) d d); [|apply reaches_refl].
Qed.

End Disk.

(** C10: in every state of every run of CreateVolume on a well-formed disk,
    through command failures of any kind, partitions have distinct numbers and do
    not overlap, the partitions of other volumes are as they were, and a disk that
    already holds the volume is unchanged; when a volume is returned, the disk
    holds exactly one partition of its name, of exactly the requested size rounded
    up to allocation units, and the identity returned is that partition's. *)
Theorem partition_create_correct Error dev deviceName vol sizeBytes d0 q d :
  disk_ok d0 →
  reaches (disk_step Error dev) (CreateVolume dev deviceName vol sizeBytes) d0 q d →
  disk_ok d ∧ others vol d0 d ∧ (partitionsNamed (table d0) vol ≠ [] → d = d0) ∧
  ∀ identity, q = Ret (inl identity) → ∃ p size,
    partitionsNamed (table d) vol = [p] ∧ RoundUp sizeBytes = inl size ∧ end_ p - start p + 1 = size ∧
    identity = volumeIdentity (partitionPath dev (number p)) size vol.
Proof.
  intros Hok Hr. destruct (swp_sound _ _ _ _ _ _ _ (parted_CreateVolume_swp Error dev deviceName vol sizeBytes d0 Hok) Hr)
    as [(? & ? & ?) HQ]. split_and!; [done..|]. intros id ->. by apply (HQ (inl id)).
Qed.

(** C27: a volume that was created and then deleted by the identity its creation
    returned is gone, and nothing else: when both succeed the disk holds exactly
    the partitions of the other volumes, which no state on the way disturbs. *)
Theorem partition_create_delete Error dev deviceName vol sizeBytes d0 q d :
  disk_ok d0 →
  reaches (disk_step Error dev) (createThenDelete dev deviceName vol sizeBytes) d0 q d →
  disk_ok d ∧ others vol d0 d ∧
  (q = Ret None → ∀ p, p ∈ table d ↔ p ∈ table d0 ∧ name p ≠ vol).
Proof.
  intros Hok Hr. destruct (swp_sound _ _ _ _ _ _ _ (parted_createThenDelete_swp Error dev deviceName vol sizeBytes d0 Hok) Hr)
    as [[? ?] HQ]. split_and!; [done..|]. intros Hq. by apply (HQ None Hq).
Qed.

(** SetupStorage changes no disk that has a partition table, whatever
    commands fail: it wipes a device only after parted reported an unrecognised
    label. *)
Theorem setup_keeps_labelled_disk Error dev deviceName d0 q d :
  labelled d0 = true →
  reaches (disk_step Error dev) (SetupStorage Error dev deviceName) d0 q d → d = d0.
Proof.
  intros Hl Hr. by destruct (swp_sound _ _ _ _ _ _ _ (SetupStorage_swp Error dev deviceName d0 Hl) Hr).
Qed.

(** ** A disk *)

Module Example.

Definition other : partedPartition := {| number := 1; start := 1048576; end_ := 1073741823; name := "other" |}.
Definition mine : partedPartition := {| number := 2; start := 1073741824; end_ := 1077936127; name := "v" |}.
Definition disk0 : disk := {| labelled := true; table := [other] |}.
Definition disk1 : disk := {| labelled := true; table := [other; mine] |}.
Definition header : list line :=
  [HeaderLine "BYT"; HeaderLine "/dev/nvme0n1:10737418240B:nvme:512:512:gpt:disk:"].
Definition lines0 : list line :=
  header ++ [FreeLine {| ext_start := 17408; ext_end := 1048575 |} "1031168B"; PartitionLine other "1072693248B" "ext4" "";
             FreeLine {| ext_start := 1073741824; ext_end := 10737400831 |} "9663659008B"].
Definition lines1 : list line :=
  header ++ [PartitionLine other "1072693248B" "ext4" ""; PartitionLine mine "4194304B" "" ""].

Lemma disk0_ok : disk_ok disk0.
Proof.
  split_and!.
  - repeat constructor; done.
  - by apply NoDup_singleton.
  - set_solver.
Qed.

Ltac lines := repeat (apply Forall_cons_2; [split; [vm_compute; reflexivity|repeat (first [done | split]); auto]|]); by apply Forall_nil_2.

Lemma lines0_ok : Forall line_ok lines0 ∧ Forall (free_in (table disk0)) (table_of lines0).2.
Proof.
  split; [unfold lines0, header; simpl; lines|].
  apply Forall_cons_2; [|apply Forall_cons_2; [|by apply Forall_nil_2]]; (split; [done|]);
    intros p ->%list_elem_of_singleton; [by left|by right].
Qed.

Lemma lines1_ok : Forall line_ok lines1.
Proof. unfold lines1, header. simpl. lines. Qed.

Definition identity : Plugins.VolumeIdentity := volumeIdentity "/dev/nvme0n1p2" 4194304 "v".

Section Run.
Variable Error : error → string.
Local Notation step := (disk_step Error "/dev/nvme0n1").

Lemma mkpart_run : step disk0 (Exec [] "parted" (mkpartArgs "/dev/nvme0n1" "v" 1073741824 1077936127)) ("", None) disk1.
Proof.
  apply mkpart_step; [done|done|]. exists mine. split_and!; try done; [by apply not_elem_of_cons; split; [|apply not_elem_of_nil]|].
  apply perm_swap.
Qed.

Lemma carve_run : reaches step (carveVolume "/dev/nvme0n1" "v" 4194304 [other] (table_of lines0).2) disk0
  (Ret (inl identity)) disk1.
Proof.
  unfold carveVolume. cbv zeta.
  assert (selectFreeExtent (table_of lines0).2 4194304 = inl (1073741824, 1077936127)) as -> by (vm_compute; reflexivity).
  eapply reaches_bind.
  - eapply reaches_bind; [eapply reaches_command, mkpart_run|apply reaches_refl].
  - eapply reaches_bind; [apply (read_run _ _ false disk1 lines1); [done|apply lines1_ok|done|by apply Forall_nil_2]|].
    cbn beta iota.
    assert (verifyCreated (partitionsNamed (table disk1, (table_of lines1).2).1 "v") (lowestAvailablePartitionNumber [other])
      1073741824 1077936127 4194304 = inl 4194304) as -> by (vm_compute; reflexivity).
    assert (lowestAvailablePartitionNumber [other] = 2) as -> by (vm_compute; reflexivity). apply present_run.
Qed.

Lemma parted_create_run :
  reaches step (CreateVolume "/dev/nvme0n1" "disk0" "v" 4000000) disk0 (Ret (inl identity)) disk1.
Proof.
  destruct lines0_ok as [Hl Hf]. unfold CreateVolume.
  assert (RoundUp 4000000 = inl 4194304) as -> by (vm_compute; reflexivity).
  eapply reaches_bind; [by apply (read_run _ _ true disk0 lines0)|]. apply carve_run.
Qed.

Lemma setup_run : reaches step (SetupStorage Error "/dev/nvme0n1" "disk0") disk0 (Ret None) disk0.
Proof.
  destruct lines0_ok as [Hl Hf]. unfold SetupStorage.
  eapply reaches_bind; [by apply (read_run _ _ false disk0 lines0)|]. apply reaches_refl.
Qed.

Lemma parted_create_delete_run :
  reaches step (createThenDelete "/dev/nvme0n1" "disk0" "v" 4000000) disk0 (Ret None) disk0.
Proof.
  unfold createThenDelete. eapply reaches_bind; [apply parted_create_run|]. unfold DeleteVolume.
  eapply reaches_bind; [apply (read_run _ _ false disk1 lines1); [done|apply lines1_ok|done|by apply Forall_nil_2]|].
  cbn beta iota. assert (deletionTarget "/dev/nvme0n1" "v" identity (table disk1) = inl (Some mine)) as -> by (vm_compute; reflexivity).
  apply (reaches_bind _ _ _ (inl "") _ disk1 disk0); [|apply reaches_refl].
  eapply reaches_bind; [eapply reaches_command, (rm_step _ _ disk1 disk0); done|].
  apply reaches_refl.
Qed.

End Run.

End Example.

Lemma partition_create_correct_witness : ∃ p,
  partitionsNamed (table Example.disk1) "v" = [p] ∧ end_ p - start p + 1 = 4194304.
Proof.
  destruct (partition_create_correct (λ _, "") "/dev/nvme0n1" "disk0" "v" 4000000 Example.disk0 _ _ Example.disk0_ok
    (Example.parted_create_run (λ _, ""))) as (_ & _ & _ & H).
  destruct (H Example.identity eq_refl) as (p & size & Hp & Hr & Hs & _). exists p. split; [exact Hp|].
  assert (RoundUp 4000000 = inl 4194304) as E by (vm_compute; reflexivity). rewrite E in Hr. congruence.
Defined.

Lemma partition_create_delete_witness :
  Example.mine ∈ table Example.disk0 ↔ Example.mine ∈ table Example.disk0 ∧ name Example.mine ≠ "v".
Proof.
  exact (proj2 (proj2 (partition_create_delete (λ _, "") "/dev/nvme0n1" "disk0" "v" 4000000 Example.disk0 _ _
    Example.disk0_ok (Example.parted_create_delete_run (λ _, "")))) eq_refl Example.mine).
Defined.

Lemma setup_keeps_labelled_disk_witness : Example.disk0 = Example.disk0.
Proof.
  exact (setup_keeps_labelled_disk (λ _, "") "/dev/nvme0n1" "disk0" Example.disk0 _ _ eq_refl
    (Example.setup_run (λ _, ""))).
Defined.
