(* ===== verification/Lvol.v ===== *)
(** * The SPDK logical volume manager

    Models src/internal/agent/plugins/vol_spdk_lvol.go.  Decoding of the replies
    of SPDK is a parameter (Host.Unmarshal). *)

From S2P Require Import Prelude GoStrings GoPath Capacity ApiTypes Prog Kube Host Plugins.

Module Lvol.

Definition mebibyteBytes : Z := 1024 * 1024.

Record spdkLvstore := { store_UUID : string; store_Name : string; store_BaseBdev : string }.

(** [bdev_LvolStoreUUID] is the lvol_store_uuid of the driver-specific part, and
    [None] when there is no such part. *)
Record spdkBdev := {
  bdev_Name : string;
  bdev_UUID : string;
  bdev_Aliases : list string;
  bdev_BlockSize : Z;
  bdev_NumBlocks : Z;
  bdev_LvolStoreUUID : option string
}.

#[global] Instance spdkLvstore_eq_dec : EqDecision spdkLvstore.
Proof. solve_decision. Defined.
#[global] Instance spdkBdev_eq_dec : EqDecision spdkBdev.
Proof. solve_decision. Defined.

Definition lvstoreForBaseBdev (stores : list spdkLvstore) (baseBdev : string) : result spdkLvstore :=
  match List.filter (λ s, store_BaseBdev s ==? baseBdev) stores with
  | [s] => Ok s
  | _ => Err (Errorf "want exactly one SPDK logical volume store for the base bdev")
  end.

(** The indices of the matching elements. *)
Fixpoint matchingFrom (i : nat) (bdevs : list spdkBdev) (m : spdkBdev → bool) : list nat :=
  match bdevs with
  | [] => []
  | b :: bdevs => if m b then i :: matchingFrom (S i) bdevs m else matchingFrom (S i) bdevs m
  end.
Definition matchingBdevs (bdevs : list spdkBdev) (m : spdkBdev → bool) : list nat := matchingFrom 0 bdevs m.

Definition slices_Contains (l : list string) (x : string) : bool := bool_decide (x ∈ l).

Definition lvolIdentity (bdev : spdkBdev) (store : spdkLvstore) (volumeName : string) (capacityBytes : Z)
    : Plugins.VolumeIdentity :=
  {| Plugins.BackendVolumeID := store_Name store +:+ "/" +:+ volumeName;
     Plugins.CapacityBytes := capacityBytes;
     Plugins.BaseBdev := store_BaseBdev store;
     Plugins.VolumeStoreName := store_Name store;
     Plugins.VolumeStoreUUID := store_UUID store;
     Plugins.VolumeName := volumeName;
     Plugins.VolumeUUID := if bdev_UUID bdev ==? "" then bdev_Name bdev else bdev_UUID bdev |}.

Definition with_VolumeUUID (uuid : string) (i : Plugins.VolumeIdentity) : Plugins.VolumeIdentity :=
  {| Plugins.BackendVolumeID := Plugins.BackendVolumeID i; Plugins.CapacityBytes := Plugins.CapacityBytes i;
     Plugins.BaseBdev := Plugins.BaseBdev i; Plugins.VolumeStoreName := Plugins.VolumeStoreName i;
     Plugins.VolumeStoreUUID := Plugins.VolumeStoreUUID i; Plugins.VolumeName := Plugins.VolumeName i;
     Plugins.VolumeUUID := uuid |}.

(** Block size and count are unsigned. *)
Definition spdkBdevCapacity (bdev : spdkBdev) : result Z :=
  if (bdev_BlockSize bdev =? 0) || (bdev_NumBlocks bdev =? 0)
  then Err (Errorf "SPDK bdev has incomplete capacity metadata")
  else if MaxInt64 / bdev_BlockSize bdev <? bdev_NumBlocks bdev
  then Err (Errorf "SPDK bdev capacity overflows int64")
  else Ok (wrap64 (wrapU64 (bdev_BlockSize bdev * bdev_NumBlocks bdev))).

Definition hasAlias (alias : string) (bdev : spdkBdev) : bool :=
  (bdev_Name bdev ==? alias) || slices_Contains (bdev_Aliases bdev) alias.

Definition hasUUID (uuid : string) (bdev : spdkBdev) : bool :=
  (bdev_Name bdev ==? uuid) || (bdev_UUID bdev ==? uuid).

Definition findCreatedLvol (bdevs : list spdkBdev) (alias uuid : string) : result spdkBdev :=
  match matchingBdevs bdevs (λ b, ((uuid !=? "") && hasUUID uuid b) || hasAlias alias b) with
  | [i] => match bdevs !! i with Some b => Ok b | None => Err (Errorf "index out of range") end
  | _ => Err (Errorf "want exactly one SPDK lvol bdev for the alias and UUID")
  end.

(** What each persisted identifier selects; the logical volume name only when
    there is no such identifier. *)
Definition selectorPreds (volumeName : string) (identity : Plugins.VolumeIdentity) : list (spdkBdev → bool) :=
  let alias := Plugins.VolumeStoreName identity +:+ "/" +:+ Plugins.VolumeName identity in
  let persisted :=
    (if Plugins.VolumeUUID identity !=? "" then [hasUUID (Plugins.VolumeUUID identity)] else []) ++
    (if Plugins.BackendVolumeID identity !=? "" then [hasAlias (Plugins.BackendVolumeID identity)] else []) ++
    (if (Plugins.VolumeStoreName identity !=? "") && (Plugins.VolumeName identity !=? "") &&
        (alias !=? Plugins.BackendVolumeID identity) then [hasAlias alias] else []) in
  match persisted with
  | [] =>
    if volumeName !=? ""
    then [λ b, (bdev_Name b ==? volumeName) ||
               existsb (λ a, (a ==? volumeName) || HasSuffix a ("/" +:+ volumeName)) (bdev_Aliases b)]
    else []
  | _ => persisted
  end.

Definition selectors (bdevs : list spdkBdev) (volumeName : string) (identity : Plugins.VolumeIdentity)
    : list (list nat) :=
  map (matchingBdevs bdevs) (selectorPreds volumeName identity).

(** The loop over the selectors: the index found so far, and whether one selector
    matched nothing. *)
Fixpoint combineSelectors (sels : list (list nat)) (found : option nat) (missing : bool)
    : result (option nat * bool) :=
  match sels with
  | [] => Ok (found, missing)
  | [] :: sels => combineSelectors sels found true
  | [i] :: sels =>
    match found with
    | Some j => if negb (i =? j)%nat then Err (Errorf "persisted SPDK identifiers resolve to different lvols")
                else combineSelectors sels (Some i) missing
    | None => combineSelectors sels (Some i) missing
    end
  | (_ :: _ :: _) :: _ => Err (Errorf "an identifier resolves to several SPDK lvols")
  end.

Definition resolveLvolForDeletion (bdevs : list spdkBdev) (volumeName : string) (identity : Plugins.VolumeIdentity)
    : result (option spdkBdev) :=
  match selectors bdevs volumeName identity with
  | [] => Err (Errorf "SPDK lvol cleanup has no stable identifier")
  | sels =>
    let? r := combineSelectors sels None false in
    match r with
    | (None, _) => Ok None
    | (Some i, true) => Err (Errorf "only some persisted SPDK identifiers resolve; refusing unsafe lvol deletion")
    | (Some i, false) => Ok (bdevs !! i)
    end
  end.

(** The store that the persisted identifiers select, the last one of the list. *)
Fixpoint ownerStore (stores : list spdkLvstore) (identity : Plugins.VolumeIdentity) (store : option spdkLvstore)
    : result (option spdkLvstore) :=
  match stores with
  | [] => Ok store
  | s :: stores =>
    let matchesUUID := (Plugins.VolumeStoreUUID identity !=? "") && (store_UUID s ==? Plugins.VolumeStoreUUID identity) in
    let matchesName := (Plugins.VolumeStoreName identity !=? "") && (store_Name s ==? Plugins.VolumeStoreName identity) in
    if matchesUUID || matchesName then
      match store with
      | Some s' => if store_UUID s' !=? store_UUID s
                   then Err (Errorf "persisted lvstore identifiers resolve to different stores")
                   else ownerStore stores identity (Some s)
      | None => ownerStore stores identity (Some s)
      end
    else ownerStore stores identity store
  end.

Definition validateLvolOwnership (candidate : spdkBdev) (stores : list spdkLvstore)
    (identity : Plugins.VolumeIdentity) : option error :=
  match ownerStore stores identity None with
  | inr err => Some err
  | inl None =>
    if (Plugins.VolumeStoreUUID identity !=? "") || (Plugins.VolumeStoreName identity !=? "")
    then Some (Errorf "persisted SPDK lvstore cannot be resolved while its lvol still exists") else None
  | inl (Some store) =>
    if (Plugins.VolumeStoreUUID identity !=? "") && (store_UUID store !=? Plugins.VolumeStoreUUID identity)
    then Some (Errorf "SPDK lvstore UUID does not match persisted identity")
    else if (Plugins.VolumeStoreName identity !=? "") && (store_Name store !=? Plugins.VolumeStoreName identity)
    then Some (Errorf "SPDK lvstore name does not match persisted identity")
    else if (Plugins.BaseBdev identity !=? "") && (store_BaseBdev store !=? Plugins.BaseBdev identity)
    then Some (Errorf "SPDK lvstore base bdev does not match persisted identity")
    else match bdev_LvolStoreUUID candidate with
         | Some u => if (u !=? "") && (store_UUID store !=? u)
                     then Some (Errorf "SPDK lvol belongs to another lvstore") else None
         | None => None
         end
  end.

Section Manager.
Context `{Quoting} `{Unmarshal (list spdkLvstore)} `{Unmarshal (list spdkBdev)} `{Unmarshal string}.

Definition listSPDKLvstores : host (result (list spdkLvstore)) :=
  let! r := CallSPDKRPCInto "bdev_lvol_get_lvstores" [] in
  match r with
  | inl stores => Ret (Ok stores)
  | inr err => Ret (Err (Wrap "failed to list SPDK logical volume stores" err))
  end.

Definition listSPDKBdevs : host (result (list spdkBdev)) :=
  let! r := CallSPDKRPCInto "bdev_get_bdevs" [] in
  match r with
  | inl bdevs => Ret (Ok bdevs)
  | inr err => Ret (Err (Wrap "failed to list SPDK bdevs" err))
  end.

Definition GetLvstoreName (deviceName : string) : host (result string) :=
  let!? stores := listSPDKLvstores in
  match lvstoreForBaseBdev stores deviceName with
  | inr err => Ret (Err err)
  | inl store => Ret (Ok (store_Name store))
  end.

Definition SetupStorage (devicePath deviceName : string) : host (option error) :=
  let! r := listSPDKLvstores in
  match r with
  | inr err => Ret (Some err)
  | inl stores =>
    if existsb (λ s, store_BaseBdev s ==? deviceName) stores then Ret None
    else CallSPDKRPC "bdev_lvol_create_lvstore" [deviceName; "lvs_" +:+ deviceName]
  end.

(** The volume as bdev_get_bdevs shows it after its creation. *)
Definition createdIdentity (created : spdkBdev) (store : spdkLvstore) (volumeName uuid : string)
    (allocatedBytes : Z) : result Plugins.VolumeIdentity :=
  let? actualBytes := spdkBdevCapacity created in
  if negb (actualBytes =? allocatedBytes) then Err (Errorf "SPDK lvol has another capacity")
  else
    let identity := lvolIdentity created store volumeName actualBytes in
    Ok (if uuid !=? "" then with_VolumeUUID uuid identity else identity).

Definition CreateVolume (devicePath deviceName volumeName : string) (sizeBytes : Z)
    : host (result Plugins.VolumeIdentity) :=
  match RoundUp sizeBytes with
  | inr err => Ret (Err err)
  | inl allocatedBytes =>
    let!? stores := listSPDKLvstores in
    match lvstoreForBaseBdev stores deviceName with
    | inr err => Ret (Err err)
    | inl store =>
      let alias := store_Name store +:+ "/" +:+ volumeName in
      let! r := listSPDKBdevs in
      match r with
      | inr err => Ret (Err (Wrap "list SPDK bdevs before creating" err))
      | inl bdevs =>
        match findCreatedLvol bdevs alias "" with
        | inl existing => Ret (createdIdentity existing store volumeName "" allocatedBytes)
        | inr _ =>
          if (1 <? length (matchingBdevs bdevs (hasAlias alias)))%nat
          then Ret (Err (Errorf "multiple SPDK lvol bdevs use the alias"))
          else
            let sizeMB := div64 allocatedBytes mebibyteBytes in
            let!? uuid := CallSPDKRPCInto (A := string) "bdev_lvol_create" ["-l"; store_Name store; volumeName; Itoa sizeMB] in
            let! r := listSPDKBdevs in
            match r with
            | inr err => Ret (Err (Wrap "verify SPDK lvol after creation" err))
            | inl bdevs =>
              match findCreatedLvol bdevs alias uuid with
              | inr err => Ret (Err err)
              | inl created => Ret (createdIdentity created store volumeName uuid allocatedBytes)
              end
            end
        end
      end
    end
  end.

Definition DeleteVolume (devicePath deviceName volumeName : string) (identity : Plugins.VolumeIdentity)
    : host (option error) :=
  let! r := listSPDKLvstores in
  match r with
  | inr err => Ret (Some err)
  | inl stores =>
    let! r := listSPDKBdevs in
    match r with
    | inr err => Ret (Some (Wrap "list SPDK bdevs before deleting" err))
    | inl bdevs =>
      match resolveLvolForDeletion bdevs volumeName identity with
      | inr err => Ret (Some err)
      | inl None => Ret None
      | inl (Some candidate) =>
        match validateLvolOwnership candidate stores identity with
        | Some err => Ret (Some err)
        | None =>
          let! deleteErr := CallSPDKRPC "bdev_lvol_delete" [bdev_Name candidate] in
          let! r := listSPDKBdevs in
          match r with
          | inr err => Ret (Some (Wrap "verify SPDK lvol absence after deletion" err))
          | inl bdevs =>
            match resolveLvolForDeletion bdevs volumeName identity with
            | inr err => Ret (Some err)
            | inl (Some _) =>
              Ret (Some (match deleteErr with
                         | Some e => Wrap "delete SPDK lvol" e
                         | None => Errorf "SPDK lvol still exists after deletion"
                         end))
            | inl None => Ret None
            end
          end
        end
      end
    end
  end.

End Manager.

End Lvol.
