(* ===== verification/LvolProps.v ===== *)
(** * Correctness of the SPDK logical volume manager *)

From S2P Require Import Prelude GoStrings GoPath Capacity ApiTypes Prog Kube Host Plugins Lvol.
Import Lvol.

(** ** Selection *)

Lemma matchingFrom_elem i bdevs m j :
  j ∈ matchingFrom i bdevs m ↔ ∃ k b, j = (i + k)%nat ∧ bdevs !! k = Some b ∧ m b = true.
Proof.
  revert i. induction bdevs as [|b bdevs IH]; intros i; simpl; [set_solver|].
  assert (j ∈ matchingFrom (S i) bdevs m ↔ ∃ k c, j = (i + S k)%nat ∧ bdevs !! k = Some c ∧ m c = true) as IH'.
  { rewrite IH. split; intros (k & c & -> & ?); exists k, c; (split; [lia|done]). }
  destruct (m b) eqn:E; rewrite ?elem_of_cons, IH'; split.
  - intros [->|(k & c & ? & ?)]; [exists 0%nat, b; split; [lia|done]|by exists (S k), c].
  - intros ([|k] & c & -> & Hk & Hc); [left; lia|right; by exists k, c].
  - intros (k & c & ? & ?). by exists (S k), c.
  - intros ([|k] & c & -> & Hk & Hc); simpl in *; [congruence|by exists k, c].
Qed.

Lemma matching_elem bdevs m j : j ∈ matchingBdevs bdevs m ↔ ∃ b, bdevs !! j = Some b ∧ m b = true.
Proof. unfold matchingBdevs. rewrite matchingFrom_elem. naive_solver. Qed.

Lemma matching_nil bdevs m : matchingBdevs bdevs m = [] → ∀ b, b ∈ bdevs → m b = false.
Proof.
  intros H b [j Hj]%list_elem_of_lookup_1. destruct (m b) eqn:E; [|done].
  assert (j ∈ matchingBdevs bdevs m) as Hin by (apply matching_elem; by exists b). rewrite H in Hin. set_solver.
Qed.

Lemma matching_one bdevs m i : matchingBdevs bdevs m = [i] →
  ∃ b, bdevs !! i = Some b ∧ m b = true ∧ ∀ c, c ∈ bdevs → m c = true → c = b.
Proof.
  intros H. assert (i ∈ matchingBdevs bdevs m) as (b & Hb & Hm)%matching_elem by (rewrite H; set_solver).
  exists b. split_and!; [done..|]. intros c [j Hj]%list_elem_of_lookup_1 Hc.
  assert (j ∈ matchingBdevs bdevs m) as Hin by (apply matching_elem; by exists c).
  rewrite H, list_elem_of_singleton in Hin. congruence.
Qed.

Lemma findCreatedLvol_ok bdevs alias uuid b : findCreatedLvol bdevs alias uuid = inl b →
  b ∈ bdevs ∧ ∀ c, c ∈ bdevs → hasAlias alias c = true ∨ (uuid ≠ "" ∧ hasUUID uuid c = true) → c = b.
Proof.
  unfold findCreatedLvol. destruct (matchingBdevs _ _) as [|i [|]] eqn:E; [done| |done].
  apply matching_one in E as (c & Hc & _ & Hu). rewrite Hc. intros [= <-].
  split; [by eapply list_elem_of_lookup_2|]. intros c' Hc' H. apply Hu; [done|]. apply orb_true_iff.
  destruct H as [->|[Hne ->]]; [by right|left]. by rewrite bool_decide_false.
Qed.

Lemma combine_some sels found missing i : combineSelectors sels found missing = inl (Some i, false) →
  missing = false ∧ (∀ j, found = Some j → j = i) ∧ Forall (λ s, s = [i]) sels.
Proof.
  revert found missing. induction sels as [|[|a [|]] sels IH]; intros found missing; simpl; try done.
  - intros [= -> ->]. naive_solver.
  - intros (? & _ & _)%IH. done.
  - destruct found as [j|].
    + destruct (Nat.eqb_spec a j); [|done]. simpl. intros (? & Hj & ?)%IH. specialize (Hj a eq_refl).
      subst. naive_solver.
    + intros (? & Hj & ?)%IH. specialize (Hj a eq_refl). subst. naive_solver.
Qed.

Lemma combine_none sels found missing b : combineSelectors sels found missing = inl (None, b) →
  found = None ∧ Forall (λ s, s = []) sels.
Proof.
  revert found missing. induction sels as [|[|a [|]] sels IH]; intros found missing; simpl; try done.
  - intros [= -> _]. naive_solver.
  - intros (? & ?)%IH. naive_solver.
  - destruct found as [j|]; [destruct (negb _); [done|]|]; intros (? & ?)%IH; done.
Qed.

(** resolveLvolForDeletion finds the one bdev that all identifiers select, or that
    none of them selects any. *)
Lemma resolve_some bdevs vol id b : resolveLvolForDeletion bdevs vol id = inl (Some b) →
  b ∈ bdevs ∧ ∀ P, P ∈ selectorPreds vol id → P b = true ∧ ∀ c, c ∈ bdevs → P c = true → c = b.
Proof.
  unfold resolveLvolForDeletion. destruct (selectors bdevs vol id) as [|s sels] eqn:E; [done|].
  destruct (combineSelectors _ _ _) as [[[i|] []]|] eqn:Ec; simpl; try done. intros [= Hb].
  apply combine_some in Ec as (_ & _ & Hf). rewrite <- E in Hf. split; [by eapply list_elem_of_lookup_2|].
  intros P HP. unfold selectors in Hf. rewrite Forall_map, Forall_forall in Hf.
  specialize (Hf P HP). simpl in Hf. apply matching_one in Hf as (c & Hc & HPc & Hu). naive_solver.
Qed.

Lemma resolve_none bdevs vol id : resolveLvolForDeletion bdevs vol id = inl None →
  selectorPreds vol id ≠ [] ∧ ∀ P b, P ∈ selectorPreds vol id → b ∈ bdevs → P b = false.
Proof.
  unfold resolveLvolForDeletion. destruct (selectors bdevs vol id) as [|s sels] eqn:E; [done|].
  assert (selectorPreds vol id ≠ []) as Hne by (unfold selectors in E; by destruct (selectorPreds vol id)).
  destruct (combineSelectors _ _ _) as [[[i|] m]|] eqn:Ec; simpl; try done.
  - destruct m; [done|]. intros [= Hb]. apply combine_some in Ec as (_ & _ & Hf). exfalso.
    inversion_clear Hf as [|?? Hs _]. subst s. unfold selectors in E.
    destruct (selectorPreds vol id) as [|P Ps]; [done|]. injection E as E _.
    apply matching_one in E as (c & Hc & _). congruence.
  - intros _. split; [done|]. apply combine_none in Ec as [_ Hf]. rewrite <- E in Hf. intros P b HP Hb.
    unfold selectors in Hf. rewrite Forall_map, Forall_forall in Hf. specialize (Hf P HP).
    by eapply matching_nil.
Qed.

Lemma matchingFrom_unique i bdevs m k b : NoDup bdevs → bdevs !! k = Some b → m b = true →
  (∀ c, c ∈ bdevs → m c = true → c = b) → matchingFrom i bdevs m = [(i + k)%nat].
Proof.
  revert i k. induction bdevs as [|c bdevs IH]; intros i k Hnd Hk Hm Hu; [done|].
  inversion_clear Hnd as [|?? Hc Hnd']. simpl. destruct k as [|k]; simpl in Hk.
  - injection Hk as ->. rewrite Hm. assert (matchingFrom (S i) bdevs m = []) as ->; [|f_equal; lia].
    destruct (matchingFrom (S i) bdevs m) as [|j l] eqn:E; [done|]. exfalso.
    assert (j ∈ matchingFrom (S i) bdevs m) as (k & c & -> & Hk & Hmc)%matchingFrom_elem by (rewrite E; set_solver).
    apply Hc. rewrite <- (Hu c); [by eapply list_elem_of_lookup_2| |done]. apply elem_of_cons. right.
    by eapply list_elem_of_lookup_2.
  - destruct (m c) eqn:E.
    + exfalso. apply Hc. rewrite (Hu c) by (done || set_solver). by eapply list_elem_of_lookup_2.
    + rewrite (IH (S i) k) by (done || (intros; apply Hu; set_solver)). f_equal. lia.
Qed.

(** Conversely, a bdev that every identifier selects and nothing else is found. *)
Lemma resolve_unique bdevs vol id b : NoDup bdevs → b ∈ bdevs → selectorPreds vol id ≠ [] →
  (∀ P, P ∈ selectorPreds vol id → P b = true ∧ ∀ c, c ∈ bdevs → P c = true → c = b) →
  resolveLvolForDeletion bdevs vol id = inl (Some b).
Proof.
  intros Hnd [k Hk]%list_elem_of_lookup_1 Hne HP.
  assert (Forall (λ s, s = [k]) (selectors bdevs vol id)) as Hf.
  { unfold selectors. rewrite Forall_map, Forall_forall. intros P HPin. destruct (HP P HPin).
    by apply (matchingFrom_unique 0 bdevs P k b). }
  unfold resolveLvolForDeletion. destruct (selectors bdevs vol id) as [|s sels] eqn:E.
  { unfold selectors in E. by destruct (selectorPreds vol id). }
  assert (∀ sels found, Forall (λ s, s = [k]) sels → found = None ∧ sels ≠ [] ∨ found = Some k →
    combineSelectors sels found false = inl (Some k, false)) as Hc.
  { clear. intros sels. induction sels as [|s sels IH]; intros found Hs Hfd; simpl; [naive_solver|].
    inversion_clear Hs as [|?? Hs1 Hs2]. subst s. destruct Hfd as [[-> _]| ->]; [|rewrite Nat.eqb_refl; simpl];
      apply IH; auto. }
  rewrite Hc by naive_solver. simpl. by rewrite Hk.
Qed.

(** ** SPDK

    [spdk_step] says what the RPCs may reply and do.  The documented behaviour
    relied on: the listings show the state; bdev_lvol_create adds one bdev under a
    new alias; bdev_lvol_delete removes the bdev of the name; an RPC that fails may
    still have had its effect; bdev names and UUIDs identify bdevs. *)

Record spdk := { stores : list spdkLvstore; bdevs : list spdkBdev }.

Definition bdev_ok (b : spdkBdev) : Prop := uint64 (bdev_BlockSize b) ∧ uint64 (bdev_NumBlocks b).

Definition spdk_ok (w : spdk) : Prop :=
  Forall bdev_ok (bdevs w) ∧ NoDup (bdevs w) ∧
  ∀ b c, b ∈ bdevs w → c ∈ bdevs w →
    (hasUUID (bdev_Name b) c = true → c = b) ∧ (bdev_UUID b ≠ "" → hasUUID (bdev_UUID b) c = true → c = b).

Section Spdk.
Context `{QT : Quoting} `{US : Unmarshal (list spdkLvstore)} `{UB : Unmarshal (list spdkBdev)} `{UW : Unmarshal string}.

Definition lvol_added (alias : string) (w w' : spdk) : Prop :=
  stores w' = stores w ∧ spdk_ok w' ∧ (∀ b, b ∈ bdevs w → hasAlias alias b = false) ∧
  ∃ b, hasAlias alias b = true ∧ bdevs w' ≡ₚ b :: bdevs w.

Definition lvol_removed (n : string) (w w' : spdk) : Prop :=
  stores w' = stores w ∧ bdevs w' = List.filter (λ b, bdev_Name b !=? n) (bdevs w).

Definition rpc_effect (args : list string) (w w' : spdk) : Prop :=
  (args = ["bdev_lvol_get_lvstores"] → w' = w) ∧ (args = ["bdev_get_bdevs"] → w' = w) ∧
  (∀ st vol mb, args = ["bdev_lvol_create"; "-l"; st; vol; mb] → lvol_added (st +:+ "/" +:+ vol) w w') ∧
  (∀ n, args = ["bdev_lvol_delete"; n] → lvol_removed n w w').

Definition rpc_shows (args : list string) (w w' : spdk) (out : string) : Prop :=
  (args = ["bdev_lvol_get_lvstores"] → unmarshal (rpcOutput out) = inl (stores w)) ∧
  (args = ["bdev_get_bdevs"] → unmarshal (rpcOutput out) = inl (bdevs w)) ∧
  (∀ st vol mb uuid, args = ["bdev_lvol_create"; "-l"; st; vol; mb] → unmarshal (rpcOutput out) = inl uuid →
     uuid ≠ "" → ∃ b, b ∈ bdevs w' ∧ hasAlias (st +:+ "/" +:+ vol) b = true ∧ bdev_Name b = uuid).

Definition spdk_step : spdk → ∀ o : hostOp, hostRep o → spdk → Prop :=
  rpc_step rpc_effect rpc_shows (λ w _ w', w' = w).

Section Inv.
Variable inv : spdk → Prop.

Lemma listStores_swp {A} (k : result (list spdkLvstore) → host A) w Q : inv w →
  (∀ e, swp spdk_step inv (k (inr e)) w Q) → swp spdk_step inv (k (inl (stores w))) w Q →
  swp spdk_step inv (bind listSPDKLvstores k) w Q.
Proof.
  intros Hi He Hk. unfold listSPDKLvstores. apply swp_bind.
  apply CallSPDKRPCInto_swp with (V := eq (stores w)); [done|done|by intros w' [H _]; apply H
    |intros out [H _]; exists (stores w); by split; [apply H|]|intros e|intros v <-]; by apply swp_ret.
Qed.

Lemma listBdevs_swp {A} (k : result (list spdkBdev) → host A) w Q : inv w →
  (∀ e, swp spdk_step inv (k (inr e)) w Q) → swp spdk_step inv (k (inl (bdevs w))) w Q →
  swp spdk_step inv (bind listSPDKBdevs k) w Q.
Proof.
  intros Hi He Hk. unfold listSPDKBdevs. apply swp_bind.
  apply CallSPDKRPCInto_swp with (V := eq (bdevs w)); [done|done|by intros w' (_ & H & _); apply H
    |intros out (_ & H & _); exists (bdevs w); by split; [apply H|]|intros e|intros v <-]; by apply swp_ret.
Qed.

End Inv.

(** ** CreateVolume *)

Section Create.
Variables (devicePath deviceName vol : string) (sizeBytes : Z) (w0 : spdk).
Hypothesis w0_ok : spdk_ok w0.

(** The alias of the volume: in the only store of the device. *)
Definition aliasOf (alias : string) : Prop :=
  ∃ store, lvstoreForBaseBdev (stores w0) deviceName = inl store ∧ alias = store_Name store +:+ "/" +:+ vol.

(** Along the run no bdev goes away or changes, new ones have the alias of the
    volume, and there are none when it exists already. *)
Definition create_inv (w : spdk) : Prop :=
  spdk_ok w ∧ stores w = stores w0 ∧ (∀ b, b ∈ bdevs w0 → b ∈ bdevs w) ∧
  (∀ b, b ∈ bdevs w → b ∉ bdevs w0 → ∃ alias, aliasOf alias ∧ hasAlias alias b = true) ∧
  (∀ alias b, aliasOf alias → b ∈ bdevs w0 → hasAlias alias b = true → w = w0).

(** The result denotes the only bdev with the alias, of the rounded size, and
    DeleteVolume resolves it to that bdev. *)
Definition created (r : result Plugins.VolumeIdentity) (w : spdk) : Prop :=
  match r with
  | inl id => ∃ b size, b ∈ bdevs w ∧ aliasOf (Plugins.BackendVolumeID id) ∧
      (∀ c, c ∈ bdevs w → hasAlias (Plugins.BackendVolumeID id) c = true ↔ c = b) ∧
      RoundUp sizeBytes = inl size ∧ bdev_BlockSize b * bdev_NumBlocks b = size ∧
      Plugins.CapacityBytes id = size ∧ Plugins.VolumeName id = vol ∧
      resolveLvolForDeletion (bdevs w) vol id = inl (Some b)
  | inr _ => True
  end.
Lemma lvol_capacity_ok b c : bdev_ok b → spdkBdevCapacity b = inl c → c = bdev_BlockSize b * bdev_NumBlocks b.
Proof.
  unfold bdev_ok, uint64, MaxUint64, spdkBdevCapacity. intros [Hb Hn] Hcap. guards.
  assert (bdev_BlockSize b * bdev_NumBlocks b ≤ MaxInt64) as Hle.
  { pose proof (Z.mul_div_le MaxInt64 (bdev_BlockSize b)). unfold MaxInt64 in *. nia. }
  unfold MaxInt64 in *. rewrite wrapU64_id by (unfold uint64, MaxUint64; nia).
  apply wrap64_id. unfold int64, MinInt64, MaxInt64. nia.
Qed.

(** The identifiers of a volume that CreateVolume returns. *)
Lemma identity_preds id vol' : Plugins.BackendVolumeID id = Plugins.VolumeStoreName id +:+ "/" +:+ Plugins.VolumeName id →
  selectorPreds vol' id ≠ [] ∧ ∀ P, P ∈ selectorPreds vol' id →
    (Plugins.VolumeUUID id ≠ "" ∧ P = hasUUID (Plugins.VolumeUUID id)) ∨ P = hasAlias (Plugins.BackendVolumeID id).
Proof.
  intros Hid. unfold selectorPreds.
  assert (Plugins.BackendVolumeID id ≠ "") as Hne by (rewrite Hid; by destruct (Plugins.VolumeStoreName id)).
  rewrite <- Hid. rewrite (bool_decide_false (Plugins.BackendVolumeID id = "")) by done.
  rewrite (bool_decide_true (Plugins.BackendVolumeID id = Plugins.BackendVolumeID id)) by done.
  rewrite andb_false_r. destruct (bool_decide_reflect (Plugins.VolumeUUID id = "")); simpl; (split; [done|]); set_solver.
Qed.

Lemma created_ok store b uuid size r w : create_inv w → lvstoreForBaseBdev (stores w0) deviceName = inl store →
  RoundUp sizeBytes = inl size → let alias := store_Name store +:+ "/" +:+ vol in
  findCreatedLvol (bdevs w) alias uuid = inl b → (∃ c, c ∈ bdevs w ∧ hasAlias alias c = true ∧ (uuid ≠ "" → bdev_Name c = uuid)) →
  createdIdentity b store vol uuid size = r → created r w.
Proof.
  intros Hi Hst Hr alias Hf (c & Hc & Ha & Hu) <-. destruct Hi as ((Hok & Hnd & Hids) & _).
  apply findCreatedLvol_ok in Hf as [Hb Huniq]. assert (c = b) as -> by auto.
  assert (∀ c, c ∈ bdevs w → hasAlias alias c = true ↔ c = b) as Hal by naive_solver.
  unfold createdIdentity. destruct (spdkBdevCapacity b) as [n|] eqn:Ec; simpl; [|done].
  destruct (Z.eqb_spec n size) as [->|]; simpl; [|done].
  rewrite Forall_forall in Hok. apply lvol_capacity_ok in Ec; [|by apply Hok].
  set (id := if uuid !=? "" then _ else _). assert (Plugins.BackendVolumeID id = alias ∧
    Plugins.VolumeStoreName id = store_Name store ∧ Plugins.VolumeName id = vol ∧ Plugins.CapacityBytes id = size ∧
    (Plugins.VolumeUUID id = bdev_Name b ∨ Plugins.VolumeUUID id = bdev_UUID b)) as (H1 & H2 & H3 & H4 & H5).
  { unfold id. destruct (bool_decide_reflect (uuid = "")) as [->|Hne]; simpl; split_and!; try done; [|by left; rewrite Hu].
    destruct (bool_decide_reflect (bdev_UUID b = "")) as [->|]; auto. }
  exists b, size. rewrite H1. split_and!; try done; [by exists store|].
  destruct (identity_preds id vol) as [Hne HP]; [by rewrite H1, H2, H3|].
  apply resolve_unique; [done|done|done|]. intros P HPin. rewrite H1 in HP.
  destruct (HP P HPin) as [[Hn ->]| ->]; [|naive_solver].
  destruct H5 as [E|E]; rewrite E in *; (split; [apply orb_true_iff|intros c' Hc'; by apply (Hids b c' Hb Hc')]);
    [left|right]; by apply bool_decide_eq_true.
Qed.

Lemma lvol_create_inv_start : create_inv w0.
Proof. split_and!; [done..|set_solver|done]. Qed.

Lemma added_inv store w : lvstoreForBaseBdev (stores w0) deviceName = inl store →
  lvol_added (store_Name store +:+ "/" +:+ vol) w0 w → create_inv w.
Proof.
  intros Hst (Hs & Hok & Hnone & b & Hb & Hp). split_and!; [done|done|intros c Hc; rewrite Hp; by apply elem_of_cons; right| |].
  - intros c. rewrite Hp, elem_of_cons. intros [->|] Hc; [|done]. eexists. split; [by exists store|done].
  - intros alias c (store' & Hst' & ->) Hc. rewrite Hst in Hst'. injection Hst' as <-. by rewrite Hnone.
Qed.

Lemma findCreatedLvol_exists bs alias b : findCreatedLvol bs alias "" = inl b → b ∈ bs ∧ hasAlias alias b = true.
Proof.
  unfold findCreatedLvol. destruct (matchingBdevs _ _) as [|i [|]] eqn:E; [done| |done].
  apply matching_one in E as (c & Hc & Hm & _). rewrite Hc. intros [= <-].
  split; [by eapply list_elem_of_lookup_2|]. done.
Qed.

Lemma create_after_swp store size w : RoundUp sizeBytes = inl size →
  lvstoreForBaseBdev (stores w0) deviceName = inl store → create_inv w → ∀ uuid,
  (∃ c, c ∈ bdevs w ∧ hasAlias (store_Name store +:+ "/" +:+ vol) c = true ∧ (uuid ≠ "" → bdev_Name c = uuid)) →
  swp spdk_step create_inv
    (let! r := listSPDKBdevs in
     match r with
     | inr err => Ret (Err (Wrap "verify SPDK lvol after creation" err))
     | inl bdevs =>
       match findCreatedLvol bdevs (store_Name store +:+ "/" +:+ vol) uuid with
       | inr err => Ret (Err err)
       | inl created => Ret (createdIdentity created store vol uuid size)
       end
     end) w created.
Proof.
  intros Hr Hst Hi uuid Hex. apply listBdevs_swp; [done|intros; by apply swp_ret|].
  destruct (findCreatedLvol _ _ _) as [b|] eqn:Ef; [|by apply swp_ret].
  apply swp_ret; [done|]. by eapply created_ok.
Qed.

Lemma lvol_CreateVolume_swp :
  swp spdk_step create_inv (CreateVolume devicePath deviceName vol sizeBytes) w0 created.
Proof.
  pose proof lvol_create_inv_start as Hi0. unfold CreateVolume.
  destruct (RoundUp sizeBytes) as [size|err] eqn:Hr; [|by apply swp_ret].
  apply listStores_swp; [done|intros; by apply swp_ret|].
  destruct (lvstoreForBaseBdev _ _) as [store|] eqn:Hst; [|by apply swp_ret].
  apply listBdevs_swp; [done|intros; by apply swp_ret|].
  destruct (findCreatedLvol _ _ _) as [b|] eqn:Ef.
  { apply swp_ret; [done|]. eapply created_ok; try done. apply findCreatedLvol_exists in Ef as [? ?]. by exists b. }
  destruct (1 <? _)%nat; [by apply swp_ret|].
  apply swp_bind. unfold CallSPDKRPCInto. apply swp_bind, runSPDKRPC_swp; [done..| |].
  - intros w Hw. assert (create_inv w) as Hi.
    { destruct Hw as [->|(_ & _ & Hadd & _)]; [done|]. by eapply added_inv, Hadd. }
    split; [done|]. intros e'. by repeat (apply swp_ret; [done|]).
  - intros out w (_ & _ & Hadd & _) (_ & _ & Hshow). specialize (Hadd _ _ _ eq_refl).
    pose proof (added_inv _ _ Hst Hadd) as Hi.
    destruct (unmarshal (rpcOutput out)) as [uuid|eu] eqn:Eu; [|by repeat (apply swp_ret; [done|])].
    apply swp_ret; [done|]. apply create_after_swp; [done..|].
    destruct (decide (uuid = "")) as [->|Hne].
    + destruct Hadd as (_ & _ & _ & b & Hb & Hp). exists b. rewrite Hp. set_solver.
    + destruct (Hshow _ _ _ _ eq_refl eq_refl Hne) as (b & ? & ? & ?). by exists b.
Qed.

End Create.

(** ** DeleteVolume *)

Section Delete.
Variables (devicePath deviceName vol : string) (identity : Plugins.VolumeIdentity) (w0 : spdk).
Hypothesis w0_ok : spdk_ok w0.

(** Along the run bdevs only go away, and only those that every identifier
    selects. *)
Definition delete_inv (w : spdk) : Prop :=
  spdk_ok w ∧ stores w = stores w0 ∧ (∀ b, b ∈ bdevs w → b ∈ bdevs w0) ∧
  ∀ b P, b ∈ bdevs w0 → P ∈ selectorPreds vol identity → P b = false → b ∈ bdevs w.

(** Afterwards no identifier selects anything. *)
Definition deleted (r : option error) (w : spdk) : Prop :=
  r = None → ∀ P b, P ∈ selectorPreds vol identity → b ∈ bdevs w → P b = false.

Lemma removed_inv c w : c ∈ bdevs w0 → (∀ P, P ∈ selectorPreds vol identity → P c = true) →
  lvol_removed (bdev_Name c) w0 w → delete_inv w.
Proof.
  intros Hc HP [Hs Hb]. destruct w0_ok as (Hok & Hnd & Hids).
  assert (∀ b, b ∈ bdevs w ↔ b ∈ bdevs w0 ∧ bdev_Name b ≠ bdev_Name c) as Hin.
  { intros b. rewrite Hb, !list_elem_of_In, filter_In, negb_true_iff, bool_decide_eq_false. done. }
  split_and!; [split_and!|done|by intros b []%Hin|].
  - apply Forall_forall. intros b [? _]%Hin. by eapply Forall_forall in Hok.
  - rewrite Hb. apply NoDup_ListNoDup, List.NoDup_filter. by apply NoDup_ListNoDup.
  - intros b b' [? _]%Hin [? _]%Hin. by apply Hids.
  - intros b P Hb0 HPin HPb. apply Hin. split; [done|]. intros He.
    assert (b = c) as ->; [|by rewrite HP in HPb].
    apply (proj1 (Hids c b Hc Hb0)). apply orb_true_iff. left. by apply bool_decide_eq_true.
Qed.

Lemma lvol_DeleteVolume_swp :
  swp spdk_step delete_inv (DeleteVolume devicePath deviceName vol identity) w0 deleted.
Proof.
  assert (delete_inv w0) as Hi0 by (split_and!; done). unfold DeleteVolume.
  apply listStores_swp; [done|intros; by apply swp_ret|].
  apply listBdevs_swp; [done|intros; by apply swp_ret|].
  destruct (resolveLvolForDeletion _ _ _) as [[c|]|] eqn:Er; [| |by apply swp_ret].
  2:{ apply swp_ret; [done|]. intros _. by apply resolve_none in Er as [_ ?]. }
  apply resolve_some in Er as [Hc HP].
  destruct (validateLvolOwnership _ _ _); [by apply swp_ret|].
  assert (∀ w, w = w0 ∨ rpc_effect ["bdev_lvol_delete"; bdev_Name c] w0 w → delete_inv w) as Hinv.
  { intros w [->|(_ & _ & _ & Hrm)]; [done|]. eapply removed_inv; [done| |by apply Hrm]. intros P HPin. by apply HP. }
  assert (∀ w de, delete_inv w → swp spdk_step delete_inv
    (let! r := listSPDKBdevs in
     match r with
     | inr err => Ret (Some (Wrap "verify SPDK lvol absence after deletion" err))
     | inl bdevs =>
       match resolveLvolForDeletion bdevs vol identity with
       | inr err => Ret (Some err)
       | inl (Some _) => Ret (Some (match de with Some e => Wrap "delete SPDK lvol" e
                                    | None => Errorf "SPDK lvol still exists after deletion" end))
       | inl None => Ret None
       end
     end) w deleted) as Hafter.
  { intros w de Hi. apply listBdevs_swp; [done|intros; by apply swp_ret|].
    destruct (resolveLvolForDeletion _ _ _) as [[c'|]|] eqn:Er; [by apply swp_ret| |by apply swp_ret].
    apply swp_ret; [done|]. intros _. by apply resolve_none in Er as [_ ?]. }
  apply CallSPDKRPC_swp; [done..| |].
  - intros w Hw. specialize (Hinv w Hw). split; [done|]. intros e. exact (Hafter _ (Some e) Hinv).
  - intros w Hw. exact (Hafter _ None (Hinv _ (or_intror Hw))).
Qed.

End Delete.

(** ** The life of a volume *)

(** A volume that is created and then deleted by its identity. *)
Definition createThenDelete (devicePath deviceName vol : string) (sizeBytes : Z) : host (option error) :=
  let! r := CreateVolume devicePath deviceName vol sizeBytes in
  match r with
  | inr err => Ret (Some err)
  | inl identity => DeleteVolume devicePath deviceName vol identity
  end.

Lemma resolve_preds bs vol id b : resolveLvolForDeletion bs vol id = inl (Some b) → ∃ P, P ∈ selectorPreds vol id.
Proof.
  unfold resolveLvolForDeletion, selectors. destruct (selectorPreds vol id) as [|P Ps]; [done|].
  intros _. exists P. by apply list_elem_of_here.
Qed.

Section Life.
Variables (devicePath deviceName vol : string) (sizeBytes : Z) (w0 : spdk).
Hypothesis w0_ok : spdk_ok w0.

(** The bdevs of the volume. *)
Definition belongs (b : spdkBdev) : Prop := ∃ alias, aliasOf deviceName vol w0 alias ∧ hasAlias alias b = true.

Definition life_inv (w : spdk) : Prop :=
  spdk_ok w ∧ stores w = stores w0 ∧ ∀ b, ¬ belongs b → b ∈ bdevs w ↔ b ∈ bdevs w0.

Lemma create_life w : create_inv deviceName vol w0 w → life_inv w.
Proof.
  intros (? & ? & Hin & Hnew & _). split_and!; [done..|]. intros b Hb. split; [|by apply Hin]. intros Hbw.
  destruct (decide (b ∈ bdevs w0)) as [|Hn]; [done|]. by destruct Hb; apply Hnew.
Qed.

Lemma lvol_createThenDelete_swp :
  swp spdk_step life_inv (createThenDelete devicePath deviceName vol sizeBytes) w0
    (λ r w, r = None → ∀ b, b ∈ bdevs w ↔ b ∈ bdevs w0 ∧ ¬ belongs b).
Proof.
  unfold createThenDelete. apply swp_bind. eapply swp_mono; [|eapply swp_weaken; [apply create_life|by apply lvol_CreateVolume_swp]].
  intros [id|e] w1 (Hok1 & Hs1 & Ho1) Hc; [|by apply swp_ret].
  destruct Hc as (b & size & Hb & Hal & Huniq & _ & _ & _ & _ & Hres).
  destruct (resolve_preds _ _ _ _ Hres) as [P HP]. apply resolve_some in Hres as [_ Hsel].
  assert (belongs b) as Hbb by (exists (Plugins.BackendVolumeID id); split; [done|by apply Huniq]).
  assert (∀ c, c ∈ bdevs w1 → belongs c → c = b) as Honly.
  { intros c Hc1 (alias & (store & Hst & ->) & Ha). destruct Hal as (store' & Hst' & He). apply Huniq; [done|]. rewrite He.
    rewrite Hst in Hst'. by injection Hst' as <-. }
  assert (∀ w, delete_inv vol id w1 w → ∀ c, ¬ belongs c → c ∈ bdevs w ↔ c ∈ bdevs w0) as Hframe.
  { intros w (_ & _ & Hsub & Hkeep) c Hc. rewrite <- (Ho1 c Hc). split; [apply Hsub|]. intros Hc1.
    apply (Hkeep c P Hc1 HP). destruct (P c) eqn:E; [|done]. by rewrite (proj2 (Hsel P HP) c Hc1 E) in Hc. }
  eapply swp_weaken; [|eapply swp_mono; [|by apply (lvol_DeleteVolume_swp devicePath deviceName vol id w1)]].
  - intros w Hi. pose proof (Hframe w Hi). destruct Hi as (? & Hs & _). split_and!; [done|congruence|done].
  - intros r w Hi Hdel Hr c. specialize (Hdel Hr P). split; [|intros []; by apply (Hframe w Hi)].
    intros Hc. assert (¬ belongs c) as Hn; [|split; [|done]; by apply (Hframe w Hi)].
    intros Hbc. destruct Hi as (_ & _ & Hsub & _). apply Honly in Hbc; [|by apply Hsub]. subst c.
    destruct (Hsel P HP) as [Ht _]. by rewrite (Hdel b HP Hc) in Ht.
Qed.

End Life.

End Spdk.

(** In every state of every run of CreateVolume on a target whose names and
    UUIDs identify its bdevs, through RPC failures of any kind, no logical volume
    goes away or changes, nothing but a bdev of this volume is added, and nothing
    at all when there is one; when a volume is returned, its alias belongs to
    exactly one bdev, of exactly the requested size rounded up to allocation units,
    and that bdev is the one DeleteVolume would select for the identity. *)
Theorem lvol_create_correct `{Quoting} `{Unmarshal (list spdkLvstore)} `{Unmarshal (list spdkBdev)} `{Unmarshal string}
    devicePath deviceName vol sizeBytes w0 q w :
  spdk_ok w0 →
  reaches spdk_step (CreateVolume devicePath deviceName vol sizeBytes) w0 q w →
  create_inv deviceName vol w0 w ∧ ∀ r, q = Ret r → created deviceName vol sizeBytes w0 r w.
Proof.
  intros Hok Hr. exact (swp_sound _ _ _ _ _ _ _ (lvol_CreateVolume_swp devicePath deviceName vol sizeBytes w0 Hok) Hr).
Qed.

(** C28: a logical volume that was created and then deleted by the identity its
    creation returned is gone, and nothing else: when both succeed the target has
    exactly the bdevs it had that do not belong to the volume, which no state on
    the way disturbs. *)
Theorem lvol_create_delete `{Quoting} `{Unmarshal (list spdkLvstore)} `{Unmarshal (list spdkBdev)} `{Unmarshal string}
    devicePath deviceName vol sizeBytes w0 q w :
  spdk_ok w0 →
  reaches spdk_step (createThenDelete devicePath deviceName vol sizeBytes) w0 q w →
  spdk_ok w ∧ (∀ b, ¬ belongs deviceName vol w0 b → b ∈ bdevs w ↔ b ∈ bdevs w0) ∧
  (q = Ret None → ∀ b, b ∈ bdevs w ↔ b ∈ bdevs w0 ∧ ¬ belongs deviceName vol w0 b).
Proof.
  intros Hok Hr. destruct (swp_sound _ _ _ _ _ _ _ (lvol_createThenDelete_swp devicePath deviceName vol sizeBytes w0 Hok) Hr)
    as [(? & _ & ?) HQ]. split_and!; [done..|]. intros Hq. by apply (HQ None Hq).
Qed.

(** ** A target *)

Module Example.

Definition store : spdkLvstore := {| store_UUID := "su"; store_Name := "lvs_disk0"; store_BaseBdev := "disk0" |}.
Definition other : spdkBdev :=
  {| bdev_Name := "b1"; bdev_UUID := "b1"; bdev_Aliases := ["lvs_disk0/other"]; bdev_BlockSize := 4096;
     bdev_NumBlocks := 1024; bdev_LvolStoreUUID := Some "su" |}.
Definition mine : spdkBdev :=
  {| bdev_Name := "b2"; bdev_UUID := "b2"; bdev_Aliases := ["lvs_disk0/v"]; bdev_BlockSize := 4096;
     bdev_NumBlocks := 1024; bdev_LvolStoreUUID := Some "su" |}.
Definition target0 : spdk := {| stores := [store]; bdevs := [other] |}.
Definition target1 : spdk := {| stores := [store]; bdevs := [other; mine] |}.

#[local] Instance quoting : Quoting := λ s, s.
#[local] Instance decode_stores : Unmarshal (list spdkLvstore) := λ _, inl [store].
#[local] Instance decode_bdevs : Unmarshal (list spdkBdev) := λ s, inl (if s ==? "[1" then [other; mine] else [other]).
#[local] Instance decode_string : Unmarshal string := λ s, inl s.

Lemma target_ok (l : list spdkBdev) : l = [other] ∨ l = [other; mine] → spdk_ok {| stores := [store]; bdevs := l |}.
Proof.
  intros Hl. split_and!; simpl.
  - by destruct Hl as [-> | ->]; repeat constructor.
  - destruct Hl as [-> | ->]; apply (bool_decide_eq_true (NoDup _)); vm_compute; reflexivity.
  - assert (∀ b, b ∈ l → b = other ∨ b = mine) as Hin.
    { intros b. destruct Hl as [-> | ->]; rewrite !elem_of_cons, elem_of_nil; tauto. }
    intros b c [-> | ->]%Hin [-> | ->]%Hin; vm_compute; split; done.
Qed.

Lemma stores_run w : stores w = [store] → reaches spdk_step listSPDKLvstores w (Ret (inl [store])) w.
Proof.
  intros Hs. eapply reaches_bind; [apply (CallSPDKRPCInto_run _ _ _ _ _ "[" [store])|apply reaches_refl]; [..|done].
  - by split_and!.
  - split_and!; [by rewrite Hs|done..].
Qed.

Lemma bdevs_run w out : unmarshal (rpcOutput out) = inl (bdevs w) →
  reaches spdk_step listSPDKBdevs w (Ret (inl (bdevs w))) w.
Proof.
  intros Ho. eapply reaches_bind; [apply (CallSPDKRPCInto_run _ _ _ _ _ out (bdevs w))|apply reaches_refl]; [..|done]; by split_and!.
Qed.

Definition identity : Plugins.VolumeIdentity :=
  {| Plugins.BackendVolumeID := "lvs_disk0/v"; Plugins.CapacityBytes := 4194304; Plugins.BaseBdev := "disk0";
     Plugins.VolumeStoreName := "lvs_disk0"; Plugins.VolumeStoreUUID := "su"; Plugins.VolumeName := "v";
     Plugins.VolumeUUID := "b2" |}.

Lemma lvol_create_run : reaches spdk_step (CreateVolume "" "disk0" "v" 4000000) target0 (Ret (inl identity)) target1.
Proof.
  unfold CreateVolume. assert (RoundUp 4000000 = inl 4194304) as -> by (vm_compute; reflexivity).
  eapply reaches_bind; [by apply stores_run|]. cbn beta iota.
  assert (lvstoreForBaseBdev [store] "disk0" = inl store) as -> by (vm_compute; reflexivity).
  eapply reaches_bind; [by apply (bdevs_run target0 "[")|]. cbn beta iota.
  assert (findCreatedLvol (bdevs target0) (store_Name store +:+ "/" +:+ "v") "" = inr (Errorf "want exactly one SPDK lvol bdev for the alias and UUID"))
    as -> by (vm_compute; reflexivity).
  assert ((1 <? length (matchingBdevs (bdevs target0) (hasAlias (store_Name store +:+ "/" +:+ "v"))))%nat = false) as -> by (vm_compute; reflexivity).
  eapply reaches_bind; [apply (CallSPDKRPCInto_run _ _ _ _ _ "b2" "b2" target0 target1); [..|done]|].
  - split_and!; [done|done| |done]. intros st vol mb [= <- <- _]. split_and!; [done|by apply target_ok; right| |].
    + by intros b ->%list_elem_of_singleton.
    + exists mine. split; [done|apply perm_swap].
  - split_and!; [done|done|]. intros st vol mb uuid [= <- <- _] [= <-] _. exists mine. split_and!; [by right; left|done|done].
  - eapply reaches_bind; [by apply (bdevs_run target1 "[1")|]. apply reaches_refl.
Qed.

Lemma lvol_create_delete_run : reaches spdk_step (createThenDelete "" "disk0" "v" 4000000) target0 (Ret None) target0.
Proof.
  unfold createThenDelete. eapply reaches_bind; [apply lvol_create_run|]. unfold DeleteVolume.
  eapply reaches_bind; [by apply stores_run|]. eapply reaches_bind; [by apply (bdevs_run target1 "[1")|]. cbn beta iota.
  assert (resolveLvolForDeletion (bdevs target1) "v" identity = inl (Some mine)) as -> by (vm_compute; reflexivity).
  assert (validateLvolOwnership mine [store] identity = None) as -> by (vm_compute; reflexivity).
  eapply reaches_bind; [apply (CallSPDKRPC_run _ _ _ _ _ "" target1 target0)|].
  - split_and!; [done..|]. by intros n [= <-].
  - by split_and!.
  - eapply reaches_bind; [by apply (bdevs_run target0 "[")|]. apply reaches_refl.
Qed.

End Example.

Lemma lvol_create_correct_witness : ∃ b, b ∈ bdevs Example.target1 ∧ bdev_BlockSize b * bdev_NumBlocks b = 4194304.
Proof.
  destruct (@lvol_create_correct Example.quoting Example.decode_stores Example.decode_bdevs Example.decode_string
    "" "disk0" "v" 4000000 Example.target0 _ _ (Example.target_ok _ (or_introl eq_refl)) Example.lvol_create_run) as [_ H].
  destruct (H _ eq_refl) as (b & size & Hb & _ & _ & Hr & Hs & _). exists b. split; [exact Hb|].
  assert (RoundUp 4000000 = inl 4194304) as E by (vm_compute; reflexivity). rewrite E in Hr. congruence.
Defined.

Lemma lvol_create_delete_witness : Example.mine ∈ bdevs Example.target0 ↔
  Example.mine ∈ bdevs Example.target0 ∧ ¬ belongs "disk0" "v" Example.target0 Example.mine.
Proof.
  exact (proj2 (proj2 (@lvol_create_delete Example.quoting Example.decode_stores Example.decode_bdevs Example.decode_string
    "" "disk0" "v" 4000000 Example.target0 _ _ (Example.target_ok _ (or_introl eq_refl)) Example.lvol_create_delete_run)) eq_refl Example.mine).
Defined.
