(* ===== verification/SpdkBackend.v ===== *)
(** * The SPDK target backend

    Models src/internal/agent/plugins/backend_spdk.go.  The mutexes of the file
    protect one call against another; the model of a function is its critical
    section.  The variable spdkManagedExit is the operations [ManagedTarget] and
    [SetManagedTarget], a receive from its channel [TargetExited]. *)

From S2P Require Import Prelude GoStrings GoPath Encoding Capacity ApiTypes Identity Options Prog Kube Host Plugins Lvol.

Module Spdk.

Record spdkProcessState := { running : bool; coreMask : string }.

Definition backendName : string := "spdk".

Definition processMask (mask : string) : result string :=
  match canonicalSPDKCoreMask mask with
  | inl canonical => Ok canonical
  | inr err => Err (Wrap "nvmf_tgt process has invalid core mask" err)
  end.

(** The core mask on the command line of a process. *)
Fixpoint commandLineMask (args : list string) : result string :=
  match args with
  | [] => Err (Errorf "running nvmf_tgt process has no verifiable core mask")
  | arg :: rest =>
    if (arg ==? "-m") || (arg ==? "--cpumask") then
      match rest with
      | [] => Err (Errorf "nvmf_tgt process has an option without a value")
      | mask :: _ => processMask mask
      end
    else
      match CutPrefix arg "--cpumask=" with
      | Some mask => processMask mask
      | None => commandLineMask rest
      end
  end.

Definition nul : ascii := Ascii.ascii_of_nat 0.

Definition inspectRunningSPDKProcess : host (result spdkProcessState) :=
  let! x := command "pidof" ["nvmf_tgt"] in
  match x with
  | (_, Some (ExitErr 1)) => Ret (Ok {| running := false; coreMask := "" |})
  | (_, Some err) => Ret (Err (Wrap "inspect running nvmf_tgt process" err))
  | (output, None) =>
    match Fields output with
    | [pid] =>
      let! c := hcall (ReadFile (filepath_Join ["/proc"; pid; "cmdline"])) in
      match c with
      | inr err => Ret (Err (Wrap "read nvmf_tgt process command line" err))
      | inl commandLine =>
        match commandLineMask (Split nul (TrimRightByte nul commandLine)) with
        | inr err => Ret (Err err)
        | inl canonical => Ret (Ok {| running := true; coreMask := canonical |})
        end
      end
    | _ => Ret (Err (Errorf "expected one running nvmf_tgt process"))
    end
  end.

Definition stopManagedSPDKProcess : host (option error) :=
  let! k := hcall KillTarget in
  let! reaped := hcall ReapTarget in
  hcall (SetManagedTarget false) ;;;
  Ret (errors_Join
    ((match k with
      | Some err => if err ==? ErrProcessDone then [] else [Wrap "kill nvmf_tgt after initialization failure" err]
      | None => []
      end) ++
     (if reaped then [] else [Errorf "timed out reaping nvmf_tgt after initialization failure"]))).

Definition raiseMemlockLimit : host (option error) :=
  let! r := hcall Rlimit in
  match r with
  | inr err => Ret (Some err)
  | inl (cur, max) => if cur =? max then Ret None else hcall (SetRlimit max)
  end.

Definition positiveUint (bits : Z) (value : string) : bool :=
  match ParseUint value 10 with Some v => negb (v =? 0) && (v <? 2 ^ bits) | None => false end.

(** The arguments, and whether the pools are configured. *)
Definition spdkIobufPoolArgs : host (result (list string * bool)) :=
  let! small := hcall (Getenv "SPDK_IOBUF_SMALL_POOL_COUNT") in
  let! large := hcall (Getenv "SPDK_IOBUF_LARGE_POOL_COUNT") in
  if (small ==? "") && (large ==? "") then Ret (Ok ([], false))
  else if (small ==? "") || (large ==? "") then Ret (Err (Errorf "the pool counts must be set together"))
  else if negb (positiveUint 64 small) || negb (positiveUint 64 large)
  then Ret (Err (Errorf "a pool count must be a positive integer"))
  else Ret (Ok (["--small-pool-count"; small; "--large-pool-count"; large], true)).

Definition spdkNVMfTransportArgs : host (result (list string)) :=
  let args := ["-t"; "RDMA"; "-u"; "8192"; "-i"; "131072"; "-c"; "8192"] in
  let! maxSRQDepth := hcall (Getenv "SPDK_NVMF_MAX_SRQ_DEPTH") in
  if maxSRQDepth ==? "" then Ret (Ok args)
  else if negb (positiveUint 32 maxSRQDepth)
  then Ret (Err (Errorf "SPDK_NVMF_MAX_SRQ_DEPTH must be a positive integer"))
  else Ret (Ok (args ++ ["-s"; maxSRQDepth])).

Definition setupEnv (pciAddress : string) : list string := ["FORCE=1"; "PCI_ALLOWED=" +:+ pciAddress].

(** Binding a device to the user-space driver, at most five times. *)
Definition runSPDKSetup (pciAddress : string) : host (option error) :=
  let! r := for_each (seq 1 5) tt (λ _ _,
    let! x := hcall (Exec (setupEnv pciAddress) "/opt/spdk/scripts/setup.sh" []) in
    match x with
    | (_, None) => Ret (inr None)
    | (out, Some err) =>
      let! c := ctxErr in
      match c with
      | Some e => Ret (inr (Some (Wrap "spdk_setup.sh interrupted" (CtxError e))))
      | None =>
        let! w := hcall SelectOp in
        match w with
        | CtxDone e => Ret (inr (Some (Wrap "spdk_setup.sh interrupted" (CtxError e))))
        | _ => Ret (inl tt)
        end
      end
    end) in
  match r with
  | inl _ => Ret (Some (Errorf "spdk_setup.sh failed after 5 attempts"))
  | inr res => Ret res
  end.

Definition ResetSPDKDevice (pciAddress : string) : host (option error) :=
  let! x := hcall (Exec (setupEnv pciAddress) "/opt/spdk/scripts/setup.sh" ["reset"]) in
  match x with
  | (_, Some err) => Ret (Some (Errorf "spdk_setup.sh reset failed"))
  | (_, None) => Ret None
  end.

Record controller := { controller_Name : string }.
Record transport := { transport_Trtype : string }.

(** A subsystem as nvmf_get_subsystems shows it; the functions of the file
    decode the fields they use. *)
Record namespace := { ns_Name : string; ns_BdevName : string }.
Record listener := { Trtype : string; Traddr : string; Trsvcid : string }.
Record spdkSubsystem := {
  ss_NQN : string;
  ss_AllowAnyHost : bool;
  ss_Hosts : list string;
  ss_Namespaces : list namespace;
  ss_ListenAddresses : list listener
}.

Inductive spdkExportState :=
  | spdkExportHealthy | spdkExportMissing | spdkExportMismatch | spdkExportObservationUnavailable.

Section Backend.
Context `{Quoting} `{Unmarshal (list string)} `{Unmarshal (list controller)} `{Unmarshal (list transport)}
  `{Unmarshal (list spdkSubsystem)} `{Unmarshal (list Lvol.spdkBdev)}.

(** Readiness of the RPC service, at most thirty attempts; the last error is the
    cause of the failure. *)
Definition waitForSPDKRPC : host (option error) :=
  let! r := for_each (seq 1 30) None (λ _ (lastErr : option error),
    let! m := CallSPDKRPCInto (A := list string) "rpc_get_methods" [] in
    match m with
    | inl _ => Ret (inr None)
    | inr err =>
      let! w := hcall SelectOp in
      match w with
      | CtxDone e => Ret (inr (Some (Wrap "waiting for nvmf_tgt JSON-RPC readiness" (CtxError e))))
      | _ => Ret (inl (Some err))
      end
    end) in
  match r with
  | inl (Some lastErr) => Ret (Some (Wrap "nvmf_tgt JSON-RPC was not ready after 30 seconds" lastErr))
  | inl None => Ret (Some (Errorf "nvmf_tgt JSON-RPC was not ready after 30 seconds"))
  | inr res => Ret res
  end.

Definition failStart (initializationErr : error) : host (option error) :=
  let! cleanupErr := stopManagedSPDKProcess in
  Ret (errors_Join (initializationErr :: match cleanupErr with Some e => [e] | None => [] end)).

(** The initialization of a target that was started to wait for its pools. *)
Definition configurePools (iobufArgs : list string) : host (option error) :=
  let! r := waitForSPDKRPC in
  match r with
  | Some err => Ret (Some err)
  | None =>
    let! r := CallSPDKRPC "iobuf_set_options" iobufArgs in
    match r with
    | Some err => Ret (Some (Wrap "failed to configure SPDK iobuf pools" err))
    | None =>
      let! r := CallSPDKRPC "framework_start_init" [] in
      match r with
      | Some err => Ret (Some (Wrap "failed to start SPDK framework initialization" err))
      | None =>
        let! r := CallSPDKRPC "framework_wait_init" [] in
        match r with
        | Some err => Ret (Some (Wrap "SPDK framework initialization failed" err))
        | None => Ret None
        end
      end
    end
  end.

Definition startSPDK (requestedMask : string) : host (option error) :=
  let! r := spdkIobufPoolArgs in
  match r with
  | inr err => Ret (Some err)
  | inl (iobufArgs, configureIobufPools) =>
    let args := ["-m"; requestedMask] ++ (if configureIobufPools : bool then ["--wait-for-rpc"] else []) in
    let! r := raiseMemlockLimit in
    match r with
    | Some err => Ret (Some (Wrap "prepare nvmf_tgt process limits" err))
    | None =>
      let! r := hcall (StartTarget args) in
      match r with
      | Some err => Ret (Some (Errorf "failed to start nvmf_tgt"))
      | None =>
        hcall (SetManagedTarget true) ;;;
        let! r := if configureIobufPools then configurePools iobufArgs else Ret None in
        match r with
        | Some err => failStart err
        | None =>
          let! r := waitForSPDKRPC in
          match r with Some err => failStart err | None => Ret None end
        end
      end
    end
  end.

Definition EnsureSPDKRunning (mask : string) : host (option error) :=
  match canonicalSPDKCoreMask mask with
  | inr err => Ret (Some err)
  | inl requestedMask =>
    let! managed := hcall ManagedTarget in
    let! _ :=
      if managed : bool then
        let! exited := hcall TargetExited in
        if exited : bool then hcall (SetManagedTarget false) else Ret tt
      else Ret tt in
    let! p := inspectRunningSPDKProcess in
    match p with
    | inr err => Ret (Some err)
    | inl process =>
      if running process then
        if coreMask process !=? requestedMask then Ret (Some (Errorf "running nvmf_tgt uses another core mask"))
        else waitForSPDKRPC
      else startSPDK requestedMask
    end
  end.

Definition isNVMeControllerAttached (deviceName : string) : host (result bool) :=
  let!? controllers := CallSPDKRPCInto (A := list controller) "bdev_nvme_get_controllers" [] in
  Ret (Ok (existsb (λ c, controller_Name c ==? deviceName) controllers)).

Definition attached (r : result bool) : bool := match r with inl b => b | inr _ => false end.

Definition SetupDevice (pciAddress deviceName : string) (options : gmap string string) : host (option error) :=
  match Validate backendName (map_to_list options) with
  | Some err => Ret (Some err)
  | None =>
    let! r := EnsureSPDKRunning (default "" (options !! SPDKCoreMaskOption)) in
    match r with
    | Some err => Ret (Some err)
    | None =>
      let! a := isNVMeControllerAttached deviceName in
      if attached a then Ret None
      else
        let! a := isNVMeControllerAttached deviceName in
        if attached a then Ret None
        else
          command "modprobe" ["uio_pci_generic"] ;;;
          let! r := runSPDKSetup pciAddress in
          match r with
          | Some err => Ret (Some err)
          | None =>
            let! r := CallSPDKRPC "bdev_nvme_attach_controller" ["-b"; deviceName; "-t"; "PCIe"; "-a"; pciAddress] in
            match r with
            | None => Ret None
            | Some err =>
              let! a := isNVMeControllerAttached deviceName in
              if attached a then Ret None else Ret (Some (Wrap "failed to attach NVMe to SPDK" err))
            end
          end
    end
  end.

Definition EnsureNVMeTransport : host (option error) :=
  let! r := spdkNVMfTransportArgs in
  match r with
  | inr err => Ret (Some err)
  | inl args =>
    let! t := CallSPDKRPCInto (A := list transport) "nvmf_get_transports" [] in
    match t with
    | inr err => Ret (Some (Wrap "failed to list SPDK NVMe-oF transports" err))
    | inl transports =>
      if existsb (λ t, EqualFold (transport_Trtype t) "RDMA") transports then Ret None
      else
        let! r := CallSPDKRPC "nvmf_create_transport" args in
        match r with
        | Some err => Ret (Some (Wrap "failed to create SPDK RDMA transport" err))
        | None => Ret None
        end
    end
  end.

(** The names of the backing bdev, and whether it was found. *)
Definition spdkBdevIdentities (blockPath : string) : host (result (gset string * bool)) :=
  let! r := CallSPDKRPCInto (A := list Lvol.spdkBdev) "bdev_get_bdevs" ["-b"; blockPath] in
  match r with
  | inr err => Ret (Err (Wrap "resolve SPDK backing bdev" err))
  | inl [] => Ret (Ok (∅, false))
  | inl bdevs =>
    let names := mjoin ((λ b, Lvol.bdev_Name b :: Lvol.bdev_UUID b :: Lvol.bdev_Aliases b) <$> bdevs) in
    Ret (Ok (list_to_set (blockPath :: names) ∖ {[""]}, true))
  end.

Fixpoint findNQN (nqn : string) (subsystems : list spdkSubsystem) : option spdkSubsystem :=
  match subsystems with
  | [] => None
  | s :: subsystems => if ss_NQN s ==? nqn then Some s else findNQN nqn subsystems
  end.

Definition findSubsystem (nqn : string) : host (result (option spdkSubsystem)) :=
  let!? subsystems := CallSPDKRPCInto (A := list spdkSubsystem) "nvmf_get_subsystems" [] in
  Ret (Ok (findNQN nqn subsystems)).

Definition namespaceMatches (identities : gset string) (s : spdkSubsystem) : bool :=
  existsb (λ n, bool_decide (ns_Name n ∈ identities) || bool_decide (ns_BdevName n ∈ identities)) (ss_Namespaces s).

Definition listenerMatches (portalIP : string) (portalPort : Z) (s : spdkSubsystem) : bool :=
  existsb (λ l, EqualFold (Trtype l) "RDMA" && (Traddr l ==? portalIP) && (Trsvcid l ==? Itoa portalPort))
    (ss_ListenAddresses s).

(** The detail is the error of a state other than healthy. *)
Definition inspectExport (nqn blockPath portalIP : string) (portalPort : Z) (options : gmap string string)
    : host (spdkExportState * error) :=
  let unavailable err := Ret (spdkExportObservationUnavailable, err) in
  let! r := EnsureSPDKRunning (default "" (options !! SPDKCoreMaskOption)) in
  match r with
  | Some err => unavailable err
  | None =>
    let! s := findSubsystem nqn in
    match s with
    | inr err => unavailable (Wrap "list SPDK subsystems" err)
    | inl None => Ret (spdkExportMissing, Errorf "SPDK subsystem is missing")
    | inl (Some subsystem) =>
      let! b := spdkBdevIdentities blockPath in
      match b with
      | inr err => unavailable err
      | inl (_, false) => Ret (spdkExportMismatch, Errorf "SPDK backing bdev is missing")
      | inl (identities, true) =>
        if negb (namespaceMatches identities subsystem)
        then Ret (spdkExportMismatch, Errorf "SPDK subsystem does not use the backing bdev")
        else if negb (listenerMatches portalIP portalPort subsystem)
        then Ret (spdkExportMismatch, Errorf "SPDK subsystem has no RDMA listener on the portal")
        else Ret (spdkExportHealthy, Errorf "")
      end
    end
  end.

Definition CheckExport (nqn blockPath portalIP : string) (portalPort : Z) (options : gmap string string)
    : host (option error) :=
  let! i := inspectExport nqn blockPath portalIP portalPort options in
  match i with
  | (spdkExportHealthy, _) => Ret None
  | (spdkExportObservationUnavailable, detail) => Ret (Some (ObservationErr detail))
  | (_, detail) => Ret (Some detail)
  end.

(** A step of the creation of an export: on failure the subsystem is deleted. *)
Definition orDelete (nqn msg : string) (r : option error) (k : host (result string)) : host (result string) :=
  match r with
  | None => k
  | Some err => CallSPDKRPC "nvmf_delete_subsystem" [nqn] ;;; Ret (Err (Wrap msg err))
  end.

Definition createExport (nqn blockPath portalIP : string) (portalPort : Z) : host (result string) :=
  check! EnsureNVMeTransport in
  let! r := CallSPDKRPC "nvmf_create_subsystem" [nqn; "-s"; "distort"] in
  match r with
  | Some err => Ret (Err (Wrap "failed to create SPDK subsystem" err))
  | None =>
    let! r := CallSPDKRPC "nvmf_subsystem_add_ns" [nqn; blockPath] in
    orDelete nqn "failed to add namespace to subsystem" r (
      let! r := CallSPDKRPC "nvmf_subsystem_add_listener" [nqn; "-t"; "RDMA"; "-a"; portalIP; "-s"; Itoa portalPort] in
      orDelete nqn "failed to add RDMA listener to subsystem" r (Ret (Ok nqn)))
  end.

Definition ExportVolume (volumeName blockPath portalIP : string) (portalPort : Z) (options : gmap string string)
    : host (result string) :=
  let nqn := VolumeIdentity.NQN volumeName in
  let! i := inspectExport nqn blockPath portalIP portalPort options in
  match i with
  | (spdkExportHealthy, _) => Ret (Ok nqn)
  | (spdkExportObservationUnavailable, detail) => Ret (Err (ObservationErr detail))
  | (spdkExportMismatch, _) =>
    let! r := CallSPDKRPC "nvmf_delete_subsystem" [nqn] in
    match r with
    | Some err => Ret (Err (Wrap "replace unhealthy SPDK subsystem" err))
    | None => createExport nqn blockPath portalIP portalPort
    end
  | (spdkExportMissing, _) => createExport nqn blockPath portalIP portalPort
  end.

(** Whether the hosts of a subsystem are the requested ones already. *)
Definition accessExact (allowAny : bool) (hosts : list string) (hostNQN : string) : bool :=
  negb allowAny && (if hostNQN ==? "" then hosts ==? [] else hosts ==? [hostNQN]).

Definition ReconcileHostAccess (nqn hostNQN : string) : host (option error) :=
  let! c := ctxErr in
  match c with
  | Some e => Ret (Some (CtxError e))
  | None =>
    let! r := CallSPDKRPCInto (A := list spdkSubsystem) "nvmf_get_subsystems" [] in
    match r with
    | inr err => Ret (Some (Wrap "list SPDK subsystems before reconciling host access" err))
    | inl subsystems =>
      match findNQN nqn subsystems with
      | None => Ret (Some (Errorf "SPDK subsystem does not exist"))
      | Some current =>
        if accessExact (ss_AllowAnyHost current) (ss_Hosts current) hostNQN then Ret None
        else
          let! r := if ss_AllowAnyHost current
                    then CallSPDKRPC "nvmf_subsystem_allow_any_host" [nqn; "-d"] else Ret None in
          match r with
          | Some err => Ret (Some (Wrap "disable unrestricted host access" err))
          | None =>
            let! r := for_each (ss_Hosts current) tt (λ h _,
              let! c := ctxErr in
              match c with
              | Some e => Ret (inr (CtxError e))
              | None =>
                let! r := CallSPDKRPC "nvmf_subsystem_remove_host" [nqn; h] in
                match r with
                | Some err => Ret (inr (Wrap "disconnect and remove stale host" err))
                | None => Ret (inl tt)
                end
              end) in
            match r with
            | inr err => Ret (Some err)
            | inl _ =>
              if hostNQN !=? "" then
                let! r := CallSPDKRPC "nvmf_subsystem_add_host" [nqn; hostNQN] in
                match r with
                | Some err => Ret (Some (Wrap "authorize host" err))
                | None => Ret None
                end
              else Ret None
            end
          end
      end
    end
  end.

Definition subsystemExists (nqn : string) : host (result bool) :=
  let! r := CallSPDKRPCInto (A := list spdkSubsystem) "nvmf_get_subsystems" [] in
  match r with
  | inr err => Ret (Err (Wrap "failed to list SPDK NVMe-oF subsystems" err))
  | inl subsystems => Ret (Ok (existsb (λ s, ss_NQN s ==? nqn) subsystems))
  end.

Definition UnexportVolume (nqn : string) : host (option error) :=
  let! r := subsystemExists nqn in
  match r with
  | inr err => Ret (Some err)
  | inl false => Ret None
  | inl true =>
    let! deleteErr := CallSPDKRPC "nvmf_delete_subsystem" [nqn] in
    let! r := subsystemExists nqn in
    match r with
    | inr err => Ret (Some (Wrap "verify SPDK subsystem absence" err))
    | inl false => Ret None
    | inl true =>
      Ret (Some (match deleteErr with
                 | Some e => Wrap "failed to delete SPDK subsystem" e
                 | None => Errorf "SPDK subsystem still exists after deletion"
                 end))
    end
  end.

End Backend.

End Spdk.
