(* ===== verification/KernelBackend.v ===== *)
(** * The kernel target backend

    Models src/internal/agent/plugins/backend_kernel.go, which drives the NVMe
    target of Linux through its configfs tree.  Where Go ranges over a map of
    expected values, the model reads them in the order they are written down;
    the loops only read, and stop at the first difference. *)

From S2P Require Import Prelude GoStrings GoPath Encoding Capacity ApiTypes Identity Options RdmaHealth Prog Kube Host Plugins Lvol SpdkBackend.

Module Kernel.

Definition backendName : string := "kernel".
Definition nvmetPath : string := "/sys/kernel/config/nvmet".
Definition kernelPortID : string := "1".

Definition SetupDevice (pciAddress deviceName : string) (options : gmap string string) : host (option error) :=
  match Validate backendName (map_to_list options) with
  | Some err => Ret (Some err)
  | None =>
    let! r := Spdk.ResetSPDKDevice pciAddress in
    match r with
    | Some err => Ret (Some (Wrap "bind device to kernel NVMe driver" err))
    | None => Ret None
    end
  end.

Definition mountRow (target line : string) : bool :=
  match Fields line !! 4%nat with
  | Some field => Clean field ==? target
  | None => false
  end.

Definition isMountPoint (target : string) : host bool :=
  let target := Clean target in
  let! r := hcall (ReadFile "/proc/self/mountinfo") in
  let! r := match r with inl data => Ret (Ok data) | inr _ => hcall (ReadFile "/proc/mounts") end in
  match r with
  | inr _ => Ret false
  | inl data => Ret (existsb (mountRow target) (Split (Ascii.ascii_of_nat 10) data))
  end.

Definition kernelAddressFamily (portalIP : string) : result string :=
  match ParseUsableIP portalIP with
  | inr err => Err (Wrap "invalid kernel NVMe-oF portal IP" err)
  | inl ip => Ok (match Net.To4 ip with Some _ => "ipv4" | None => "ipv6" end)
  end.

Definition configValue (path : string) : host (result string) :=
  let!? value := hcall (ReadFile path) in Ret (Ok (TrimSpace value)).

Definition configValueMatches (path expected : string) : host bool :=
  let! actual := configValue path in
  Ret (match actual with inl v => v ==? expected | inr _ => false end).

Definition kernelLinkMatches (linkPath subsystemPath : string) : host bool :=
  let! r := hcall (Readlink linkPath) in
  match r with
  | inr _ => Ret false
  | inl target =>
    let target := if IsAbs target then target else filepath_Join [Dir linkPath; target] in
    Ret (Clean target ==? Clean subsystemPath)
  end.

Definition createLink (linkPath subsystemPath : string) : host (option error) :=
  let! r := hcall (MkdirAll (Dir linkPath)) in
  match r with
  | Some err => Ret (Some (Wrap "create kernel target link directory" err))
  | None =>
    let! r := hcall (Symlink subsystemPath linkPath) in
    match r with
    | Some err => Ret (Some (Wrap "link subsystem to kernel target port" err))
    | None => Ret None
    end
  end.

Definition replaceLink (linkPath subsystemPath : string) : host (option error) :=
  let! info := hcall (Lstat linkPath) in
  match info with
  | inl i =>
    if negb (fi_Symlink i) then Ret (Some (Errorf "kernel target link exists but is not a symlink"))
    else
      let! r := hcall (Remove linkPath) in
      match r with
      | Some err => Ret (Some (Wrap "remove incorrect kernel target link" err))
      | None => createLink linkPath subsystemPath
      end
  | inr err =>
    if negb (os_IsNotExist err) then Ret (Some (Wrap "inspect kernel target link" err))
    else createLink linkPath subsystemPath
  end.

Definition ensureKernelSubsystemLink (linkPath subsystemPath : string) : host (option error) :=
  let! m := kernelLinkMatches linkPath subsystemPath in
  if m : bool then Ret None else replaceLink linkPath subsystemPath.

Record kernelPortLink := { link_path : string; link_target : string }.

Definition restoreKernelPortLinks (links : list kernelPortLink) : host (option error) :=
  let! r := for_each links tt (λ link _,
    let! r := hcall (Symlink (link_target link) (link_path link)) in
    match unless os_IsExist r with
    | Some err => Ret (inr (Wrap "restore kernel target link" err))
    | None => Ret (inl tt)
    end) in
  Ret (match r with inl _ => None | inr err => Some err end).

(** The address attributes of the port in the order they are written. *)
Definition portAttributes (addressFamily portalIP : string) (portalPort : Z) : list (string * string) :=
  [("addr_adrfam", addressFamily); ("addr_trtype", "rdma"); ("addr_trsvcid", Itoa portalPort);
   ("addr_traddr", portalIP)].

Definition allMatch (dir : string) (attributes : list (string * string)) : host bool :=
  let! r := for_each attributes tt (λ nv _,
    let! m := configValueMatches (filepath_Join [dir; nv.1]) nv.2 in
    Ret (if m : bool then inl tt else inr tt)) in
  Ret (match r with inl _ => true | inr _ => false end).

Definition readLinks (linksPath : string) (names : list string) : host (result (list kernelPortLink)) :=
  let! r := for_each names [] (λ n links,
    let path := filepath_Join [linksPath; n] in
    let! t := hcall (Readlink path) in
    match t with
    | inr err => Ret (inr (Wrap "read kernel target port link" err))
    | inl target => Ret (inl (links ++ [{| link_path := path; link_target := target |}]))
    end) in
  Ret (match r with inl links => Ok links | inr err => Err err end).

Definition removeLinks (links : list kernelPortLink) : host (option error) :=
  let! r := for_each links tt (λ link _,
    let! r := hcall (Remove (link_path link)) in
    match r with
    | Some err => Ret (inr (Wrap "disconnect kernel target port link" err))
    | None => Ret (inl tt)
    end) in
  Ret (match r with inl _ => None | inr err => Some err end).

Definition writeAttributes (dir : string) (attributes : list (string * string)) : host (option error) :=
  let! r := for_each attributes tt (λ nv _,
    let! r := hcall (WriteFile (filepath_Join [dir; nv.1]) nv.2) in
    match r with
    | Some err => Ret (inr (Wrap "configure kernel target port" err))
    | None => Ret (inl tt)
    end) in
  Ret (match r with inl _ => None | inr err => Some err end).

(** The deferred restoration of the links runs once they have all been removed. *)
Definition ensureKernelPort (portalIP : string) (portalPort : Z) : host (option error) :=
  match kernelAddressFamily portalIP with
  | inr err => Ret (Some err)
  | inl addressFamily =>
    let portPath := filepath_Join [nvmetPath; "ports"; kernelPortID] in
    let linksPath := filepath_Join [portPath; "subsystems"] in
    let desired := portAttributes addressFamily portalIP portalPort in
    let! r := hcall (MkdirAll linksPath) in
    match r with
    | Some err => Ret (Some (Wrap "create kernel target port" err))
    | None =>
      let! configured := allMatch portPath desired in
      if configured : bool then Ret None
      else
        let! entries := hcall (ReadDir linksPath) in
        match entries with
        | inr err => Ret (Some (Wrap "list kernel target port links" err))
        | inl entries =>
          let! links := readLinks linksPath entries in
          match links with
          | inr err => Ret (Some err)
          | inl links =>
            let! r := removeLinks links in
            match r with
            | Some err => Ret (Some err)
            | None =>
              let! retErr := writeAttributes portPath desired in
              let! err := restoreKernelPortLinks links in
              Ret (match retErr with Some e => Some e | None => err end)
            end
          end
        end
    end
  end.

Definition removeStaleNamespaces (namespacesPath : string) (entries : list string) : host (option error) :=
  let! r := for_each entries tt (λ entry _,
    if entry ==? "1" then Ret (inl tt)
    else
      let stalePath := filepath_Join [namespacesPath; entry] in
      let enablePath := filepath_Join [stalePath; "enable"] in
      let! s := hcall (Stat enablePath) in
      let! disabled :=
        match s with
        | inl _ =>
          let! w := hcall (WriteFile enablePath "0") in
          Ret (match w with Some err => Some (Wrap "disable stale kernel target namespace" err) | None => None end)
        | inr err =>
          Ret (if negb (os_IsNotExist err) then Some (Wrap "inspect stale kernel target namespace" err) else None)
        end in
      match disabled with
      | Some err => Ret (inr err)
      | None =>
        let! r := hcall (Remove stalePath) in
        match unless os_IsNotExist r with
        | Some err => Ret (inr (Wrap "remove stale kernel target namespace" err))
        | None => Ret (inl tt)
        end
      end) in
  Ret (match r with inl _ => None | inr err => Some err end).

Definition writeNamespace (namespacePath blockPath : string) : host (option error) :=
  let devicePath := filepath_Join [namespacePath; "device_path"] in
  let enablePath := filepath_Join [namespacePath; "enable"] in
  let! r := hcall (MkdirAll namespacePath) in
  match r with
  | Some err => Ret (Some (Wrap "create kernel target namespace" err))
  | None =>
    let! r := hcall (WriteFile enablePath "0") in
    match r with
    | Some err => Ret (Some (Wrap "disable kernel target namespace before repair" err))
    | None =>
      let! r := hcall (WriteFile devicePath blockPath) in
      match r with
      | Some err => Ret (Some (Wrap "set kernel target namespace device path" err))
      | None =>
        let! r := hcall (WriteFile enablePath "1") in
        match r with
        | Some err => Ret (Some (Wrap "enable kernel target namespace" err))
        | None => Ret None
        end
      end
    end
  end.

Definition ensureKernelNamespace (subsystemPath linkPath blockPath : string) : host (option error) :=
  let namespacesPath := filepath_Join [subsystemPath; "namespaces"] in
  let! r := hcall (MkdirAll namespacesPath) in
  match r with
  | Some err => Ret (Some (Wrap "create kernel target namespaces directory" err))
  | None =>
    let! entries := hcall (ReadDir namespacesPath) in
    match entries with
    | inr err => Ret (Some (Wrap "list kernel target namespaces" err))
    | inl entries =>
      let namespacePath := filepath_Join [namespacesPath; "1"] in
      let! exact :=
        if negb (entries ==? ["1"]) then Ret false
        else
          let! m := configValueMatches (filepath_Join [namespacePath; "device_path"]) blockPath in
          if m : bool then configValueMatches (filepath_Join [namespacePath; "enable"]) "1" else Ret false in
      if exact : bool then Ret None
      else
        let! r := hcall (Remove linkPath) in
        match unless os_IsNotExist r with
        | Some err => Ret (Some (Wrap "disconnect kernel target namespace before repair" err))
        | None =>
          let! r := removeStaleNamespaces namespacesPath entries in
          match r with
          | Some err => Ret (Some err)
          | None => writeNamespace namespacePath blockPath
          end
        end
    end
  end.

Definition loadModules : host (option error) :=
  let! r := for_each ["nvmet"; "nvmet-rdma"] tt (λ module _,
    let! x := command "modprobe" [module] in
    match x with
    | (_, Some err) => Ret (inr (Wrap "load kernel module" err))
    | (_, None) => Ret (inl tt)
    end) in
  Ret (match r with inl _ => None | inr err => Some err end).

Definition ensureKernelConfigFS : host (option error) :=
  let! s := hcall (Stat nvmetPath) in
  match s with
  | inl _ => Ret None
  | inr err =>
    if negb (os_IsNotExist err) then Ret (Some (Wrap "inspect kernel NVMe target configfs" err))
    else
      let! r := loadModules in
      match r with
      | Some err => Ret (Some err)
      | None =>
        let! m := isMountPoint "/sys/kernel/config" in
        let! r :=
          if negb m then
            let! x := command "mount" ["-t"; "configfs"; "none"; "/sys/kernel/config"] in
            Ret (match x with (_, Some err) => Some (Wrap "mount configfs" err) | (_, None) => None end)
          else Ret None in
        match r with
        | Some err => Ret (Some err)
        | None =>
          let! s := hcall (Stat nvmetPath) in
          match s with
          | inr err => Ret (Some (Wrap "kernel NVMe target configfs is unavailable after setup" err))
          | inl _ => Ret None
          end
        end
      end
  end.

(** The first value that differs from the expected one. *)
Definition checkValues (required : list (string * string)) : host (option error) :=
  let! r := for_each required tt (λ pv _,
    let! actual := configValue pv.1 in
    match actual with
    | inr err => Ret (inr (Wrap "read kernel export state" err))
    | inl v => if v !=? pv.2 then Ret (inr (Errorf "kernel export state differs")) else Ret (inl tt)
    end) in
  Ret (match r with inl _ => None | inr err => Some err end).

Definition subsystemPath (nqn : string) : string := filepath_Join [nvmetPath; "subsystems"; nqn].
Definition portPath : string := filepath_Join [nvmetPath; "ports"; kernelPortID].
Definition linkPath (nqn : string) : string := filepath_Join [nvmetPath; "ports"; kernelPortID; "subsystems"; nqn].

Definition requiredValues (nqn blockPath addressFamily portalIP : string) (portalPort : Z) : list (string * string) :=
  let namespacePath := filepath_Join [subsystemPath nqn; "namespaces"; "1"] in
  (filepath_Join [subsystemPath nqn; "attr_allow_any_host"], "0") ::
  (filepath_Join [namespacePath; "device_path"], blockPath) ::
  (filepath_Join [namespacePath; "enable"], "1") ::
  ((λ nv, (filepath_Join [portPath; nv.1], nv.2)) <$> portAttributes addressFamily portalIP portalPort).

Definition CheckExport (nqn blockPath portalIP : string) (portalPort : Z) (options : gmap string string)
    : host (option error) :=
  let! c := ctxErr in
  match c with
  | Some e => Ret (Some (CtxError e))
  | None =>
    match Validate backendName (map_to_list options) with
    | Some err => Ret (Some err)
    | None =>
      match kernelAddressFamily portalIP with
      | inr err => Ret (Some err)
      | inl addressFamily =>
        let! r := checkValues (requiredValues nqn blockPath addressFamily portalIP portalPort) in
        match r with
        | Some err => Ret (Some err)
        | None =>
          let! namespaces := hcall (ReadDir (filepath_Join [subsystemPath nqn; "namespaces"])) in
          match namespaces with
          | inr err => Ret (Some (Wrap "list kernel export namespaces" err))
          | inl namespaces =>
            if namespaces !=? ["1"] then Ret (Some (Errorf "kernel subsystem must expose exactly namespace 1"))
            else
              let! m := kernelLinkMatches (filepath_Join [portPath; "subsystems"; nqn]) (subsystemPath nqn) in
              if m : bool then Ret None else Ret (Some (Errorf "kernel subsystem is not linked to its port"))
          end
        end
      end
    end
  end.

Definition ExportVolume (volumeName blockPath portalIP : string) (portalPort : Z) (options : gmap string string)
    : host (result string) :=
  let nqn := VolumeIdentity.NQN volumeName in
  let! c := ctxErr in
  match c with
  | Some e => Ret (Err (CtxError e))
  | None =>
    match Validate backendName (map_to_list options) with
    | Some err => Ret (Err err)
    | None =>
      match kernelAddressFamily portalIP with
      | inr err => Ret (Err err)
      | inl _ =>
        if (portalPort <? 1) || (65535 <? portalPort) then Ret (Err (Errorf "kernel NVMe-oF portal port is invalid"))
        else if TrimSpace blockPath ==? "" then Ret (Err (Errorf "kernel NVMe-oF block path is empty"))
        else
          check! ensureKernelConfigFS in
          let! r := hcall (MkdirAll (subsystemPath nqn)) in
          match r with
          | Some err => Ret (Err (Wrap "create kernel target subsystem" err))
          | None =>
            let! r := hcall (WriteFile (filepath_Join [subsystemPath nqn; "attr_allow_any_host"]) "0") in
            match r with
            | Some err => Ret (Err (Wrap "disable unrestricted host access" err))
            | None =>
              check! ensureKernelNamespace (subsystemPath nqn) (linkPath nqn) blockPath in
              check! ensureKernelPort portalIP portalPort in
              check! ensureKernelSubsystemLink (linkPath nqn) (subsystemPath nqn) in
              let! r := CheckExport nqn blockPath portalIP portalPort options in
              match r with
              | Some err => Ret (Err (Wrap "verify repaired kernel export" err))
              | None => Ret (Ok nqn)
              end
            end
          end
      end
    end
  end.

Definition removeHosts (allowedHostsPath : string) (entries : list string) : host (option error) :=
  let! r := for_each entries tt (λ entry _,
    let! r := hcall (Remove (filepath_Join [allowedHostsPath; entry])) in
    match unless os_IsNotExist r with
    | Some err => Ret (inr (Wrap "remove stale host" err))
    | None => Ret (inl tt)
    end) in
  Ret (match r with inl _ => None | inr err => Some err end).

Definition authorizeHost (allowedHostsPath hostNQN : string) : host (option error) :=
  if hostNQN ==? "" then Ret None
  else
    let hostPath := filepath_Join [nvmetPath; "hosts"; hostNQN] in
    let! r := hcall (Mkdir hostPath) in
    match unless os_IsExist r with
    | Some err => Ret (Some (Wrap "create NVMe target host" err))
    | None =>
      let! r := hcall (Symlink hostPath (filepath_Join [allowedHostsPath; hostNQN])) in
      match unless os_IsExist r with
      | Some err => Ret (Some (Wrap "authorize host" err))
      | None => Ret None
      end
    end.

(** Changing the hosts of a subsystem while it is disconnected from its port. *)
Definition replaceHosts (nqn hostNQN : string) (entries : list string) : host (option error) :=
  let allowAnyPath := filepath_Join [subsystemPath nqn; "attr_allow_any_host"] in
  let allowedHostsPath := filepath_Join [subsystemPath nqn; "allowed_hosts"] in
  let! r := hcall (Remove (linkPath nqn)) in
  match unless os_IsNotExist r with
  | Some err => Ret (Some (Wrap "disconnect subsystem before changing host access" err))
  | None =>
    let! r := hcall (WriteFile allowAnyPath "0") in
    match r with
    | Some err => Ret (Some (Wrap "disable unrestricted host access" err))
    | None =>
      let! r := removeHosts allowedHostsPath entries in
      match r with
      | Some err => Ret (Some err)
      | None =>
        let! c := ctxErr in
        match c with
        | Some e => Ret (Some (CtxError e))
        | None =>
          let! r := authorizeHost allowedHostsPath hostNQN in
          match r with
          | Some err => Ret (Some err)
          | None =>
            let! r := hcall (Symlink (subsystemPath nqn) (linkPath nqn)) in
            match unless os_IsExist r with
            | Some err => Ret (Some (Wrap "reconnect subsystem after changing host access" err))
            | None => Ret None
            end
          end
        end
      end
    end
  end.

Definition ReconcileHostAccess (nqn hostNQN : string) : host (option error) :=
  let! c := ctxErr in
  match c with
  | Some e => Ret (Some (CtxError e))
  | None =>
    let! allowAny := hcall (ReadFile (filepath_Join [subsystemPath nqn; "attr_allow_any_host"])) in
    match allowAny with
    | inr err => Ret (Some (Wrap "read unrestricted host policy" err))
    | inl allowAny =>
      let! entries := hcall (ReadDir (filepath_Join [subsystemPath nqn; "allowed_hosts"])) in
      match entries with
      | inr err => Ret (Some (Wrap "list allowed hosts" err))
      | inl entries =>
        if Spdk.accessExact (TrimSpace allowAny !=? "0") entries hostNQN
        then ensureKernelSubsystemLink (linkPath nqn) (subsystemPath nqn)
        else replaceHosts nqn hostNQN entries
      end
    end
  end.

Definition removeExport (nqn : string) : host (option error) :=
  let nsPath := filepath_Join [subsystemPath nqn; "namespaces"; "1"] in
  let! r := hcall (Remove (filepath_Join [portPath; "subsystems"; nqn])) in
  match unless os_IsNotExist r with
  | Some err => Ret (Some (Wrap "failed to remove port symlink" err))
  | None =>
    let! r := hcall (WriteFile (filepath_Join [nsPath; "enable"]) "0") in
    match unless os_IsNotExist r with
    | Some err => Ret (Some (Wrap "failed to disable namespace" err))
    | None =>
      let! r := hcall (Remove nsPath) in
      match unless os_IsNotExist r with
      | Some err => Ret (Some (Wrap "failed to remove namespace" err))
      | None =>
        let! r := hcall (Remove (subsystemPath nqn)) in
        match unless os_IsNotExist r with
        | Some err => Ret (Some (Wrap "failed to remove subsystem" err))
        | None => Ret None
        end
      end
    end
  end.

Definition UnexportVolume (nqn : string) : host (option error) :=
  let! s := hcall (Stat (subsystemPath nqn)) in
  match s with
  | inr err =>
    if os_IsNotExist err then Ret None
    else Ret (Some (Wrap "inspect kernel target subsystem before unexport" err))
  | inl _ =>
    let! r := ReconcileHostAccess nqn "" in
    match r with
    | Some err => Ret (Some (Wrap "revoke kernel target host access before unexport" err))
    | None => removeExport nqn
    end
  end.

End Kernel.
