(* ===== verification/TargetContract.v ===== *)
(** * The contract of target backends

    The comments of plugins.TargetBackend promise: ReconcileHostAccess makes a
    host the only one authorized for a subsystem and revokes old connections
    before it authorizes a replacement.  This file states that promise, and what
    the agent relies on for exporting and unexporting, on any state of a target
    in which one can tell which hosts may connect to a subsystem.  The two
    backends discharge it (KernelProps, SpdkProps), and the theorems about the
    agent use it (NodeAgent). *)

From S2P Require Import Prelude GoStrings GoPath Prog Host.

(** The state of a target: what host operations may do to it, the states they
    keep, the hosts a subsystem is open for, and the hosts that can reach it. *)
Class Target (W : Type) := {
  target_step : W → ∀ o : hostOp, hostRep o → W → Prop;
  target_ok : W → Prop;
  authorized : W → string → string → Prop;
  connected : W → string → string → Prop;
  connected_authorized : ∀ w n x, connected w n x → authorized w n x
}.

Section Contract.
Context `{T : Target W}.

(** The other subsystems are as they were. *)
Definition others_same (nqn : string) (w0 w : W) : Prop :=
  ∀ n x, n ≠ nqn → connected w n x ↔ connected w0 n x.

(** The other subsystems are open to nobody new. *)
Definition others_closed (nqn : string) (w0 w : W) : Prop :=
  ∀ n x, n ≠ nqn → connected w n x → connected w0 n x.

(** A host that could not connect before can only be [h], and then it is alone. *)
Definition replaces (w0 : W) (nqn h : string) (w : W) : Prop :=
  ∀ x, connected w nqn x → connected w0 nqn x ∨ (x = h ∧ h ≠ "") ∧ ∀ y, connected w nqn y → y = h.

(** Exactly [h] can connect; nobody when it is empty. *)
Definition exclusive (nqn h : string) (w : W) : Prop :=
  ∀ x, connected w nqn x ↔ x = h ∧ h ≠ "".

End Contract.

(** A name that may occur in an NQN: it is a path component of its own. *)
Definition nqn_ok (s : string) : Prop := name_ok s = true.

(** The backend's methods keep the contract from every well-formed state, through
    every failure. *)
Class TargetBackendContract {W} (T : Target W)
    (access : string → string → host (option error))
    (unexport : string → host (option error)) := {
  access_contract w0 nqn h : target_ok w0 → nqn_ok nqn → h = "" ∨ nqn_ok h →
    swp target_step (λ w, target_ok w ∧ others_same nqn w0 w ∧ replaces w0 nqn h w)
      (access nqn h) w0 (λ r w, r = None → exclusive nqn h w);
  unexport_contract w0 nqn : target_ok w0 → nqn_ok nqn →
    swp target_step (λ w, target_ok w ∧ others_same nqn w0 w ∧ ∀ x, connected w nqn x → connected w0 nqn x)
      (unexport nqn) w0 (λ r w, r = None → ∀ x, ¬ connected w nqn x)
}.

(** What the contract says of every run. *)
Section Runs.
Context {W : Type} {T : Target W} {access unexport} `{C : !TargetBackendContract T access unexport}.

Lemma access_runs w0 nqn h q w : target_ok w0 → nqn_ok nqn → h = "" ∨ nqn_ok h →
  reaches target_step (access nqn h) w0 q w →
  target_ok w ∧ others_same nqn w0 w ∧ replaces w0 nqn h w ∧ (q = Ret None → exclusive nqn h w).
Proof.
  intros Hok Hn Hh Hr. destruct (swp_sound _ _ _ _ _ _ _ (access_contract w0 nqn h Hok Hn Hh) Hr) as [(? & ? & ?) HQ].
  split_and!; [done..|]. intros Hq. by apply (HQ None).
Qed.

Lemma unexport_runs w0 nqn q w : target_ok w0 → nqn_ok nqn →
  reaches target_step (unexport nqn) w0 q w →
  target_ok w ∧ others_same nqn w0 w ∧ (∀ x, connected w nqn x → connected w0 nqn x) ∧
  (q = Ret None → ∀ x, ¬ connected w nqn x).
Proof.
  intros Hok Hn Hr. destruct (swp_sound _ _ _ _ _ _ _ (unexport_contract w0 nqn Hok Hn) Hr) as [(? & ? & ?) HQ].
  split_and!; [done..|]. intros Hq. by apply (HQ None).
Qed.

End Runs.
