(* ===== verification/KernelProps.v ===== *)
(** * Correctness of the kernel target backend

    The configfs tree of the NVMe target is a finite map from paths to nodes.
    [fs_step] says what the file operations may reply and do; an operation that
    fails may still have had its effect, and only ENOENT and EEXIST say something
    about the tree. *)

From S2P Require Import Prelude GoStrings GoPath Encoding Capacity ApiTypes Identity Options RdmaHealth Prog Kube Host Plugins Lvol SpdkBackend KernelBackend TargetContract.
Import Kernel.

Inductive node := DirN | FileN (content : string) | LinkN (target : string).

Abbreviation path := (list string).
Abbreviation fs := (gmap path node).

(** ** The paths of the target *)

Definition base : path := ["sys"; "kernel"; "config"; "nvmet"].
Definition k_links : path := base ++ ["ports"; "1"; "subsystems"].
Definition k_link (n : string) : path := k_links ++ [n].
Definition k_sub (n : string) : path := base ++ ["subsystems"; n].
Definition k_any (n : string) : path := k_sub n ++ ["attr_allow_any_host"].
Definition k_hosts (n : string) : path := k_sub n ++ ["allowed_hosts"].
Definition k_host (n x : string) : path := k_hosts n ++ [x].

Lemma base_components : components nvmetPath = base.
Proof. reflexivity. Qed.

Lemma nvmet_abs : IsAbs nvmetPath = true.
Proof. reflexivity. Qed.

(** ** The file system *)

Definition is_dir (w : fs) (p : path) : Prop := w !! p = Some DirN.

(** A tree: what exists has a name and lies in a directory. *)
Definition tree (w : fs) : Prop := ∀ p n, w !! (p ++ [n]) ≠ None → is_dir w p ∧ name_ok n = true.

(** [w] without [p] and what lies below it. *)
Definition prune (p : path) (w : fs) : fs := filter (λ kv, ¬ p `prefix_of` kv.1) w.

Lemma prune_lookup p w k : prune p w !! k = if decide (p `prefix_of` k) then None else w !! k.
Proof.
  unfold prune. destruct (decide (p `prefix_of` k)) as [Hp|Hp].
  - apply map_lookup_filter_None. right. intros x _ H. by apply H.
  - destruct (w !! k) as [v|] eqn:E.
    + by apply map_lookup_filter_Some.
    + apply map_lookup_filter_None. by left.
Qed.

(** Making directories up to [p]: what is new lies at or below a missing
    directory of [p], and is not in the list of the subsystems of a port (configfs
    fills new directories with attributes and groups, the latter empty). *)
Definition grown (p : path) (w w' : fs) : Prop :=
  w ⊆ w' ∧ ∀ k v, w' !! k = Some v → w !! k = None →
    (∃ q, q `prefix_of` p ∧ w !! q = None ∧ q `prefix_of` k) ∧ ∀ n, k ≠ k_link n.

Definition wrote (p : path) (data : string) (w w' : fs) : Prop :=
  ∃ c, TrimSpace c = TrimSpace data ∧ w' = <[p := FileN c]> w.

(** What an operation does when it succeeds. *)
Definition fs_effect (o : hostOp) (w w' : fs) : Prop :=
  match o with
  | WriteFile p data => wrote (components p) data w w'
  | Mkdir p | MkdirAll p => grown (components p) w w'
  | Remove p => w' = prune (components p) w
  | Symlink t p => w !! components p = None ∧ w' = <[components p := LinkN t]> w
  | Exec _ _ _ => grown (components nvmetPath) w w'
  | _ => w' = w
  end.

Definition fs_reply (w : fs) (o : hostOp) : hostRep o → Prop :=
  match o with
  | ReadFile p => λ x, match x with inl c => w !! components p = Some (FileN c) | inr _ => True end
  | Readlink p => λ x, match x with inl t => w !! components p = Some (LinkN t) | inr _ => True end
  | Lstat p => λ x, match x with
                    | inl i => w !! components p ≠ None ∧ (fi_Symlink i = true ↔ ∃ t, w !! components p = Some (LinkN t))
                    | inr e => e = OsErr ENOENT → w !! components p = None
                    end
  | Stat p => λ x, x = inr (OsErr ENOENT) → ¬ is_dir w (components p)
  | ReadDir p => λ x, match x with
                      | inl names => ∀ n, n ∈ names ↔ w !! (components p ++ [n]) ≠ None
                      | inr _ => True
                      end
  | Remove p | WriteFile p _ => λ x, x = Some (OsErr ENOENT) → w !! components p = None
  | Mkdir p | Symlink _ p => λ x, x = Some (OsErr EEXIST) → w !! components p ≠ None
  | _ => λ _, True
  end.

(** Whether a reply reports success. *)
Definition succeeded (o : hostOp) : hostRep o → bool :=
  match o with
  | WriteFile _ _ | Mkdir _ | MkdirAll _ | Remove _ | Symlink _ _ => λ x, match x with None => true | Some _ => false end
  | Exec _ _ _ => λ _, false
  | _ => λ _, true
  end.

Definition fs_step (w : fs) (o : hostOp) (x : hostRep o) (w' : fs) : Prop :=
  tree w' ∧ fs_reply w o x ∧ (fs_effect o w w' ∨ succeeded o x = false ∧ w' = w).

(** ** The target in the tree *)

Definition linked (w : fs) (n : string) : Prop := ∃ t, w !! k_link n = Some (LinkN t).
Definition any_host (w : fs) (n : string) : Prop := ∃ c, w !! k_any n = Some (FileN c) ∧ TrimSpace c ≠ "0".
Definition host_in (w : fs) (n x : string) : Prop := w !! k_host n x ≠ None.
Definition fs_authorized (w : fs) (n x : string) : Prop := any_host w n ∨ host_in w n x.
Definition fs_connected (w : fs) (n x : string) : Prop := linked w n ∧ fs_authorized w n x.

(** Where a link of the port leads. *)
Definition link_dest (n t : string) : path :=
  components (if IsAbs t then t else filepath_Join [Dir (linkPath n); t]).

(** The tree of the target: links are named after the subsystem they lead to,
    which exists. *)
Definition fs_ok (w : fs) : Prop :=
  tree w ∧ ∀ n t, w !! k_link n = Some (LinkN t) → link_dest n t = k_sub n ∧ is_dir w (k_sub n).

#[export] Instance kernel_target : Target fs.
Proof.
  refine {| target_step := fs_step; target_ok := fs_ok; authorized := fs_authorized; connected := fs_connected |}.
  by intros w n x [_ ?].
Defined.

(** ** Components of the paths used *)

Ltac names := repeat first [ apply Forall_nil_2 | apply Forall_cons_2; [first [assumption | reflexivity]|] ].

Lemma sub_components n : nqn_ok n → components (subsystemPath n) = k_sub n ∧ IsAbs (subsystemPath n) = true.
Proof.
  intros Hn. unfold subsystemPath. split; [|by apply Join_is_abs].
  rewrite components_Join; [done|done|names].
Qed.

Lemma link_components n : nqn_ok n → components (linkPath n) = k_link n ∧ IsAbs (linkPath n) = true.
Proof.
  intros Hn. unfold linkPath. split; [|by apply Join_is_abs].
  rewrite components_Join; [done|done|names].
Qed.

Lemma port_components : components portPath = base ++ ["ports"; "1"] ∧ IsAbs portPath = true.
Proof. split; reflexivity. Qed.

Lemma under_components p l : IsAbs p = true → Forall nqn_ok l → components (filepath_Join (p :: l)) = components p ++ l.
Proof. apply components_Join. Qed.

Lemma any_components n : nqn_ok n → components (filepath_Join [subsystemPath n; "attr_allow_any_host"]) = k_any n.
Proof. intros Hn. destruct (sub_components n Hn) as [E A]. rewrite under_components, E by (done || names). done. Qed.

Lemma hosts_components n : nqn_ok n →
  components (filepath_Join [subsystemPath n; "allowed_hosts"]) = k_hosts n ∧
  IsAbs (filepath_Join [subsystemPath n; "allowed_hosts"]) = true.
Proof.
  intros Hn. destruct (sub_components n Hn) as [E A]. split; [|by apply Join_is_abs].
  rewrite under_components, E by (done || names). done.
Qed.

Lemma host_components n x : nqn_ok n → nqn_ok x →
  components (filepath_Join [filepath_Join [subsystemPath n; "allowed_hosts"]; x]) = k_host n x.
Proof.
  intros Hn Hx. destruct (hosts_components n Hn) as [E A]. rewrite under_components, E by (done || names). done.
Qed.

Lemma port_link_components n : nqn_ok n → components (filepath_Join [portPath; "subsystems"; n]) = k_link n.
Proof. intros Hn. destruct port_components as [E A]. rewrite under_components, E by (done || names). done. Qed.

(** ** What the hosts see of an operation

    [same n w w']: the subsystem [n] has the same link, policy and hosts. *)

Definition same (n : string) (w w' : fs) : Prop :=
  w' !! k_link n = w !! k_link n ∧
  w' !! k_any n = w !! k_any n ∧ ∀ x, w' !! k_host n x = w !! k_host n x.

Lemma same_refl n w : same n w w.
Proof. done. Qed.

Lemma same_trans n w1 w2 w3 : same n w1 w2 → same n w2 w3 → same n w1 w3.
Proof. intros (H1 & H2 & H3) (G1 & G2 & G3). split_and!; intros; rewrite ?G1, ?G2, ?G3; auto. Qed.

Lemma same_connected n w w' x : same n w w' → fs_connected w' n x ↔ fs_connected w n x.
Proof.
  intros (H1 & H2 & H3). unfold fs_connected, linked, fs_authorized, any_host, host_in.
  by rewrite H1, H2, H3.
Qed.

(** The keys of different subsystems differ. *)
Lemma key_neq n m x : n ≠ m → k_link n ≠ k_link m ∧ k_any n ≠ k_any m ∧ (∀ y, k_host n x ≠ k_host m y).
Proof.
  intros Hne. unfold k_link, k_any, k_host, k_hosts, k_sub, k_links, base. simpl. split_and!; congruence.
Qed.

Lemma sub_key_inv n m k : k_sub n `prefix_of` k_sub m ++ k → n = m.
Proof. intros [r Hr]. unfold k_sub, base in Hr. simpl in Hr. congruence. Qed.

(** An operation at or below the directory of one subsystem, or at its link. *)
Definition local (n : string) (p : path) : Prop := k_sub n `prefix_of` p ∨ p = k_link n.

Lemma local_neq n m p : local n p → n ≠ m → ¬ p `prefix_of` k_link m ∧ ¬ p `prefix_of` k_any m ∧
  (∀ x, ¬ p `prefix_of` k_host m x) ∧ p ≠ k_link m ∧ p ≠ k_any m ∧ (∀ x, p ≠ k_host m x) ∧ ¬ p `prefix_of` k_sub m.
Proof.
  intros Hp Hne. assert (∃ r, p = k_sub n ++ r ∨ p = k_link n) as (r & Hr) by (destruct Hp as [[r ->] | ->]; [exists r; by left|exists []; by right]).
  unfold k_sub, k_link, k_links, k_any, k_host, k_hosts, k_sub, base in *. simpl in *.
  split_and!; first [intros [s Hs] | intros x [s Hs] | intros x Hs | intros Hs]; destruct Hr as [-> | ->];
    simpl in Hs; congruence.
Qed.

Lemma prune_same n m p w : local n p → n ≠ m → same m w (prune p w).
Proof.
  intros Hl Hne. destruct (local_neq n m p Hl Hne) as (H1 & H2 & H3 & _).
  split_and!; intros; rewrite !prune_lookup, decide_False; auto.
Qed.

Lemma insert_same n m p v w : local n p → n ≠ m → same m w (<[p := v]> w).
Proof.
  intros Hl Hne. destruct (local_neq n m p Hl Hne) as (_ & _ & _ & H1 & H2 & H3 & _).
  split_and!; intros; rewrite !lookup_insert_ne; auto.
Qed.

Lemma tree_prefix w q k : tree w → w !! k ≠ None → q `prefix_of` k → q ≠ k → is_dir w q.
Proof.
  intros Ht Hk [r ->] Hne. induction r as [|a r IH] using rev_ind; [by rewrite app_nil_r in Hne|].
  rewrite app_assoc in Hk. destruct (Ht _ _ Hk) as [Hd _].
  destruct (decide (q = q ++ r)) as [->|Hne']; [done|]. apply IH; [by rewrite Hd|done].
Qed.

(** Directories made elsewhere in the tree of the target do not matter. *)
Definition elsewhere (p : path) : Prop := ∃ a r, p = base ++ a :: r ∧ a ≠ "subsystems".

Lemma grown_lookup p w w' r : tree w → w !! base ≠ None → elsewhere p → grown p w w' →
  w' !! (base ++ "subsystems" :: r) = w !! (base ++ "subsystems" :: r).
Proof.
  intros Ht Hb (a & s & -> & Ha) [Hsub Hnew]. destruct (w !! (base ++ "subsystems" :: r)) as [v|] eqn:E.
  { by eapply lookup_weaken. }
  destruct (w' !! (base ++ "subsystems" :: r)) as [v|] eqn:E'; [|done]. exfalso.
  destruct (Hnew _ _ E' E) as [(q & Hq1 & Hq2 & Hq3) _].
  destruct (decide (q `prefix_of` base)) as [Hqb|Hqb].
  - destruct (decide (q = base)) as [->|Hne]; [done|].
    pose proof (tree_prefix w q base Ht Hb Hqb Hne) as Hd. unfold is_dir in Hd. congruence.
  - destruct Hq1 as [r1 Hr1], Hq3 as [r2 Hr2]. apply Hqb. unfold base in *. simpl in *.
    destruct q as [|q1 [|q2 [|q3 [|q4 [|q5 q]]]]]; simplify_eq/=; by eexists.
Qed.

Lemma grown_link p w w' n : grown p w w' → w' !! k_link n = w !! k_link n.
Proof.
  intros [Hsub Hnew]. destruct (w !! k_link n) as [v|] eqn:E; [by eapply lookup_weaken|].
  destruct (w' !! k_link n) as [v|] eqn:E'; [|done]. by destruct (proj2 (Hnew _ _ E' E) n).
Qed.

Lemma grown_same p w w' n : tree w → w !! base ≠ None → elsewhere p → grown p w w' → same n w w'.
Proof.
  intros Ht Hb Hp Hg. split_and!; [by apply (grown_link p)| |intros x]; by apply (grown_lookup p).
Qed.

Lemma grown_ok p w w' : tree w' → grown p w w' → fs_ok w → fs_ok w'.
Proof.
  intros Ht Hg [_ Hl]. split; [done|]. intros n t H. rewrite (grown_link p w w' n Hg) in H.
  destruct (Hl n t H) as [? Hd]. split; [done|]. destruct Hg as [Hsub _]. by eapply lookup_weaken.
Qed.

(** ** Changing the hosts of a disconnected subsystem *)

Section Access.
Variables (nqn h : string) (w0 : fs).
Hypothesis Hnqn : nqn_ok nqn.
Hypothesis Hh : h = "" ∨ nqn_ok h.
Hypothesis Hok0 : fs_ok w0.

(** The other subsystems are as at the start. *)
Definition frame (w : fs) : Prop := fs_ok w ∧ ∀ m, m ≠ nqn → same m w0 w.

(** The subsystem exists and is disconnected. *)
Definition cut (w : fs) : Prop := frame w ∧ w !! k_link nqn = None ∧ is_dir w (k_sub nqn).

Lemma frame_start : frame w0.
Proof. done. Qed.

Lemma base_exists w : tree w → is_dir w (k_sub nqn) → w !! base ≠ None.
Proof.
  intros Ht Hd. assert (is_dir w base) as Hb; [|by rewrite Hb].
  apply (tree_prefix w base (k_sub nqn) Ht); [by rewrite Hd|by exists ["subsystems"; nqn]|done].
Qed.

Lemma frame_insert p v w : frame w → local nqn p → tree (<[p := v]> w) → p ≠ k_link nqn → p ≠ k_sub nqn →
  frame (<[p := v]> w).
Proof.
  intros [[Ht Hl] Hs] Hp Ht' Hne1 Hne2. split.
  - split; [done|]. intros n t. destruct (decide (n = nqn)) as [->|Hn].
    + rewrite lookup_insert_ne by done. intros [? Hd]%Hl. split; [done|]. unfold is_dir. by rewrite lookup_insert_ne.
    + destruct (local_neq nqn n p) as (_ & _ & _ & H1 & _ & _ & H2); [done..|].
      rewrite lookup_insert_ne by done. intros [? Hd]%Hl. split; [done|]. unfold is_dir.
      rewrite lookup_insert_ne; [done|]. by intros ->.
  - intros m Hm. eapply same_trans; [by apply Hs|]. by apply (insert_same nqn).
Qed.

Lemma frame_prune p w : frame w → local nqn p → tree (prune p w) →
  (p `prefix_of` k_sub nqn → ¬ linked w nqn) → frame (prune p w).
Proof.
  intros [[Ht Hl] Hs] Hp Ht' Hne. split.
  - split; [done|]. intros n t. rewrite prune_lookup. destruct (decide _) as [|Hpl]; [done|].
    intros H. destruct (Hl _ _ H) as [? Hd]. split; [done|]. unfold is_dir. rewrite prune_lookup, decide_False; [done|].
    destruct (decide (n = nqn)) as [->|Hn].
    + intros Hpre. apply Hne in Hpre. apply Hpre. by exists t.
    + by apply (local_neq nqn n p).
  - intros m Hm. eapply same_trans; [by apply Hs|]. by apply (prune_same nqn).
Qed.

Lemma frame_grown p w w' : frame w → elsewhere p → tree w' → w !! base ≠ None → grown p w w' → frame w'.
Proof.
  intros [Hok Hs] Hp Ht Hb Hg. split; [by eapply grown_ok|]. intros m Hm.
  eapply same_trans; [by apply Hs|]. destruct Hok as [Ht' _]. by apply (grown_same p).
Qed.

Lemma cut_insert p v w : cut w → local nqn p → tree (<[p := v]> w) → p ≠ k_link nqn → p ≠ k_sub nqn →
  cut (<[p := v]> w).
Proof.
  intros (Hf & Hl & Hd) Hp Ht Hne1 Hne2. split_and!; [by apply frame_insert|..].
  - by rewrite lookup_insert_ne.
  - unfold is_dir. by rewrite lookup_insert_ne.
Qed.

Lemma cut_prune p w : cut w → local nqn p → tree (prune p w) → ¬ p `prefix_of` k_sub nqn → cut (prune p w).
Proof.
  intros (Hf & Hl & Hd) Hp Ht Hne. split_and!; [by apply frame_prune|..].
  - rewrite prune_lookup. by destruct (decide _).
  - unfold is_dir. by rewrite prune_lookup, decide_False.
Qed.

Lemma cut_grown p w w' : cut w → elsewhere p → tree w' → grown p w w' → cut w'.
Proof.
  intros (Hf & Hl & Hd) Hp Ht Hg. pose proof Hf as [[Ht0 _] _]. split_and!.
  - apply (frame_grown p w); try done. by apply base_exists.
  - by rewrite (grown_link p w).
  - destruct Hg as [Hsub _]. by eapply lookup_weaken.
Qed.

Definition access_inv (w : fs) : Prop :=
  target_ok w ∧ others_same nqn w0 w ∧ replaces w0 nqn h w.

Lemma frame_inv w : frame w → replaces w0 nqn h w → access_inv w.
Proof. intros [Hok Hs] Hr. split_and!; [done| |done]. intros n x Hn. by apply same_connected, Hs. Qed.

Lemma cut_inv w : cut w → access_inv w.
Proof. intros (Hf & Hl & _). apply frame_inv; [done|]. intros x [[t Ht] _]. congruence. Qed.

Lemma start_inv : access_inv w0.
Proof. apply frame_inv; [apply frame_start|]. intros x Hx. by left. Qed.

(** The policy of the subsystem admits no host but [h], respectively [h]. *)
Definition admits_only (w : fs) : Prop := ∀ x, fs_authorized w nqn x → x = h ∧ h ≠ "".
Definition admits (w : fs) : Prop := h ≠ "" → fs_authorized w nqn h.

Lemma admits_inv w : frame w → admits_only w → access_inv w.
Proof. intros Hf Hp. apply frame_inv; [done|]. intros x [_ Hx]. right. split; [by apply Hp|]. intros y [_ Hy]. by apply Hp. Qed.

Lemma linked_exclusive w : linked w nqn → admits_only w → admits w → exclusive nqn h w.
Proof. intros Hl Ho Ha x. split; [intros [_ ?]; by apply Ho|]. intros [-> Hne]. split; [done|by apply Ha]. Qed.

Lemma link_key_away v w : let w' := <[k_link nqn := v]> w in
  (∀ x, fs_authorized w' nqn x ↔ fs_authorized w nqn x) ∧ (∀ m, is_dir w' (k_sub m) ↔ is_dir w (k_sub m)).
Proof.
  cbv zeta. unfold fs_authorized, any_host, host_in, is_dir. split.
  - intros x. by rewrite !lookup_insert_ne.
  - intros m. by rewrite lookup_insert_ne.
Qed.

Lemma link_frame w : cut w → tree (<[k_link nqn := LinkN (subsystemPath nqn)]> w) →
  frame (<[k_link nqn := LinkN (subsystemPath nqn)]> w).
Proof.
  intros (Hf & Hl & Hd) Ht. destruct (link_key_away (LinkN (subsystemPath nqn)) w) as [_ Hdir].
  destruct Hf as [[_ Hlinks] Hs]. split.
  - split; [done|]. intros n t. destruct (decide (n = nqn)) as [->|Hn].
    + rewrite lookup_insert_eq. intros [= <-]. destruct (sub_components nqn Hnqn) as [E A].
      unfold link_dest. rewrite A. split; [done|]. by apply Hdir.
    + rewrite lookup_insert_ne by (unfold k_link, k_links; simpl; congruence). intros [? ?]%Hlinks.
      split; [done|]. by apply Hdir.
  - intros m Hm. eapply same_trans; [by apply Hs|]. apply (insert_same nqn); [by right|done].
Qed.

(** Connecting a subsystem whose policy admits only [h]. *)
Lemma link_swp {A} (k : option error → host A) w Q : cut w → admits_only w →
  (∀ r w', access_inv w' → (unless os_IsExist r = None → linked w' nqn ∧ (∀ x, fs_authorized w' nqn x ↔ fs_authorized w nqn x)) →
    swp fs_step access_inv (k r) w' Q) →
  swp fs_step access_inv (bind (hcall (Symlink (subsystemPath nqn) (linkPath nqn))) k) w Q.
Proof.
  intros Hc Ho Hk. apply swp_vis; [by apply cut_inv|]. intros r w' (Ht & Hr & He).
  destruct (link_components nqn Hnqn) as [El _]. unfold fs_effect, fs_reply in *. rewrite El in *.
  assert (w' = w ∨ w' = <[k_link nqn := LinkN (subsystemPath nqn)]> w) as Hw by tauto.
  destruct Hw as [-> | ->].
  - apply Hk; [by apply cut_inv|]. intros Hres. exfalso. destruct Hc as (_ & Hl & _).
    destruct He as [[_ He]|[He _]].
    { apply (f_equal (.!! k_link nqn)) in He. rewrite lookup_insert_eq in He. congruence. }
    destruct r as [e|]; [|done]. simpl in Hres. destruct (os_IsExist e) eqn:Ee; [|done].
    apply Hr; [|done]. by rewrite (os_IsExist_true e).
  - destruct (link_key_away (LinkN (subsystemPath nqn)) w) as [Hau _]. apply Hk.
    + apply admits_inv; [by apply link_frame|]. intros x Hx. by apply Ho, Hau.
    + intros _. split; [by eexists; apply lookup_insert_eq|done].
Qed.
(** Removing the link: afterwards the subsystem is disconnected, and nothing else
    has changed for it. *)
Lemma unlink_swp {A} (k : option error → host A) w Q : frame w → is_dir w (k_sub nqn) → access_inv w →
  (∀ r w', access_inv w' → (unless os_IsNotExist r = None → cut w' ∧ (∀ x, fs_authorized w' nqn x ↔ fs_authorized w nqn x) ∧
      w' !! k_any nqn = w !! k_any nqn ∧ ∀ x, host_in w' nqn x ↔ host_in w nqn x) →
    swp fs_step access_inv (k r) w' Q) →
  swp fs_step access_inv (bind (hcall (Remove (linkPath nqn))) k) w Q.
Proof.
  intros Hf Hd Hi Hk. apply swp_vis; [done|]. intros r w' (Ht & Hr & He).
  destruct (link_components nqn Hnqn) as [El _]. unfold fs_effect, fs_reply in *. rewrite El in *.
  destruct He as [-> | [Hres ->]].
  - assert (cut (prune (k_link nqn) w)) as Hcut.
    { split_and!; [apply frame_prune; [done|by right|done|]|by rewrite prune_lookup, decide_True|].
      - intros [x Hx]. unfold k_link, k_links, k_sub, base in Hx. by simpl in Hx.
      - unfold is_dir. rewrite prune_lookup, decide_False; [done|].
        intros [x Hx]. unfold k_link, k_links, k_sub, base in Hx. by simpl in Hx. }
    assert (∀ r, prune (k_link nqn) w !! (k_sub nqn ++ r) = w !! (k_sub nqn ++ r)) as Hkeep.
    { intros s. rewrite prune_lookup, decide_False; [done|].
      intros [x Hx]. unfold k_link, k_links, k_sub, base in Hx. by simpl in Hx. }
    apply Hk; [by apply cut_inv|]. intros _. split; [done|].
    assert (prune (k_link nqn) w !! k_any nqn = w !! k_any nqn) as Ha by apply Hkeep.
    assert (∀ x, prune (k_link nqn) w !! k_host nqn x = w !! k_host nqn x) as Hx
      by (intros x; unfold k_host, k_hosts; rewrite <- app_assoc; apply Hkeep).
    unfold fs_authorized, any_host, host_in. rewrite Ha. setoid_rewrite Hx. done.
  - apply Hk; [done|]. intros [->|(e & -> & He)]%unless_none; [done|].
    split; [|done]. split_and!; [done| |done]. apply Hr. by rewrite (os_IsNotExist_true e).
Qed.

Lemma createLink_swp w : cut w → admits_only w → admits w →
  swp fs_step access_inv (createLink (linkPath nqn) (subsystemPath nqn)) w (λ r w', r = None → exclusive nqn h w').
Proof.
  intros Hc Ho Ha. unfold createLink. apply swp_vis; [by apply cut_inv|]. intros r w' (Ht & _ & He).
  destruct (link_components nqn Hnqn) as [El Ab].
  assert (components (Dir (linkPath nqn)) = k_links) as Ed.
  { apply (components_Dir _ k_links nqn); [|done|names|done].
    unfold linkPath. rewrite Join_path_str; [done|done|names]. }
  unfold fs_effect in He. rewrite Ed in He.
  assert (cut w' ∧ ∀ x, fs_authorized w' nqn x ↔ fs_authorized w nqn x) as [Hc' Hau].
  { destruct He as [Hg|[_ ->]]; [|done].
    assert (elsewhere k_links) as Hel by (by exists "ports", ["1"; "subsystems"]).
    split; [by apply (cut_grown k_links w)|]. destruct Hc as ([[Ht0 _] _] & _ & Hd).
    destruct (grown_same k_links w w' nqn Ht0 (base_exists _ Ht0 Hd) Hel Hg) as (_ & H2 & H3).
    intros x. unfold fs_authorized, any_host, host_in. by rewrite H2, H3. }
  simpl. destruct r as [e|]; [apply swp_ret; [by apply cut_inv|done]|].
  apply link_swp; [done|intros x Hx; by apply Ho, Hau|]. intros r w2 Hi2 Hlink.
  destruct r as [e|]; (apply swp_ret; [done|]); [done|]. intros _. destruct (Hlink eq_refl) as [Hl Hau2].
  apply linked_exclusive; [done| |]; [intros x Hx; by apply Ho, Hau, Hau2|]. intros Hne. by apply Hau2, Hau, Ha.
Qed.

Lemma replaceLink_swp w : frame w → is_dir w (k_sub nqn) → admits_only w → admits w →
  swp fs_step access_inv (replaceLink (linkPath nqn) (subsystemPath nqn)) w (λ r w', r = None → exclusive nqn h w').
Proof.
  intros Hf Hd Ho Ha. assert (access_inv w) as Hi by (by apply admits_inv).
  destruct (link_components nqn Hnqn) as [El _]. unfold replaceLink.
  apply swp_vis; [done|]. intros info w' (_ & Hr' & [-> |[? ->]]); [|done]. destruct info as [i|e]; simpl in *.
  - destruct (fi_Symlink i); simpl; [|by apply swp_ret]. apply unlink_swp; [done..|]. intros r w' Hi' Hcut.
    destruct r as [e|]; [by apply swp_ret|]. destruct (Hcut eq_refl) as (Hc & Hau & _).
    apply createLink_swp; [done|intros x Hx; by apply Ho, Hau|]. intros Hne. by apply Hau, Ha.
  - destruct (os_IsNotExist e) eqn:Ee; simpl; [|by apply swp_ret].
    apply createLink_swp; [|done|done]. split_and!; [done| |done]. rewrite <- El. apply Hr'.
    by apply os_IsNotExist_true.
Qed.

Lemma ensureLink_swp w : frame w → is_dir w (k_sub nqn) → admits_only w → admits w →
  swp fs_step access_inv (ensureKernelSubsystemLink (linkPath nqn) (subsystemPath nqn)) w
    (λ r w', r = None → exclusive nqn h w').
Proof.
  intros Hf Hd Ho Ha. assert (access_inv w) as Hi by (by apply admits_inv).
  destruct (link_components nqn Hnqn) as [El _]. unfold ensureKernelSubsystemLink, kernelLinkMatches.
  apply swp_bind. apply swp_vis; [done|]. intros t w' (_ & Hr & [-> |[? ->]]); [|done].
  destruct t as [t|e]; (apply swp_ret; [done|]); [|by apply replaceLink_swp].
  destruct (_ ==? _); [|by apply replaceLink_swp]. apply swp_ret; [done|]. intros _.
  apply linked_exclusive; [|done|done]. exists t. simpl in Hr. by rewrite El in Hr.
Qed.

(** ** Replacing the hosts *)

Definition no_any (w : fs) : Prop := ¬ any_host w nqn.

Lemma host_local x : local nqn (k_host nqn x).
Proof. left. exists ["allowed_hosts"; x]. done. Qed.

Lemma host_key_neq x : k_host nqn x ≠ k_link nqn ∧ k_host nqn x ≠ k_sub nqn ∧ ¬ k_host nqn x `prefix_of` k_sub nqn ∧
  k_host nqn x ≠ k_any nqn.
Proof.
  unfold k_host, k_hosts, k_link, k_links, k_any, k_sub, base. simpl. split_and!; try congruence.
  intros [r Hr]. by simpl in Hr.
Qed.

Lemma kernel_removeHosts_swp entries w : cut w → no_any w → (∀ x, host_in w nqn x → x ∈ entries) → Forall nqn_ok entries →
  swp fs_step access_inv (removeHosts (filepath_Join [subsystemPath nqn; "allowed_hosts"]) entries) w
    (λ r w', r = None → cut w' ∧ no_any w' ∧ ∀ x, ¬ host_in w' nqn x).
Proof.
  intros Hc Hn Hin Hnames. unfold removeHosts. apply swp_bind.
  apply (swp_for_each _ _ _ (λ rest _ w, Forall nqn_ok rest ∧ cut w ∧ no_any w ∧ ∀ x, host_in w nqn x → x ∈ rest)).
  - clear w Hc Hn Hin Hnames. intros e rest [] w (Hnames & Hc & Hn & Hin).
    inversion_clear Hnames as [|?? Hne Hnames'].
    apply swp_vis; [by apply cut_inv|]. intros r w' (Ht & Hr & He). unfold fs_effect, fs_reply in *.
    rewrite host_components in Hr, He by done. destruct (host_key_neq e) as (_ & _ & Hpre & Hany).
    assert (unless os_IsNotExist r = None → w' = w → w !! k_host nqn e = None) as Hgone.
    { intros [->|(err & -> & ->%os_IsNotExist_true)]%unless_none Hw; [|by apply Hr].
      destruct He as [->|[? _]]; [|done]. rewrite <- Hw, prune_lookup, decide_True; done. }
    assert (cut w' ∧ no_any w' ∧ (∀ x, host_in w' nqn x → host_in w nqn x) ∧ (unless os_IsNotExist r = None → ¬ host_in w' nqn e)) as (Hc' & Hn' & Hin' & Hgone').
    { destruct He as [->|[_ ->]]; [|split_and!; [done..|intros Hu Hx; apply Hx; by apply Hgone]]. split_and!.
      - apply cut_prune; [done|apply host_local|done|done].
      - intros (c & Hl & Hne'). rewrite prune_lookup in Hl. destruct (decide _); [done|]. apply Hn. by exists c.
      - intros x Hx. unfold host_in in *. rewrite prune_lookup in Hx. by destruct (decide _).
      - intros _ Hx. apply Hx. by rewrite prune_lookup, decide_True. }
    pose proof (cut_inv _ Hc') as Hi'. simpl. destruct (unless os_IsNotExist r) eqn:Eu.
    + apply swp_ret; [done|]. apply swp_ret; [done|]. done.
    + apply swp_ret; [done|]. split_and!; [done..|]. intros x Hx.
      pose proof (Hin x (Hin' x Hx)) as [->|]%elem_of_cons; [|done]. by destruct Hgone'.
  - intros [] w' (_ & Hc' & Hn' & Hin'). split; [by apply cut_inv|]. apply swp_ret; [by apply cut_inv|].
    intros _. split_and!; [done..|]. intros x Hx%Hin'. set_solver.
  - done.
Qed.

Lemma same_policy w w' : same nqn w w' → (no_any w → no_any w') ∧ ∀ x, host_in w' nqn x ↔ host_in w nqn x.
Proof. intros (_ & H2 & H3). unfold no_any, any_host, host_in. rewrite H2. setoid_rewrite H3. done. Qed.

Lemma authorizeHost_swp w : cut w → no_any w → (∀ x, ¬ host_in w nqn x) →
  swp fs_step access_inv (authorizeHost (filepath_Join [subsystemPath nqn; "allowed_hosts"]) h) w
    (λ r w', r = None → cut w' ∧ admits_only w' ∧ admits w').
Proof.
  intros Hc Hn Hnone. unfold authorizeHost. destruct (bool_decide_reflect (h = "")) as [Eh|Hne].
  { apply swp_ret; [by apply cut_inv|]. intros _. split; [done|split; [|by intros ?]].
    intros x [?|?]; [by destruct Hn|by destruct (Hnone x)]. }
  destruct Hh as [?|Hhok]; [done|].
  apply swp_vis; [by apply cut_inv|]. intros r w' (Ht & _ & He). unfold fs_effect in He.
  rewrite components_Join in He by (done || names). rewrite base_components in He.
  assert (cut w' ∧ no_any w' ∧ ∀ x, ¬ host_in w' nqn x) as (Hc' & Hn' & Hnone').
  { destruct He as [Hg|[_ ->]]; [|done]. assert (elsewhere (base ++ ["hosts"; h])) as Hel by (by exists "hosts", [h]).
    split; [by apply (cut_grown (base ++ ["hosts"; h]) w)|]. destruct Hc as ([[Ht0 _] _] & _ & Hd).
    destruct (same_policy w w') as [H1 H2]; [by eapply grown_same; [|apply base_exists|..]|].
    split; [by apply H1|]. intros x. by rewrite H2. }
  clear He Ht. pose proof (cut_inv _ Hc') as Hi'. simpl. destruct (unless os_IsExist r); [by apply swp_ret|].
  apply swp_vis; [done|]. intros r2 w2 (Ht2 & Hr2 & He2). unfold fs_effect, fs_reply in *.
  rewrite host_components in Hr2, He2 by done. destruct (host_key_neq h) as (N1 & N2 & _ & N4).
  destruct He2 as [[_ ->]|[Hs ->]].
  - assert (cut (<[k_host nqn h := LinkN (filepath_Join [nvmetPath; "hosts"; h])]> w')) as Hc2
      by (apply cut_insert; [done|apply host_local|done..]).
    assert (∀ x, fs_authorized (<[k_host nqn h := LinkN (filepath_Join [nvmetPath; "hosts"; h])]> w') nqn x ↔ x = h) as Hau.
    { intros x. unfold fs_authorized, any_host, host_in. rewrite lookup_insert_ne by done. split.
      - intros [?|Hx]; [by destruct Hn'|]. destruct (decide (x = h)) as [|Hxh]; [done|]. exfalso. apply (Hnone' x).
        by rewrite lookup_insert_ne in Hx by (unfold k_host, k_hosts, k_sub, base; simpl; congruence).
      - intros ->. right. by rewrite lookup_insert_eq. }
    simpl. destruct (unless os_IsExist r2); (apply swp_ret; [by apply cut_inv|]); [done|]. intros _.
    split; [done|split; [by intros x ->%Hau|]]. intros _. by apply Hau.
  - simpl. destruct (unless os_IsExist r2) eqn:Eu; (apply swp_ret; [done|]); [done|]. exfalso.
    apply unless_none in Eu as [->|(e & -> & ->%os_IsExist_true)]; [done|]. by apply (Hnone' h), Hr2.
Qed.

Lemma replaceHosts_swp entries : is_dir w0 (k_sub nqn) → (∀ x, x ∈ entries ↔ host_in w0 nqn x) → Forall nqn_ok entries →
  swp fs_step access_inv (replaceHosts nqn h entries) w0 (λ r w', r = None → exclusive nqn h w').
Proof.
  intros Hd Hin Hnames. unfold replaceHosts. apply unlink_swp; [apply frame_start|done|apply start_inv|].
  intros r w Hi Hcut. destruct (unless os_IsNotExist r) eqn:Eu; [by apply swp_ret|].
  destruct (Hcut eq_refl) as (Hc & _ & _ & Hhosts). clear Hcut.
  apply swp_vis; [done|]. intros r2 w2 (Ht & _ & He). unfold fs_effect in He. rewrite any_components in He by done.
  assert (cut w2 ∧ (r2 = None → no_any w2) ∧ ∀ x, host_in w2 nqn x ↔ host_in w nqn x) as (Hc2 & Hn2 & Hin2).
  { destruct He as [(c & Hc' & ->)|[Hs ->]]; [|split_and!; [done|by intros ->|done]]. split_and!.
    - apply cut_insert; [done|by left; exists ["attr_allow_any_host"]|done|done|].
      unfold k_any. intros E. apply (f_equal length) in E. rewrite length_app in E. simpl in E. lia.
    - intros _ (c' & Hl & Hne). rewrite lookup_insert_eq in Hl. injection Hl as <-. apply Hne. by rewrite Hc'.
    - intros x. unfold host_in. by rewrite lookup_insert_ne by done. }
  simpl. destruct r2 as [e|]; [by apply swp_ret; [apply cut_inv|]|].
  apply swp_bind. eapply swp_mono; [|apply (kernel_removeHosts_swp entries w2); [done|by apply Hn2| |done]].
  2:{ intros x Hx. by apply Hin, Hhosts, Hin2. }
  intros r3 w3 Hi3 Hrm. destruct r3 as [e|]; [by apply swp_ret|]. destruct (Hrm eq_refl) as (Hc3 & Hn3 & Hnone3).
  apply swp_vis; [done|]. intros c w4 (_ & _ & [->|[_ ->]]); (destruct c as [e|]; [by apply swp_ret|]);
    (apply swp_bind; eapply swp_mono; [|by apply authorizeHost_swp]; intros r5 w5 Hi5 Hau;
     destruct r5 as [e|]; [by apply swp_ret|]; destruct (Hau eq_refl) as (Hc5 & Ho5 & Ha5);
     apply link_swp; [done..|]; intros r6 w6 Hi6 Hl; destruct (unless os_IsExist r6); (apply swp_ret; [done|]); [done|];
     intros _; destruct (Hl eq_refl) as [Hlk Hau6]; apply linked_exclusive; [done|by intros x Hx; apply Ho5, Hau6|];
     intros Hne; by apply Hau6, Ha5).
Qed.

Lemma kernel_ReconcileHostAccess_swp :
  swp fs_step access_inv (ReconcileHostAccess nqn h) w0 (λ r w', r = None → exclusive nqn h w').
Proof.
  pose proof start_inv as Hi0. unfold ReconcileHostAccess.
  apply swp_vis; [done|]. intros c w (_ & _ & [->|[? ->]]); [|done]. destruct c as [e|]; [by apply swp_ret|].
  apply swp_vis; [done|]. intros a w (_ & Ha & [->|[? ->]]); [|done]. destruct a as [a|e]; [|by apply swp_ret].
  unfold fs_reply in Ha. rewrite any_components in Ha by done.
  destruct Hok0 as [Ht _]. destruct (Ht (k_sub nqn) "attr_allow_any_host") as [Hd _]; [fold (k_any nqn); by rewrite Ha|].
  apply swp_vis; [done|]. intros es w (_ & Hes & [->|[? ->]]); [|done]. destruct es as [entries|e]; [|by apply swp_ret].
  unfold fs_reply in Hes. destruct (hosts_components nqn Hnqn) as [Eh _]. rewrite Eh in Hes. fold (k_host nqn) in Hes.
  assert (Forall nqn_ok entries) as Hnames.
  { apply Forall_forall. intros x Hx. by destruct (Ht (k_hosts nqn) x) as [_ ?]; [apply Hes|]. }
  cbn [bind]. destruct (Spdk.accessExact _ _ _) eqn:Ex; [|by apply replaceHosts_swp].
  unfold Spdk.accessExact in Ex. apply andb_true_iff in Ex as [Ex1 Ex2]. rewrite negb_involutive in Ex1.
  apply bool_decide_eq_true in Ex1.
  assert (∀ x, fs_authorized w0 nqn x ↔ x ∈ entries) as Hau.
  { intros x. rewrite Hes. unfold fs_authorized, any_host, host_in. split; [|by right].
    intros [(c & Hl & Hne)|?]; [|done]. exfalso. rewrite Ha in Hl. injection Hl as <-. done. }
  apply ensureLink_swp; [done|done|..].
  - intros x Hx%Hau. destruct (bool_decide_reflect (h = "")); bool_to_prop; subst entries; [set_solver|].
    by apply list_elem_of_singleton in Hx.
  - intros Hne. apply Hau. rewrite (bool_decide_false (h = "")) in Ex2 by done. bool_to_prop. subst. set_solver.
Qed.

End Access.

(** ** Unexporting *)

Section Unexport.
Variables (nqn : string) (w0 : fs).
Hypothesis Hnqn : nqn_ok nqn.
Hypothesis Hok0 : fs_ok w0.

Definition closing (w : fs) : Prop :=
  target_ok w ∧ others_same nqn w0 w ∧ ∀ x, connected w nqn x → connected w0 nqn x.

Definition off (w : fs) : Prop := frame nqn w0 w ∧ w !! k_link nqn = None.

Lemma off_closing w : off w → closing w ∧ ∀ x, ¬ connected w nqn x.
Proof.
  intros [[Hok Hs] Hl]. assert (∀ x, ¬ connected w nqn x) as Hno by (intros x [[t Ht] _]; congruence).
  split; [|done]. split_and!; [done| |by intros x ?%Hno]. intros n x Hn. by apply same_connected, Hs.
Qed.

(** A step at or below the directory of the disconnected subsystem. *)
Lemma off_insert p v w : off w → local nqn p → tree (<[p := v]> w) → p ≠ k_link nqn → p ≠ k_sub nqn → off (<[p := v]> w).
Proof. intros [Hf Hl] Hp Ht N1 N2. split; [by apply frame_insert|]. by rewrite lookup_insert_ne. Qed.

Lemma off_prune p w : off w → local nqn p → tree (prune p w) → off (prune p w).
Proof.
  intros [Hf Hl] Hp Ht. split.
  - apply frame_prune; [done..|]. intros _ [t Hlt]. congruence.
  - rewrite prune_lookup. by destruct (decide _).
Qed.

Lemma off_remove_swp {A} p (k : option error → host A) w Q : off w → local nqn (components p) →
  (∀ r w', off w' → swp fs_step closing (k r) w' Q) → swp fs_step closing (bind (hcall (Remove p)) k) w Q.
Proof.
  intros Ho Hp Hk. apply swp_vis; [by apply off_closing|]. intros r w' (Ht & _ & [->|[_ ->]]); apply Hk; [|done].
  by apply off_prune.
Qed.

Lemma removeExport_swp : swp fs_step closing (removeExport nqn) w0 (λ r w, r = None → ∀ x, ¬ connected w nqn x).
Proof.
  assert (closing w0) as Hc0 by (split_and!; done). unfold removeExport.
  destruct (sub_components nqn Hnqn) as [Es As].
  assert (components (filepath_Join [subsystemPath nqn; "namespaces"; "1"]) = k_sub nqn ++ ["namespaces"; "1"] ∧
          IsAbs (filepath_Join [subsystemPath nqn; "namespaces"; "1"]) = true) as [En An].
  { split; [|by apply Join_is_abs]. rewrite under_components, Es by (done || names). done. }
  apply swp_vis; [done|]. intros r w (Ht & Hr & He). unfold fs_effect, fs_reply in *. rewrite port_link_components in * by done.
  assert (closing w ∧ (unless os_IsNotExist r = None → off w)) as [Hc Hoff].
  { destruct He as [->|[Hs ->]].
    - assert (off (prune (k_link nqn) w0)) as Ho; [|split; [by apply off_closing|done]].
      split; [|by rewrite prune_lookup, decide_True]. apply frame_prune; [done|by right|done|].
      intros [x Hx]. unfold k_link, k_links, k_sub, base in Hx. by simpl in Hx.
    - split; [done|]. intros [->|(e & -> & ->%os_IsNotExist_true)]%unless_none; [done|]. split; [done|by apply Hr]. }
  simpl. destruct (unless os_IsNotExist r); [by apply swp_ret|]. specialize (Hoff eq_refl). clear Ht Hr He.
  apply swp_vis; [done|]. intros r2 w2 (Ht & _ & He). unfold fs_effect in He.
  rewrite under_components, En in He by (done || names).
  assert (off w2) as Hoff2.
  { destruct He as [(c & _ & ->)|[_ ->]]; [|done]. apply off_insert; [done| |done| |].
    - left. rewrite <- app_assoc. by eexists.
    - unfold k_sub, k_link, k_links, base. simpl. congruence.
    - intros E. apply (f_equal length) in E. rewrite !length_app in E. simpl in E. lia. }
  simpl. destruct (unless os_IsNotExist r2); [apply swp_ret; [by apply off_closing|done]|].
  apply off_remove_swp; [done|left; rewrite En; by eexists|]. intros r3 w3 Hoff3.
  destruct (unless os_IsNotExist r3); [apply swp_ret; [by apply off_closing|done]|].
  apply off_remove_swp; [done|left; rewrite Es; by exists []; rewrite app_nil_r|]. intros r4 w4 Hoff4.
  destruct (off_closing w4 Hoff4). by destruct (unless os_IsNotExist r4); apply swp_ret.
Qed.

End Unexport.

Lemma kernel_UnexportVolume_swp nqn w0 : nqn_ok nqn → fs_ok w0 →
  swp fs_step (closing nqn w0) (UnexportVolume nqn) w0 (λ r w, r = None → ∀ x, ¬ connected w nqn x).
Proof.
  intros Hnqn Hok. assert (closing nqn w0 w0) as Hc0 by (split_and!; done). unfold UnexportVolume.
  destruct (sub_components nqn Hnqn) as [Es _].
  apply swp_vis; [done|]. intros s w (_ & Hs & [->|[? ->]]); [|done]. unfold fs_reply in Hs. rewrite Es in Hs.
  destruct s as [i|e]; cbn [bind].
  - apply swp_bind. eapply swp_mono; [|eapply swp_weaken; [|by apply (kernel_ReconcileHostAccess_swp nqn "" w0); [|left|]]].
    + intros r w Hi Hr. destruct r as [e|]; [by apply swp_ret|]. pose proof (Hr eq_refl) as Hex. destruct Hi as (Hok1 & Ho1 & _).
      eapply swp_mono; [|eapply swp_weaken; [|by apply removeExport_swp]]; [done|].
      intros w2 (Hok2 & Ho2 & Hcl2). split_and!; [done| |].
      * intros n x Hn. rewrite (Ho2 n x Hn). by apply Ho1.
      * intros x [_ ?]%Hcl2%Hex. done.
    + intros w (Hok1 & Ho1 & Hr). split_and!; [done|done|]. intros x Hx. by destruct (Hr x Hx) as [|[[_ ?] _]].
  - destruct (os_IsNotExist e) eqn:Ee; (apply swp_ret; [done|]); [|done]. intros _ x [[t Ht] _].
    apply os_IsNotExist_true in Ee as ->. apply Hs; [done|]. destruct Hok as [_ Hl]. by apply (Hl nqn t).
Qed.

#[export] Instance kernel_contract : TargetBackendContract kernel_target ReconcileHostAccess UnexportVolume.
Proof.
  split.
  - intros w0 nqn h Hok Hn Hh. by apply kernel_ReconcileHostAccess_swp.
  - intros w0 nqn Hok Hn. by apply kernel_UnexportVolume_swp.
Qed.

(** C8: in every state of every run of ReconcileHostAccess of the kernel backend,
    through failures of any kind, the other subsystems can be reached by exactly
    the hosts that could reach them, and a host that could not reach the subsystem
    before is the requested one and the only one that can; when it returns nil
    exactly the requested host can reach it, nobody when it is empty. *)
Theorem kernel_access_exclusive nqn h w0 q w :
  fs_ok w0 → nqn_ok nqn → h = "" ∨ nqn_ok h →
  reaches fs_step (ReconcileHostAccess nqn h) w0 q w →
  (∀ n x, n ≠ nqn → fs_connected w n x ↔ fs_connected w0 n x) ∧
  (∀ x, fs_connected w nqn x → fs_connected w0 nqn x ∨ (x = h ∧ h ≠ "") ∧ ∀ y, fs_connected w nqn y → y = h) ∧
  (q = Ret None → ∀ x, fs_connected w nqn x ↔ x = h ∧ h ≠ "").
Proof. intros Hok Hn Hh Hr. by destruct (access_runs (C := kernel_contract) w0 nqn h q w Hok Hn Hh Hr) as (_ & ? & ? & ?). Qed.

(** In every state of every run of UnexportVolume of the kernel backend the
    other subsystems can be reached by exactly the hosts that could reach them and
    nobody gains access to this one; when it returns nil nobody can reach it. *)
Theorem kernel_unexport_revokes nqn w0 q w :
  fs_ok w0 → nqn_ok nqn →
  reaches fs_step (UnexportVolume nqn) w0 q w →
  (∀ n x, n ≠ nqn → fs_connected w n x ↔ fs_connected w0 n x) ∧
  (∀ x, fs_connected w nqn x → fs_connected w0 nqn x) ∧
  (q = Ret None → ∀ x, ¬ fs_connected w nqn x).
Proof. intros Hok Hn Hr. by destruct (unexport_runs (C := kernel_contract) w0 nqn q w Hok Hn Hr) as (_ & ? & ? & ?). Qed.

(** ** A target *)

#[global] Instance node_eq_dec : EqDecision node.
Proof. solve_decision. Defined.

(** Deciding whether a map is a tree, and listing a directory of it. *)
Definition keys (w : fs) : list path := (map_to_list w).*1.

Lemma keys_elem w k : k ∈ keys w ↔ w !! k ≠ None.
Proof.
  unfold keys. rewrite list_elem_of_fmap. split.
  - intros ([k' v] & -> & H%elem_of_map_to_list). simpl. by rewrite H.
  - destruct (w !! k) as [v|] eqn:E; [|done]. intros _. exists (k, v). by rewrite elem_of_map_to_list.
Qed.

Definition treeb (w : fs) : bool :=
  forallb (λ k, match rev k with [] => true | n :: r => bool_decide (w !! rev r = Some DirN) && name_ok n end) (keys w).

Lemma treeb_tree w : treeb w = true → tree w.
Proof.
  unfold treeb. rewrite forallb_forall. intros H p n Hp%keys_elem%list_elem_of_In. specialize (H _ Hp).
  rewrite rev_app_distr in H. simpl in H. apply andb_true_iff in H as [H ?]. rewrite rev_involutive in H.
  split; [|done]. by apply bool_decide_eq_true in H.
Qed.

Definition listing (w : fs) (p : path) : list string :=
  omap (λ k, match rev k with [] => None | n :: r => if decide (rev r = p) then Some n else None end) (keys w).

Lemma listing_elem w p n : n ∈ listing w p ↔ w !! (p ++ [n]) ≠ None.
Proof.
  unfold listing. rewrite list_elem_of_omap, <- keys_elem. split.
  - intros (k & Hk & H). destruct (rev k) as [|m r] eqn:E; [done|]. destruct (decide _) as [<-|]; [|done].
    injection H as <-. assert (k = rev r ++ [m]) as <-; [|done]. rewrite <- (rev_involutive k), E. done.
  - intros Hk. exists (p ++ [n]). split; [done|]. rewrite rev_app_distr. simpl. by rewrite rev_involutive, decide_True.
Qed.

Module Example.

Definition dirs : list path :=
  [[]; ["sys"]; ["sys"; "kernel"]; ["sys"; "kernel"; "config"]; base; base ++ ["hosts"]; base ++ ["ports"];
   base ++ ["ports"; "1"]; k_links; base ++ ["subsystems"]; k_sub "n"; k_hosts "n"].
Definition w0 : fs :=
  <[k_link "n" := LinkN (subsystemPath "n")]> (<[k_any "n" := FileN "0"]> (<[k_host "n" "old" := LinkN "old"]>
    (list_to_map ((λ p, (p, DirN)) <$> dirs)))).
Definition w1 : fs := prune (k_link "n") w0.
Definition w2 : fs := <[k_any "n" := FileN "0"]> w1.
Definition w3 : fs := prune (k_host "n" "old") w2.
Definition w4 : fs := <[base ++ ["hosts"; "new"] := DirN]> w3.
Definition w5 : fs := <[k_host "n" "new" := LinkN (filepath_Join [nvmetPath; "hosts"; "new"])]> w4.
Definition w6 : fs := <[k_link "n" := LinkN (subsystemPath "n")]> w5.

Lemma w0_ok : fs_ok w0.
Proof.
  split; [apply treeb_tree; vm_compute; reflexivity|]. intros n t Hn.
  assert (n ∈ listing w0 k_links) as Hl by (apply listing_elem; unfold k_link in Hn; by rewrite Hn).
  assert (listing w0 k_links = ["n"]) as E by (vm_compute; reflexivity). rewrite E in Hl. apply list_elem_of_singleton in Hl as ->.
  assert (w0 !! k_link "n" = Some (LinkN (subsystemPath "n"))) as E' by (vm_compute; reflexivity).
  rewrite E' in Hn. injection Hn as <-. split; vm_compute; reflexivity.
Qed.

(** A successful operation. *)
Lemma ok_step (o : hostOp) (x : hostRep o) (w w' : fs) : treeb w' = true → fs_reply w o x → fs_effect o w w' → fs_step w o x w'.
Proof. intros Ht%treeb_tree Hr He. split_and!; [done..|by left]. Qed.

Ltac computes := vm_compute; reflexivity.
Ltac runs o x w w' := eapply (reaches_bind fs_step _ _ _ _ w w');
  [apply (reaches_hcall fs_step o x w w'), ok_step; [computes| |]|cbn beta iota].

Ltac at_path k := unfold fs_effect;
  match goal with |- context [components ?p] => replace (components p) with (k : path) by computes end.
Ltac succeeds := by intros [=].

Lemma replace_run : reaches fs_step (replaceHosts "n" "new" ["old"]) w0 (Ret None) w6.
Proof.
  unfold replaceHosts. cbv zeta.
  runs (Remove (linkPath "n")) (None : option error) w0 w1; [succeeds|at_path (k_link "n"); reflexivity|].
  runs (WriteFile (filepath_Join [subsystemPath "n"; "attr_allow_any_host"]) "0") (None : option error) w1 w2;
    [succeeds|at_path (k_any "n"); exists "0"; split; reflexivity|].
  apply (reaches_bind _ _ _ None _ w2 w3).
  { unfold removeHosts. apply (reaches_bind _ _ _ (inl tt) _ w2 w3); [|apply reaches_refl]. cbn [for_each].
    apply (reaches_bind _ _ _ (inl tt) _ w2 w3); [|apply reaches_refl].
    runs (Remove (filepath_Join [filepath_Join [subsystemPath "n"; "allowed_hosts"]; "old"])) (None : option error) w2 w3;
      [succeeds|at_path (k_host "n" "old"); reflexivity|]. apply reaches_refl. }
  runs CtxErrOp (None : option CtxErr) w3 w3; [exact I|reflexivity|].
  apply (reaches_bind _ _ _ None _ w3 w5).
  { unfold authorizeHost. rewrite bool_decide_false by done. cbv zeta.
    runs (Mkdir (filepath_Join [nvmetPath; "hosts"; "new"])) (None : option error) w3 w4; [succeeds| |].
    { at_path (base ++ ["hosts"; "new"]). split; [apply insert_subseteq; computes|]. intros k v Hk Hn. unfold w4 in Hk.
      destruct (decide (k = base ++ ["hosts"; "new"])) as [->|Hne]; [|rewrite lookup_insert_ne in Hk by done; congruence].
      split; [|intros n [=]]. exists (base ++ ["hosts"; "new"]). split_and!; [by exists []|exact Hn|by exists []]. }
    runs (Symlink (filepath_Join [nvmetPath; "hosts"; "new"]) (filepath_Join [filepath_Join [subsystemPath "n"; "allowed_hosts"]; "new"]))
      (None : option error) w4 w5; [succeeds|at_path (k_host "n" "new"); split; [computes|reflexivity]|]. apply reaches_refl. }
  runs (Symlink (subsystemPath "n") (linkPath "n")) (None : option error) w5 w6; 
    [succeeds|at_path (k_link "n"); split; [computes|reflexivity]|]. apply reaches_refl.
Qed.

Lemma kernel_access_run : reaches fs_step (ReconcileHostAccess "n" "new") w0 (Ret None) w6.
Proof.
  unfold ReconcileHostAccess. runs CtxErrOp (None : option CtxErr) w0 w0; [exact I|reflexivity|].
  runs (ReadFile (filepath_Join [subsystemPath "n"; "attr_allow_any_host"])) (inl "0" : result string) w0 w0; [computes|reflexivity|].
  runs (ReadDir (filepath_Join [subsystemPath "n"; "allowed_hosts"])) (inl ["old"] : result (list string)) w0 w0; [|reflexivity|].
  - intros n. rewrite <- listing_elem. by assert (listing w0 (components (filepath_Join [subsystemPath "n"; "allowed_hosts"])) = ["old"]) as -> by computes.
  - apply replace_run.
Qed.

Lemma unexport_run : reaches fs_step (UnexportVolume "m") w0 (Ret None) w0.
Proof.
  unfold UnexportVolume. runs (Stat (subsystemPath "m")) (inr (OsErr ENOENT) : result FileInfo) w0 w0; [|reflexivity|apply reaches_refl].
  intros _ H. vm_compute in H. discriminate.
Qed.

End Example.

Lemma kernel_access_exclusive_witness : fs_connected Example.w6 "n" "old" ↔ "old" = "new" ∧ "new" ≠ "".
Proof.
  exact (proj2 (proj2 (kernel_access_exclusive "n" "new" Example.w0 _ _ Example.w0_ok eq_refl (or_intror eq_refl)
    Example.kernel_access_run)) eq_refl "old").
Defined.

Lemma kernel_unexport_revokes_witness : ¬ fs_connected Example.w0 "m" "h".
Proof.
  exact (proj2 (proj2 (kernel_unexport_revokes "m" Example.w0 _ _ Example.w0_ok eq_refl Example.unexport_run)) eq_refl "h").
Defined.
