(* ===== verification/SpdkProps.v ===== *)
(** * Correctness of the SPDK target backend

    The target is its subsystems.  Reconciling host access and unexporting keep
    the contract of target backends; exporting gives nobody access, publishes the
    volume when it succeeds, and leaves the subsystems alone when the state of the
    target could not be observed. *)

From S2P Require Import Prelude GoStrings GoPath Encoding Capacity ApiTypes Identity Options Prog Kube Host Plugins Lvol SpdkBackend TargetContract.
Import Spdk.

(** ** The subsystems of a target

    The documented behaviour of the RPCs relied on: nvmf_get_subsystems shows the
    subsystems, one per NQN; a created subsystem has no namespace, no listener and
    no host; the other nvmf RPCs change the subsystem they name; the remaining
    ones no subsystem.  A process that starts, is killed or is found to have
    exited may have lost all subsystems. *)

Notation subsystems := (gmap string spdkSubsystem).

Definition set_any (any : bool) (s : spdkSubsystem) : spdkSubsystem :=
  {| ss_NQN := ss_NQN s; ss_AllowAnyHost := any; ss_Hosts := ss_Hosts s; ss_Namespaces := ss_Namespaces s;
     ss_ListenAddresses := ss_ListenAddresses s |}.
Definition set_hosts (hosts : list string) (s : spdkSubsystem) : spdkSubsystem :=
  {| ss_NQN := ss_NQN s; ss_AllowAnyHost := ss_AllowAnyHost s; ss_Hosts := hosts; ss_Namespaces := ss_Namespaces s;
     ss_ListenAddresses := ss_ListenAddresses s |}.
Definition add_namespace (n : namespace) (s : spdkSubsystem) : spdkSubsystem :=
  {| ss_NQN := ss_NQN s; ss_AllowAnyHost := ss_AllowAnyHost s; ss_Hosts := ss_Hosts s;
     ss_Namespaces := ss_Namespaces s ++ [n]; ss_ListenAddresses := ss_ListenAddresses s |}.
Definition add_listener (l : listener) (s : spdkSubsystem) : spdkSubsystem :=
  {| ss_NQN := ss_NQN s; ss_AllowAnyHost := ss_AllowAnyHost s; ss_Hosts := ss_Hosts s;
     ss_Namespaces := ss_Namespaces s; ss_ListenAddresses := ss_ListenAddresses s ++ [l] |}.
Definition fresh_subsystem (n : string) : spdkSubsystem :=
  {| ss_NQN := n; ss_AllowAnyHost := false; ss_Hosts := []; ss_Namespaces := []; ss_ListenAddresses := [] |}.

(** The hosts a subsystem admits. *)
Definition admits (s : spdkSubsystem) (x : string) : Prop := ss_AllowAnyHost s = true ∨ x ∈ ss_Hosts s.

Definition subs_ok (w : subsystems) : Prop := ∀ n s, w !! n = Some s → ss_NQN s = n.

Definition subs_open (w : subsystems) (n x : string) : Prop := ∃ s, w !! n = Some s ∧ admits s x.

Section Spdk.
Context `{QT : Quoting} `{UM : Unmarshal (list string)} `{UC : Unmarshal (list controller)}
  `{UT : Unmarshal (list transport)} `{US : Unmarshal (list spdkSubsystem)} `{UB : Unmarshal (list Lvol.spdkBdev)}.

(** The bdevs a name stands for. *)
Variable backing : string → list Lvol.spdkBdev.

Definition identities (b : string) : gset string :=
  list_to_set (b :: mjoin ((λ d, Lvol.bdev_Name d :: Lvol.bdev_UUID d :: Lvol.bdev_Aliases d) <$> backing b)) ∖ {[""]}.

(** The RPCs that change subsystems. *)
Definition changing : list string :=
  ["nvmf_subsystem_allow_any_host"; "nvmf_subsystem_remove_host"; "nvmf_subsystem_add_host"; "nvmf_delete_subsystem";
   "nvmf_create_subsystem"; "nvmf_subsystem_add_ns"; "nvmf_subsystem_add_listener"].

Definition subs_effect (args : list string) (w w' : subsystems) : Prop :=
  (∀ m rest, args = m :: rest → m ∉ changing → w' = w) ∧
  (∀ n, args = ["nvmf_subsystem_allow_any_host"; n; "-d"] → w' = alter (set_any false) n w) ∧
  (∀ n h, args = ["nvmf_subsystem_remove_host"; n; h] →
     w' = alter (λ s, set_hosts (filter (h ≠.) (ss_Hosts s)) s) n w) ∧
  (∀ n h, args = ["nvmf_subsystem_add_host"; n; h] → w' = alter (λ s, set_hosts (ss_Hosts s ++ [h]) s) n w) ∧
  (∀ n, args = ["nvmf_delete_subsystem"; n] → w' = delete n w) ∧
  (∀ n a b, args = ["nvmf_create_subsystem"; n; a; b] → w !! n = None ∧ w' = <[n := fresh_subsystem n]> w) ∧
  (∀ n b, args = ["nvmf_subsystem_add_ns"; n; b] →
     ∃ d, backing b ≠ [] ∧ ns_BdevName d ∈ identities b ∧ w' = alter (add_namespace d) n w) ∧
  (∀ n t a p, args = ["nvmf_subsystem_add_listener"; n; "-t"; t; "-a"; a; "-s"; p] →
     w' = alter (add_listener {| Trtype := t; Traddr := a; Trsvcid := p |}) n w).

Definition subs_shows (args : list string) (w w' : subsystems) (out : string) : Prop :=
  (args = ["nvmf_get_subsystems"] →
     ∃ l, unmarshal (rpcOutput out) = inl l ∧ ∀ s, s ∈ l ↔ w !! ss_NQN s = Some s) ∧
  (∀ b, args = ["bdev_get_bdevs"; "-b"; b] → unmarshal (rpcOutput out) = inl (backing b)).

Definition subs_rest (w : subsystems) (o : hostOp) (w' : subsystems) : Prop :=
  match o with
  | StartTarget _ | KillTarget | ReapTarget | TargetExited => w' = w ∨ w' = ∅
  | _ => w' = w
  end.

Definition subs_step : subsystems → ∀ o : hostOp, hostRep o → subsystems → Prop :=
  rpc_step subs_effect subs_shows subs_rest.

#[export, program] Instance spdk_target : Target subsystems := {|
  target_step := subs_step;
  target_ok := subs_ok;
  authorized := subs_open;
  connected := subs_open
|}.
Next Obligation. done. Qed.

Lemma subs_quiet m rest w w' : m ∉ changing → subs_effect (m :: rest) w w' → w' = w.
Proof. intros Hm [H _]. by apply (H m rest). Qed.

Lemma effect_quiet m rest w : m ∉ changing → subs_effect (m :: rest) w w.
Proof.
  intros Hm. split_and!; [done|..]; intros; exfalso; simplify_eq; apply Hm;
    apply (bool_decide_eq_true (_ ∈ changing)); vm_compute; reflexivity.
Qed.

Section Inv.
Variable inv : subsystems → Prop.

Lemma listing_swp {A} (k : result (list spdkSubsystem) → host A) w Q : inv w →
  (∀ e, swp subs_step inv (k (inr e)) w Q) →
  (∀ l, (∀ s, s ∈ l ↔ w !! ss_NQN s = Some s) → swp subs_step inv (k (inl l)) w Q) →
  swp subs_step inv (bind (CallSPDKRPCInto "nvmf_get_subsystems" []) k) w Q.
Proof.
  intros Hi He Hk. apply CallSPDKRPCInto_swp with (V := λ l, ∀ s, s ∈ l ↔ w !! ss_NQN s = Some s);
    [by intros ??|done| |by intros out [H _]; apply H|done|done].
  intros w'. apply subs_quiet. set_solver.
Qed.

End Inv.

Lemma findNQN_listing w l n : subs_ok w → (∀ s, s ∈ l ↔ w !! ss_NQN s = Some s) → findNQN n l = w !! n.
Proof.
  intros Hok Hl. assert (∀ s, findNQN n l = Some s → s ∈ l ∧ ss_NQN s = n) as Hs.
  { clear. induction l as [|a l IH]; intros s; simpl; [done|]. destruct (bool_decide_reflect (ss_NQN a = n)) as [E|E].
    - intros [= <-]. split; [left|done].
    - intros [??]%IH. split; [by right|done]. }
  assert (findNQN n l = None → ∀ s, s ∈ l → ss_NQN s ≠ n) as Hn.
  { clear. induction l as [|a l IH]; simpl; [by intros _ s ?%elem_of_nil|].
    destruct (bool_decide_reflect (ss_NQN a = n)) as [E|E]; [done|]. intros H s [->|]%elem_of_cons; [done|by apply IH]. }
  destruct (findNQN n l) as [s|] eqn:E.
  - destruct (Hs s eq_refl) as [Hin <-]. symmetry. by apply Hl.
  - destruct (w !! n) as [s|] eqn:Ew; [|done]. pose proof (Hok n s Ew). subst n. exfalso. by apply (Hn eq_refl s), eq_refl; apply Hl.
Qed.

(** ** Host access *)

Section Access.
Variables nqn h : string.
Variable w0 : subsystems.
Hypothesis w0_ok : subs_ok w0.

Definition access_inv (w : subsystems) : Prop :=
  subs_ok w ∧ others_same nqn w0 w ∧ replaces w0 nqn h w.

(** The subsystem has changed, and nothing else. *)
Definition changed (s : spdkSubsystem) (w : subsystems) : Prop := w = <[nqn := s]> w0 ∧ ss_NQN s = nqn.

Lemma changed_ok s w : changed s w → subs_ok w ∧ others_same nqn w0 w.
Proof.
  intros [-> Hs]. split.
  - intros n s'. destruct (decide (n = nqn)) as [->|Hn]; [rewrite lookup_insert_eq; by intros [= <-]|].
    rewrite lookup_insert_ne by done. apply w0_ok.
  - intros n x Hn. simpl. unfold subs_open. by rewrite lookup_insert_ne.
Qed.

Lemma changed_open s w x : changed s w → subs_open w nqn x ↔ admits s x.
Proof. intros [-> _]. unfold subs_open. rewrite lookup_insert_eq. naive_solver. Qed.

Variable s0 : spdkSubsystem.
Hypothesis s0_here : w0 !! nqn = Some s0.

Lemma changed_self : changed s0 w0.
Proof. split; [by rewrite insert_id|by apply w0_ok]. Qed.

Lemma changed_alter s w f : changed s w → ss_NQN (f s) = ss_NQN s → changed (f s) (alter f nqn w).
Proof.
  intros [-> Hs] Hf. split; [|congruence]. apply map_eq. intros n. destruct (decide (n = nqn)) as [->|Hn]; by simplify_map_eq.
Qed.

Definition fewer (s : spdkSubsystem) : Prop := ∀ x, admits s x → admits s0 x.

Lemma fewer_inv s w : changed s w → fewer s → access_inv w.
Proof.
  intros Hc Hf. destruct (changed_ok s w Hc). split_and!; [done..|]. intros x Hx. left. simpl in *.
  exists s0. split; [done|]. apply Hf. by apply (changed_open s w x).
Qed.

Lemma only_inv s w : changed s w → (∀ x, admits s x ↔ x = h ∧ h ≠ "") → access_inv w ∧ exclusive nqn h w.
Proof.
  intros Hc Ha. destruct (changed_ok s w Hc). assert (exclusive nqn h w) as He.
  { intros x. simpl. rewrite (changed_open s w x Hc). apply Ha. }
  split; [|done]. split_and!; [done..|]. intros x Hx. right. apply He in Hx. split; [done|]. by intros y [-> _]%He.
Qed.

Lemma accessExact_admits any hosts s : accessExact any hosts h = true → any = ss_AllowAnyHost s → hosts = ss_Hosts s →
  ∀ x, admits s x ↔ x = h ∧ h ≠ "".
Proof.
  unfold accessExact, admits. intros Hx -> ->. apply andb_true_iff in Hx as [->%negb_true_iff Hx].
  destruct (bool_decide_reflect (h = "")) as [E|E]; apply bool_decide_eq_true in Hx as ->; set_solver.
Qed.

(** Removing the hosts one by one. *)
Lemma spdk_removeHosts_swp s w (Q : unit + error → subsystems → Prop) :
  changed s w → fewer s → ss_AllowAnyHost s = false → (∀ x, x ∈ ss_Hosts s → x ∈ ss_Hosts s0) →
  (∀ e w, access_inv w → Q (inr e) w) →
  (∀ s w, changed s w → (∀ x, ¬ admits s x) → Q (inl tt) w) →
  swp subs_step access_inv (for_each (ss_Hosts s0) tt (λ x _,
    let! c := ctxErr in
    match c with
    | Some e => Ret (inr (CtxError e))
    | None =>
      let! r := CallSPDKRPC "nvmf_subsystem_remove_host" [nqn; x] in
      match r with
      | Some err => Ret (inr (Wrap "disconnect and remove stale host" err))
      | None => Ret (inl tt)
      end
    end)) w Q.
Proof.
  intros Hc Hf Ha Hh HQe HQ. apply (swp_for_each _ _ _ (λ rest _ w, ∃ s, changed s w ∧ fewer s ∧ ss_AllowAnyHost s = false ∧
    ∀ x, x ∈ ss_Hosts s → x ∈ rest)).
  - clear s w Hc Hf Ha Hh. intros x rest [] w (s & Hc & Hf & Ha & Hh). pose proof (fewer_inv s w Hc Hf) as Hi.
    assert (∀ w', subs_effect ["nvmf_subsystem_remove_host"; nqn; x] w w' → ∃ s', changed s' w' ∧ fewer s' ∧
      ss_AllowAnyHost s' = false ∧ ∀ y, y ∈ ss_Hosts s' → y ∈ rest) as Hrem.
    { intros w' (_ & _ & He & _). rewrite (He nqn x eq_refl). eexists. split; [by apply (changed_alter s w _ Hc)|].
      unfold fewer, admits in *. simpl. split_and!; [|done|].
      - intros y [|[_ ?]%list_elem_of_filter]; [congruence|]. apply Hf. by right.
      - intros y [? Hy]%list_elem_of_filter. apply Hh in Hy. set_solver. }
    apply swp_vis; [done|]. intros c w' ->. cbn [bind]. destruct c as [e|]; [apply swp_ret; auto|].
    apply CallSPDKRPC_swp; [by intros ??|done| |].
    + intros w' [->|Hw]; [split; [done|]; intros e; apply swp_ret; auto|].
      destruct (Hrem w' Hw) as (s' & ? & ? & _). pose proof (fewer_inv s' w'). split; [auto|]. intros e. apply swp_ret; auto.
    + intros w' Hw. destruct (Hrem w' Hw) as (s' & Hs' & Hf' & ?). apply swp_ret; [by apply (fewer_inv s')|]. by exists s'.
  - intros [] w' (s' & Hs' & Hf' & Ha' & Hh'). split; [by apply (fewer_inv s')|]. apply (HQ s'); [done|].
    intros x [?|Hx]; [congruence|]. apply Hh' in Hx. set_solver.
  - exists s. done.
Qed.

(** Authorizing the host once nobody is. *)
Lemma authorize_swp s w : changed s w → (∀ x, ¬ admits s x) →
  swp subs_step access_inv
    (if h !=? "" then
       let! r := CallSPDKRPC "nvmf_subsystem_add_host" [nqn; h] in
       match r with
       | Some err => Ret (Some (Wrap "authorize host" err))
       | None => Ret None
       end
     else Ret None) w (λ r w, r = None → exclusive nqn h w).
Proof.
  intros Hc Hn. assert (access_inv w) as Hi by (apply (fewer_inv s); [done|by intros x ?%Hn]).
  destruct (bool_decide_reflect (h = "")) as [E|E]; simpl.
  { apply swp_ret; [done|]. intros _ x. simpl. rewrite (changed_open s w x Hc). split; [by intros ?%Hn|by intros []]. }
  assert (∀ w', subs_effect ["nvmf_subsystem_add_host"; nqn; h] w w' → access_inv w' ∧ exclusive nqn h w') as Hadd.
  { intros w' (_ & _ & _ & He & _). rewrite (He nqn h eq_refl). eapply only_inv; [by apply (changed_alter s w _ Hc)|].
    intros x. unfold admits in *. simpl. rewrite elem_of_app, list_elem_of_singleton. specialize (Hn x). naive_solver. }
  apply CallSPDKRPC_swp; [by intros ??|done| |].
  - intros w' [->|Hw]; (split; [by apply Hi || by apply Hadd|]); intros e; by apply swp_ret; [apply Hi || apply Hadd|].
  - intros w' [??]%Hadd. by apply swp_ret.
Qed.

End Access.

Lemma spdk_ReconcileHostAccess_swp nqn h w0 : subs_ok w0 →
  swp subs_step (access_inv nqn h w0) (ReconcileHostAccess nqn h) w0 (λ r w, r = None → exclusive nqn h w).
Proof.
  intros Hok. assert (access_inv nqn h w0 w0) as Hi by (split_and!; [done|done|by left]). unfold ReconcileHostAccess.
  apply swp_vis; [done|]. intros c w ->. cbn [bind]. destruct c; [by apply swp_ret|].
  apply listing_swp; [done|intros; by apply swp_ret|]. intros l Hl. rewrite (findNQN_listing w0 l nqn Hok Hl).
  destruct (w0 !! nqn) as [s0|] eqn:Es; [|by apply swp_ret]. pose proof (changed_self nqn w0 Hok s0 Es) as Hself.
  destruct (accessExact _ _ _) eqn:Ex.
  { apply swp_ret; [done|]. intros _. eapply only_inv; [done|done|]. by eapply accessExact_admits. }
  set (rest := for_each (ss_Hosts s0) tt _). set (fin := λ r : unit + error, match r with inl _ => _ | inr err => Ret (Some err) end).
  assert (∀ w, changed nqn w0 (set_any false s0) w → swp subs_step (access_inv nqn h w0)
    (bind rest fin) w (λ r w, r = None → exclusive nqn h w)) as Hrest.
  { intros w Hc. apply swp_bind, (spdk_removeHosts_swp nqn h w0 Hok s0 Es (set_any false s0)); [done| |done|done| |].
    - intros x [|]; [done|by right].
    - intros e w' Hw. by apply swp_ret.
    - intros s w' Hs Hn. by apply (authorize_swp nqn h w0 Hok s0 Es s). }
  destruct (ss_AllowAnyHost s0) eqn:Ea.
  - assert (∀ w', subs_effect ["nvmf_subsystem_allow_any_host"; nqn; "-d"] w0 w' → changed nqn w0 (set_any false s0) w') as Hd.
    { intros w' (_ & He & _). rewrite (He nqn eq_refl). by eapply changed_alter. }
    apply CallSPDKRPC_swp; [by intros ??|done| |].
    + intros w' [->|Hw%Hd]; (split; [|intros e; apply swp_ret; [|done]]); try done;
        (eapply (fewer_inv nqn h w0 Hok s0 Es); [done|]); by left.
    + intros w' Hw. by apply Hrest, Hd.
  - apply Hrest. replace (set_any false s0) with s0; [done|]. destruct s0. unfold set_any. simpl in *. by subst.
Qed.

(** ** Unexporting *)

Definition unexport_inv (nqn : string) (w0 w : subsystems) : Prop :=
  subs_ok w ∧ others_same nqn w0 w ∧ ∀ x, connected w nqn x → connected w0 nqn x.

Lemma existsb_listing w l n : subs_ok w → (∀ s, s ∈ l ↔ w !! ss_NQN s = Some s) →
  existsb (λ s, ss_NQN s ==? n) l = bool_decide (is_Some (w !! n)).
Proof.
  intros Hok Hl. rewrite <- (findNQN_listing w l n Hok Hl). clear. induction l as [|a l IH]; simpl; [done|].
  destruct (bool_decide_reflect (ss_NQN a = n)) as [E|E]; simpl; done.
Qed.

Lemma subsystemExists_swp {A} inv nqn (k : result bool → host A) w Q : inv w → subs_ok w →
  (∀ e, swp subs_step inv (k (inr e)) w Q) → swp subs_step inv (k (inl (bool_decide (is_Some (w !! nqn))))) w Q →
  swp subs_step inv (bind (subsystemExists nqn) k) w Q.
Proof.
  intros Hi Hok He Hk. unfold subsystemExists. apply swp_bind, listing_swp; [done|intros; by apply swp_ret|].
  intros l Hl. apply swp_ret; [done|]. by rewrite (existsb_listing w l nqn Hok Hl).
Qed.

Lemma spdk_UnexportVolume_swp nqn w0 : subs_ok w0 →
  swp subs_step (unexport_inv nqn w0) (UnexportVolume nqn) w0 (λ r w, r = None → ∀ x, ¬ connected w nqn x).
Proof.
  intros Hok. assert (unexport_inv nqn w0 w0) as Hi by done. unfold UnexportVolume.
  assert (∀ w x, bool_decide (is_Some (w !! nqn)) = false → ¬ subs_open w nqn x) as Hno.
  { intros w x H%bool_decide_eq_false [s [Hs _]]. apply H. eauto. }
  apply subsystemExists_swp; [done|done|intros; by apply swp_ret|].
  destruct (bool_decide (is_Some (w0 !! nqn))) eqn:E; [|apply swp_ret; [done|]; intros _ x; by apply Hno].
  assert (∀ w', subs_effect ["nvmf_delete_subsystem"; nqn] w0 w' → unexport_inv nqn w0 w') as Hd.
  { intros w' (_ & _ & _ & _ & He & _). rewrite (He nqn eq_refl). split_and!.
    - intros n s [_ Hs]%lookup_delete_Some. by apply Hok.
    - intros n x Hn. simpl. unfold subs_open. by rewrite lookup_delete_ne.
    - intros x (s & Hs & _). by rewrite lookup_delete_eq in Hs. }
  assert (∀ w' r, unexport_inv nqn w0 w' → swp subs_step (unexport_inv nqn w0)
    (bind (subsystemExists nqn) (λ r', match r' with
       | inr err => Ret (Some (Wrap "verify SPDK subsystem absence" err))
       | inl false => Ret None
       | inl true => Ret (Some (match r with Some e => Wrap "failed to delete SPDK subsystem" e
                                | None => Errorf "SPDK subsystem still exists after deletion" end))
       end)) w' (λ r w, r = None → ∀ x, ¬ connected w nqn x)) as Hafter.
  { intros w' r Hw. apply subsystemExists_swp; [done|apply Hw|intros; by apply swp_ret|].
    destruct (bool_decide (is_Some (w' !! nqn))) eqn:E'; (apply swp_ret; [done|]); [done|]. intros _ x. by apply Hno. }
  apply CallSPDKRPC_swp; [by intros ??|done| |].
  - intros w' [->|Hw%Hd]; (split; [done|]); intros e; by apply (Hafter _ (Some e)).
  - intros w' Hw%Hd. by apply (Hafter _ None).
Qed.

#[export] Instance spdk_contract : TargetBackendContract spdk_target ReconcileHostAccess UnexportVolume.
Proof.
  split.
  - intros w0 nqn h Hok _ _. by apply spdk_ReconcileHostAccess_swp.
  - intros w0 nqn Hok _. by apply spdk_UnexportVolume_swp.
Qed.

(** ** Exporting *)

(** Operations that change no subsystem of a target that keeps running. *)
Definition subs_quiet_op (o : hostOp) : Prop :=
  match o with
  | Exec _ cmd args => cmd = spdkRPCExecutable → ∃ m rest, args = m :: rest ∧ m ∉ changing
  | _ => True
  end.

Lemma subs_quiet_step w o x w' : subs_quiet_op o → subs_step w o x w' → w' = w ∨ w' = ∅.
Proof.
  unfold subs_step, rpc_step. destruct o as [| | | | | | | | | | | | | | |env cmd args| | | | | | | | | |];
    try (by intros _ H; simpl in H; auto).
  simpl. destruct (bool_decide_reflect (cmd = spdkRPCExecutable)) as [->|E]; [|by left].
  intros Hq. destruct (Hq eq_refl) as (m & rest & -> & Hm). destruct x as [out [e|]].
  - intros [->|H]; [by left|]. left. by apply (subs_quiet m rest).
  - intros [H _]. left. by apply (subs_quiet m rest).
Qed.

Lemma CallSPDKRPC_performs m args : m ∉ changing → performs subs_quiet_op (CallSPDKRPC m args).
Proof. intros Hm. unfold CallSPDKRPC, runSPDKRPC. by performs; [intros _; eauto|]. Qed.

Lemma CallSPDKRPCInto_performs {B} `{Unmarshal B} m args : m ∉ changing → performs subs_quiet_op (CallSPDKRPCInto (A := B) m args).
Proof. intros Hm. unfold CallSPDKRPCInto, runSPDKRPC. by performs; [intros _; eauto|]. Qed.

Lemma EnsureSPDKRunning_performs mask : performs subs_quiet_op (EnsureSPDKRunning mask).
Proof.
  assert (performs subs_quiet_op waitForSPDKRPC) as Hwait.
  { unfold waitForSPDKRPC. performs; [|done]. apply CallSPDKRPCInto_performs. set_solver. }
  assert (∀ e, performs subs_quiet_op (failStart e)) as Hfail.
  { intros e. unfold failStart, stopManagedSPDKProcess. by performs. }
  unfold EnsureSPDKRunning, inspectRunningSPDKProcess, startSPDK, spdkIobufPoolArgs, raiseMemlockLimit, configurePools.
  performs; try done; apply CallSPDKRPC_performs; set_solver.
Qed.

Lemma EnsureNVMeTransport_performs : performs subs_quiet_op EnsureNVMeTransport.
Proof.
  unfold EnsureNVMeTransport, spdkNVMfTransportArgs.
  performs; try done; (apply CallSPDKRPCInto_performs || apply CallSPDKRPC_performs); set_solver.
Qed.

Section Export.
Variables (nqn blockPath ip : string) (port : Z).
Variable w0 : subsystems.
Hypothesis w0_ok : subs_ok w0.

(** The other subsystems are as they were, unless the target was restarted. *)
Definition frame (w : subsystems) : Prop :=
  (∀ n, n ≠ nqn → w !! n = w0 !! n) ∨ (∀ n, n ≠ nqn → w !! n = None).

Definition export_inv (w : subsystems) : Prop :=
  subs_ok w ∧ frame w ∧ ∀ n x, connected w n x → connected w0 n x.

(** The volume is published at the portal. *)
Definition exported (w : subsystems) : Prop :=
  ∃ s, w !! nqn = Some s ∧ namespaceMatches (identities blockPath) s = true ∧ listenerMatches ip port s = true.

Definition untouched (w : subsystems) : Prop := w = w0 ∨ w = ∅.

(** Nobody can connect to the subsystem. *)
Definition off (w : subsystems) : Prop := subs_ok w ∧ frame w ∧ ∀ x, ¬ subs_open w nqn x.

Definition made (s : spdkSubsystem) (w : subsystems) : Prop := off w ∧ w !! nqn = Some s.

Lemma off_inv w : off w → export_inv w.
Proof.
  intros (Hok & Hf & Hn). split_and!; [done..|]. intros n x Hx. destruct (decide (n = nqn)) as [->|E]; [by apply Hn in Hx|].
  destruct Hx as (s & Hs & Hx). destruct Hf as [Hf|Hf]; rewrite Hf in Hs by done; [by exists s|done].
Qed.

Lemma untouched_inv w : untouched w → export_inv w.
Proof.
  intros [->| ->]; split_and!; [done|by left|done|by intros ??|by right|]. by intros n x (s & ? & _).
Qed.

Lemma off_empty : off ∅.
Proof. split_and!; [by intros ??|by right|]. by intros x (s & ? & _). Qed.

Lemma untouched_off w : untouched w → w !! nqn = None → off w.
Proof.
  intros Hu Hn. destruct (untouched_inv w Hu) as (? & ? & _). split_and!; [done..|]. intros x (s & Hs & _). congruence.
Qed.

Lemma off_delete w : export_inv w → off (delete nqn w).
Proof.
  intros (Hok & Hf & _). split_and!.
  - intros n s [_ Hs]%lookup_delete_Some. by apply Hok.
  - destruct Hf as [Hf|Hf]; [left|right]; intros n Hn; rewrite lookup_delete_ne by done; by apply Hf.
  - intros x (s & Hs & _). by rewrite lookup_delete_eq in Hs.
Qed.

Lemma made_fresh w : off w → made (fresh_subsystem nqn) (<[nqn := fresh_subsystem nqn]> w).
Proof.
  intros (Hok & Hf & _). split; [|by rewrite lookup_insert_eq]. split_and!.
  - intros n s. destruct (decide (n = nqn)) as [->|Hn]; [rewrite lookup_insert_eq; by intros [= <-]|].
    rewrite lookup_insert_ne by done. apply Hok.
  - destruct Hf as [Hf|Hf]; [left|right]; intros n Hn; rewrite lookup_insert_ne by done; by apply Hf.
  - intros x (s & Hs & Hx). rewrite lookup_insert_eq in Hs. injection Hs as <-. destruct Hx as [|Hx]; [done|]. by apply elem_of_nil in Hx.
Qed.

Lemma made_alter s w f : made s w → ss_NQN (f s) = ss_NQN s → (∀ x, admits (f s) x → admits s x) → made (f s) (alter f nqn w).
Proof.
  intros [(Hok & Hf & Hn) Hs] Hq Ha. assert (alter f nqn w !! nqn = Some (f s)) as E by (by rewrite lookup_alter_eq, Hs).
  split; [|done]. split_and!.
  - intros n s'. destruct (decide (n = nqn)) as [->|Hne].
    + rewrite E. intros [= <-]. rewrite Hq. by apply Hok.
    + rewrite lookup_alter_ne by done. apply Hok.
  - destruct Hf as [Hf|Hf]; [left|right]; intros n Hne; rewrite lookup_alter_ne by done; by apply Hf.
  - intros x (s' & Hs' & Hx). rewrite E in Hs'. injection Hs' as <-. apply (Hn x). exists s. auto.
Qed.

Lemma quiet_swp {A} (p : host A) (J : subsystems → Prop) w : (∀ w, J w → export_inv w) → J ∅ →
  performs subs_quiet_op p → J w → swp subs_step export_inv p w (λ _ w', J w').
Proof.
  intros HJ He Hp Hw. apply (swp_weaken _ J); [done|]. apply (swp_performs subs_quiet_op); [|done|done].
  intros w1 o x w2 Ho H1 Hs. by destruct (subs_quiet_step w1 o x w2 Ho Hs) as [->| ->].
Qed.

Lemma inspectExport_swp options :
  swp subs_step export_inv (inspectExport nqn blockPath ip port options) w0 (λ r w, untouched w ∧
    match r.1 with
    | spdkExportHealthy => exported w
    | spdkExportMissing => w !! nqn = None
    | _ => True
    end).
Proof.
  unfold inspectExport. apply swp_bind. eapply swp_mono; [|apply (quiet_swp _ untouched); [apply untouched_inv|by right
    |apply EnsureSPDKRunning_performs|by left]].
  intros [e|] w Hi Hu; [by apply swp_ret|]. unfold findSubsystem. apply swp_bind, listing_swp; [done|intros; by do 2 (apply swp_ret; [done|])|].
  intros l Hl. apply swp_ret; [done|]. rewrite (findNQN_listing w l nqn) by (done || apply Hi).
  destruct (w !! nqn) as [s|] eqn:Es; [|by apply swp_ret].
  unfold spdkBdevIdentities. apply swp_bind, CallSPDKRPCInto_swp with (V := eq (backing blockPath)); [by intros ??|done|..].
  - intros w' Hw. eapply subs_quiet; [|done]. set_solver.
  - intros out [_ H]. exists (backing blockPath). split; [by apply H|done].
  - intros e. by do 2 (apply swp_ret; [done|]).
  - intros v <-. pose proof (eq_refl (identities blockPath)) as Hid. unfold identities in Hid at 1.
    destruct (backing blockPath) as [|b bs]; [by do 2 (apply swp_ret; [done|])|]. apply swp_ret; [done|]. cbv zeta. rewrite Hid.
    destruct (namespaceMatches _ _) eqn:En; [|by apply swp_ret]. destruct (listenerMatches _ _ _) eqn:El; [|by apply swp_ret].
    apply swp_ret; [done|]. split; [done|]. by exists s.
Qed.

(** What follows an RPC about the subsystem: one that succeeds has its effect, one
    that fails perhaps. *)
Lemma made_step_swp {A} s (s' : spdkSubsystem → Prop) m args w (k : option error → host A) Q : made s w →
  (∀ w', subs_effect (m :: args) w w' → ∃ s2, s' s2 ∧ made s2 w') →
  (∀ e w', off w' → swp subs_step export_inv (k (Some e)) w' Q) →
  (∀ s2 w', s' s2 → made s2 w' → swp subs_step export_inv (k None) w' Q) →
  swp subs_step export_inv (bind (CallSPDKRPC m args) k) w Q.
Proof.
  intros Hm Heff He Hk. apply CallSPDKRPC_swp; [by intros ??|by apply off_inv, Hm| |].
  - intros w' Hw. assert (off w') as Ho by (destruct Hw as [->|Hw]; [apply Hm|]; by destruct (Heff w' Hw) as (? & _ & ? & _)).
    split; [by apply off_inv|]. intros e. by apply He.
  - intros w' Hw. destruct (Heff w' Hw) as (s2 & ? & ?). by apply (Hk s2).
Qed.

Lemma orDelete_fail_swp msg e w (k : host (result string)) Q : off w → (∀ w, Q (inr (Wrap msg e)) w) →
  swp subs_step export_inv (orDelete nqn msg (Some e) k) w Q.
Proof.
  intros Ho HQ. simpl. assert (∀ w', subs_effect ["nvmf_delete_subsystem"; nqn] w w' → off w') as Hd.
  { intros w' (_ & _ & _ & _ & He & _). rewrite (He nqn eq_refl). by apply off_delete, off_inv. }
  apply CallSPDKRPC_swp; [by intros ??|by apply off_inv| |].
  - intros w' [->|Hw%Hd]; (split; [by apply off_inv|]); intros _; apply swp_ret; auto using off_inv.
  - intros w' Hw%Hd. apply swp_ret; auto using off_inv.
Qed.

Lemma EnsureNVMeTransport_swp w : off w →
  swp subs_step export_inv EnsureNVMeTransport w (λ r w', off w' ∧ ∀ d, r ≠ Some (ObservationErr d)).
Proof.
  intros Ho. pose proof (off_inv w Ho) as Hi. unfold EnsureNVMeTransport, spdkNVMfTransportArgs.
  assert (∀ args, swp subs_step export_inv
    (let! t := CallSPDKRPCInto (A := list transport) "nvmf_get_transports" [] in
     match t with
     | inr err => Ret (Some (Wrap "failed to list SPDK NVMe-oF transports" err))
     | inl transports =>
       if existsb (λ t, EqualFold (transport_Trtype t) "RDMA") transports then Ret None
       else
         let! r := CallSPDKRPC "nvmf_create_transport" args in
         match r with
         | Some err => Ret (Some (Wrap "failed to create SPDK RDMA transport" err))
         | None => Ret None
         end
     end) w (λ r w', off w' ∧ ∀ d, r ≠ Some (ObservationErr d))) as Hmain.
  { intros args. apply swp_bind. eapply swp_mono; [|apply (quiet_swp _ off); [apply off_inv|apply off_empty
      |apply CallSPDKRPCInto_performs; set_solver|done]].
    intros [ts|e] w1 _ Ho1; [|by apply swp_ret; [apply off_inv|]]. destruct (existsb _ ts); [by apply swp_ret; [apply off_inv|]|].
    apply swp_bind. eapply swp_mono; [|apply (quiet_swp _ off); [apply off_inv|apply off_empty
      |apply CallSPDKRPC_performs; set_solver|done]].
    intros [e|] w2 _ Ho2; by apply swp_ret; [apply off_inv|]. }
  apply swp_vis; [done|]. intros depth w' ->. cbn [bind]. destruct (depth ==? ""); [apply Hmain|].
  destruct (negb _); [by apply swp_ret|apply Hmain].
Qed.

Lemma createExport_swp w : off w → swp subs_step export_inv (createExport nqn blockPath ip port) w
  (λ r w, (∀ n, r = inl n → n = nqn ∧ exported w) ∧ ∀ d, r ≠ inr (ObservationErr d)).
Proof.
  intros Ho. unfold createExport. apply swp_bind. eapply swp_mono; [|by apply EnsureNVMeTransport_swp].
  intros [e|] w1 Hi1 [Ho1 Hd]; [apply swp_ret; [done|]; naive_solver|]. clear w Ho Hd.
  apply CallSPDKRPC_swp; [by intros ??|done| |].
  { intros w2 Hw. assert (off w2) as Ho2.
    { destruct Hw as [->|(_ & _ & _ & _ & _ & He & _)]; [done|].
      destruct (He nqn "-s" "distort" eq_refl) as [_ ->]. by apply made_fresh. }
    split; [by apply off_inv|]. intros e. by apply swp_ret; [apply off_inv|]. }
  intros w2 (_ & _ & _ & _ & _ & He & _). destruct (He nqn "-s" "distort" eq_refl) as [_ ->]. clear He.
  apply (made_step_swp (fresh_subsystem nqn) (λ s, namespaceMatches (identities blockPath) s = true)); [by apply made_fresh|..].
  { intros w3 (_ & _ & _ & _ & _ & _ & He & _). destruct (He nqn blockPath eq_refl) as (d & _ & Hd & ->). eexists.
    split; [|by apply (made_alter (fresh_subsystem nqn)); [by apply made_fresh|..]].
    unfold namespaceMatches. simpl. by rewrite (bool_decide_true _ Hd), orb_true_r. }
  { intros e w3 Ho3. by apply orDelete_fail_swp. }
  intros s w3 Hs Hm. apply (made_step_swp s (λ s, namespaceMatches (identities blockPath) s = true ∧ listenerMatches ip port s = true));
    [done|..].
  { intros w4 (_ & _ & _ & _ & _ & _ & _ & He). rewrite (He nqn "RDMA" ip (Itoa port) eq_refl). eexists.
    split; [|by apply (made_alter s)]. split; [done|]. unfold listenerMatches. simpl. rewrite existsb_app. simpl.
    by rewrite !bool_decide_true, orb_true_r by done. }
  { intros e w4 Ho4. by apply orDelete_fail_swp. }
  intros s2 w4 [Hns Hl] [Ho4 Hs4]. apply swp_ret; [by apply off_inv|]. split; [|done]. intros n [= <-]. split; [done|]. by exists s2.
Qed.

End Export.

(** Exporting publishes the volume when it succeeds, opens no subsystem to
    anybody, and touches nothing when the target could not be observed. *)
Lemma ExportVolume_swp vol blockPath ip port options w0 : subs_ok w0 →
  swp subs_step (export_inv (VolumeIdentity.NQN vol) w0) (ExportVolume vol blockPath ip port options) w0
    (λ r w, (∀ n, r = inl n → n = VolumeIdentity.NQN vol ∧ exported n blockPath ip port w) ∧
            ∀ d, r = inr (ObservationErr d) → untouched w0 w).
Proof.
  intros Hok. unfold ExportVolume. cbv zeta. apply swp_bind. eapply swp_mono; [|by apply inspectExport_swp].
  intros [[] e] w Hi [Hu Hst]; simpl in Hst.
  - apply swp_ret; [done|]. naive_solver.
  - eapply swp_mono; [|by apply createExport_swp, untouched_off]. naive_solver.
  - assert (∀ w', subs_effect ["nvmf_delete_subsystem"; VolumeIdentity.NQN vol] w w' → off (VolumeIdentity.NQN vol) w0 w') as Hd.
    { intros w' (_ & _ & _ & _ & He & _). rewrite (He _ eq_refl). by apply off_delete. }
    apply CallSPDKRPC_swp; [by intros ??|done| |].
    + intros w' [->|Hw%Hd]; (split; [by apply Hi || by apply off_inv|]); intros e'; by apply swp_ret; [apply Hi || apply off_inv|].
    + intros w' Hw%Hd. eapply swp_mono; [|by apply createExport_swp]. naive_solver.
  - apply swp_ret; [done|]. naive_solver.
Qed.

End Spdk.

(** C9: in every state of every run of ReconcileHostAccess of the SPDK backend,
    through RPC failures of any kind, the other subsystems admit exactly the hosts
    they did, and a host the subsystem did not admit before is the requested one
    and the only one admitted; when it returns nil exactly the requested host is
    admitted, nobody when it is empty. *)
Theorem spdk_access_exclusive `{Quoting} `{Unmarshal (list spdkSubsystem)} `{Unmarshal (list Lvol.spdkBdev)} backing nqn h w0 q w :
  subs_ok w0 →
  reaches (subs_step backing) (ReconcileHostAccess nqn h) w0 q w →
  (∀ n x, n ≠ nqn → subs_open w n x ↔ subs_open w0 n x) ∧
  (∀ x, subs_open w nqn x → subs_open w0 nqn x ∨ (x = h ∧ h ≠ "") ∧ ∀ y, subs_open w nqn y → y = h) ∧
  (q = Ret None → ∀ x, subs_open w nqn x ↔ x = h ∧ h ≠ "").
Proof.
  intros Hok Hr. destruct (swp_sound _ _ _ _ _ _ _ (spdk_ReconcileHostAccess_swp backing nqn h w0 Hok) Hr) as [(_ & ? & ?) HQ].
  split_and!; [done..|]. intros Hq. by apply (HQ None).
Qed.

(** C29: in every state of every run of ExportVolume of the SPDK backend, through
    failures of any kind and restarts of the target, no subsystem admits a host it
    did not admit before and the other subsystems are as they were, or all gone
    with the process; when an NQN is returned, the volume's subsystem has the
    backing device as a namespace and listens on the portal; and when the target
    could not be observed, no subsystem was changed. *)
Theorem spdk_export_safe `{Quoting} `{Unmarshal (list string)} `{Unmarshal (list transport)}
    `{Unmarshal (list spdkSubsystem)} `{Unmarshal (list Lvol.spdkBdev)} backing vol blockPath ip port options w0 q w :
  subs_ok w0 →
  reaches (subs_step backing) (ExportVolume vol blockPath ip port options) w0 q w →
  (∀ n x, subs_open w n x → subs_open w0 n x) ∧ frame (VolumeIdentity.NQN vol) w0 w ∧
  (∀ n, q = Ret (inl n) → n = VolumeIdentity.NQN vol ∧ exported backing n blockPath ip port w) ∧
  (∀ d, q = Ret (inr (ObservationErr d)) → w = w0 ∨ w = ∅).
Proof.
  intros Hok Hr. destruct (swp_sound _ _ _ _ _ _ _ (ExportVolume_swp backing vol blockPath ip port options w0 Hok) Hr)
    as [(_ & ? & ?) HQ]. split_and!; [done|done|intros n Hq; by apply (HQ (inl n) Hq)|].
  intros d Hq. by apply (proj2 (HQ _ Hq) d).
Qed.

(** ** A target *)

Module Example.

Definition admitting (hosts : list string) : spdkSubsystem :=
  {| ss_NQN := "n"; ss_AllowAnyHost := false; ss_Hosts := hosts; ss_Namespaces := []; ss_ListenAddresses := [] |}.
Definition state (hosts : list string) : subsystems := {[ "n" := admitting hosts ]}.
Definition bdev : Lvol.spdkBdev :=
  {| Lvol.bdev_Name := "b"; Lvol.bdev_UUID := "b"; Lvol.bdev_Aliases := []; Lvol.bdev_BlockSize := 512;
     Lvol.bdev_NumBlocks := 8; Lvol.bdev_LvolStoreUUID := None |}.
Definition backing (b : string) : list Lvol.spdkBdev := if b ==? "b" then [bdev] else [].

#[local] Instance quoting : Quoting := λ s, s.
#[local] Instance decode_methods : Unmarshal (list string) := λ s, inl [s].
#[local] Instance decode_transports : Unmarshal (list transport) := λ _, inl [].
#[local] Instance decode_subsystems : Unmarshal (list spdkSubsystem) :=
  λ s, inl (if s ==? "[old" then [admitting ["old"]] else []).
#[local] Instance decode_bdevs : Unmarshal (list Lvol.spdkBdev) := λ s, inl (backing s).
Local Notation step := (subs_step backing).

Lemma state_ok hosts : subs_ok (state hosts).
Proof. unfold state. intros n s [<- <-]%lookup_singleton_Some. done. Qed.

Lemma empty_ok : subs_ok ∅.
Proof. by intros ??. Qed.

(** An RPC that succeeds. *)
Lemma effect_run m args w w' : subs_effect backing (m :: args) w w' → m ∈ changing →
  reaches step (CallSPDKRPC m args) w (Ret None) w'.
Proof.
  intros He Hm. apply (CallSPDKRPC_run _ _ _ _ _ "" w w'); [done|]. split; intros; exfalso; simplify_eq;
    (apply (bool_decide_eq_true (_ ∈ changing)) in Hm; vm_compute in Hm; done).
Qed.

Lemma list_run w out l : unmarshal (rpcOutput out) = inl l → (∀ s, s ∈ l ↔ w !! ss_NQN s = Some s) →
  reaches step (CallSPDKRPCInto "nvmf_get_subsystems" []) w (Ret (inl l)) w.
Proof.
  intros Ho Hl. apply (CallSPDKRPCInto_run _ _ _ _ _ out l w w); [| |done].
  - apply effect_quiet. vm_compute. set_solver.
  - split; [by exists l|done].
Qed.

Lemma alter_state f hosts hosts' : f (admitting hosts) = admitting hosts' → state hosts' = alter f "n" (state hosts).
Proof. unfold state. intros Hf. rewrite <- Hf. symmetry. apply alter_singleton_eq. Qed.

Ltac changes := split_and!; try done;
  [intros m rest [= <- <-] Hm; exfalso; apply Hm, (bool_decide_eq_true (_ ∈ changing)); vm_compute; reflexivity|..].

Lemma spdk_access_run : reaches step (ReconcileHostAccess "n" "new") (state ["old"]) (Ret None) (state ["new"]).
Proof.
  unfold ReconcileHostAccess. eapply reaches_bind; [by apply (reaches_hcall _ CtxErrOp None (state ["old"]) (state ["old"]))|].
  eapply reaches_bind; [apply (list_run _ "[old" [admitting ["old"]]); [done|]|].
  { intros s. rewrite list_elem_of_singleton. unfold state. rewrite lookup_singleton_Some. split; [by intros ->|by intros [_ <-]]. }
  apply (reaches_bind _ _ _ None _ _ (state ["old"])); [apply reaches_refl|].
  apply (reaches_bind _ _ _ (inl tt) _ (state ["old"]) (state [])).
  - apply (reaches_bind _ _ _ (inl tt) _ _ (state [])); [|apply reaches_refl]. cbn beta.
    eapply reaches_bind; [by apply (reaches_hcall _ CtxErrOp None (state ["old"]) (state ["old"]))|]. cbn beta iota.
    eapply reaches_bind; [apply (effect_run _ _ (state ["old"]) (state []))|apply reaches_refl].
    + changes. intros n h [= <- <-]. by apply alter_state.
    + by right; left.
  - eapply reaches_bind; [apply (effect_run _ _ (state []) (state ["new"]))|apply reaches_refl].
    + changes. intros n h [= <- <-]. by apply alter_state.
    + by right; right; left.
Qed.

Definition options : gmap string string := {[ SPDKCoreMaskOption := "0x1" ]}.
Definition published : spdkSubsystem :=
  add_listener {| Trtype := "RDMA"; Traddr := "10.0.0.1"; Trsvcid := "4420" |}
    (add_namespace {| ns_Name := ""; ns_BdevName := "b" |} (fresh_subsystem (VolumeIdentity.NQN "v"))).

Lemma quiet_run `{Unmarshal B} m args out (v : B) w : m ∉ changing → m ≠ "nvmf_get_subsystems" → m ≠ "bdev_get_bdevs" →
  unmarshal (rpcOutput out) = inl v → reaches step (CallSPDKRPCInto m args) w (Ret (inl v)) w.
Proof.
  intros Hm H1 H2 Ho. apply (CallSPDKRPCInto_run _ _ _ _ _ out v w w); [by apply effect_quiet| |done]. split; intros; simplify_eq.
Qed.

Lemma running_run w : reaches step (EnsureSPDKRunning (default "" (options !! SPDKCoreMaskOption))) w (Ret None) w.
Proof.
  unfold EnsureSPDKRunning. assert (canonicalSPDKCoreMask (default "" (options !! SPDKCoreMaskOption)) = inl "0x1") as -> by (vm_compute; reflexivity).
  eapply reaches_bind; [by apply (reaches_hcall _ ManagedTarget false w w)|].
  apply (reaches_bind _ _ _ tt _ _ w); [apply reaches_refl|].
  apply (reaches_bind _ _ _ (inl {| running := true; coreMask := "0x1" |}) _ _ w).
  - unfold inspectRunningSPDKProcess. eapply reaches_bind; [by apply (reaches_command _ _ _ ("42", None) w w)|].
    eapply reaches_bind; [by apply (reaches_hcall _ (ReadFile (filepath_Join ["/proc"; "42"; "cmdline"]))
      (inl ("nvmf_tgt" +:+ String nul ("-m" +:+ String nul "0x1"))) w w)|]. apply reaches_refl.
  - unfold waitForSPDKRPC. apply (reaches_bind _ _ _ (inr None) _ _ w); [|apply reaches_refl].
    apply (reaches_bind _ _ _ (inr None) _ _ w); [|apply reaches_refl].
    eapply reaches_bind; [apply (quiet_run _ _ "" [""]); [vm_compute; set_solver|done..]|apply reaches_refl].
Qed.

Lemma inspect_run : reaches step (inspectExport (VolumeIdentity.NQN "v") "b" "10.0.0.1" 4420 options) ∅
  (Ret (spdkExportMissing, Errorf "SPDK subsystem is missing")) ∅.
Proof.
  unfold inspectExport. eapply reaches_bind; [apply running_run|]. unfold findSubsystem.
  apply (reaches_bind _ _ _ (inl None) _ _ ∅); [|apply reaches_refl].
  eapply reaches_bind; [apply (list_run ∅ "[" []); [done|]|apply reaches_refl]. intros s. split; [by intros ?%elem_of_nil|done].
Qed.

Lemma transport_run : reaches step EnsureNVMeTransport ∅ (Ret None) ∅.
Proof.
  unfold EnsureNVMeTransport, spdkNVMfTransportArgs. apply (reaches_bind _ _ _ (inl ["-t"; "RDMA"; "-u"; "8192"; "-i"; "131072"; "-c"; "8192"]) _ _ ∅).
  - eapply reaches_bind; [by apply (reaches_hcall _ (Getenv _) "" ∅ ∅)|apply reaches_refl].
  - eapply reaches_bind; [apply (quiet_run (B := list transport) _ _ "" []); [vm_compute; set_solver|done..]|]. cbn [existsb].
    apply (reaches_bind _ _ _ None _ _ ∅); [|apply reaches_refl]. apply (CallSPDKRPC_run _ _ _ _ _ "" ∅ ∅); [apply effect_quiet; vm_compute; set_solver|done].
Qed.

Lemma spdk_create_run : reaches step (createExport (VolumeIdentity.NQN "v") "b" "10.0.0.1" 4420) ∅
  (Ret (inl (VolumeIdentity.NQN "v"))) {[ VolumeIdentity.NQN "v" := published ]}.
Proof.
  unfold createExport. eapply reaches_bind; [apply transport_run|].
  set (n := VolumeIdentity.NQN "v"). set (fresh := {[ n := fresh_subsystem n ]} : subsystems).
  set (d := {| ns_Name := ""; ns_BdevName := "b" |}). set (w2 := {[ n := add_namespace d (fresh_subsystem n) ]} : subsystems).
  eapply reaches_bind; [apply (effect_run _ _ ∅ fresh); [|by do 4 right; left]|].
  { changes. by intros n' a b [= <- <- <-]. }
  eapply reaches_bind; [apply (effect_run _ _ fresh w2); [|by do 5 right; left]|].
  { changes. intros n' b [= <- <-]. exists d. split_and!; [done| |symmetry; apply alter_singleton_eq].
    apply (bool_decide_eq_true (_ ∈ identities backing "b")). vm_compute. reflexivity. }
  unfold orDelete at 1. eapply reaches_bind; [apply (effect_run _ _ w2 {[ n := published ]}); [|by do 6 right; left]|apply reaches_refl].
  changes. intros n' t a p [= <- <- <- <-]. symmetry. apply alter_singleton_eq.
Qed.

Lemma export_run : reaches step (ExportVolume "v" "b" "10.0.0.1" 4420 options) ∅
  (Ret (inl (VolumeIdentity.NQN "v"))) {[ VolumeIdentity.NQN "v" := published ]}.
Proof. unfold ExportVolume. cbv zeta. eapply reaches_bind; [apply inspect_run|apply spdk_create_run]. Qed.

End Example.

Lemma spdk_access_exclusive_witness : subs_open (Example.state ["new"]) "n" "old" ↔ "old" = "new" ∧ "new" ≠ "".
Proof.
  exact (proj2 (proj2 (@spdk_access_exclusive Example.quoting Example.decode_subsystems Example.decode_bdevs
    Example.backing "n" "new" (Example.state ["old"]) _ _ (Example.state_ok ["old"]) Example.spdk_access_run)) eq_refl "old").
Defined.

Lemma spdk_export_safe_witness :
  exported Example.backing (VolumeIdentity.NQN "v") "b" "10.0.0.1" 4420 {[ VolumeIdentity.NQN "v" := Example.published ]}.
Proof.
  exact (proj2 (proj1 (proj2 (proj2 (@spdk_export_safe Example.quoting Example.decode_methods Example.decode_transports
    Example.decode_subsystems Example.decode_bdevs Example.backing "v" "b" "10.0.0.1" 4420 Example.options ∅ _ _
    Example.empty_ok Example.export_run))) _ eq_refl)).
Defined.
