(* ===== verification/PartitionManager.v ===== *)
(** * The partition manager of the agent

    Models src/internal/agent/partition_manager.go: the reconciler that, on the
    node of a partition, authorizes the allocation, prepares the device, carves
    the volume, exports it, keeps host access exclusive, and takes everything
    down again before it lets the partition go. *)

From S2P Require Import Prelude GoStrings Encoding Capacity ApiTypes Identity Options RdmaHealth Prog Kube.
From S2P Require Import Placement ClaimController Plugins.
Import Plugins.

Module PartitionManager.

Definition partitionFinalizer : string := "storage.distort.io/partition-cleanup".
Definition claimAuthorizationCondition : string := "ClaimAuthorized".
Definition placementNotAuthorizedReason : string := "PlacementNotAuthorized".
Definition partitionProvisioningCondition : string := "ProvisioningReady".
Definition spdkTargetBackend : string := "spdk".
Definition exportedHealthInterval : Z := 15 * Second.
Definition partitionRetryInterval : Z := 5 * Second.

Section Manager.
Context `{AM : ApiMachinery}.
(** The text of an error. *)
Variable Error : error → string.
(** The registered plugins. *)
Variable plugins : Registry.
(** The node of this agent. *)
Variable NodeName : string.

(** ** Identities *)

Definition partitionHasTerminalFailure (partition : NVMePartition) : bool :=
  match FindStatusCondition (pt_Conditions (Status partition)) partitionProvisioningCondition with
  | None => false
  | Some condition =>
    (c_Status condition ==? ConditionFalse) &&
    (c_ObservedGeneration condition =? Generation (Meta partition)) && HasPrefix (c_Reason condition) "Terminal"
  end.

Definition identitiesForPartition (partition : NVMePartition) : string * string :=
  let derived := VolumeIdentity.New (Namespace (Meta partition)) (Name (Meta partition)) (UID (Meta partition)) in
  let externalID :=
    if pt_ExternalID (Status partition) ==? "" then
      match VolumeIdentity.ExternalIDFromNQN (pt_NQN (Status partition)), derived with
      | (legacyID, true), _ => legacyID
      | (_, false), inl id => VolumeIdentity.ExternalID id
      | (_, false), inr _ => Name (Meta partition)
      end
    else pt_ExternalID (Status partition) in
  let volumeID :=
    if pt_VolumeID (Status partition) ==? "" then
      match derived with inl id => VolumeIdentity.VolumeHandle id | inr _ => "" end
    else pt_VolumeID (Status partition) in
  (externalID, volumeID).

Definition backendVolumeIdentity (status : NVMePartitionStatus) : Plugins.VolumeIdentity :=
  {| BackendVolumeID := pt_BackendVolumeID status;
     CapacityBytes := Value (pt_AllocatedCapacity status);
     BaseBdev := pt_SPDKBaseBdev status;
     VolumeStoreName := pt_SPDKLvstoreName status;
     VolumeStoreUUID := pt_SPDKLvstoreUUID status;
     VolumeName := pt_SPDKLvolName status;
     VolumeUUID := pt_SPDKLvolUUID status |}.

(** ** Attachments *)

Definition attachmentForPartition (partition : NVMePartition) : agent (result (option NVMeVolumeAttachment)) :=
  let key := {| key_Namespace := Namespace (Meta partition);
                key_Name := Attachment.attachment_Name (UID (Meta partition)) |} in
  let! r := akube (Get Cached KAttachment key) in
  Ret (match r with
       | inr err => if IsNotFound err then Ok None else Err err
       | inl attachment => Ok (Some attachment)
       end).

Definition setAttachmentCondition (key : ObjectKey) (attachmentID : string)
    (conditionStatus : ConditionStatus) (reason message : string) : agent (option error) :=
  let! r := akube (Get Cached KAttachment key) in
  match r with
  | inr err => Ret (IgnoreNotFound err)
  | inl latest =>
    let base := latest in
    let status := set_at_ObservedAttachmentID
      (if conditionStatus ==? ConditionTrue then attachmentID else "") (Status latest) in
    let status := set_at_Conditions (SetStatusCondition (at_Conditions status)
      {| c_Type := Attachment.AccessReadyCondition; c_Status := conditionStatus;
         c_ObservedGeneration := Generation (Meta latest); c_Reason := reason; c_Message := message |}) status in
    let! r := akube (StatusPatch KAttachment base (with_Status status latest)) in
    Ret (error_of r)
  end.

(** The attachment authorizes its host on the partition's target. *)
Definition validAttachment (partition : NVMePartition) (attachment : NVMeVolumeAttachment) : bool :=
  TimePtr_IsZero (DeletionTimestamp (Meta attachment)) &&
  ContainsFinalizer (Finalizers (Meta attachment)) Attachment.Finalizer &&
  (vr_Name (as_VolumeRef (Spec attachment)) ==? Name (Meta partition)) &&
  (vr_UID (as_VolumeRef (Spec attachment)) ==? UID (Meta partition)) &&
  (as_HostNQN (Spec attachment) ==? Attachment.HostNQN (as_NodeID (Spec attachment))).

Definition removeAttachmentFinalizer (attachment : NVMeVolumeAttachment) : agent (option error) :=
  let base := attachment in
  let m := set_Finalizers (RemoveFinalizer (Finalizers (Meta attachment)) Attachment.Finalizer) (Meta attachment) in
  let! r := akube (Patch KAttachment base (with_Meta m attachment)) in
  Ret (error_of r).

Definition reconcileAttachmentAccess (partition : NVMePartition) (backend : TargetBackend)
    : agent (option error) :=
  let! r := attachmentForPartition partition in
  match r with
  | inr err => Ret (Some err)
  | inl attachment =>
    let valid := match attachment with Some a => validAttachment partition a | None => false end in
    let desiredHost :=
      match attachment with Some a => if valid then as_HostNQN (Spec a) else "" | None => "" end in
    let! r := acall (ReconcileHostAccess (backend_Name backend) (pt_NQN (Status partition)) desiredHost) in
    match r, attachment with
    | Some err, Some a =>
      if TimePtr_IsZero (DeletionTimestamp (Meta a)) then
        setAttachmentCondition (ObjectKeyFromObject a) (as_AttachmentID (Spec a)) ConditionFalse
          "TargetAccessFailed" (Error err) ;;;
        Ret (Some err)
      else Ret (Some err)
    | Some err, None => Ret (Some err)
    | None, None => Ret None
    | None, Some a =>
      if negb (TimePtr_IsZero (DeletionTimestamp (Meta a))) then
        if ContainsFinalizer (Finalizers (Meta a)) Attachment.Finalizer
        then removeAttachmentFinalizer a
        else Ret None
      else if negb valid then
        setAttachmentCondition (ObjectKeyFromObject a) (as_AttachmentID (Spec a)) ConditionFalse
          "AttachmentIdentityInvalid" "Attachment volume or host identity does not match the partition"
      else
        setAttachmentCondition (ObjectKeyFromObject a) (as_AttachmentID (Spec a)) ConditionTrue
          "TargetAccessAuthorized" "Provider target exclusively authorizes the attached node host NQN"
    end
  end.

(** The end of releaseAttachmentAfterUnexport. *)
Definition dropAttachmentFinalizer (attachment : NVMeVolumeAttachment) : agent (option error) :=
  if ContainsFinalizer (Finalizers (Meta attachment)) Attachment.Finalizer
  then removeAttachmentFinalizer attachment
  else Ret None.

Definition releaseAttachmentAfterUnexport (partition : NVMePartition) : agent (option error) :=
  let! r := attachmentForPartition partition in
  match r with
  | inr err => Ret (Some err)
  | inl None => Ret None
  | inl (Some attachment) =>
    if TimePtr_IsZero (DeletionTimestamp (Meta attachment)) then
      let! d := akube (Delete KAttachment attachment) in
      if match d with Some err => negb (IsNotFound err) | None => false end then Ret d
      else
        let! r := akube (Get Cached KAttachment (ObjectKeyFromObject attachment)) in
        match r with
        | inr err => Ret (IgnoreNotFound err)
        | inl attachment => dropAttachmentFinalizer attachment
        end
    else dropAttachmentFinalizer attachment
  end.

(** ** Status updates *)

Definition updatePartitionStatus (key : ObjectKey) (updateFn : NVMePartitionStatus → NVMePartitionStatus)
    : agent (option error) :=
  let! r := akube (Get Cached KPartition key) in
  match r with
  | inr err => Ret (Some err)
  | inl latest =>
    let! r := akube (StatusPatch KPartition latest (with_Status (updateFn (Status latest)) latest)) in
    Ret (error_of r)
  end.

Definition updateDeviceStatus (key : ObjectKey) (updateFn : NVMeDeviceStatus → NVMeDeviceStatus)
    : agent (option error) :=
  let! r := akube (Get Cached KDevice key) in
  match r with
  | inr err => Ret (Some err)
  | inl latest =>
    let! r := akube (StatusPatch KDevice latest (with_Status (updateFn (Status latest)) latest)) in
    Ret (error_of r)
  end.

Definition rdmaEndpoint : agent (result string) :=
  let! r := akube (Get Cached KNode {| key_Namespace := ""; key_Name := NodeName |}) in
  match r with
  | inr err => Ret (Err (Wrap "resolve RDMAStorageNode" err))
  | inl node =>
    let! now := acall ANow in
    Ret (match rdma_Validate node now with
         | Some err => Err err
         | None => Ok (ns_RDMAIP (Spec node))
         end)
  end.

(** ** Authorization *)

Definition claimReferencesEqual (a b : option NVMeDeviceClaimReference) : bool :=
  match a, b with
  | Some a, Some b => (ref_Namespace a ==? ref_Namespace b) && (ref_Name a ==? ref_Name b) &&
                      (ref_UID a ==? ref_UID b)
  | _, _ => false
  end.

Definition recoveringExistingAllocation (partition : NVMePartition) : bool :=
  (pt_ExternalID (Status partition) !=? "") || (pt_BackendVolumeID (Status partition) !=? "").

Definition verifyProvisioningAuthorization (partition : NVMePartition) : agent (result NVMeDevice) :=
  let recovering := recoveringExistingAllocation partition in
  if negb recovering && negb (PlacementAuth.IsAuthorized partition) then
    Ret (Err (Errorf "placement was not authorized by the management controller"))
  else match ps_ClaimRef (Spec partition) with
  | None => Ret (Err (Errorf "no complete owning claim reference"))
  | Some claimRef =>
    if (ref_Namespace claimRef ==? "") || (ref_Name claimRef ==? "") || (ref_UID claimRef ==? "") then
      Ret (Err (Errorf "no complete owning claim reference"))
    else if ps_ParentDeviceSerialNumber (Spec partition) ==? "" then
      Ret (Err (Errorf "missing ParentDeviceSerialNumber"))
    else
      let! r := akube (Get Cached KClaim
        {| key_Namespace := ref_Namespace claimRef; key_Name := ref_Name claimRef |}) in
      match r with
      | inr err => Ret (Err (Wrap "resolve owning NVMeDeviceClaim" err))
      | inl claim =>
        if UID (Meta claim) !=? ref_UID claimRef then
          Ret (Err (Errorf "claim UID does not match the allocation"))
        else if negb (TimePtr_IsZero (DeletionTimestamp (Meta claim))) then
          Ret (Err (Errorf "claim is being deleted"))
        else if (ct_MatchedDevice (Status claim) ==? "") ||
                (ct_NodeName (Status claim) !=? ps_NodeName (Spec partition)) ||
                negb (EqualFold (cs_SerialNumber (Spec claim)) (ps_ParentDeviceSerialNumber (Spec partition))) then
          Ret (Err (Errorf "claim does not match the assigned device identity"))
        else if negb (ct_Active (Status claim)) && negb recovering then
          Ret (Err (Errorf "claim is not actively bound"))
        else
          let! r := akube (Get Cached KDevice {| key_Namespace := ""; key_Name := ct_MatchedDevice (Status claim) |}) in
          match r with
          | inr err => Ret (Err (Wrap "resolve parent NVMeDevice" err))
          | inl device =>
            if (ds_NodeName (Spec device) !=? ps_NodeName (Spec partition)) ||
               negb (EqualFold (ds_SerialNumber (Spec device)) (ps_ParentDeviceSerialNumber (Spec partition))) then
              Ret (Err (Errorf "device does not match the assigned node and serial"))
            else if (dt_State (Status device) !=? NVMeDeviceStateClaimed) && negb recovering then
              Ret (Err (Errorf "device is not claimed"))
            else if negb (claimReferencesEqual (dt_ClaimRef (Status device)) (Some claimRef)) then
              Ret (Err (Errorf "device is owned by a different claim"))
            else Ret (Ok device)
          end
      end
  end.

Definition setClaimAuthorizationCondition (partition : NVMePartition) (conditionStatus : ConditionStatus)
    (reason message : string) : agent (option error) :=
  updatePartitionStatus (ObjectKeyFromObject partition) (λ status,
    set_pt_Conditions (SetStatusCondition (pt_Conditions status)
      {| c_Type := claimAuthorizationCondition; c_Status := conditionStatus;
         c_ObservedGeneration := Generation (Meta partition); c_Reason := reason; c_Message := message |}) status).

Definition rejectUnauthorizedProvisioning (partition : NVMePartition) (err : error) : agent (result ctrlResult) :=
  let reason :=
    if (pt_ExternalID (Status partition) ==? "") && (pt_BackendVolumeID (Status partition) ==? "") &&
       negb (PlacementAuth.IsAuthorized partition)
    then placementNotAuthorizedReason else "ClaimOwnershipInvalid" in
  check! setClaimAuthorizationCondition partition ConditionFalse reason (Error err) in
  Ret (Ok (requeue partitionRetryInterval)).

Definition recordProvisioningFailure (partition : NVMePartition) (reason : string) (err : error) (terminal : bool)
    : agent (result ctrlResult) :=
  let reason := if terminal then "Terminal" +:+ reason else "Retryable" +:+ reason in
  check! updatePartitionStatus (ObjectKeyFromObject partition) (λ status,
    let status := set_pt_State NVMePartitionStateFailed status in
    set_pt_Conditions (SetStatusCondition (pt_Conditions status)
      {| c_Type := partitionProvisioningCondition; c_Status := ConditionFalse;
         c_ObservedGeneration := Generation (Meta partition); c_Reason := reason; c_Message := Error err |}) status) in
  Ret (if terminal then Ok done_result else Err err).

Definition terminalProvisioningFailure (partition : NVMePartition) (reason : string) (err : error) :=
  recordProvisioningFailure partition reason err true.

Definition retryableProvisioningFailure (partition : NVMePartition) (reason : string) (err : error) :=
  recordProvisioningFailure partition reason err false.

(** ** Plugins and devices *)

Record resolvedPartitionPlugins := {
  targetBackendName : string;
  volumeManagerName : string;
  targetBackend : TargetBackend;
  volumeManager : VolumeManager
}.

(** The failure reason goes with the error. *)
Definition resolvePartitionPlugins (partition : NVMePartition) : resolvedPartitionPlugins + string * error :=
  let targetBackendName :=
    if ps_TargetBackend (Spec partition) ==? "" then spdkTargetBackend else ps_TargetBackend (Spec partition) in
  match GetTargetBackend plugins targetBackendName with
  | inr err => inr ("InvalidBackend", err)
  | inl targetBackend =>
    let name := ps_VolumeManager (Spec partition) in
    let volumeManagerName :=
      if (name ==? "") || (name ==? "partition")
      then if targetBackendName ==? spdkTargetBackend then "spdk-lvol" else "parted"
      else name in
    match GetVolumeManager plugins volumeManagerName with
    | inr err => inr ("InvalidVolumeManager", err)
    | inl volumeManager =>
      inl {| targetBackendName := targetBackendName; volumeManagerName := volumeManagerName;
             targetBackend := targetBackend; volumeManager := volumeManager |}
    end
  end.

Definition matchesDevice (partition : NVMePartition) (device : NVMeDevice) : bool :=
  (ds_NodeName (Spec device) ==? ps_NodeName (Spec partition)) &&
  EqualFold (ds_SerialNumber (Spec device)) (ps_ParentDeviceSerialNumber (Spec partition)).

(** The second half of assignedDeviceName, which goes by the device list. *)
Definition assignedDeviceFromList (partition : NVMePartition) : agent (result string) :=
  let! r := akube (List Cached KDevice) in
  match r with
  | inr err => Ret (Err (Wrap "list NVMeDevices during cleanup" err))
  | inl devices =>
    Ret (match map (λ device, Name (Meta device)) (List.filter (matchesDevice partition) devices) with
         | [] => Ok (NodeName +:+ "-" +:+ ToLower (ps_ParentDeviceSerialNumber (Spec partition)))
         | [name] => Ok name
         | _ => Err (Errorf "found several NVMeDevices, want exactly one")
         end)
  end.

Definition assignedDeviceName (partition : NVMePartition) : agent (result string) :=
  match ps_ClaimRef (Spec partition) with
  | Some claimRef =>
    if (ref_Namespace claimRef !=? "") && (ref_Name claimRef !=? "") && (ref_UID claimRef !=? "") then
      let! r := akube (Get Cached KClaim
        {| key_Namespace := ref_Namespace claimRef; key_Name := ref_Name claimRef |}) in
      match r with
      | inl claim =>
        if UID (Meta claim) !=? ref_UID claimRef then
          Ret (Err (Errorf "claim UID does not match the allocation"))
        else if (ct_MatchedDevice (Status claim) !=? "") &&
                (ct_NodeName (Status claim) ==? ps_NodeName (Spec partition)) &&
                EqualFold (cs_SerialNumber (Spec claim)) (ps_ParentDeviceSerialNumber (Spec partition)) then
          Ret (Ok (ct_MatchedDevice (Status claim)))
        else assignedDeviceFromList partition
      | inr err =>
        if IsNotFound err then assignedDeviceFromList partition
        else Ret (Err (Wrap "resolve owning NVMeDeviceClaim during cleanup" err))
      end
    else assignedDeviceFromList partition
  | None => assignedDeviceFromList partition
  end.

(** The first discovered device with the serial number. *)
Fixpoint find_serial (serial : string) (devices : list HardwareNVMe) : option HardwareNVMe :=
  match devices with
  | [] => None
  | device :: rest => if EqualFold (hw_SerialNumber device) serial then Some device else find_serial serial rest
  end.

Definition resolveDeletionDevice (partition : NVMePartition) (targetBackendName : string)
    : agent (result (string * string)) :=
  if targetBackendName ==? spdkTargetBackend then
    if pt_SPDKBaseBdev (Status partition) !=? "" then
      Ret (Ok (pt_SPDKBaseBdev (Status partition), pt_SPDKBaseBdev (Status partition)))
    else
      let!? name := assignedDeviceName partition in
      Ret (Ok (name, name))
  else
    let! (devices, err) := acall ADiscover in
    match err with
    | Some err => Ret (Err (Wrap "discover NVMe devices during teardown" err))
    | None =>
      Ret (match find_serial (ps_ParentDeviceSerialNumber (Spec partition)) devices with
           | Some device => Ok ("/dev/" +:+ hw_Name device +:+ "n1", hw_Name device)
           | None => Err (Errorf "NVMe device was not found during teardown")
           end)
    end.

(** Another partition that is not being deleted is on the device. *)
Definition sharesDevice (partition candidate : NVMePartition) : bool :=
  (ps_ParentDeviceSerialNumber (Spec candidate) ==? ps_ParentDeviceSerialNumber (Spec partition)) &&
  ((Namespace (Meta candidate) !=? Namespace (Meta partition)) || (Name (Meta candidate) !=? Name (Meta partition))) &&
  TimePtr_IsZero (DeletionTimestamp (Meta candidate)).

Definition clearInactiveBackend (partition : NVMePartition) (targetBackendName : string) : agent (option error) :=
  if targetBackendName ==? spdkTargetBackend then Ret None
  else
    let! r := akube (List Cached KPartition) in
    match r with
    | inr err => Ret (Some (Wrap "list NVMePartitions during teardown" err))
    | inl partitions =>
      if existsb (sharesDevice partition) partitions then Ret None
      else
        let! r := assignedDeviceName partition in
        match r with
        | inr err => Ret (Some err)
        | inl deviceName =>
          updateDeviceStatus {| key_Namespace := ""; key_Name := deviceName |} (set_dt_ActiveBackend "")
        end
    end.

(** ** Deletion *)

Definition reconcilePartitionDeletion (key : ObjectKey) (partition : NVMePartition)
    (resolved : resolvedPartitionPlugins) (externalID : string) : agent (result ctrlResult) :=
  if negb (ContainsFinalizer (Finalizers (Meta partition)) partitionFinalizer) then Ret (Ok done_result)
  else
    let nqn := if pt_NQN (Status partition) ==? "" then VolumeIdentity.NQN externalID
               else pt_NQN (Status partition) in
    check! acall (UnexportVolume (backend_Name (targetBackend resolved)) nqn) in
    check! releaseAttachmentAfterUnexport partition in
    check! (if ps_ParentDeviceSerialNumber (Spec partition) !=? "" then
        let! r := resolveDeletionDevice partition (targetBackendName resolved) in
        match r with
        | inr err => Ret (Some err)
        | inl (devicePath, deviceName) =>
          let identity := backendVolumeIdentity (Status partition) in
          let! r := acall (DeleteVolume (manager_Name (volumeManager resolved)) devicePath deviceName externalID
                             identity) in
          match r with
          | Some err => Ret (Some err)
          | None => clearInactiveBackend partition (targetBackendName resolved)
          end
        end
      else Ret None) in
    let! r := akube (Get Cached KPartition key) in
    match r with
    | inr err => Ret (match IgnoreNotFound err with Some err => Err err | None => Ok done_result end)
    | inl latest =>
      let base := latest in
      let m := set_Finalizers (RemoveFinalizer (Finalizers (Meta latest)) partitionFinalizer) (Meta latest) in
      let! r := akube (Patch KPartition base (with_Meta m latest)) in
      Ret (match r with inl _ => Ok done_result | inr err => Err err end)
    end.

(** ** Provisioning *)

(** Returns the partition as the caller sees it afterwards: the finalizer patch
    replaces it by the server's reply. *)
Definition ensurePartitionIdentityAndFinalizer (key : ObjectKey) (partition : NVMePartition)
    (externalID volumeID : string) : agent (result NVMePartition) :=
  let!? partition :=
    if (pt_ExternalID (Status partition) !=? externalID) || (pt_VolumeID (Status partition) !=? volumeID) then
      check! updatePartitionStatus key (λ status, set_pt_VolumeID volumeID (set_pt_ExternalID externalID status)) in
      Ret (Ok (with_Status (set_pt_VolumeID volumeID (set_pt_ExternalID externalID (Status partition))) partition))
    else Ret (Ok partition) in
  if ContainsFinalizer (Finalizers (Meta partition)) partitionFinalizer then Ret (Ok partition)
  else
    let base := partition in
    let m := set_Finalizers (AddFinalizer (Finalizers (Meta partition)) partitionFinalizer) (Meta partition) in
    akube (Patch KPartition base (with_Meta m partition)).

Definition reconcileExportedPartition (partition : NVMePartition) (backend : TargetBackend)
    : agent (bool * result ctrlResult) :=
  if pt_State (Status partition) !=? NVMePartitionStateExported then Ret (false, Ok done_result)
  else
    let! r := rdmaEndpoint in
    match r with
    | inr err => Ret (true, Err err)
    | inl portalIP =>
      let! health :=
        if isExportHealthChecker backend then
          acall (CheckExport (backend_Name backend) (pt_NQN (Status partition)) (pt_BackendVolumeID (Status partition))
                   portalIP (pt_PortalPort (Status partition)) (ps_TargetOptions (Spec partition)))
        else Ret None in
      match health with
      | Some err =>
        if IsExportObservationError err then Ret (true, Ok (requeue partitionRetryInterval))
        else Ret (false, Ok done_result)
      | None =>
        let! r := reconcileAttachmentAccess partition backend in
        match r with
        | Some err => Ret (true, Err err)
        | None => Ret (true, Ok (requeue exportedHealthInterval))
        end
      end
    end.

Definition findProvisioningDevice (partition : NVMePartition) (targetBackendName : string)
    : agent (string * string + string * error) :=
  let! (devices, err) := acall ADiscover in
  Ret (match err with
       | Some err => inr ("DiscoveryFailed", Wrap "discover NVMe devices" err)
       | None =>
         match find_serial (ps_ParentDeviceSerialNumber (Spec partition)) devices with
         | Some device =>
           let path := if targetBackendName ==? spdkTargetBackend then hw_Name device
                       else "/dev/" +:+ hw_Name device +:+ "n1" in
           inl (path, hw_Name device)
         | None => inr ("DeviceNotFound", Errorf "NVMe device not found on host")
         end
       end).

(** The status fields that record the created volume. *)
Definition with_backend_volume (created : Plugins.VolumeIdentity) (s : NVMePartitionStatus) : NVMePartitionStatus :=
  {| pt_PlacementFingerprint := pt_PlacementFingerprint s; pt_State := pt_State s;
     pt_ExternalID := pt_ExternalID s; pt_VolumeID := pt_VolumeID s;
     pt_BackendVolumeID := BackendVolumeID created;
     pt_AllocatedCapacity := NewQuantity (CapacityBytes created);
     pt_SPDKBaseBdev := BaseBdev created;
     pt_SPDKLvstoreName := VolumeStoreName created;
     pt_SPDKLvstoreUUID := VolumeStoreUUID created;
     pt_SPDKLvolName := VolumeName created;
     pt_SPDKLvolUUID := VolumeUUID created;
     pt_NQN := pt_NQN s; pt_PortalIP := pt_PortalIP s; pt_PortalPort := pt_PortalPort s;
     pt_Conditions := pt_Conditions s |}.

Definition persistBackendVolumeIdentity (key : ObjectKey) (partition : NVMePartition)
    (created : Plugins.VolumeIdentity) : agent (result NVMePartition) :=
  if backendVolumeIdentity (Status partition) ==? created then Ret (Ok partition)
  else
    check! updatePartitionStatus key (with_backend_volume created) in
    Ret (Ok (with_Status (with_backend_volume created (Status partition)) partition)).

(** The status of an exported partition. *)
Definition with_export (nqn portalIP : string) (generation : Z) (s : NVMePartitionStatus) : NVMePartitionStatus :=
  {| pt_PlacementFingerprint := pt_PlacementFingerprint s; pt_State := NVMePartitionStateExported;
     pt_ExternalID := pt_ExternalID s; pt_VolumeID := pt_VolumeID s; pt_BackendVolumeID := pt_BackendVolumeID s;
     pt_AllocatedCapacity := pt_AllocatedCapacity s; pt_SPDKBaseBdev := pt_SPDKBaseBdev s;
     pt_SPDKLvstoreName := pt_SPDKLvstoreName s; pt_SPDKLvstoreUUID := pt_SPDKLvstoreUUID s;
     pt_SPDKLvolName := pt_SPDKLvolName s; pt_SPDKLvolUUID := pt_SPDKLvolUUID s;
     pt_NQN := nqn; pt_PortalIP := portalIP; pt_PortalPort := 4420;
     pt_Conditions := SetStatusCondition (pt_Conditions s)
       {| c_Type := partitionProvisioningCondition; c_Status := ConditionTrue; c_ObservedGeneration := generation;
          c_Reason := "Provisioned"; c_Message := "The NVMe partition is provisioned and exported" |} |}.

(** The last part of provisionPartition: the volume exists, export it. *)
Definition exportPartition (key : ObjectKey) (partition : NVMePartition) (resolved : resolvedPartitionPlugins)
    (externalID : string) (created : Plugins.VolumeIdentity) : agent (result ctrlResult) :=
  let! r := rdmaEndpoint in
  match r with
  | inr err => retryableProvisioningFailure partition "RDMAEndpointUnavailable" err
  | inl portalIP =>
    let! r := verifyProvisioningAuthorization partition in
    match r with
    | inr err => rejectUnauthorizedProvisioning partition err
    | inl _ =>
      let! r := acall (ExportVolume (backend_Name (targetBackend resolved)) externalID (BackendVolumeID created)
                         portalIP 4420 (ps_TargetOptions (Spec partition))) in
      match r with
      | inr err => retryableProvisioningFailure partition "ExportFailed" err
      | inl nqn =>
        check! updatePartitionStatus key (with_export nqn portalIP (Generation (Meta partition))) in
        Ret (Ok (requeue exportedHealthInterval))
      end
    end
  end.

(** The middle part: the device is set up and found, carve the volume. *)
Definition carvePartition (key : ObjectKey) (partition : NVMePartition) (resolved : resolvedPartitionPlugins)
    (externalID : string) (requestedAllocation : Z) (devicePath deviceName : string) : agent (result ctrlResult) :=
  let! r := acall (SetupStorage (manager_Name (volumeManager resolved)) devicePath deviceName) in
  match r with
  | Some err => retryableProvisioningFailure partition "StorageSetupFailed" err
  | None =>
    let! r := verifyProvisioningAuthorization partition in
    match r with
    | inr err => rejectUnauthorizedProvisioning partition err
    | inl _ =>
      let! r := acall (CreateVolume (manager_Name (volumeManager resolved)) devicePath deviceName externalID
                         (Value (ps_Size (Spec partition)))) in
      match r with
      | inr err => retryableProvisioningFailure partition "VolumeCreationFailed" err
      | inl created =>
        if BackendVolumeID created ==? "" then
          terminalProvisioningFailure partition "InvalidVolumeIdentity"
            (Errorf "volume manager returned an empty backend volume ID")
        else if CapacityBytes created <? requestedAllocation then
          terminalProvisioningFailure partition "InsufficientAllocation"
            (Errorf "volume manager allocated fewer bytes than required")
        else
          let!? partition := persistBackendVolumeIdentity key partition created in
          exportPartition key partition resolved externalID created
      end
    end
  end.

Definition provisionPartition (key : ObjectKey) (partition : NVMePartition) (resolved : resolvedPartitionPlugins)
    (externalID : string) (requestedAllocation : Z) : agent (result ctrlResult) :=
  let! r := verifyProvisioningAuthorization partition in
  match r with
  | inr err => rejectUnauthorizedProvisioning partition err
  | inl device =>
    let! r := rdmaEndpoint in
    match r with
    | inr err => retryableProvisioningFailure partition "RDMAEndpointUnavailable" err
    | inl _ =>
      if (dt_ActiveBackend (Status device) !=? "") &&
         (dt_ActiveBackend (Status device) !=? targetBackendName resolved) then
        retryableProvisioningFailure partition "BackendBusy"
          (Errorf "device is currently locked to another backend")
      else
        let! r := acall (SetupDevice (backend_Name (targetBackend resolved)) (ds_PCIAddress (Spec device))
                           (Name (Meta device)) (ps_TargetOptions (Spec partition))) in
        match r with
        | Some err => retryableProvisioningFailure partition "DeviceSetupFailed" err
        | None =>
          let! r := findProvisioningDevice partition (targetBackendName resolved) in
          match r with
          | inr (failureReason, err) => retryableProvisioningFailure partition failureReason err
          | inl (devicePath, deviceName) =>
            let! r := verifyProvisioningAuthorization partition in
            match r with
            | inr err => rejectUnauthorizedProvisioning partition err
            | inl _ =>
              let! locked :=
                if dt_ActiveBackend (Status device) ==? "" then
                  updateDeviceStatus {| key_Namespace := ""; key_Name := Name (Meta device) |}
                    (set_dt_ActiveBackend (targetBackendName resolved))
                else Ret None in
              match locked with
              | Some err => retryableProvisioningFailure partition "DeviceStatusUpdateFailed" err
              | None =>
                carvePartition key partition resolved externalID requestedAllocation devicePath deviceName
              end
            end
          end
        end
    end
  end.

(** The part of Reconcile for a partition that is not being deleted and whose
    plugins are known. *)
Definition reconcileActivePartition (key : ObjectKey) (partition : NVMePartition)
    (resolved : resolvedPartitionPlugins) (externalID volumeID : string) : agent (result ctrlResult) :=
  match Validate (targetBackendName resolved) (map_to_list (ps_TargetOptions (Spec partition))) with
  | Some err => terminalProvisioningFailure partition "InvalidOptions" err
  | None =>
    match RoundUp (Value (ps_Size (Spec partition))) with
    | inr err => terminalProvisioningFailure partition "InvalidCapacity" (Wrap "invalid partition capacity" err)
    | inl requestedAllocation =>
      let! r := verifyProvisioningAuthorization partition in
      match r with
      | inr err => rejectUnauthorizedProvisioning partition err
      | inl _ =>
        check! setClaimAuthorizationCondition partition ConditionTrue "ClaimOwnershipVerified"
          "The live owning claim authorizes this allocation" in
        let!? partition := ensurePartitionIdentityAndFinalizer key partition externalID volumeID in
        let! (handled, res) := reconcileExportedPartition partition (targetBackend resolved) in
        if (handled : bool) || negb (is_ok res) then Ret res
        else provisionPartition key partition resolved externalID requestedAllocation
      end
    end
  end.

Definition Reconcile (req : ObjectKey) : agent (result ctrlResult) :=
  let! r := akube (Get Cached KPartition req) in
  match r with
  | inr err => Ret (match IgnoreNotFound err with Some err => Err err | None => Ok done_result end)
  | inl partition =>
    if ps_NodeName (Spec partition) !=? NodeName then Ret (Ok done_result)
    else
      let deleting := match DeletionTimestamp (Meta partition) with Some _ => true | None => false end in
      if negb deleting && partitionHasTerminalFailure partition then Ret (Ok done_result)
      else
        match resolvePartitionPlugins partition with
        | inr (failureReason, err) =>
          if deleting then Ret (Err err) else terminalProvisioningFailure partition failureReason err
        | inl resolved =>
          let '(externalID, volumeID) := identitiesForPartition partition in
          if deleting then reconcilePartitionDeletion req partition resolved externalID
          else reconcileActivePartition req partition resolved externalID volumeID
        end
  end.

(** The partition to reconcile when an attachment changes (SetupWithManager). *)
Definition partitionForAttachment (attachment : NVMeVolumeAttachment) : list ObjectKey :=
  if vr_Name (as_VolumeRef (Spec attachment)) ==? "" then []
  else [{| key_Namespace := Namespace (Meta attachment); key_Name := vr_Name (as_VolumeRef (Spec attachment)) |}].

End Manager.
End PartitionManager.
