(* ===== verification/PartitionManagerProps.v ===== *)
(** * Properties of the partition manager

    What the agent does to devices, targets and API objects is justified by what
    it has seen before: the statements are about the history of one reconcile,
    for all replies of the API server, of discovery and of the plugins. *)

From S2P Require Import Prelude GoStrings Encoding Capacity ApiTypes Identity Options RdmaHealth Prog Kube.
From S2P Require Import Placement PlacementProps ClaimController Plugins PartitionManager.
Import Plugins PartitionManager.

Abbreviation aevent := (@event agentOp agentRep).

Definition evk (o : kubeOp) (x : kubeRep o) : aevent := ev (Rep := agentRep) (AKube o) x.

(** Calls of plugin methods. *)
Definition is_plugin (e : aevent) : bool :=
  match projT1 e with AKube _ | ANow | ADiscover => false | _ => true end.

Definition plain (b : list aevent) : Prop := Forall (λ e, is_plugin e = false) b.

Section Props.
Context `{AM : ApiMachinery} {AML : ApiMachineryLaws AM}.
Variable Error : error → string.
Variable plugins : Registry.
Variable NodeName : string.
Variable req : ObjectKey.

(** The partition that the run has read first. *)
Definition first_read (h : list aevent) (p : NVMePartition) : Prop :=
  ∃ t, h = evk (Get Cached KPartition req) (inl p) :: t.

(** A copy of the partition that the API server has sent. *)
Definition server_copy (h : list aevent) (p : NVMePartition) : Prop :=
  evk (Get Cached KPartition req) (inl p) ∈ h ∨
  ∃ base o : NVMePartition, evk (Patch KPartition base o) (inl p) ∈ h.

Definition claim_ref_key (ref : NVMeDeviceClaimReference) : ObjectKey :=
  {| key_Namespace := ref_Namespace ref; key_Name := ref_Name ref |}.

(** The claim owns the device, and both are the ones assigned in the spec. *)
Definition owns (spec : NVMePartitionSpec) (claim : NVMeDeviceClaim) (device : NVMeDevice) : Prop :=
  ∃ ref, ps_ClaimRef spec = Some ref ∧ UID (Meta claim) = ref_UID ref ∧
    TimePtr_IsZero (DeletionTimestamp (Meta claim)) = true ∧
    ct_NodeName (Status claim) = ps_NodeName spec ∧
    EqualFold (cs_SerialNumber (Spec claim)) (ps_ParentDeviceSerialNumber spec) = true ∧
    ds_NodeName (Spec device) = ps_NodeName spec ∧
    EqualFold (ds_SerialNumber (Spec device)) (ps_ParentDeviceSerialNumber spec) = true ∧
    dt_ClaimRef (Status device) = Some ref.

(** The events show that the partition may use the device: its claim and the
    device were read and match; on a first allocation the manager authorized
    the placement, the claim is active and the device claimed. *)
Definition authorization (p : NVMePartition) (device : NVMeDevice) (b : list aevent) : Prop :=
  ∃ ref claim, ps_ClaimRef (Spec p) = Some ref ∧
    evk (Get Cached KClaim (claim_ref_key ref)) (inl claim) ∈ b ∧
    evk (Get Cached KDevice {| key_Namespace := ""; key_Name := ct_MatchedDevice (Status claim) |}) (inl device) ∈ b ∧
    owns (Spec p) claim device ∧
    (recoveringExistingAllocation p = false →
     PlacementAuth.IsAuthorized p = true ∧ ct_Active (Status claim) = true ∧
     dt_State (Status device) = NVMeDeviceStateClaimed).

(** The latest plugin call was before the device was found to be owned by the
    claim of the partition. *)
Definition freshly_authorized (h : list aevent) (spec : NVMePartitionSpec) (device : NVMeDevice) : Prop :=
  ∃ a b p, h = a ++ b ∧ plain b ∧ Spec p = spec ∧ authorization p device b.

(** No health check of the run has failed to observe the export. *)
Definition observable (h : list aevent) : Prop :=
  ∀ backend nqn blockPath ip port options err,
    ev (Rep := agentRep) (CheckExport backend nqn blockPath ip port options) (Some err) ∈ h →
    IsExportObservationError err = false.

(** The run provisions: it started from a partition of this node that is not
    being deleted and was authorized then, and [spec] is its current spec. *)
Definition provisioning (h : list aevent) (p0 : NVMePartition) (spec : NVMePartitionSpec) : Prop :=
  first_read h p0 ∧ DeletionTimestamp (Meta p0) = None ∧ ps_NodeName (Spec p0) = NodeName ∧
  (∃ device, authorization p0 device h) ∧ (∃ q, server_copy h q ∧ spec = Spec q) ∧ observable h.

Definition discovered (h : list aevent) (spec : NVMePartitionSpec) (path name : string) : Prop :=
  ∃ devices hw, ev (Rep := agentRep) ADiscover (devices, None) ∈ h ∧ hw ∈ devices ∧
    EqualFold (hw_SerialNumber hw) (ps_ParentDeviceSerialNumber spec) = true ∧ name = hw_Name hw ∧
    (path = hw_Name hw ∨ path = "/dev/" +:+ hw_Name hw +:+ "n1").

Definition device_set_up (h : list aevent) : Prop :=
  ∃ backend pci name options,
    ev (Rep := agentRep) (SetupDevice backend pci name options) None ∈ h.

(** The portal address belongs to a node that was ready. *)
Definition endpoint (h : list aevent) (ip : string) : Prop :=
  ∃ node now, evk (Get Cached KNode {| key_Namespace := ""; key_Name := NodeName |}) (inl node) ∈ h ∧
    ev (Rep := agentRep) ANow now ∈ h ∧ rdma_Validate node now = None ∧ ip = ns_RDMAIP (Spec node).

(** The volume is recorded in the status of the partition. *)
Definition recorded (h : list aevent) (created : Plugins.VolumeIdentity) : Prop :=
  (∃ q, server_copy h q ∧ backendVolumeIdentity (Status q) = created) ∨
  (∃ base o ob : NVMePartition, evk (StatusPatch KPartition base o) (inl ob) ∈ h ∧
     backendVolumeIdentity (Status o) = created).

Definition volume_created (h : list aevent) (p0 : NVMePartition) (spec : NVMePartitionSpec) (volumeName : string)
    (created : Plugins.VolumeIdentity) : Prop :=
  (∃ manager path name, ev (Rep := agentRep)
     (CreateVolume manager path name volumeName (Value (ps_Size spec))) (inl created) ∈ h) ∧
  BackendVolumeID created ≠ "" ∧
  ∃ bytes, RoundUp (Value (ps_Size (Spec p0))) = Ok bytes ∧ bytes ≤ CapacityBytes created.

(** ** What justifies each operation *)

Definition setup_device_ok (h : list aevent) (pci name : string) (options : gmap string string) : Prop :=
  ∃ p0 spec device, provisioning h p0 spec ∧ freshly_authorized h spec device ∧
    pci = ds_PCIAddress (Spec device) ∧ name = Name (Meta device) ∧ options = ps_TargetOptions spec.

Definition setup_storage_ok (h : list aevent) (path name : string) : Prop :=
  ∃ p0 spec device, provisioning h p0 spec ∧ freshly_authorized h spec device ∧
    device_set_up h ∧ discovered h spec path name.

Definition create_volume_ok (h : list aevent) (manager path name volumeName : string) (size : Z) : Prop :=
  ∃ p0 spec device, provisioning h p0 spec ∧ freshly_authorized h spec device ∧
    ev (Rep := agentRep) (SetupStorage manager path name) None ∈ h ∧
    volumeName = (identitiesForPartition p0).1 ∧ size = Value (ps_Size spec).

Definition export_volume_ok (h : list aevent) (volumeName blockPath ip : string) (port : Z)
    (options : gmap string string) : Prop :=
  ∃ p0 spec device created, provisioning h p0 spec ∧ freshly_authorized h spec device ∧
    volume_created h p0 spec volumeName created ∧ recorded h created ∧
    volumeName = (identitiesForPartition p0).1 ∧ blockPath = BackendVolumeID created ∧
    endpoint h ip ∧ port = 4420 ∧ options = ps_TargetOptions spec.

(** A status becomes Exported only with the NQN of a successful export. *)
Definition partition_status_ok (h : list aevent) (base o : NVMePartition) : Prop :=
  pt_State (Status o) = NVMePartitionStateExported → pt_State (Status base) ≠ NVMePartitionStateExported →
  ∃ backend volumeName blockPath ip port options,
    ev (Rep := agentRep) (ExportVolume backend volumeName blockPath ip port options) (inl (pt_NQN (Status o))) ∈ h ∧
    pt_PortalIP (Status o) = ip ∧ pt_PortalPort (Status o) = port.

(** The run takes down the partition [p0]. *)
Definition tearing_down (h : list aevent) (p0 : NVMePartition) : Prop :=
  first_read h p0 ∧ is_Some (DeletionTimestamp (Meta p0)) ∧ ps_NodeName (Spec p0) = NodeName ∧
  partitionFinalizer ∈ Finalizers (Meta p0).

Definition target_of (p : NVMePartition) : string :=
  if pt_NQN (Status p) ==? "" then VolumeIdentity.NQN (identitiesForPartition p).1 else pt_NQN (Status p).

Definition unexported (h : list aevent) (p0 : NVMePartition) : Prop :=
  ∃ backend, ev (Rep := agentRep) (UnexportVolume backend (target_of p0)) None ∈ h.

Definition volume_deleted (h : list aevent) (p0 : NVMePartition) : Prop :=
  ∃ manager path name, ev (Rep := agentRep)
    (DeleteVolume manager path name (identitiesForPartition p0).1 (backendVolumeIdentity (Status p0))) None ∈ h.

(** The target and the volume of the partition are gone. *)
Definition torn_down (h : list aevent) (p0 : NVMePartition) : Prop :=
  unexported h p0 ∧ (ps_ParentDeviceSerialNumber (Spec p0) ≠ "" → volume_deleted h p0).

Definition delete_volume_ok (h : list aevent) (volumeName : string) (identity : Plugins.VolumeIdentity) : Prop :=
  ∃ p0, tearing_down h p0 ∧ unexported h p0 ∧ volumeName = (identitiesForPartition p0).1 ∧
    identity = backendVolumeIdentity (Status p0).

(** The partition loses the finalizer only when everything is gone. *)
Definition partition_patch_ok (h : list aevent) (base o : NVMePartition) : Prop :=
  partitionFinalizer ∈ Finalizers (Meta base) → partitionFinalizer ∉ Finalizers (Meta o) →
  ∃ p0, tearing_down h p0 ∧ torn_down h p0.

(** The attachment of the partition was read and authorizes its host. *)
Definition attached (h : list aevent) (q : NVMePartition) (att : NVMeVolumeAttachment) : Prop :=
  evk (Get Cached KAttachment {| key_Namespace := Namespace (Meta q);
                                 key_Name := Attachment.attachment_Name (UID (Meta q)) |}) (inl att) ∈ h ∧
  validAttachment q att = true.

(** Access is granted to the host of a valid attachment or to nobody. *)
Definition host_access_ok (h : list aevent) (nqn host : string) : Prop :=
  observable h ∧ ∃ q, server_copy h q ∧ nqn = pt_NQN (Status q) ∧
    (host = "" ∨ ∃ att, attached h q att ∧ host = as_HostNQN (Spec att)).

(** An attachment is reported ready only after the target has accepted its host. *)
Definition attachment_status_ok (h : list aevent) (o : NVMeVolumeAttachment) : Prop :=
  at_ObservedAttachmentID (Status o) ≠ "" →
  ∃ q att backend, server_copy h q ∧ attached h q att ∧
    ev (Rep := agentRep) (ReconcileHostAccess backend (pt_NQN (Status q)) (as_HostNQN (Spec att))) None ∈ h ∧
    at_ObservedAttachmentID (Status o) = as_AttachmentID (Spec att).

(** The target backend of the partition. *)
Definition backend_of (h : list aevent) (name : string) : Prop :=
  ∃ p0 resolved, first_read h p0 ∧ resolvePartitionPlugins plugins p0 = inl resolved ∧ name = backend_Name (targetBackend resolved).

(** The latest plugin call revoked all access to the target or removed it. *)
Definition just_closed (h : list aevent) (backend nqn : string) : Prop :=
  ∃ a e b, h = a ++ [e] ++ b ∧ plain b ∧
    (e = ev (Rep := agentRep) (ReconcileHostAccess backend nqn "") None ∨ e = ev (Rep := agentRep) (UnexportVolume backend nqn) None).

(** The attachment was read for the partition. *)
Definition attachment_of (h : list aevent) (q : NVMePartition) (base : NVMeVolumeAttachment) : Prop :=
  ∃ att, evk (Get Cached KAttachment {| key_Namespace := Namespace (Meta q);
                                        key_Name := Attachment.attachment_Name (UID (Meta q)) |}) (inl att) ∈ h ∧
    (base = att ∨ evk (Get Cached KAttachment (ObjectKeyFromObject att)) (inl base) ∈ h).

(** An attachment loses the fencing finalizer only right after all access to the
    target of the partition was revoked or the target removed. *)
Definition attachment_patch_ok (h : list aevent) (base o : NVMeVolumeAttachment) : Prop :=
  Attachment.Finalizer ∈ Finalizers (Meta base) → Attachment.Finalizer ∉ Finalizers (Meta o) →
  ∃ backend nqn, backend_of h backend ∧ just_closed h backend nqn ∧
    ∃ q, attachment_of h q base ∧ (server_copy h q ∧ nqn = pt_NQN (Status q) ∨ tearing_down h q ∧ nqn = target_of q).

Definition good (h : list aevent) (e : aevent) : Prop :=
  let 'existT o _ := e in
  match o with
  | SetupDevice _ pci name options => setup_device_ok h pci name options
  | SetupStorage _ path name => setup_storage_ok h path name
  | CreateVolume m path name volumeName size => create_volume_ok h m path name volumeName size
  | ExportVolume _ volumeName blockPath ip port options => export_volume_ok h volumeName blockPath ip port options
  | UnexportVolume _ nqn => ∃ p0, tearing_down h p0 ∧ nqn = target_of p0
  | DeleteVolume _ _ _ volumeName identity => delete_volume_ok h volumeName identity
  | ReconcileHostAccess _ nqn host => host_access_ok h nqn host
  | CheckExport _ _ _ _ _ _ | ANow | ADiscover => True
  | AKube (Patch KPartition base o) => partition_patch_ok h base o
  | AKube (StatusPatch KPartition base o) => partition_status_ok h base o
  | AKube (Patch KAttachment base o) => attachment_patch_ok h base o
  | AKube (StatusPatch KAttachment _ o) => attachment_status_ok h o
  | AKube _ => True
  end.

(** ** Monotonicity *)

Lemma plain_app b b' : plain b → plain b' → plain (b ++ b').
Proof. intros. by apply Forall_app. Qed.

Lemma plain_one e : is_plugin e = false → plain [e].
Proof. intros. by constructor. Qed.

Lemma first_read_app h b p : first_read h p → first_read (h ++ b) p.
Proof. intros [t ->]. by exists (t ++ b). Qed.

Lemma server_copy_app h b p : server_copy h p → server_copy (h ++ b) p.
Proof.
  intros [H|(ba & o & H)]; [left|right; exists ba, o]; apply elem_of_app; by left.
Qed.

Lemma first_read_copy h p : first_read h p → server_copy h p.
Proof. intros [t ->]. left. apply list_elem_of_here. Qed.

Lemma authorization_app p d a b : authorization p d b → authorization p d (a ++ b).
Proof.
  intros (ref & claim & ? & ? & ? & ?). exists ref, claim. rewrite !elem_of_app. tauto.
Qed.

Lemma authorization_grow p d a b : authorization p d a → authorization p d (a ++ b).
Proof.
  intros (ref & claim & ? & ? & ? & ?). exists ref, claim. rewrite !elem_of_app. tauto.
Qed.

Lemma observable_app a b : observable a → observable b → observable (a ++ b).
Proof. intros Ha Hb ba n bl ip po op err [H|H]%elem_of_app; eauto. Qed.

Lemma observable_plain b : plain b → observable b.
Proof.
  intros Hb ba n bl ip po op err H. unfold plain in Hb. rewrite Forall_forall in Hb. by specialize (Hb _ H).
Qed.

Lemma observable_nil : observable [].
Proof. apply observable_plain. constructor. Qed.

Lemma observable_one (e : aevent) :
  match projT1 e with CheckExport _ _ _ _ _ _ => false | _ => true end = true → observable [e].
Proof.
  intros He ba n bl ip po op err H%list_elem_of_singleton. subst e. done.
Qed.

Lemma provisioning_app h b p0 spec : provisioning h p0 spec → observable b → provisioning (h ++ b) p0 spec.
Proof.
  intros (Hf & ? & ? & [d Hd] & [q [Hq ->]] & Ho) Hb.
  split_and!; [by apply first_read_app|done|done|exists d; by apply authorization_grow| |by apply observable_app].
  exists q. split; [by apply server_copy_app|done].
Qed.

Lemma tearing_down_app h b p : tearing_down h p → tearing_down (h ++ b) p.
Proof. intros (? & ? & ? & ?). split_and!; try done. by apply first_read_app. Qed.

Lemma backend_of_app h b name : backend_of h name → backend_of (h ++ b) name.
Proof. intros (p0 & resolved & ? & ?). exists p0, resolved. split; [by apply first_read_app|done]. Qed.

Lemma just_closed_app h b backend nqn : just_closed h backend nqn → plain b → just_closed (h ++ b) backend nqn.
Proof. intros (a & e & c & -> & Hc & He) Hb. exists a, e, (c ++ b). split; [by rewrite <- !app_assoc|]. split; [by apply plain_app|done]. Qed.

Lemma hwp_ret {A} (a : A) h (Q : A → list aevent → Prop) : Q a h → hwp good (Ret a) h Q.
Proof. done. Qed.

#[local] Abbreviation ok := (hwp good).

(** ** Specifications of the helpers

    [h ++ b] is the history after the helper, where [b] makes no plugin call. *)

Lemma nil_end {A} (P : list A → Prop) h : P (h ++ []) → P h.
Proof. by rewrite app_nil_r. Qed.

Lemma hwp_nil {A} (p : agent A) h Q : ok p (h ++ []) Q → ok p h Q.
Proof. by rewrite app_nil_r. Qed.

Lemma attachmentForPartition_hwp p h Q :
  (∀ e b, plain b → Q (inr e) (h ++ b)) → (∀ b, plain b → Q (inl None) (h ++ b)) →
  (∀ a b, plain b →
     evk (Get Cached KAttachment {| key_Namespace := Namespace (Meta p);
                                    key_Name := Attachment.attachment_Name (UID (Meta p)) |}) (inl a) ∈ b →
     Q (inl (Some a)) (h ++ b)) →
  ok (attachmentForPartition p) h Q.
Proof.
  intros He Hn Ha. apply hwp_vis; [done|]. intros [a|e]; apply hwp_ret.
  - apply Ha; [by apply plain_one|apply list_elem_of_here].
  - destruct (IsNotFound e); [apply Hn|apply He]; by apply plain_one.
Qed.

Lemma setAttachmentCondition_hwp key id st reason msg h Q :
  (st = ConditionTrue → ∀ b (o : NVMeVolumeAttachment), plain b → at_ObservedAttachmentID (Status o) = id →
     attachment_status_ok (h ++ b) o) →
  (∀ r b, plain b → Q r (h ++ b)) →
  ok (setAttachmentCondition key id st reason msg) h Q.
Proof.
  intros Hst HQ. apply hwp_vis; [done|]. intros [latest|e]; [|apply hwp_ret, HQ; by apply plain_one].
  apply hwp_vis.
  - intros x. simpl. intros Hne. case_bool_decide as E; [|done].
    apply (Hst E); [by apply plain_one|done|done].
  - intros x. apply hwp_ret. rewrite <- app_assoc. apply HQ. by repeat constructor.
Qed.

Lemma removeAttachmentFinalizer_hwp a h Q :
  (∀ o, attachment_patch_ok h a o) → (∀ r b, plain b → Q r (h ++ b)) →
  ok (removeAttachmentFinalizer a) h Q.
Proof.
  intros Hp HQ. apply hwp_vis; [intros x; apply Hp|]. intros x. apply hwp_ret, HQ. by apply plain_one.
Qed.

Lemma updatePartitionStatus_hwp key fn h Q :
  (∀ b latest, plain b → partition_status_ok (h ++ b) latest (with_Status (fn (Status latest)) latest)) →
  (∀ e b, plain b → Q (Some e) (h ++ b)) →
  (∀ b latest ob, plain b →
     evk (StatusPatch KPartition latest (with_Status (fn (Status latest)) latest)) (inl ob) ∈ b →
     Q None (h ++ b)) →
  ok (updatePartitionStatus key fn) h Q.
Proof.
  intros Hg He Hok. apply hwp_vis; [done|]. intros [latest|e]; [|apply hwp_ret, He; by apply plain_one].
  apply hwp_vis.
  - intros x. apply Hg. by apply plain_one.
  - intros [ob|e]; apply hwp_ret; rewrite <- app_assoc; [|apply He; by repeat constructor].
    apply (Hok _ latest ob); [by repeat constructor|]. apply elem_of_app. right. apply list_elem_of_here.
Qed.

(** A status change that does not make the partition Exported. *)
Lemma plain_status_update key fn h Q :
  (∀ s, pt_State (fn s) = NVMePartitionStateExported → pt_State s = NVMePartitionStateExported) →
  (∀ r b, plain b → Q r (h ++ b)) →
  ok (updatePartitionStatus key fn) h Q.
Proof.
  intros Hfn HQ. apply updatePartitionStatus_hwp; eauto.
  intros b latest _ H Hne. destruct (Hne (Hfn _ H)).
Qed.

Lemma updateDeviceStatus_hwp key fn h Q :
  (∀ r b, plain b → Q r (h ++ b)) → ok (updateDeviceStatus key fn) h Q.
Proof.
  intros HQ. apply hwp_vis; [done|]. intros [latest|e]; [|apply hwp_ret, HQ; by apply plain_one].
  apply hwp_vis; [done|]. intros x. apply hwp_ret. rewrite <- app_assoc. apply HQ. by repeat constructor.
Qed.

Lemma rdmaEndpoint_hwp h Q :
  (∀ e b, plain b → Q (inr e) (h ++ b)) → (∀ ip b, plain b → endpoint b ip → Q (inl ip) (h ++ b)) →
  ok (rdmaEndpoint NodeName) h Q.
Proof.
  intros He Hok. apply hwp_vis; [done|]. intros [node|e]; [|apply hwp_ret, He; by apply plain_one].
  apply hwp_vis; [done|]. intros now. apply hwp_ret. rewrite <- app_assoc.
  destruct (rdma_Validate node now) eqn:E; [apply He; by repeat constructor|].
  apply Hok; [by repeat constructor|]. exists node, now. split_and!; [|right; left|done..]; set_solver.
Qed.

Lemma claimReferencesEqual_iff a b : claimReferencesEqual a b = true ↔ a = b ∧ is_Some a.
Proof.
  destruct a as [[]|], b as [[]|]; simpl; rewrite ?andb_true_iff, ?bool_decide_eq_true;
    split; intros; destruct_and?; simplify_eq/=; try done; try (by split_and!).
Qed.

Lemma verify_hwp p h Q :
  (∀ e b, plain b → Q (inr e) (h ++ b)) →
  (∀ device b, plain b → authorization p device b → Q (inl device) (h ++ b)) →
  ok (verifyProvisioningAuthorization p) h Q.
Proof.
  intros He Hok. unfold verifyProvisioningAuthorization.
  assert (∀ e, ok (Ret (inr e)) h Q) as He0 by (intros e; apply hwp_ret, nil_end, He; constructor).
  guard G1; [done|]. destruct (ps_ClaimRef (Spec p)) as [ref|] eqn:Href; [|done].
  guard G2; [done|]. guard G3; [done|].
  apply hwp_vis; [done|]. intros [claim|e]; [|apply hwp_ret, He; by apply plain_one].
  assert (∀ e, ok (Ret (inr e)) (h ++ [ev (AKube (Get Cached KClaim (claim_ref_key ref))) (inl claim)]) Q) as He1
    by (intros e; apply hwp_ret, He; by apply plain_one).
  guard G4; [apply He1|]. guard G5; [apply He1|]. guard G6; [apply He1|]. guard G7; [apply He1|].
  apply hwp_vis; [done|].
  intros [device|e]; [|apply hwp_ret; rewrite <- app_assoc; apply He; by repeat constructor].
  assert (∀ r, (r = inl device → authorization p device
      ([evk (Get Cached KClaim (claim_ref_key ref)) (inl claim)] ++
       [evk (Get Cached KDevice {| key_Namespace := ""; key_Name := ct_MatchedDevice (Status claim) |}) (inl device)])) →
    (∀ d, r = inl d → d = device) →
    ok (Ret r) ((h ++ [evk (Get Cached KClaim (claim_ref_key ref)) (inl claim)]) ++
       [evk (Get Cached KDevice {| key_Namespace := ""; key_Name := ct_MatchedDevice (Status claim) |}) (inl device)]) Q)
    as Hfin.
  { intros [d|e] Ha Hd; apply hwp_ret; rewrite <- app_assoc; [|apply He; by repeat constructor].
    rewrite (Hd d eq_refl). apply Hok; [by repeat constructor|]. apply Ha. f_equal. by apply Hd. }
  guard G8; [by apply Hfin|]. guard G9; [by apply Hfin|]. guard G10; [by apply Hfin|]. apply Hfin; [|naive_solver]. intros _.
  exists ref, claim. split; [done|]. split; [set_solver|]. split; [set_solver|].
  bool_to_prop. apply claimReferencesEqual_iff in G10 as [Hc _]. split.
  - exists ref. by split_and!.
  - intros Hr. rewrite Hr in *. simpl in *. rewrite ?andb_true_r in *. by bool_to_prop.
Qed.

Lemma record_failure_hwp p reason err t h : ok (recordProvisioningFailure Error p reason err t) h (λ _ _, True).
Proof.
  apply hwp_bind, plain_status_update; [done|]. by intros [e|] b _.
Qed.

Lemma reject_hwp p err h : ok (rejectUnauthorizedProvisioning Error p err) h (λ _ _, True).
Proof.
  apply hwp_bind, plain_status_update; [done|]. by intros [e|] b _.
Qed.

(** ** Host access *)

Lemma attached_app h b q a : attached h q a → attached (h ++ b) q a.
Proof. intros [? ?]. split; [apply elem_of_app; by left|done]. Qed.

Lemma valid_not_deleting q a : validAttachment q a = true → TimePtr_IsZero (DeletionTimestamp (Meta a)) = true.
Proof. unfold validAttachment. intros H. by bool_to_prop. Qed.

Lemma reconcileAttachmentAccess_hwp p q backend h :
  backend_of h (backend_Name backend) → server_copy h q → observable h → Meta p = Meta q → pt_NQN (Status p) = pt_NQN (Status q) →
  ok (reconcileAttachmentAccess Error p backend) h (λ _ _, True).
Proof.
  intros Hbk Hq Ho Hm Hn. unfold reconcileAttachmentAccess. apply hwp_bind, attachmentForPartition_hwp.
  - by intros e b _.
  - intros b Hb. apply hwp_vis; [|by intros []]. intros x. split; [by apply observable_app, observable_plain|].
    exists q. split_and!; [by apply server_copy_app|done|by left].
  - intros a b Hb Ha. rewrite Hm in Ha.
    assert (validAttachment p a = validAttachment q a) as Hv by (unfold validAttachment; by rewrite Hm).
    rewrite Hv, Hn. apply hwp_vis.
    { intros x. split; [by apply observable_app, observable_plain|].
      exists q. split_and!; [by apply server_copy_app|done|].
      destruct (validAttachment q a) eqn:E; [right|by left]. exists a. split; [|done].
      split; [apply elem_of_app; by right|done]. }
    intros [err|].
    + guard G; [|done]. by apply hwp_bind, setAttachmentCondition_hwp.
    + guard G; [guard G'; [|done]|].
      * apply removeAttachmentFinalizer_hwp; [|done]. intros o _ _.
        exists (backend_Name backend), (pt_NQN (Status q)). split; [by apply backend_of_app, backend_of_app|].
        split; [|exists q; split; [exists a; split; [rewrite !elem_of_app; tauto|by left]|left; split; [by apply server_copy_app, server_copy_app|done]]].
        eexists (h ++ b), _, []. split; [done|]. split; [constructor|]. left.
        destruct (validAttachment q a) eqn:E; [|done]. apply valid_not_deleting in E. by rewrite E in G.
      * destruct (validAttachment q a) eqn:E; simpl.
        -- apply setAttachmentCondition_hwp; [|done]. intros _ b' o Hb' Hid _.
           exists q, a, (backend_Name backend).
           split; [by do 3 apply server_copy_app|]. split; [|split; [|done]].
           ++ apply attached_app, attached_app. split; [apply elem_of_app; by right|done].
           ++ rewrite !elem_of_app. left. right. apply list_elem_of_here.
        -- by apply setAttachmentCondition_hwp.
Qed.

(** ** Deletion *)

Lemma releaseAttachment_hwp p h Q :
  (∃ bk, tearing_down h p ∧ backend_of h bk ∧ just_closed h bk (target_of p)) → (∀ r b, plain b → Q r (h ++ b)) →
  ok (releaseAttachmentAfterUnexport p) h Q.
Proof.
  intros (bk & Ht & Hbk & Hu) HQ.
  assert (∀ b base o, plain b → attachment_of (h ++ b) p base → attachment_patch_ok (h ++ b) base o) as Hp.
  { intros b base o Hb Ha _ _. exists bk, (target_of p). split; [by apply backend_of_app|]. split; [by apply just_closed_app|].
    exists p. split; [done|]. right. split; [by apply tearing_down_app|done]. }
  assert (∀ a b, plain b → attachment_of (h ++ b) p a → ok (dropAttachmentFinalizer a) (h ++ b) Q) as Hd.
  { intros a b Hb Ha. unfold dropAttachmentFinalizer. guard G; [|by apply hwp_ret, HQ].
    apply removeAttachmentFinalizer_hwp; [by intros; apply Hp|]. intros r b' Hb'. rewrite <- app_assoc.
    by apply HQ, plain_app. }
  unfold releaseAttachmentAfterUnexport. apply hwp_bind, attachmentForPartition_hwp.
  - intros e b Hb. by apply hwp_ret, HQ.
  - intros b Hb. by apply hwp_ret, HQ.
  - intros a b Hb Ha. guard G; [|apply Hd; [done|]; exists a; split; [apply elem_of_app; by right|by left]]. apply hwp_vis; [done|]. intros d. rewrite <- app_assoc.
    guard G'; [apply hwp_ret, HQ, plain_app; [done|by apply plain_one]|].
    apply hwp_vis; [done|]. intros r. rewrite <- app_assoc.
    assert (plain ((b ++ [ev (AKube (Delete KAttachment a)) d]) ++
      [ev (AKube (Get Cached KAttachment (ObjectKeyFromObject a))) r])) as Hb'
      by (apply plain_app; [apply plain_app; [done|]|]; by apply plain_one).
    destruct r as [a'|e]; [apply Hd; [done|]|by apply hwp_ret, HQ].
    exists a. rewrite !elem_of_app. split; [tauto|]. do 3 right. apply list_elem_of_here.
Qed.

Lemma assignedDeviceFromList_hwp p h Q :
  (∀ r b, plain b → Q r (h ++ b)) → ok (assignedDeviceFromList NodeName p) h Q.
Proof.
  intros HQ. apply hwp_vis; [done|]. intros [l|e]; apply hwp_ret, HQ; by apply plain_one.
Qed.

Lemma assignedDeviceName_hwp p h Q :
  (∀ r b, plain b → Q r (h ++ b)) → ok (assignedDeviceName NodeName p) h Q.
Proof.
  intros HQ. unfold assignedDeviceName.
  assert (∀ e : aevent, is_plugin e = false → ok (assignedDeviceFromList NodeName p) (h ++ [e]) Q) as Hl.
  { intros e He. apply assignedDeviceFromList_hwp. intros r b Hb. rewrite <- app_assoc.
    apply HQ. by constructor. }
  destruct (ps_ClaimRef (Spec p)); [guard G|]; [|by apply assignedDeviceFromList_hwp..].
  apply hwp_vis; [done|]. intros [claim|e].
  - guard G1; [apply hwp_ret, HQ; by apply plain_one|]. guard G2; [apply hwp_ret, HQ; by apply plain_one|].
    by apply Hl.
  - guard G1; [by apply Hl|apply hwp_ret, HQ; by apply plain_one].
Qed.

Lemma resolveDeletionDevice_hwp p name h Q :
  (∀ r b, plain b → Q r (h ++ b)) → ok (resolveDeletionDevice NodeName p name) h Q.
Proof.
  intros HQ. unfold resolveDeletionDevice. guard G.
  - guard G'; [apply hwp_ret, nil_end, HQ; constructor|]. apply hwp_bind, assignedDeviceName_hwp.
    intros [n|e] b Hb; by apply hwp_ret, HQ.
  - apply hwp_vis; [done|]. intros [ds [e|]]; apply hwp_ret, HQ; by apply plain_one.
Qed.

Lemma clearInactiveBackend_hwp p name h Q :
  (∀ r b, plain b → Q r (h ++ b)) → ok (clearInactiveBackend NodeName p name) h Q.
Proof.
  intros HQ. unfold clearInactiveBackend. guard G; [apply hwp_ret, nil_end, HQ; constructor|].
  apply hwp_vis; [done|]. intros [l|e]; [|apply hwp_ret, HQ; by apply plain_one].
  guard G'; [apply hwp_ret, HQ; by apply plain_one|]. apply hwp_bind, assignedDeviceName_hwp.
  intros r b Hb. rewrite <- app_assoc. destruct r as [n|e].
  - apply updateDeviceStatus_hwp. intros r b' Hb'. rewrite <- app_assoc. apply HQ.
    by apply plain_app; [repeat constructor|].
  - apply hwp_ret, HQ. by constructor.
Qed.

Lemma remove_partition_finalizer_hwp h p :
  partition_patch_ok h p (with_Meta (set_Finalizers
    (RemoveFinalizer (Finalizers (Meta p)) partitionFinalizer) (Meta p)) p) →
  ok (let! r := akube (Patch KPartition p (with_Meta (set_Finalizers
        (RemoveFinalizer (Finalizers (Meta p)) partitionFinalizer) (Meta p)) p)) in
      Ret (match r with inl _ => Ok done_result | inr err => Err err end)) h (λ _ _, True).
Proof. intros H. apply hwp_vis; [by intros x|done]. Qed.

Lemma torn_down_app h b p : torn_down h p → torn_down (h ++ b) p.
Proof.
  intros [[be Hu] Hv]. split; [exists be; set_solver|]. intros Hs. destruct (Hv Hs) as (m & pa & n & H). exists m, pa, n. set_solver.
Qed.

(** Unexported and deleted, only the finalizer remains to be dropped. *)
Lemma deletion_end_hwp p h : tearing_down h p → torn_down h p →
  ok (let! r := akube (Get Cached KPartition req) in
      match r with
      | inr err => Ret (match IgnoreNotFound err with Some err => Err err | None => Ok done_result end)
      | inl latest =>
        let! r := akube (Patch KPartition latest (with_Meta (set_Finalizers
          (RemoveFinalizer (Finalizers (Meta latest)) partitionFinalizer) (Meta latest)) latest)) in
        Ret (match r with inl _ => Ok done_result | inr err => Err err end)
      end) h (λ r h', is_ok r = true → torn_down h' p).
Proof.
  intros Ht Hd. apply hwp_vis; [done|]. intros [latest|e]; [|apply hwp_ret; intros _; by apply torn_down_app].
  apply hwp_vis.
  - intros x _ _. exists p. split; [by apply tearing_down_app|by apply torn_down_app].
  - intros x. apply hwp_ret. intros _. by do 2 apply torn_down_app.
Qed.

Lemma deletion_hwp p resolved h :
  resolvePartitionPlugins plugins p = inl resolved → first_read h p → is_Some (DeletionTimestamp (Meta p)) → ps_NodeName (Spec p) = NodeName →
  ok (reconcilePartitionDeletion NodeName req p resolved (identitiesForPartition p).1) h
    (λ r h', tearing_down h' p → is_ok r = true → torn_down h' p).
Proof.
  intros Hres Hf Hd Hn. unfold reconcilePartitionDeletion. guard G.
  { apply hwp_ret. intros (_ & _ & _ & Hfin) _. apply contains_finalizer in Hfin. by rewrite Hfin in G. }
  bool_to_prop. apply contains_finalizer in G.
  assert (tearing_down h p) as Ht by done.
  apply hwp_vis; [intros x; exists p; by split|]. intros [err|]; [by apply hwp_ret|].
  set (un := ev (Rep := agentRep) (UnexportVolume (backend_Name (targetBackend resolved)) (target_of p)) None).
  assert (∀ b, tearing_down (h ++ [un] ++ b) p) as Ht' by (intros b; by apply tearing_down_app).
  assert (∀ b, unexported (h ++ [un] ++ b) p) as Hu.
  { intros b. exists (backend_Name (targetBackend resolved)). unfold un. set_solver. }
  apply hwp_bind, releaseAttachment_hwp.
  { exists (backend_Name (targetBackend resolved)). split; [apply (Ht' [])|]. split.
    - apply backend_of_app. by exists p, resolved.
    - eexists h, _, []. split; [done|]. split; [constructor|by right]. }
  intros [err|] b Hb; [by apply hwp_ret|]. rewrite <- app_assoc. fold un. apply hwp_bind.
  guard G'; bool_to_prop.
  2:{ apply hwp_ret. eapply hwp_mono; [|apply (deletion_end_hwp p); [apply Ht'|by split]]. auto. }
  apply hwp_bind, resolveDeletionDevice_hwp. intros [[path name]|err] b' Hb'; [|by apply hwp_ret].
  rewrite <- !app_assoc. apply hwp_vis.
  { intros x. exists p. split_and!; [apply Ht'|apply Hu|done|done]. }
  intros [err|]; [by apply hwp_ret|]. apply clearInactiveBackend_hwp. intros [err|] b'' Hb''; [by apply hwp_ret|].
  rewrite <- !app_assoc. eapply hwp_mono; [|apply (deletion_end_hwp p); [apply Ht'|split; [apply Hu|]]]; [auto|].
  intros _. exists (manager_Name (volumeManager resolved)), path, name. set_solver.
Qed.

(** ** Provisioning *)

Lemma freshly_now h b p device : plain b → authorization p device b → freshly_authorized (h ++ b) (Spec p) device.
Proof. intros Hb Ha. by exists h, b, p. Qed.

Lemma freshly_plain h b spec device :
  freshly_authorized h spec device → plain b → freshly_authorized (h ++ b) spec device.
Proof.
  intros (a & b0 & p & -> & Hb & Hs & Ha) Hb'. exists a, (b0 ++ b), p.
  split_and!; [by rewrite app_assoc|by apply plain_app|done|by apply authorization_grow].
Qed.

Lemma recorded_app h b c : recorded h c → recorded (h ++ b) c.
Proof.
  intros [(q & Hq & ?)|(ba & o & ob & H & ?)]; [left|right].
  - exists q. split; [by apply server_copy_app|done].
  - exists ba, o, ob. split; [apply elem_of_app; by left|done].
Qed.

Lemma volume_created_app h b p0 spec n c : volume_created h p0 spec n c → volume_created (h ++ b) p0 spec n c.
Proof.
  intros [(m & pa & nm & H) ?]. split; [|done]. exists m, pa, nm. apply elem_of_app. by left.
Qed.

Lemma endpoint_app a b ip : endpoint b ip → endpoint (a ++ b) ip.
Proof. intros (n & t & ? & ? & ?). exists n, t. rewrite !elem_of_app. tauto. Qed.

Lemma endpoint_grow a b ip : endpoint a ip → endpoint (a ++ b) ip.
Proof. intros (n & t & ? & ? & ?). exists n, t. rewrite !elem_of_app. tauto. Qed.

Lemma discovered_app h b spec pa n : discovered h spec pa n → discovered (h ++ b) spec pa n.
Proof. intros (ds & hw & ? & ?). exists ds, hw. rewrite elem_of_app. tauto. Qed.

Lemma exportPartition_hwp p p0 resolved created h :
  provisioning h p0 (Spec p) → volume_created h p0 (Spec p) (identitiesForPartition p0).1 created →
  recorded h created →
  ok (exportPartition Error NodeName req p resolved (identitiesForPartition p0).1 created) h (λ _ _, True).
Proof.
  intros Hp Hv Hr. unfold exportPartition. apply hwp_bind, rdmaEndpoint_hwp.
  { intros e b _. apply record_failure_hwp. }
  intros ip b Hb Hip. apply hwp_bind, verify_hwp; [intros e b' _; apply reject_hwp|].
  intros device b' Hb' Ha. apply hwp_vis.
  { intros x. exists p0, (Spec p), device, created. rewrite <- app_assoc.
    assert (plain (b ++ b')) as Hbb by (by apply plain_app).
    split_and!; [by apply provisioning_app, observable_plain| |by apply volume_created_app|by apply recorded_app|
      done|done|by apply endpoint_app, endpoint_grow|done|done].
    rewrite app_assoc. by apply freshly_now. }
  intros [nqn|err]; [|apply record_failure_hwp]. apply hwp_bind, updatePartitionStatus_hwp; [|done..].
  intros b'' latest Hb'' _ _. exists (backend_Name (targetBackend resolved)), (identitiesForPartition p0).1,
    (BackendVolumeID created), ip, 4420, (ps_TargetOptions (Spec p)). split; [|done].
  rewrite !elem_of_app. left. right. apply list_elem_of_here.
Qed.

Lemma carvePartition_hwp p p0 q resolved bytes path name h device :
  provisioning h p0 (Spec p) → freshly_authorized h (Spec p) device → device_set_up h →
  discovered h (Spec p) path name → RoundUp (Value (ps_Size (Spec p0))) = Ok bytes →
  server_copy h q → backendVolumeIdentity (Status p) = backendVolumeIdentity (Status q) →
  ok (carvePartition Error NodeName req p resolved (identitiesForPartition p0).1 bytes path name) h (λ _ _, True).
Proof.
  intros Hp Hf Hs Hd Hb Hq Hst. unfold carvePartition. apply hwp_vis.
  { intros x. by exists p0, (Spec p), device. }
  intros [err|]; [apply record_failure_hwp|]. apply hwp_bind, verify_hwp; [intros e b' _; apply reject_hwp|].
  intros device' b Hbp Ha.
  assert (provisioning ((h ++ [ev (Rep := agentRep)
    (SetupStorage (manager_Name (volumeManager resolved)) path name) None]) ++ b) p0 (Spec p)) as Hp'.
  { by apply provisioning_app; [apply provisioning_app; [|apply observable_one]|apply observable_plain]. }
  apply hwp_vis.
  { intros x. exists p0, (Spec p), device'. split_and!; [done|by apply freshly_now| |done|done].
    rewrite !elem_of_app. left. right. apply list_elem_of_here. }
  intros [created|err]; [|apply record_failure_hwp].
  guard G1; [apply record_failure_hwp|]. guard G2; [apply record_failure_hwp|]. bool_to_prop.
  set (h' := _ ++ [ev (CreateVolume _ _ _ _ _) _]).
  assert (volume_created h' p0 (Spec p) (identitiesForPartition p0).1 created) as Hv.
  { split_and!; [|done|by exists bytes]. exists (manager_Name (volumeManager resolved)), path, name.
    apply elem_of_app. right. apply list_elem_of_here. }
  assert (provisioning h' p0 (Spec p)) as Hp'' by (apply provisioning_app; [done|by apply observable_one]).
  unfold persistBackendVolumeIdentity. apply hwp_bind. guard G3; bool_to_prop.
  - apply hwp_ret. apply exportPartition_hwp; [done..|]. left. exists q.
    split; [by do 3 apply server_copy_app|congruence].
  - apply hwp_bind, updatePartitionStatus_hwp; [|done|].
    + intros b' latest _ H Hne. done.
    + intros b' latest ob Hb' Hin. apply hwp_ret. apply exportPartition_hwp.
      * by apply provisioning_app, observable_plain.
      * by apply volume_created_app.
      * right. exists latest, (with_Status (with_backend_volume created (Status latest)) latest), ob.
        split; [apply elem_of_app; by right|by destruct created].
Qed.

Lemma find_serial_in serial devices hw :
  find_serial serial devices = Some hw → hw ∈ devices ∧ EqualFold (hw_SerialNumber hw) serial = true.
Proof.
  induction devices as [|d ds IH]; simpl; [done|]. destruct (EqualFold (hw_SerialNumber d) serial) eqn:E.
  - intros H. injection H as <-. split; [apply list_elem_of_here|done].
  - intros H. destruct (IH H). split; [by apply list_elem_of_further|done].
Qed.

Lemma findProvisioningDevice_hwp p name h Q :
  (∀ e b, plain b → Q (inr e) (h ++ b)) →
  (∀ path n b, plain b → discovered b (Spec p) path n → Q (inl (path, n)) (h ++ b)) →
  ok (findProvisioningDevice p name) h Q.
Proof.
  intros He Hok. apply hwp_vis; [done|]. intros [devices [err|]]; [apply hwp_ret, He; by apply plain_one|].
  apply hwp_ret. destruct (find_serial _ _) as [hw|] eqn:E; [|apply He; by apply plain_one].
  apply find_serial_in in E as [? ?]. apply Hok; [by apply plain_one|].
  exists devices, hw. split_and!; [apply list_elem_of_here|done..|]. case_bool_decide; eauto.
Qed.

Lemma provisionPartition_hwp p p0 q resolved bytes h :
  provisioning h p0 (Spec p) → RoundUp (Value (ps_Size (Spec p0))) = Ok bytes →
  server_copy h q → backendVolumeIdentity (Status p) = backendVolumeIdentity (Status q) →
  ok (provisionPartition Error NodeName req p resolved (identitiesForPartition p0).1 bytes) h (λ _ _, True).
Proof.
  intros Hp Hb Hq Hst. unfold provisionPartition. apply hwp_bind, verify_hwp; [intros e b' _; apply reject_hwp|].
  intros device b1 Hb1 Ha1. apply hwp_bind, rdmaEndpoint_hwp; [intros e b' _; apply record_failure_hwp|].
  intros ip b2 Hb2 _. guard G1; [apply record_failure_hwp|].
  assert (provisioning ((h ++ b1) ++ b2) p0 (Spec p)) as Hp2
    by (by apply provisioning_app; [apply provisioning_app|]; [|apply observable_plain..]).
  apply hwp_vis.
  { intros x. exists p0, (Spec p), device. split_and!; [done| |done..]. by apply freshly_plain; [apply freshly_now|]. }
  intros [err|]; [apply record_failure_hwp|]. set (h3 := _ ++ [ev (SetupDevice _ _ _ _) _]).
  assert (provisioning h3 p0 (Spec p)) as Hp3 by (by apply provisioning_app; [|apply observable_one]).
  assert (device_set_up h3) as Hs.
  { do 4 eexists. apply elem_of_app. right. apply list_elem_of_here. }
  assert (server_copy h3 q) as Hq3 by (by do 3 apply server_copy_app). clearbody h3.
  apply hwp_bind, findProvisioningDevice_hwp; [intros [r e] b' _; apply record_failure_hwp|].
  intros path n b4 Hb4 Hd. apply hwp_bind, verify_hwp; [intros e b' _; apply reject_hwp|].
  intros device' b5 Hb5 Ha5. apply hwp_bind.
  assert (∀ b, plain b → ok (carvePartition Error NodeName req p resolved (identitiesForPartition p0).1 bytes path n)
    (((h3 ++ b4) ++ b5) ++ b) (λ _ _, True)) as Hc.
  { intros b Hbb. assert (plain (b4 ++ b5 ++ b)) as Hball by (by repeat apply plain_app).
    apply (carvePartition_hwp p p0 q resolved bytes path n _ device'); [| | | |done| |done].
    - rewrite <- !app_assoc. by apply provisioning_app, observable_plain.
    - by apply freshly_plain; [apply freshly_now|].
    - destruct Hs as (ba & pc & nm & op & Hs). exists ba, pc, nm, op. rewrite !elem_of_app. tauto.
    - do 2 apply discovered_app. destruct Hd as (ds & hw & ? & ?). exists ds, hw. rewrite elem_of_app. tauto.
    - by do 3 apply server_copy_app. }
  guard G2.
  - apply updateDeviceStatus_hwp. intros [err|] b6 Hb6; [apply record_failure_hwp|by apply Hc].
  - apply hwp_ret, hwp_nil, Hc. constructor.
Qed.

(** The copy of the partition that the run works on: the server's, but for the
    identity that the run has just stored. *)
Definition tracked (h : list aevent) (p : NVMePartition) : Prop :=
  ∃ q, server_copy h q ∧ Meta p = Meta q ∧ Spec p = Spec q ∧ pt_NQN (Status p) = pt_NQN (Status q) ∧
    backendVolumeIdentity (Status p) = backendVolumeIdentity (Status q).

Lemma ensureIdentity_hwp p ext vol h Q :
  server_copy h p → (∀ e h', Q (inr e) h') → (∀ p' b, plain b → tracked (h ++ b) p' → Q (inl p') (h ++ b)) →
  ok (ensurePartitionIdentityAndFinalizer req p ext vol) h Q.
Proof.
  intros Hc He Hok. unfold ensurePartitionIdentityAndFinalizer.
  assert (∀ p' b, plain b → tracked (h ++ b) p' → ok
    (if ContainsFinalizer (Finalizers (Meta p')) partitionFinalizer then Ret (Ok p')
     else akube (Patch KPartition p' (with_Meta (set_Finalizers
       (AddFinalizer (Finalizers (Meta p')) partitionFinalizer) (Meta p')) p'))) (h ++ b) Q) as Hfin.
  { intros p' b Hb Ht. guard G; [by apply hwp_ret, Hok|]. apply hwp_vis.
    - intros x. intros _ []. apply add_finalizer. by right.
    - intros [p''|e]; [|by apply hwp_ret]. apply hwp_ret. rewrite <- app_assoc. apply Hok.
      + apply plain_app; [done|by apply plain_one].
      + exists p''. split_and!; try done. right. do 2 eexists. rewrite !elem_of_app. right. right.
        apply list_elem_of_here. }
  apply hwp_bind. guard G.
  - apply hwp_bind, updatePartitionStatus_hwp; [intros b l _ H Hne; done|intros; by apply hwp_ret, hwp_ret|].
    intros b latest ob Hb _. apply hwp_ret. apply Hfin; [done|]. exists p. by split; [apply server_copy_app|].
  - apply hwp_ret, hwp_nil, Hfin; [constructor|]. exists p. by split; [apply server_copy_app|].
Qed.

Lemma active_hwp p resolved h :
  resolvePartitionPlugins plugins p = inl resolved → first_read h p → observable h → DeletionTimestamp (Meta p) = None → ps_NodeName (Spec p) = NodeName →
  ok (reconcileActivePartition Error NodeName req p resolved (identitiesForPartition p).1
        (identitiesForPartition p).2) h (λ _ _, True).
Proof.
  intros Hres Hf Ho Hd Hn. unfold reconcileActivePartition. destruct (Validate _ _); [apply record_failure_hwp|].
  destruct (RoundUp _) as [bytes|e] eqn:Hb; [|apply record_failure_hwp].
  apply hwp_bind, verify_hwp; [intros e b' _; apply reject_hwp|]. intros device b1 Hb1 Ha.
  apply hwp_bind, plain_status_update; [done|]. intros [err|] b2 Hb2; [done|].
  apply hwp_bind, ensureIdentity_hwp; [by do 2 apply server_copy_app; apply first_read_copy|done|].
  intros p' b3 Hb3 (q & Hq & Hm & Hs & Hnq & Hbi). set (h3 := ((h ++ b1) ++ b2) ++ b3) in *.
  assert (observable h3) as Ho3 by (by repeat apply observable_app; [|apply observable_plain..]).
  assert (provisioning h3 p (Spec p')) as Hp3.
  { split_and!; [by do 3 apply first_read_app|done|done| |by exists q|done].
    exists device. by apply authorization_grow, authorization_grow, authorization_app. }
  assert (backend_of h3 (backend_Name (targetBackend resolved))) as Hbk by (do 3 apply backend_of_app; by exists p, resolved).
  clearbody h3. apply hwp_bind.
  assert (∀ b, observable b → ok (provisionPartition Error NodeName req p' resolved (identitiesForPartition p).1 bytes)
    (h3 ++ b) (λ _ _, True)) as Hprov.
  { intros b Hbb. apply (provisionPartition_hwp _ _ q); [by apply provisioning_app|done|by apply server_copy_app|done]. }
  unfold reconcileExportedPartition. guard G1; [apply hwp_ret, hwp_nil, Hprov, observable_nil|].
  apply hwp_bind, rdmaEndpoint_hwp; [done|]. intros ip b4 Hb4 _. apply hwp_bind.
  assert (∀ b, observable b → ok (let! r := reconcileAttachmentAccess Error p' (targetBackend resolved) in
    match r with Some err => Ret (true, Err err) | None => Ret (true, Ok (requeue exportedHealthInterval)) end)
    ((h3 ++ b4) ++ b) (λ a h', ok (let '(handled, res) := a in
      if (handled : bool) || negb (is_ok res) then Ret res
      else provisionPartition Error NodeName req p' resolved (identitiesForPartition p).1 bytes) h' (λ _ _, True)))
    as Hacc.
  { intros b Hbb. apply hwp_bind. eapply hwp_mono; [|apply (reconcileAttachmentAccess_hwp _ q); try done].
    - by intros [e|] h' _.
    - by do 2 apply backend_of_app.
    - by do 2 apply server_copy_app.
    - by repeat apply observable_app; [|apply observable_plain|]. }
  guard G2; [|apply hwp_ret, hwp_nil, Hacc, observable_nil].
  apply hwp_vis; [done|]. intros [err|]; apply hwp_ret; cbv beta iota.
  - guard G3; [done|]. apply hwp_ret. cbn [orb negb is_ok]. rewrite <- app_assoc. apply Hprov, observable_app; [by apply observable_plain|].
    intros ba nq bl i po op er Hin%list_elem_of_singleton.
    apply (f_equal (λ e : aevent, match e with existT (CheckExport _ _ _ _ _ _) (Some er) => Some er | _ => None end)) in Hin.
    simpl in Hin. by injection Hin as ->.
  - apply Hacc. intros ba nq bl i po op er Hin%list_elem_of_singleton.
    by apply (f_equal (λ e : aevent, match e with existT (CheckExport _ _ _ _ _ _) (Some er) => Some er | _ => None end)) in Hin.
Qed.

Lemma first_read_unique r t p : first_read (evk (Get Cached KPartition req) r :: t) p → r = inl p.
Proof.
  intros [t' H]. apply (f_equal (λ l : list aevent, match l with existT (AKube (Get _ KPartition _)) r :: _ => Some r | _ => None end)) in H.
  by injection H.
Qed.

Lemma Reconcile_hwp : ok (Reconcile Error plugins NodeName req) [] (λ r h, ∀ p, tearing_down h p → is_ok r = true → torn_down h p).
Proof.
  unfold Reconcile. apply hwp_vis; [done|].
  intros [p|e]; [|apply hwp_ret; by intros p ([= ]%first_read_unique & _)].
  assert (∀ (q : agent (result ctrlResult)), ok q [evk (Get Cached KPartition req) (inl p)] (λ r h, tearing_down h p → is_ok r = true → torn_down h p) →
    ok q [evk (Get Cached KPartition req) (inl p)] (λ r h, ∀ p', tearing_down h p' → is_ok r = true → torn_down h p')) as Hp.
  { intros q Hq. apply hwp_grows in Hq. eapply hwp_mono; [|exact Hq]. intros r h [H [t ->]] p' Hp'.
    pose proof Hp' as ([= <-]%first_read_unique & _). by apply H. }
  apply Hp. assert (∀ (q : agent (result ctrlResult)), DeletionTimestamp (Meta p) = None → ok q [evk (Get Cached KPartition req) (inl p)] (λ _ _, True) →
    ok q [evk (Get Cached KPartition req) (inl p)] (λ r h, tearing_down h p → is_ok r = true → torn_down h p)) as Hlive.
  { intros q Hd Hq. eapply hwp_mono; [|exact Hq]. intros r h _ (_ & [? Hx] & _). kn. congruence. }
  kn. guard G1; [apply hwp_ret; intros (_ & _ & Hn & _); by bool_to_prop|]. bool_to_prop. cbv zeta.
  destruct (DeletionTimestamp (Meta p)) as [ts|] eqn:Hd; cbn [negb andb].
  - destruct (resolvePartitionPlugins plugins p) as [resolved|[reason e]] eqn:Hres; [|by apply hwp_ret].
    destruct (identitiesForPartition p) as [ext vol] eqn:Hids.
    replace ext with (identitiesForPartition p).1 by (by rewrite Hids). apply deletion_hwp; try done; by exists [].
  - apply Hlive; [done|]. guard G2; [done|].
    destruct (resolvePartitionPlugins plugins p) as [resolved|[reason e]] eqn:Hres; [|apply record_failure_hwp].
    destruct (identitiesForPartition p) as [ext vol] eqn:Hids.
    replace ext with (identitiesForPartition p).1 by (by rewrite Hids).
    replace vol with (identitiesForPartition p).2 by (by rewrite Hids).
    apply active_hwp; try done; [by exists []|by apply observable_one].
Qed.

(** ** Properties *)

#[local] Abbreviation run_of h := (emits (Reconcile Error plugins NodeName req) h).

Lemma Reconcile_justified h pre (e : aevent) post : run_of h → h = pre ++ e :: post → good pre e.
Proof. intros Hh. by apply (hwp_justified _ _ _ _ Reconcile_hwp Hh). Qed.

(** What the run has seen before it calls a method of a plugin that changes a
    device, a volume or a target. *)
Definition warranted (h : list aevent) (o : agentOp) : Prop :=
  match o with
  | SetupDevice _ _ _ _ | SetupStorage _ _ _ | CreateVolume _ _ _ _ _ | ExportVolume _ _ _ _ _ _ =>
    ∃ p0 spec device, provisioning h p0 spec ∧ freshly_authorized h spec device
  | UnexportVolume _ _ | DeleteVolume _ _ _ _ _ => ∃ p0, tearing_down h p0
  | ReconcileHostAccess _ nqn host => host_access_ok h nqn host
  | CheckExport _ _ _ _ _ _ | AKube _ | ANow | ADiscover => True
  end.

(** C4: Whatever the API server, discovery and the plugins reply, the agent changes
    hardware only for a warranted purpose.  It sets up devices and storage, creates
    volumes and exports them only for a partition of its node that is not being
    deleted, after it has found, since the latest plugin call, that the claim of
    the partition is live and owns the device, and never after a health check that
    could not observe the export; unless the status records an allocation, the
    placement is authorized, the claim active and the device claimed.  It unexports
    and deletes volumes only for a partition of its node that is being deleted and
    carries the finalizer, and opens a target only for the host of a valid
    attachment.  (The status records an allocation as soon as it has an external
    identity, which is before anything is allocated: [first_allocation_unchecked].) *)
Theorem provisioning_authorized h pre o x post :
  run_of h → h = pre ++ ev o x :: post → warranted pre o.
Proof.
  intros Hh Hpre. pose proof (Reconcile_justified _ _ _ _ Hh Hpre) as Hg.
  destruct o; try done; simpl in Hg.
  - destruct Hg as (p0 & sp & d & ? & ? & _). by exists p0, sp, d.
  - destruct Hg as (p0 & sp & d & cr & ? & ? & _). by exists p0, sp, d.
  - destruct Hg as (p0 & ? & _). by exists p0.
  - destruct Hg as (p0 & sp & d & ? & ? & _). by exists p0, sp, d.
  - destruct Hg as (p0 & sp & d & ? & ? & _). by exists p0, sp, d.
  - destruct Hg as (p0 & ? & _). by exists p0.
Qed.

(** C16: A volume is exported only when it has been created large enough by this run
    and its backend identity is recorded in the status of the partition, on the
    address of a node that was ready; and the status says Exported only with the
    NQN, address and port of a successful export. *)
Theorem export_recorded h : run_of h →
  (∀ pre post backend volumeName blockPath ip port options x,
     h = pre ++ ev (Rep := agentRep) (ExportVolume backend volumeName blockPath ip port options) x :: post →
     export_volume_ok pre volumeName blockPath ip port options) ∧
  (∀ pre post base o x, h = pre ++ evk (StatusPatch KPartition base o) x :: post →
     partition_status_ok pre base o).
Proof.
  intros Hh. split.
  - intros pre post bk vn bp ip po op x Hpre. exact (Reconcile_justified _ _ _ _ Hh Hpre).
  - intros pre post base o x Hpre. exact (Reconcile_justified _ _ _ _ Hh Hpre).
Qed.

(** C7: Teardown happens only for a deleted partition of this node that has the
    cleanup finalizer, and in order: the target is removed, then the volume with
    the recorded identity is deleted, and only then the finalizer goes. *)
Theorem teardown_ordered h : run_of h →
  (∀ pre post backend nqn x, h = pre ++ ev (Rep := agentRep) (UnexportVolume backend nqn) x :: post →
     ∃ p0, tearing_down pre p0 ∧ nqn = target_of p0) ∧
  (∀ pre post manager path name volumeName identity x,
     h = pre ++ ev (Rep := agentRep) (DeleteVolume manager path name volumeName identity) x :: post →
     delete_volume_ok pre volumeName identity) ∧
  (∀ pre post base o x, h = pre ++ evk (Patch KPartition base o) x :: post → partition_patch_ok pre base o).
Proof.
  intros Hh. split_and!.
  - intros pre post bk nqn x Hpre. exact (Reconcile_justified _ _ _ _ Hh Hpre).
  - intros pre post m pa n vn id x Hpre. exact (Reconcile_justified _ _ _ _ Hh Hpre).
  - intros pre post base o x Hpre. exact (Reconcile_justified _ _ _ _ Hh Hpre).
Qed.

(** C15: A target is opened only for the host of the partition's own valid
    attachment; the attachment is reported ready only after that, and loses its
    fencing finalizer only when the latest call of a plugin has closed the target
    of the partition or removed it. *)
Theorem host_access_fenced h : run_of h →
  (∀ pre post backend nqn host x,
     h = pre ++ ev (Rep := agentRep) (ReconcileHostAccess backend nqn host) x :: post → host_access_ok pre nqn host) ∧
  (∀ pre post base o x, h = pre ++ evk (StatusPatch KAttachment base o) x :: post → attachment_status_ok pre o) ∧
  (∀ pre post base o x, h = pre ++ evk (Patch KAttachment base o) x :: post → attachment_patch_ok pre base o).
Proof.
  intros Hh. split_and!.
  - intros pre post bk nqn host x Hpre. exact (Reconcile_justified _ _ _ _ Hh Hpre).
  - intros pre post base o x Hpre. exact (Reconcile_justified _ _ _ _ Hh Hpre).
  - intros pre post base o x Hpre. exact (Reconcile_justified _ _ _ _ Hh Hpre).
Qed.

End Props.

(** ** Concrete runs *)

Definition example_registry : Registry :=
  RegisterVolumeManager {| manager_Name := "spdk-lvol" |}
    (RegisterTargetBackend {| backend_Name := "spdk"; isExportHealthChecker := true |}
       {| backends := ∅; volumeManagers := ∅ |}).

Definition example_volume : Plugins.VolumeIdentity :=
  {| BackendVolumeID := "lvs/vol"; CapacityBytes := 4194304; BaseBdev := "Nvme0n1"; VolumeStoreName := "lvs";
     VolumeStoreUUID := "u-1"; VolumeName := "vol"; VolumeUUID := "u-2" |}.

Definition example_hardware : HardwareNVMe :=
  {| hw_Name := "Nvme0n1"; hw_PCIAddress := "0000:01:00.0"; hw_SerialNumber := "SN1"; hw_Model := "m";
     hw_TotalBytes := 8388608; hw_NUMANode := 0 |}.

(** The API server of the model and plugins that work; [setup] is the reply of
    SetupDevice. *)
Definition agent_handle (setup : option error) (t : Time) (c : Cluster) (o : agentOp) : agentRep o * Cluster :=
  match o with
  | AKube o => model_serve c o
  | ANow => (t, c)
  | ADiscover => (([example_hardware], None), c)
  | SetupDevice _ _ _ _ => (setup, c)
  | ExportVolume _ _ _ _ _ _ => (Ok "nqn.example", c)
  | CreateVolume _ _ _ _ _ => (Ok example_volume, c)
  | UnexportVolume _ _ | ReconcileHostAccess _ _ _ | CheckExport _ _ _ _ _ _ | SetupStorage _ _ _
  | DeleteVolume _ _ _ _ _ => (None, c)
  end.

Definition example_Error (e : error) : string := "error".
Definition agent_key : ObjectKey := {| key_Namespace := "default"; key_Name := "pvc-1" |}.

Definition agent_run : agent (result ctrlResult) :=
  Reconcile example_Error example_registry "node-1" agent_key.

Definition agent_history (c : Cluster) : list aevent := (trace (agent_handle None example_time) agent_run c).1.

Lemma agent_history_run c :
  emits (Reconcile example_Error example_registry "node-1" agent_key) (agent_history c).
Proof. eapply returns_emits, trace_returns. Qed.

(** The cluster of the placement examples with one partition and attachments. *)
Definition agent_cluster (p : NVMePartition) (atts : list NVMeVolumeAttachment) : Cluster :=
  let c := example_cluster [p] in
  {| partitions := partitions c; devices := devices c; claims := claims c; nodes := nodes c;
     attachments := mk_store (k := KAttachment) atts |}.

Definition new_cluster : Cluster := agent_cluster (PlacementAuth.example_partition 1) [].
Definition new_volume : string := (identitiesForPartition (PlacementAuth.example_partition 1)).1.

Lemma provisioning_authorized_witness :
  agent_history new_cluster !! 21%nat = Some (ev (Rep := agentRep)
    (CreateVolume "spdk-lvol" "Nvme0n1" "Nvme0n1" new_volume 4194304) (inl example_volume)) ∧
  ∃ p0 spec device, provisioning "node-1" agent_key (take 21 (agent_history new_cluster)) p0 spec ∧
    freshly_authorized (take 21 (agent_history new_cluster)) spec device.
Proof.
  assert (agent_history new_cluster !! 21%nat = Some (ev (Rep := agentRep)
    (CreateVolume "spdk-lvol" "Nvme0n1" "Nvme0n1" new_volume 4194304) (inl example_volume))) as E
    by (vm_compute; reflexivity).
  split; [exact E|].
  exact (provisioning_authorized example_Error example_registry "node-1" agent_key _ _ _ _ _
    (agent_history_run new_cluster) (eq_sym (take_drop_middle _ _ _ E))).
Defined.

Lemma export_recorded_witness :
  agent_history new_cluster !! 28%nat = Some (ev (Rep := agentRep)
    (ExportVolume "spdk" new_volume "lvs/vol" "10.0.0.7" 4420 ∅) (inl "nqn.example")) ∧
  export_volume_ok "node-1" agent_key (take 28 (agent_history new_cluster)) new_volume "lvs/vol" "10.0.0.7" 4420 ∅.
Proof.
  assert (agent_history new_cluster !! 28%nat = Some (ev (Rep := agentRep)
    (ExportVolume "spdk" new_volume "lvs/vol" "10.0.0.7" 4420 ∅) (inl "nqn.example"))) as E
    by (vm_compute; reflexivity).
  split; [exact E|].
  eapply (proj1 (export_recorded example_Error example_registry "node-1" agent_key _ (agent_history_run new_cluster))).
  exact (eq_sym (take_drop_middle _ _ _ E)).
Defined.

(** An exported partition, alive or being deleted. *)
Definition exported_partition (deleted : option Time) : NVMePartition :=
  let p := PlacementAuth.example_partition 1 in
  with_Meta (set_DeletionTimestamp deleted (set_Finalizers [partitionFinalizer] (Meta p)))
    (with_Status (with_export "nqn.example" "10.0.0.7" 1
       (with_backend_volume example_volume (set_pt_ExternalID "ext-1" (set_pt_VolumeID "vol-1" (Status p))))) p).

Definition deleted_cluster : Cluster := agent_cluster (exported_partition (Some 5)) [].

Lemma teardown_ordered_witness :
  let h := agent_history deleted_cluster in
  (∃ base o x, h !! 5%nat = Some (evk (Patch KPartition base o) x) ∧
     partitionFinalizer ∈ Finalizers (Meta base) ∧ partitionFinalizer ∉ Finalizers (Meta o)) ∧
  ∃ p0, tearing_down "node-1" agent_key (take 5 h) p0 ∧ unexported (take 5 h) p0 ∧
    (ps_ParentDeviceSerialNumber (Spec p0) ≠ "" → volume_deleted (take 5 h) p0).
Proof.
  intros h.
  set (base := exported_partition (Some 5)).
  set (o := with_Meta (set_Finalizers [] (Meta base)) base).
  set (x := (model_serve deleted_cluster (Patch KPartition base o)).1).
  assert (h !! 5%nat = Some (evk (Patch KPartition base o) x)) as E by (vm_compute; reflexivity).
  assert (partitionFinalizer ∈ Finalizers (Meta base)) as H1 by (vm_compute; apply list_elem_of_here).
  assert (partitionFinalizer ∉ Finalizers (Meta o)) as H2 by (intros H; by apply not_elem_of_nil in H).
  split; [exact (ex_intro _ base (ex_intro _ o (ex_intro _ x (conj E (conj H1 H2)))))|].
  exact (proj2 (proj2 (teardown_ordered example_Error example_registry "node-1" agent_key _
    (agent_history_run deleted_cluster))) _ _ _ _ _ (eq_sym (take_drop_middle _ _ _ E)) H1 H2).
Defined.

Definition example_attachment : NVMeVolumeAttachment :=
  mkObject (set_Finalizers [Attachment.Finalizer] (example_meta "nvme-attach-p-1" "default" "a-1"))
    {| as_VolumeRef := {| vr_Name := "pvc-1"; vr_UID := "p-1" |}; as_NodeID := "node-2";
       as_HostNQN := Attachment.HostNQN "node-2"; as_AttachmentID := "att-1" |}
    {| at_ObservedAttachmentID := ""; at_Conditions := [] |}.

Definition attached_cluster : Cluster := agent_cluster (exported_partition None) [example_attachment].

Lemma host_access_fenced_witness :
  agent_history attached_cluster !! 9%nat = Some (ev (Rep := agentRep)
    (ReconcileHostAccess "spdk" "nqn.example" (Attachment.HostNQN "node-2")) None) ∧
  host_access_ok agent_key (take 9 (agent_history attached_cluster)) "nqn.example" (Attachment.HostNQN "node-2").
Proof.
  assert (agent_history attached_cluster !! 9%nat = Some (ev (Rep := agentRep)
    (ReconcileHostAccess "spdk" "nqn.example" (Attachment.HostNQN "node-2")) None)) as E
    by (vm_compute; reflexivity).
  split; [exact E|].
  eapply (proj1 (host_access_fenced example_Error example_registry "node-1" agent_key _
    (agent_history_run attached_cluster))).
  exact (eq_sym (take_drop_middle _ _ _ E)).
Defined.

(** ** The repeated authorization is weaker than the first

    The first reconcile of a partition stores its external identity before
    anything is allocated, and a partition with an external identity counts as
    an existing allocation. *)

Definition inactive_claim : NVMeDeviceClaim :=
  with_Status {| ct_Active := false; ct_MatchedDevice := "dev-1"; ct_NodeName := "node-1"; ct_Conditions := [] |}
    example_claim.

Definition unclaimed_device : NVMeDevice :=
  with_Status (set_dt_State NVMeDeviceStateUnavailable (Status example_device)) example_device.

(** After a reconcile whose device setup failed, with the claim deactivated and
    the device unavailable. *)
Definition interrupted_cluster : Cluster :=
  let c := (run (agent_handle (Some (Errorf "setup")) example_time) agent_run new_cluster).2 in
  {| partitions := partitions c; devices := mk_store (k := KDevice) [unclaimed_device];
     claims := mk_store (k := KClaim) [inactive_claim]; nodes := nodes c; attachments := attachments c |}.

(** After a first reconcile that allocated nothing, the agent creates a volume
    although the claim is no longer active and the device not claimed: it takes
    the identity stored by the first reconcile for an existing allocation. *)
Theorem first_allocation_unchecked :
  (∃ p : NVMePartition, objects interrupted_cluster KPartition !! agent_key = Some p ∧
     pt_BackendVolumeID (Status p) = "" ∧ recoveringExistingAllocation p = true) ∧
  ct_Active (Status inactive_claim) = false ∧ dt_State (Status unclaimed_device) ≠ NVMeDeviceStateClaimed ∧
  objects interrupted_cluster KClaim !! example_key "claim-a" = Some inactive_claim ∧
  objects interrupted_cluster KDevice !! {| key_Namespace := ""; key_Name := "dev-1" |} = Some unclaimed_device ∧
  ev (Rep := agentRep) (CreateVolume "spdk-lvol" "Nvme0n1" "Nvme0n1" new_volume 4194304) (inl example_volume)
    ∈ agent_history interrupted_cluster.
Proof.
  split; [|split_and!; [reflexivity|discriminate|vm_compute; reflexivity|vm_compute; reflexivity|]].
  - assert (∃ p, objects interrupted_cluster KPartition !! agent_key = Some p ∧
      (pt_BackendVolumeID (Status (p : NVMePartition)) ==? "") && recoveringExistingAllocation p = true) as (p & Hp & H).
    { destruct (objects interrupted_cluster KPartition !! agent_key) as [p|] eqn:E; vm_compute in E; [|discriminate].
      exists p. split; [reflexivity|]. injection E as <-. vm_compute. reflexivity. }
    exists p. bool_to_prop. split; [exact Hp|split; assumption].
  - assert (∃ n, agent_history interrupted_cluster !! n = Some (ev (Rep := agentRep)
      (CreateVolume "spdk-lvol" "Nvme0n1" "Nvme0n1" new_volume 4194304) (inl example_volume))) as [n E]
      by (exists 18%nat; vm_compute; reflexivity).
    exact (list_elem_of_lookup_2 _ _ _ E).
Qed.
