(* ===== verification/CsiRequest.v ===== *)
(** * CSI requests

    Models the parts of the CSI controller that do no I/O: the file system and
    capability checks of src/internal/csi/filesystem.go and volume_capability.go,
    the request fingerprint of create_volume_request.go (with the part of
    encoding/json it uses), and the storage configuration and the validation
    against a persisted volume of controller_server.go. *)

From S2P Require Import Prelude GoStrings Encoding Capacity ApiTypes Options.

(** ** encoding/json: strings, integers and objects *)

Module Json.

Definition hex_byte (v : Z) : string := String (hex_digit (Z.shiftr v 4)) (String (hex_digit (Z.land v 15)) "").

(** The escape of a byte below 0x80; HTML characters are escaped too. *)
Definition escape_byte (c : ascii) : string :=
  let b := byte_val c in
  if (b =? 34) || (b =? 92) then String "\" (String c "")
  else if b =? 8 then "\b"
  else if b =? 9 then "\t"
  else if b =? 10 then "\n"
  else if b =? 12 then "\f"
  else if b =? 13 then "\r"
  else if (b <? 32) || (b =? 38) || (b =? 60) || (b =? 62) then "\u00" +:+ hex_byte b
  else String c "".

Definition between (lo hi : Z) (c : ascii) : bool := (lo <=? byte_val c) && (byte_val c <=? hi).

(** The first bytes of a well-formed UTF-8 sequence of two, three or four bytes. *)
Definition utf8_2 (a b : ascii) : bool := between 194 223 a && between 128 191 b.
Definition utf8_3 (a b : ascii) : bool :=
  (between 224 224 a && between 160 191 b) || (between 237 237 a && between 128 159 b) ||
  ((between 225 236 a || between 238 239 a) && between 128 191 b).
Definition utf8_4 (a b : ascii) : bool :=
  (between 240 240 a && between 144 191 b) || (between 244 244 a && between 128 143 b) ||
  (between 241 243 a && between 128 191 b).

(** U+2028 and U+2029. *)
Definition line_separator (a b c : ascii) : bool :=
  between 226 226 a && between 128 128 b && between 168 169 c.

Fixpoint escape (s : string) : string :=
  match s with
  | EmptyString => EmptyString
  | String a s1 =>
    if byte_val a <? 128 then escape_byte a +:+ escape s1
    else match s1 with
    | String b s2 =>
      if utf8_2 a b then String a (String b (escape s2))
      else match s2 with
      | String c s3 =>
        if utf8_3 a b && between 128 191 c then
          if line_separator a b c then "\u202" +:+ String (hex_digit (Z.land (byte_val c) 15)) (escape s3)
          else String a (String b (String c (escape s3)))
        else match s3 with
        | String d s4 =>
          if utf8_4 a b && between 128 191 c && between 128 191 d
          then String a (String b (String c (String d (escape s4))))
          else "\ufffd" +:+ escape s1
        | EmptyString => "\ufffd" +:+ escape s1
        end
      | EmptyString => "\ufffd" +:+ escape s1
      end
    | EmptyString => "\ufffd" +:+ escape s1
    end
  end.

Definition quote : ascii := Ascii.ascii_of_nat 34.

Definition encode_string (s : string) : string := String quote (escape s +:+ String quote "").

Definition member (name value : string) : string := encode_string name +:+ String ":" value.

Fixpoint members (l : list string) : string :=
  match l with
  | [] => ""
  | [m] => m
  | m :: l => m +:+ String "," (members l)
  end.

Definition object (l : list string) : string := String "{" (members l +:+ "}").

(** The keys of a map in byte order. *)
Fixpoint insert_key (kv : string * string) (l : list (string * string)) : list (string * string) :=
  match l with
  | [] => [kv]
  | kv' :: l' => if String.ltb kv'.1 kv.1 then kv' :: insert_key kv l' else kv :: l
  end.

Definition sorted_entries (m : gmap string string) : list (string * string) :=
  fold_right insert_key [] (map_to_list m).

Definition encode_map (m : gmap string string) : string :=
  object (map (λ kv, member kv.1 (encode_string kv.2)) (sorted_entries m)).

End Json.

(** ** Messages of the CSI specification *)

Record MountVolume := { FsType : string; MountFlags : list string }.

Inductive AccessType := Mount (m : MountVolume) | Block | NoAccessType.

Inductive Mode := SINGLE_NODE_WRITER | OtherMode (code : Z).

#[global] Instance Mode_eq_dec : EqDecision Mode.
Proof. solve_decision. Defined.

Record VolumeCapability := { cap_AccessType : AccessType; cap_AccessMode : option Mode }.

(** The getters of the generated code accept nil messages. *)
Definition GetMount (c : option VolumeCapability) : option MountVolume :=
  match c with
  | Some {| cap_AccessType := Mount m |} => Some m
  | _ => None
  end.

(** ** filesystem.go *)

Definition defaultFilesystem : string := "ext4".
Definition xfsFilesystem : string := "xfs".
Definition filesystemParameter : string := "fsType".
Definition csiFilesystemParameter : string := "csi.storage.k8s.io/fstype".

Definition supportedFilesystems : gset string := {["ext4"; "xfs"]}.

Definition normalizeFilesystem (filesystem : string) : string := ToLower (TrimSpace filesystem).

Definition validateFilesystem (filesystem : string) : result string :=
  if bool_decide (filesystem ∈ supportedFilesystems) then Ok filesystem
  else Err (Errorf "unsupported filesystem: supported filesystems are ext4 and xfs").

(** The explicit file systems, in the order of the two parameters. *)
Definition explicitFilesystems (parameters : gmap string string) : list string :=
  omap (λ key,
    match parameters !! key with
    | Some value => if TrimSpace value !=? "" then Some (normalizeFilesystem value) else None
    | None => None
    end) [filesystemParameter; csiFilesystemParameter].

(** The loop over the capabilities of resolveFilesystem. *)
Fixpoint requestedFilesystem (requested : string) (capabilities : list (option VolumeCapability)) : result string :=
  match capabilities with
  | [] => Ok requested
  | capability :: rest =>
    match GetMount capability with
    | None => requestedFilesystem requested rest
    | Some mount =>
      if TrimSpace (FsType mount) ==? "" then requestedFilesystem requested rest
      else
        let filesystem := normalizeFilesystem (FsType mount) in
        if (requested !=? "") && (filesystem !=? requested)
        then Err (Errorf "conflicting filesystem types in volume capabilities")
        else requestedFilesystem filesystem rest
    end
  end.

Definition resolveFilesystem (parameters : gmap string string) (capabilities : list (option VolumeCapability))
    : result string :=
  match explicitFilesystems parameters with
  | filesystem :: others =>
    if existsb (λ other, other !=? filesystem) others
    then Err (Errorf "conflicting filesystem parameters")
    else validateFilesystem filesystem
  | [] =>
    let? requested := requestedFilesystem "" capabilities in
    validateFilesystem (if requested ==? "" then defaultFilesystem else requested)
  end.

(** ** volume_capability.go *)

Definition supportedAccessMode : Mode := SINGLE_NODE_WRITER.
Definition supportedAccessModeString : string := "SINGLE_NODE_WRITER".

Record canonicalVolumeCapability := { cvc_AccessMode : string; cvc_Filesystem : string }.

(** The loop over the capabilities of validateVolumeCapabilities. *)
Fixpoint checkCapabilities (capabilityFilesystem : string) (capabilities : list (option VolumeCapability))
    : option error :=
  match capabilities with
  | [] => None
  | None :: _ => Some (Errorf "volume capability is missing")
  | Some capability :: rest =>
    match GetMount (Some capability) with
    | None => Some (Errorf "raw block volumes are not supported")
    | Some mount =>
      if negb (length (MountFlags mount) =? 0)%nat then Some (Errorf "mount flags are not supported")
      else
        let currentFilesystem := normalizeFilesystem (FsType mount) in
        if (FsType mount !=? "") && (capabilityFilesystem !=? "") && (currentFilesystem !=? capabilityFilesystem)
        then Some (Errorf "conflicting filesystem types in volume capabilities")
        else if cap_AccessMode capability !=? Some supportedAccessMode
        then Some (Errorf "access mode is not supported")
        else checkCapabilities (if FsType mount !=? "" then currentFilesystem else capabilityFilesystem) rest
    end
  end.

Definition validateVolumeCapabilities (parameters : gmap string string)
    (capabilities : list (option VolumeCapability)) : result canonicalVolumeCapability :=
  if (length capabilities =? 0)%nat then Err (Errorf "volume capabilities cannot be empty")
  else match checkCapabilities "" capabilities with
  | Some err => Err err
  | None =>
    let? filesystem := resolveFilesystem parameters capabilities in
    Ok {| cvc_AccessMode := supportedAccessModeString; cvc_Filesystem := filesystem |}
  end.

(** ** create_volume_request.go *)

Record canonicalCreateVolumeRequest := {
  ccr_RequiredBytes : Z;
  ccr_LimitBytes : Z;
  ccr_TargetBackend : string;
  ccr_VolumeManager : string;
  ccr_TargetOptions : gmap string string;
  ccr_Capability : canonicalVolumeCapability
}.

(** json.Marshal of the request. *)
Definition marshalRequest (request : canonicalCreateVolumeRequest) : string :=
  Json.object
    [Json.member "requiredBytes" (Itoa (ccr_RequiredBytes request));
     Json.member "limitBytes" (Itoa (ccr_LimitBytes request));
     Json.member "targetBackend" (Json.encode_string (ccr_TargetBackend request));
     Json.member "volumeManager" (Json.encode_string (ccr_VolumeManager request));
     Json.member "targetOptions" (Json.encode_map (ccr_TargetOptions request));
     Json.member "capability" (Json.object
       [Json.member "accessMode" (Json.encode_string (cvc_AccessMode (ccr_Capability request)));
        Json.member "filesystem" (Json.encode_string (cvc_Filesystem (ccr_Capability request)))])].

(** Marshalling a value of this type never fails. *)
Definition fingerprintCreateVolumeRequest (request : canonicalCreateVolumeRequest) : string :=
  hex_encode (Sha256.Sum256 (bytes_of (marshalRequest request))).

(** ** controller_server.go *)

Definition spdkTargetBackend : string := "spdk".
Definition kernelTargetBackend : string := "kernel".
Definition partitionVolumeManager : string := "partition".

(** A missing key reads as the empty string. *)
Definition param (parameters : gmap string string) (key : string) : string :=
  default "" (parameters !! key).

Definition validateStorageCombination (targetBackend volumeManager : string) : option error :=
  if negb ((targetBackend ==? spdkTargetBackend) || (targetBackend ==? kernelTargetBackend))
  then Some (Errorf "target backend is not implemented")
  else if volumeManager !=? partitionVolumeManager then Some (Errorf "volume manager is not implemented")
  else None.

(** A parameter that is passed on to the backend. *)
Definition isTargetOption (key : string) : bool :=
  negb (HasPrefix key "csi.storage.k8s.io/") && (key !=? "target-backend") && (key !=? "volume-manager") &&
  (key !=? filesystemParameter).

Definition storageConfiguration (parameters : gmap string string)
    : result (string * string * gmap string string) :=
  let targetBackend := param parameters "target-backend" in
  let targetBackend := if targetBackend ==? "" then spdkTargetBackend else targetBackend in
  let volumeManager := param parameters "volume-manager" in
  let volumeManager := if volumeManager ==? "" then partitionVolumeManager else volumeManager in
  match validateStorageCombination targetBackend volumeManager with
  | Some err => Err err
  | None =>
    let targetOptions := base.filter (λ kv, isTargetOption kv.1 = true) parameters in
    match Validate targetBackend (map_to_list targetOptions) with
    | Some err => Err err
    | None => Ok (targetBackend, volumeManager, targetOptions)
    end
  end.

(** The checks of CreateVolume before it talks to the API server: the canonical
    request and the expected allocation. *)
Definition canonicalRequest (parameters : gmap string string) (capabilities : list (option VolumeCapability))
    (capacityRange : option CapacityRange) : result (canonicalCreateVolumeRequest * Z) :=
  match validateVolumeCapabilities parameters capabilities with
  | inr err => Err (StatusErr InvalidArgument "Invalid volume capabilities")
  | inl capability =>
    match normalizeCapacityRange capacityRange with
    | inr err => Err (StatusErr InvalidArgument "Invalid capacity range")
    | inl (requiredBytes, expectedAllocation) =>
      match storageConfiguration parameters with
      | inr err => Err (StatusErr InvalidArgument "Invalid storage configuration")
      | inl (targetBackend, volumeManager, targetOptions) =>
        Ok ({| ccr_RequiredBytes := requiredBytes;
               ccr_LimitBytes := match capacityRange with
                                 | None => defaultVolumeCapacityBytes
                                 | Some cr => LimitBytes cr
                                 end;
               ccr_TargetBackend := targetBackend; ccr_VolumeManager := volumeManager;
               ccr_TargetOptions := targetOptions; ccr_Capability := capability |}, expectedAllocation)
      end
    end
  end.

Definition persistedFilesystem (partition : NVMePartition) : string :=
  if ps_Filesystem (Spec partition) ==? "" then defaultFilesystem else ps_Filesystem (Spec partition).

Definition volumeContextForPartition (partition : NVMePartition) : gmap string string :=
  <["nqn" := pt_NQN (Status partition)]>
  (<["portalIP" := pt_PortalIP (Status partition)]>
  (<["portalPort" := Itoa (pt_PortalPort (Status partition))]>
  {[filesystemParameter := persistedFilesystem partition]})).

Record ValidateVolumeCapabilitiesRequest := {
  vvc_VolumeId : string;
  vvc_VolumeContext : gmap string string;
  vvc_VolumeCapabilities : list (option VolumeCapability);
  vvc_Parameters : gmap string string
}.

Definition hasCapabilityFilesystem (capabilities : list (option VolumeCapability)) : bool :=
  existsb (λ capability,
    match GetMount capability with
    | Some mount => TrimSpace (FsType mount) !=? ""
    | None => false
    end) capabilities.

(** The parameters that validatePersistedVolumeRequest resolves the file system
    from. *)
Definition validationParameters (expectedContext : gmap string string) (req : ValidateVolumeCapabilitiesRequest)
    : gmap string string :=
  let params := vvc_Parameters req in
  if bool_decide (is_Some (params !! filesystemParameter)) then params
  else if bool_decide (is_Some (params !! csiFilesystemParameter)) then params
  else
    let filesystem := param (vvc_VolumeContext req) filesystemParameter in
    if filesystem !=? "" then <[filesystemParameter := filesystem]> params
    else if hasCapabilityFilesystem (vvc_VolumeCapabilities req) then params
    else <[filesystemParameter := param expectedContext filesystemParameter]> params.

Definition validatePersistedVolumeRequest (partition : NVMePartition) (req : ValidateVolumeCapabilitiesRequest)
    : option error :=
  let expectedContext := volumeContextForPartition partition in
  if (vvc_VolumeContext req !=? ∅) && (vvc_VolumeContext req !=? expectedContext)
  then Some (Errorf "volume context does not match the persisted volume")
  else
    match validateVolumeCapabilities (validationParameters expectedContext req) (vvc_VolumeCapabilities req) with
    | inr err => Some err
    | inl capability =>
      let expectedAccessMode :=
        if ps_AccessMode (Spec partition) ==? "" then supportedAccessModeString else ps_AccessMode (Spec partition) in
      if (cvc_AccessMode capability !=? expectedAccessMode) ||
         (cvc_Filesystem capability !=? param expectedContext filesystemParameter)
      then Some (Errorf "requested capability does not match the persisted access mode and filesystem")
      else if vvc_Parameters req ==? ∅ then None
      else
        match storageConfiguration (vvc_Parameters req) with
        | inr err => Some err
        | inl (targetBackend, volumeManager, targetOptions) =>
          let expectedBackend :=
            if ps_TargetBackend (Spec partition) ==? "" then spdkTargetBackend else ps_TargetBackend (Spec partition) in
          let expectedManager :=
            if ps_VolumeManager (Spec partition) ==? "" then partitionVolumeManager
            else ps_VolumeManager (Spec partition) in
          if (targetBackend !=? expectedBackend) || (volumeManager !=? expectedManager) ||
             (targetOptions !=? ps_TargetOptions (Spec partition))
          then Some (Errorf "volume creation parameters do not match the persisted storage configuration")
          else match vvc_Parameters req !! "csi.storage.k8s.io/pvc/namespace" with
          | None => None
          | Some namespace =>
            let namespace := if namespace ==? "" then "default" else namespace in
            if namespace !=? Namespace (Meta partition)
            then Some (Errorf "volume namespace parameter does not match the persisted volume")
            else None
          end
        end
    end.
