(* ===== verification/CsiRequestProps.v ===== *)
(** * Properties of CSI requests *)

From S2P Require Import Prelude GoStrings Encoding Capacity ApiTypes Identity Options RdmaHealth CsiRequest.

(** ** Injectivity of the marshalled request *)

Lemma split_first c u u' v v' : no_byte c u = true → no_byte c u' = true →
  u +:+ String c v = u' +:+ String c v' → u = u' ∧ v = v'.
Proof.
  unfold no_byte, str_all. revert u'. induction u as [|a u IH]; intros [|a' u'] Hu Hu' H.
  - rewrite !str_app_nil_l in H. by simplify_eq.
  - rewrite str_app_nil_l, str_app_cons in H. simplify_eq. simpl in Hu'. by rewrite bool_decide_true in Hu'.
  - rewrite str_app_nil_l, str_app_cons in H. simplify_eq. simpl in Hu. by rewrite bool_decide_true in Hu.
  - rewrite !str_app_cons in H. simplify_eq. simpl in *. bool_to_prop.
    destruct (IH u') as [-> ->]; done.
Qed.

Lemma str_app_inj p v v' : p +:+ v = p +:+ v' → v = v'.
Proof. induction p as [|c p IH]; [done|]. rewrite !str_app_cons. intros H. apply IH. congruence. Qed.

(** Bytes that JSON writes as they are. *)
Definition json_plain (c : ascii) : bool :=
  (byte_val c <? 128) && (Json.escape_byte c ==? String c "").

Lemma escape_plain s : str_all json_plain s = true → Json.escape s = s.
Proof.
  unfold str_all. induction s as [|c s IH]; [done|]. simpl. intros H. apply andb_true_iff in H as [Hc H].
  unfold json_plain in Hc. apply andb_true_iff in Hc as [-> Hc]. apply bool_decide_eq_true in Hc.
  rewrite Hc, IH by done. done.
Qed.

Lemma plain_no_quote s : str_all json_plain s = true → no_byte Json.quote s = true.
Proof.
  unfold no_byte, str_all. rewrite !forallb_forall. intros H c Hc. apply negb_true_iff, bool_decide_eq_false.
  intros ->. specialize (H _ Hc). vm_compute in H. done.
Qed.

Lemma hex_plain s : str_all is_hex s = true → str_all json_plain s = true ∧ no_byte "}" s = true.
Proof.
  unfold no_byte, str_all. rewrite !forallb_forall. intros H.
  assert (∀ c, is_hex c = true → json_plain c && negb (c ==? "}"%char) = true) as Hall.
  { intros c Hc. assert (forallb (λ z, implb (is_hex (byte_chr z)) (json_plain (byte_chr z) &&
      negb (byte_chr z ==? "}"%char))) (seqZ 0 256) = true) as Hb by (vm_compute; reflexivity).
    pose proof (byte_cases _ Hb (byte_val c) (byte_val_range c)) as Hz. cbv beta in Hz.
    rewrite byte_chr_val, Hc in Hz. exact Hz. }
  split; intros c Hc; specialize (Hall c (H c Hc)); by apply andb_true_iff in Hall as [? ?].
Qed.

(** What a valid request is made of. *)
Definition wf_request (r : canonicalCreateVolumeRequest) : Prop :=
  0 ≤ ccr_RequiredBytes r ∧ 0 ≤ ccr_LimitBytes r ∧
  str_all json_plain (ccr_TargetBackend r) = true ∧ str_all json_plain (ccr_VolumeManager r) = true ∧
  str_all json_plain (cvc_AccessMode (ccr_Capability r)) = true ∧
  str_all json_plain (cvc_Filesystem (ccr_Capability r)) = true ∧
  (ccr_TargetOptions r = ∅ ∨
   ∃ mask, ccr_TargetOptions r = {[SPDKCoreMaskOption := mask]} ∧ ValidateSPDKCoreMask mask = None).

Definition q : string := String Json.quote "".

(** The members of the options object. *)
Definition options_body (o : gmap string string) : string :=
  Json.members (map (λ kv, Json.member kv.1 (Json.encode_string kv.2)) (Json.sorted_entries o)).

Lemma mask_plain mask : ValidateSPDKCoreMask mask = None →
  str_all json_plain mask = true ∧ no_byte "}" mask = true.
Proof.
  intros (_ & r & -> & Hr & _)%ValidateSPDKCoreMask_spec. apply hex_plain in Hr as [? ?]. by split.
Qed.

Lemma options_body_singleton mask : ValidateSPDKCoreMask mask = None →
  options_body {[SPDKCoreMaskOption := mask]} = Json.encode_string SPDKCoreMaskOption +:+ ":" +:+ q +:+ mask +:+ q.
Proof.
  intros [Hm _]%mask_plain. unfold options_body, Json.sorted_entries. rewrite map_to_list_singleton. simpl.
  unfold Json.member, Json.encode_string at 2. by rewrite escape_plain.
Qed.

Lemma options_body_inj r r' : wf_request r → wf_request r' →
  options_body (ccr_TargetOptions r) = options_body (ccr_TargetOptions r') →
  ccr_TargetOptions r = ccr_TargetOptions r'.
Proof.
  intros (_ & _ & _ & _ & _ & _ & Ho) (_ & _ & _ & _ & _ & _ & Ho') H.
  destruct Ho as [Ho|(m & Ho & Hm)], Ho' as [Ho'|(m' & Ho' & Hm')]; rewrite Ho, Ho' in *; [done|..].
  - by rewrite (options_body_singleton m') in H.
  - by rewrite (options_body_singleton m) in H.
  - rewrite !options_body_singleton in H by done. do 3 apply str_app_inj in H.
    apply split_first in H as [-> _]; [done|apply plain_no_quote; by apply mask_plain..].
Qed.

Lemma options_body_braces r : wf_request r → no_byte "}" (options_body (ccr_TargetOptions r)) = true.
Proof.
  intros (_ & _ & _ & _ & _ & _ & [->|(m & -> & Hm)]); [done|]. rewrite options_body_singleton by done.
  rewrite !no_byte_app. destruct (mask_plain _ Hm) as [_ ->]. done.
Qed.

(** The text of a request between its fixed parts. *)
Lemma marshal_shape r : wf_request r →
  marshalRequest r =
    "{" +:+ q +:+ "requiredBytes" +:+ q +:+ ":" +:+ Itoa (ccr_RequiredBytes r) +:+
    String "," (q +:+ "limitBytes" +:+ q +:+ ":" +:+ Itoa (ccr_LimitBytes r) +:+
    String "," (q +:+ "targetBackend" +:+ q +:+ ":" +:+ q +:+ ccr_TargetBackend r +:+
    String Json.quote ("," +:+ q +:+ "volumeManager" +:+ q +:+ ":" +:+ q +:+ ccr_VolumeManager r +:+
    String Json.quote ("," +:+ q +:+ "targetOptions" +:+ q +:+ ":{" +:+ options_body (ccr_TargetOptions r) +:+
    String "}" ("," +:+ q +:+ "capability" +:+ q +:+ ":{" +:+ q +:+ "accessMode" +:+ q +:+ ":" +:+ q +:+
      cvc_AccessMode (ccr_Capability r) +:+
    String Json.quote ("," +:+ q +:+ "filesystem" +:+ q +:+ ":" +:+ q +:+ cvc_Filesystem (ccr_Capability r) +:+
    String Json.quote "}}")))))).
Proof.
  intros (_ & _ & H1 & H2 & H3 & H4 & _). unfold marshalRequest, Json.object, Json.encode_map, Json.object.
  fold (options_body (ccr_TargetOptions r)).
  unfold Json.members, Json.member, Json.encode_string. rewrite !(escape_plain _ H1), !(escape_plain _ H2),
    !(escape_plain _ H3), !(escape_plain _ H4). rewrite !escape_plain by (vm_compute; reflexivity).
  repeat rewrite <- ?str_app_assoc, ?str_app_cons, ?str_app_nil_l. unfold q.
  repeat rewrite ?str_app_cons, ?str_app_nil_l. reflexivity.
Qed.

Lemma Itoa_digits z : 0 ≤ z → str_all is_digit (Itoa z) = true.
Proof.
  intros Hz. unfold Itoa, FormatInt. destruct (Z.ltb_spec z 0); [lia|].
  destruct (format_nat_spec 10 z) as (d & ds & -> & Hf & _); [lia..|].
  unfold str_all. rewrite str_list_str. apply forallb_forall. intros c Hc.
  apply in_map_iff in Hc as (x & <- & Hx). rewrite <- list_elem_of_In in Hx. rewrite Forall_forall in Hf.
  specialize (Hf x Hx). unfold is_digit, digit_char. destruct (Z.ltb_spec x 10); [|lia].
  rewrite byte_val_chr by lia. apply andb_true_iff. split; apply Z.leb_le; lia.
Qed.

Lemma marshal_inj r r' : wf_request r → wf_request r' → marshalRequest r = marshalRequest r' → r = r'.
Proof.
  intros Hr Hr' H. rewrite !marshal_shape in H by done.
  pose proof (options_body_inj r r' Hr Hr') as Hopt.
  pose proof (options_body_braces r Hr) as Hb. pose proof (options_body_braces r' Hr') as Hb'.
  destruct Hr as (Hn1 & Hn2 & H1 & H2 & H3 & H4 & _), Hr' as (Hn1' & Hn2' & H1' & H2' & H3' & H4' & _).
  do 5 apply str_app_inj in H.
  apply split_first in H as [E1 H]; [|by apply digits_plain; [apply Itoa_digits|]..]. apply Itoa_inj in E1; [|done..].
  do 4 apply str_app_inj in H.
  apply split_first in H as [E2 H]; [|by apply digits_plain; [apply Itoa_digits|]..]. apply Itoa_inj in E2; [|done..].
  do 5 apply str_app_inj in H. apply split_first in H as [E3 H]; [|by apply plain_no_quote..].
  do 6 apply str_app_inj in H. apply split_first in H as [E4 H]; [|by apply plain_no_quote..].
  do 5 apply str_app_inj in H. apply split_first in H as [E5 H]; [|done..]. apply Hopt in E5.
  do 10 apply str_app_inj in H. apply split_first in H as [E6 H]; [|by apply plain_no_quote..].
  do 6 apply str_app_inj in H. apply split_first in H as [E7 _]; [|by apply plain_no_quote..].
  destruct r as [? ? ? ? ? []], r' as [? ? ? ? ? []]; simpl in *. congruence.
Qed.

(** ** File systems *)

Lemma validateFilesystem_ok fs fs' : validateFilesystem fs = Ok fs' ↔ fs' = fs ∧ (fs = "ext4" ∨ fs = "xfs").
Proof.
  unfold validateFilesystem, supportedFilesystems. case_bool_decide as H;
    rewrite elem_of_union, !elem_of_singleton in H; naive_solver.
Qed.

Lemma resolveFilesystem_supported ps caps fs : resolveFilesystem ps caps = Ok fs → fs = "ext4" ∨ fs = "xfs".
Proof.
  unfold resolveFilesystem. destruct (explicitFilesystems ps).
  - intros (x & _ & H)%rbind_ok. by apply validateFilesystem_ok in H as [-> ?].
  - destruct (existsb _ _); [done|]. by intros [-> ?]%validateFilesystem_ok.
Qed.

Lemma validate_ok ps caps cap : validateVolumeCapabilities ps caps = Ok cap ↔
  caps ≠ [] ∧ checkCapabilities "" caps = None ∧ cvc_AccessMode cap = supportedAccessModeString ∧
  resolveFilesystem ps caps = Ok (cvc_Filesystem cap).
Proof.
  unfold validateVolumeCapabilities. destruct caps as [|c caps].
  { split; [done|]. by intros [? _]. }
  cbn [length Nat.eqb]. destruct (checkCapabilities "" (c :: caps)) as [e|].
  { split; [done|]. by intros (_ & ? & _). }
  rewrite rbind_ok. destruct cap as [a f]. cbn [cvc_AccessMode cvc_Filesystem]. split.
  - intros (x & Hx & H). by injection H as <- <-.
  - intros (_ & _ & -> & Hx). by exists f.
Qed.

Lemma storageConfiguration_ok ps b m o : storageConfiguration ps = Ok (b, m, o) →
  (b = "spdk" ∨ b = "kernel") ∧ m = "partition" ∧
  (o = ∅ ∨ ∃ mask, o = {[SPDKCoreMaskOption := mask]} ∧ ValidateSPDKCoreMask mask = None).
Proof.
  unfold storageConfiguration. cbv zeta.
  destruct (validateStorageCombination _ _) eqn:E1; [done|].
  destruct (Validate _ _) eqn:E3; [done|]. intros H. injection H as Hb Hm Ho. rewrite Hb, Hm in E1. rewrite Hb, Ho in E3.
  unfold validateStorageCombination in E1. destruct (negb _) eqn:E2 in E1; [done|].
  destruct (m !=? partitionVolumeManager) eqn:E4; [done|]. bool_to_prop. apply orb_true_iff in E2.
  rewrite !bool_decide_eq_true in E2. split_and!; [done..|].
  apply core_mask_only. intros k v Hk. unfold Validate in E3. apply validateOptions_ok in E3 as [E3|[_ E3]].
  - apply map_to_list_empty_iff in E3. by rewrite E3 in Hk.
  - rewrite Forall_forall in E3. by apply (E3 (k, v)), elem_of_map_to_list.
Qed.

Definition limit_of (cr : option CapacityRange) : Z :=
  match cr with Some c => LimitBytes c | None => defaultVolumeCapacityBytes end.

Lemma normalize_bounds cr r a : normalizeCapacityRange cr = Ok (r, a) →
  0 < r ≤ a ∧ 0 ≤ limit_of cr ∧ (0 < limit_of cr → a ≤ limit_of cr).
Proof.
  unfold normalizeCapacityRange, limit_of. destruct cr as [cr|].
  2:{ intros [= <- <-]. unfold defaultVolumeCapacityBytes. lia. }
  destruct (Z.ltb_spec (RequiredBytes cr) 0); [done|]. destruct (Z.ltb_spec (LimitBytes cr) 0); [done|].
  destruct (_ && _); [done|]. intros (r0 & _ & Hn)%rbind_ok.
  destruct (_ && _) in Hn; [done|]. apply rbind_ok in Hn as (a0 & Ha & Hn).
  destruct ((0 <? LimitBytes cr) && _) eqn:E in Hn; [done|]. injection Hn as <- <-.
  apply RoundUp_ok in Ha as (? & _ & [Hal _] & _). apply andb_false_iff in E. bool_to_prop.
  split_and!; [lia..|]. intros Hl. destruct E; bool_to_prop; lia.
Qed.

Lemma canonicalRequest_wf ps caps cr r a : canonicalRequest ps caps cr = Ok (r, a) → wf_request r.
Proof.
  unfold canonicalRequest. destruct (validateVolumeCapabilities ps caps) as [cap|] eqn:E1; [|done].
  destruct (normalizeCapacityRange cr) as [[rb ea]|] eqn:E2; [|done].
  destruct (storageConfiguration ps) as [[[b m] o]|] eqn:E3; [|done]. intros [= <- _].
  apply validate_ok in E1 as (_ & _ & Ha & Hf). apply resolveFilesystem_supported in Hf.
  apply normalize_bounds in E2 as (? & ? & _). apply storageConfiguration_ok in E3 as (Hb & -> & Ho).
  unfold wf_request; simpl. rewrite Ha. split_and!; [lia|done|..|done].
  - by destruct Hb as [-> | ->].
  - done.
  - done.
  - by destruct Hf as [-> | ->].
Qed.

(** C37: The fingerprint stored with a volume identifies the request that created it:
    two valid requests with one fingerprint agree on the requested bytes, the
    limit, the backend, the volume manager, the options, the access mode and the
    file system, unless SHA-256 collides. *)
Theorem fingerprint_identifies_request ps caps cr r a ps' caps' cr' r' a' :
  canonicalRequest ps caps cr = Ok (r, a) → canonicalRequest ps' caps' cr' = Ok (r', a') →
  PlacementAuth.no_collision (bytes_of (marshalRequest r)) (bytes_of (marshalRequest r')) →
  fingerprintCreateVolumeRequest r = fingerprintCreateVolumeRequest r' → r = r'.
Proof.
  intros Hr%canonicalRequest_wf Hr'%canonicalRequest_wf Hc H. unfold fingerprintCreateVolumeRequest in H.
  apply hex_encode_inj in H; [|apply Sha256.Sum256_range..]. by apply marshal_inj, bytes_of_inj, Hc.
Qed.

Definition ext4_capability (fs : string) : option VolumeCapability :=
  Some {| cap_AccessType := Mount {| FsType := fs; MountFlags := [] |}; cap_AccessMode := Some SINGLE_NODE_WRITER |}.

Lemma fingerprint_identifies_request_witness :
  ∃ r a r' a', canonicalRequest {[filesystemParameter := "xfs"]} [ext4_capability ""] None = Ok (r, a) ∧
    canonicalRequest {[csiFilesystemParameter := " XFS"]} [ext4_capability "xfs"] None = Ok (r', a') ∧
    r = r'.
Proof.
  destruct (canonicalRequest {[filesystemParameter := "xfs"]} [ext4_capability ""] None) as [[r a]|] eqn:E;
    [|vm_compute in E; discriminate].
  destruct (canonicalRequest {[csiFilesystemParameter := " XFS"]} [ext4_capability "xfs"] None) as [[r' a']|] eqn:E';
    [|vm_compute in E'; discriminate].
  exists r, a, r', a'. split; [reflexivity|]. split; [reflexivity|].
  assert (r = r') as <- by (vm_compute in E, E'; congruence).
  exact (fingerprint_identifies_request _ _ _ _ _ _ _ _ _ _ E E' (λ _, eq_refl) eq_refl).
Defined.

(** ** Capabilities *)

(** A capability of the supported kind. *)
Definition acceptable (c : option VolumeCapability) : Prop :=
  ∃ m, c = Some {| cap_AccessType := Mount m; cap_AccessMode := Some SINGLE_NODE_WRITER |} ∧ MountFlags m = [].

(** The file systems that the capabilities name. *)
Definition named (caps : list (option VolumeCapability)) : list string :=
  omap (λ c, match GetMount c with
             | Some m => if TrimSpace (FsType m) ==? "" then None else Some (normalizeFilesystem (FsType m))
             | None => None
             end) caps.

(** No file system type is just white space. *)
Definition blank_free (caps : list (option VolumeCapability)) : Prop :=
  Forall (λ c, ∀ m, GetMount c = Some m → TrimSpace (FsType m) = "" → FsType m = "") caps.

(** All of [l], and [f] unless it is empty, are one file system. *)
Definition agree (f : string) (l : list string) : Prop :=
  match l with
  | [] => True
  | g :: l => (f = "" ∨ f = g) ∧ Forall (λ x, x = g) l
  end.

Definition common (f : string) (l : list string) : string := match l with [] => f | g :: _ => g end.

Lemma normalize_nonempty s : TrimSpace s ≠ "" → normalizeFilesystem s ≠ "".
Proof. unfold normalizeFilesystem. by destruct (TrimSpace s). Qed.

Lemma agree_cons f g l : g ≠ "" → (f = "" ∨ f = g) ∧ agree g l ↔ agree f (g :: l).
Proof.
  intros Hg. destruct l as [|x l]; simpl; rewrite ?Forall_cons; [naive_solver|]. split.
  - intros (? & [?|<-] & ?); [done|]. done.
  - intros (? & -> & ?). split_and!; [done|by right|done].
Qed.

Lemma common_cons f g l : g ≠ "" → agree g l → common g l = common f (g :: l).
Proof. intros Hg. destruct l as [|x l]; [done|]. by intros [[?|?] _]. Qed.

Lemma requestedFilesystem_ok req caps r :
  requestedFilesystem req caps = Ok r ↔ agree req (named caps) ∧ r = common req (named caps).
Proof.
  revert req. induction caps as [|c caps IH]; intros req; simpl; [naive_solver|].
  destruct (GetMount c) as [m|]; [|apply IH]. case_bool_decide as Hb; [apply IH|].
  apply normalize_nonempty in Hb. set (g := normalizeFilesystem (FsType m)) in *.
  rewrite <- agree_cons by done. destruct (_ && _) eqn:E.
  - bool_to_prop. naive_solver.
  - assert (req = "" ∨ req = g) as Hr.
    { apply andb_false_iff in E. rewrite !negb_false_iff, !bool_decide_eq_true in E. naive_solver. }
    rewrite IH. split; intros [? ->]; (split; [naive_solver|]); [|symmetry]; apply common_cons; naive_solver.
Qed.

Lemma checkCapabilities_ok cf caps : blank_free caps →
  checkCapabilities cf caps = None ↔ Forall acceptable caps ∧ agree cf (named caps).
Proof.
  intros Hb. revert cf. induction Hb as [|c caps Hc Hb IH]; intros cf; [naive_solver|].
  rewrite Forall_cons. destruct c as [[[m| |] mode]|]; simpl;
    try (split; [done|intros [[(? & ? & _) _] _]; done]).
  destruct (MountFlags m) as [|fl fls] eqn:Hm; simpl; [|split; [done|]; intros [[(m' & [= <- _] & ?) _] _]; congruence].
  specialize (Hc m eq_refl). set (g := normalizeFilesystem (FsType m)).
  assert (acceptable (Some {| cap_AccessType := Mount m; cap_AccessMode := mode |}) ↔ mode = Some SINGLE_NODE_WRITER)
    as Hacc by (split; [by intros (? & [= _ ->] & _)|intros ->; by exists m]).
  rewrite Hacc. unfold supportedAccessMode. case_bool_decide as He; simpl.
  - destruct (TrimSpace (FsType m) ==? "") eqn:Ht; [|rewrite He in Ht; done].
    destruct (bool_decide_reflect (mode = Some SINGLE_NODE_WRITER)) as [Hmo|Hmo]; cbn [negb];
      [rewrite IH|]; naive_solver.
  - assert (TrimSpace (FsType m) ≠ "") as Ht by (intros H; by apply He, Hc).
    rewrite (bool_decide_false (TrimSpace (FsType m) = "")) by done. fold g.
    apply normalize_nonempty in Ht. fold g in Ht. rewrite <- agree_cons by done.
    destruct (_ && _) eqn:E; simpl.
    + bool_to_prop. naive_solver.
    + assert (cf = "" ∨ cf = g) as Hr.
      { apply andb_false_iff in E. rewrite !negb_false_iff, !bool_decide_eq_true in E. naive_solver. }
      destruct (bool_decide_reflect (mode = Some SINGLE_NODE_WRITER)) as [Hmo|Hmo]; cbn [negb];
        [rewrite IH|]; naive_solver.
Qed.

(** The file system a request gets: the one of its parameters, else the one its
    capabilities agree on, else ext4. *)
Definition chosen (ps : gmap string string) (caps : list (option VolumeCapability)) (fs : string) : Prop :=
  match explicitFilesystems ps with
  | f :: others => Forall (λ x, x = f) others ∧ fs = f
  | [] => agree "" (named caps) ∧ fs = (if common "" (named caps) ==? "" then "ext4" else common "" (named caps))
  end ∧ (fs = "ext4" ∨ fs = "xfs").

Lemma existsb_ne f l : existsb (λ x : string, x !=? f) l = false ↔ Forall (λ x, x = f) l.
Proof.
  induction l as [|x l IH]; simpl; [naive_solver|]. rewrite Forall_cons, orb_false_iff, negb_false_iff,
    bool_decide_eq_true. naive_solver.
Qed.

Lemma resolveFilesystem_ok ps caps fs : resolveFilesystem ps caps = Ok fs ↔ chosen ps caps fs.
Proof.
  unfold resolveFilesystem, chosen. destruct (explicitFilesystems ps) as [|f others].
  - rewrite rbind_ok. setoid_rewrite requestedFilesystem_ok. split.
    + intros (r & [Ha ->] & [-> ?]%validateFilesystem_ok). done.
    + intros [[Ha ->] ?]. exists (common "" (named caps)). split; [done|]. by apply validateFilesystem_ok.
  - destruct (existsb _ _) eqn:E.
    + split; [done|]. intros [[H%existsb_ne _] _]. congruence.
    + apply existsb_ne in E. rewrite validateFilesystem_ok. naive_solver.
Qed.

(** Capabilities are accepted exactly when there are some, all are single-writer
    mounts without flags, the file systems they name agree, and the file system
    of the request is supported; the result is that file system.  (File system
    types of white space only are excluded, see [capability_order_dependent].) *)
Theorem validateVolumeCapabilities_exact ps caps cap : blank_free caps →
  (validateVolumeCapabilities ps caps = Ok cap ↔
   caps ≠ [] ∧ Forall acceptable caps ∧ agree "" (named caps) ∧
   cvc_AccessMode cap = "SINGLE_NODE_WRITER" ∧ chosen ps caps (cvc_Filesystem cap)).
Proof.
  intros Hb. rewrite validate_ok, checkCapabilities_ok, resolveFilesystem_ok by done. naive_solver.
Qed.

Lemma validateVolumeCapabilities_exact_witness :
  validateVolumeCapabilities ∅ [ext4_capability "XFS "; ext4_capability ""] =
    Ok {| cvc_AccessMode := "SINGLE_NODE_WRITER"; cvc_Filesystem := "xfs" |}.
Proof.
  apply validateVolumeCapabilities_exact.
  - repeat constructor; intros m [= <-]; vm_compute; [discriminate|reflexivity].
  - split; [discriminate|]. split; [repeat constructor; eexists; (split; [reflexivity|reflexivity])|].
    split; [vm_compute; auto|]. split; [reflexivity|]. vm_compute. auto.
Defined.

(** Whether capabilities are accepted depends on their order when one names a
    file system type of white space only. *)
Theorem capability_order_dependent :
  is_ok (validateVolumeCapabilities ∅ [ext4_capability " "; ext4_capability "ext4"]) = true ∧
  is_ok (validateVolumeCapabilities ∅ [ext4_capability "ext4"; ext4_capability " "]) = false.
Proof. split; vm_compute; reflexivity. Qed.

(** ** Validation of a created volume *)

Lemma explicit_inserted ps fs : fs = "ext4" ∨ fs = "xfs" →
  ps !! csiFilesystemParameter = None → explicitFilesystems (<[filesystemParameter := fs]> ps) = [fs].
Proof.
  intros Hfs Hn. unfold explicitFilesystems. simpl. rewrite lookup_insert_eq, lookup_insert_ne, Hn by done.
  by destruct Hfs as [-> | ->].
Qed.

Lemma chosen_inserted ps caps fs : fs = "ext4" ∨ fs = "xfs" →
  ps !! csiFilesystemParameter = None → chosen (<[filesystemParameter := fs]> ps) caps fs.
Proof. intros Hfs Hn. unfold chosen. by rewrite explicit_inserted. Qed.

(** The partition that CreateVolume makes of a request. *)
Definition created_for (ps : gmap string string) (r : canonicalCreateVolumeRequest) (p : NVMePartition) : Prop :=
  Namespace (Meta p) = (if param ps "csi.storage.k8s.io/pvc/namespace" ==? "" then "default"
                        else param ps "csi.storage.k8s.io/pvc/namespace") ∧
  ps_AccessMode (Spec p) = cvc_AccessMode (ccr_Capability r) ∧
  ps_Filesystem (Spec p) = cvc_Filesystem (ccr_Capability r) ∧
  ps_TargetBackend (Spec p) = ccr_TargetBackend r ∧ ps_VolumeManager (Spec p) = ccr_VolumeManager r ∧
  ps_TargetOptions (Spec p) = ccr_TargetOptions r.

Lemma context_filesystem p : param (volumeContextForPartition p) filesystemParameter = persistedFilesystem p.
Proof.
  unfold param, volumeContextForPartition. rewrite !lookup_insert_ne by done. by rewrite lookup_singleton_eq.
Qed.

(** A volume that CreateVolume accepts is confirmed by ValidateVolumeCapabilities
    for the parameters and capabilities it was created with, with or without its
    volume context, and without parameters. *)
Theorem created_volume_confirmed ps caps cr r a (p : NVMePartition) ctx ps' id :
  canonicalRequest ps caps cr = Ok (r, a) → created_for ps r p →
  ctx = ∅ ∨ ctx = volumeContextForPartition p → ps' = ps ∨ (ps' = ∅ ∧ ctx = volumeContextForPartition p) →
  validatePersistedVolumeRequest p
    {| vvc_VolumeId := id; vvc_VolumeContext := ctx; vvc_VolumeCapabilities := caps; vvc_Parameters := ps' |} = None.
Proof.
  intros Hr (Hns & Ham & Hfs & Htb & Hvm & Hto) Hctx Hps. unfold canonicalRequest in Hr.
  destruct (validateVolumeCapabilities ps caps) as [cap|] eqn:E1; [|done].
  destruct (normalizeCapacityRange cr) as [[rb ea]|]; [|done].
  destruct (storageConfiguration ps) as [[[b m] o]|] eqn:E3; [|done]. injection Hr as <- _. simpl in *.
  apply validate_ok in E1 as (Hne & Hcc & Hac & Hrf). pose proof (resolveFilesystem_supported _ _ _ Hrf) as Hsup.
  assert (persistedFilesystem p = cvc_Filesystem cap) as Hpf.
  { unfold persistedFilesystem. rewrite Hfs. by destruct Hsup as [-> | ->]. }
  assert (validateVolumeCapabilities (validationParameters (volumeContextForPartition p)
    {| vvc_VolumeId := id; vvc_VolumeContext := ctx; vvc_VolumeCapabilities := caps; vvc_Parameters := ps' |}) caps =
    Ok cap) as Hv.
  { apply validate_ok. split_and!; try done. apply resolveFilesystem_ok. unfold validationParameters. simpl.
    rewrite context_filesystem, Hpf. apply resolveFilesystem_ok in Hrf.
    destruct Hps as [-> |[-> ->]].
    - destruct (bool_decide_reflect (is_Some (ps !! filesystemParameter))) as [H1|H1]; [done|].
      destruct (bool_decide_reflect (is_Some (ps !! csiFilesystemParameter))) as [H2|H2]; [done|].
      assert (ps !! csiFilesystemParameter = None) by (destruct (ps !! csiFilesystemParameter); [by destruct H2|done]).
      destruct Hctx as [-> | ->].
      + destruct (param ∅ filesystemParameter !=? "") eqn:E; [done|].
        destruct (hasCapabilityFilesystem caps); [done|]. by apply chosen_inserted.
      + rewrite context_filesystem, Hpf. destruct (_ !=? "") eqn:E; [by apply chosen_inserted|].
        destruct Hsup as [Hs|Hs]; by rewrite Hs in E.
    - rewrite !bool_decide_false by (rewrite lookup_empty; by intros [? ?]).
      rewrite context_filesystem, Hpf. destruct (_ !=? "") eqn:E; [by apply chosen_inserted|].
      destruct Hsup as [Hs|Hs]; by rewrite Hs in E. }
  unfold validatePersistedVolumeRequest. cbn [vvc_VolumeContext vvc_VolumeCapabilities vvc_Parameters].
  destruct ((ctx !=? ∅) && (ctx !=? volumeContextForPartition p)) eqn:E; [bool_to_prop; naive_solver|].
  rewrite Hv. rewrite context_filesystem, Hpf, Hac, Ham, Hac.
  rewrite (bool_decide_false (supportedAccessModeString = "")) by done.
  rewrite !bool_decide_true by done. cbn [negb orb].
  destruct (ps' ==? ∅) eqn:E'; [done|]. destruct Hps as [-> |[-> _]]; [|by rewrite bool_decide_true in E'].
  rewrite E3. apply storageConfiguration_ok in E3 as (Hb & -> & _).
  rewrite Htb, Hvm, Hto. rewrite (bool_decide_false (b = "")) by (destruct Hb; congruence).
  rewrite (bool_decide_false ("partition" = "")) by done. rewrite !bool_decide_true by done. cbn [negb orb].
  rewrite Hns. unfold param. destruct (ps !! "csi.storage.k8s.io/pvc/namespace") as [n|]; [|done]. simpl.
  by rewrite bool_decide_true.
Qed.

Lemma created_volume_confirmed_witness :
  let p := mkObject (Meta (PlacementAuth.example_partition 1))
    {| ps_Size := NewQuantity 4194304; ps_NodeName := ""; ps_ParentDeviceSerialNumber := ""; ps_ClaimRef := None;
       ps_AccessMode := "SINGLE_NODE_WRITER"; ps_Filesystem := "xfs"; ps_RequestFingerprint := "";
       ps_TargetBackend := "spdk"; ps_VolumeManager := "partition"; ps_TargetOptions := ∅ |}
    (Status (PlacementAuth.example_partition 1)) in
  validatePersistedVolumeRequest p
    {| vvc_VolumeId := "v"; vvc_VolumeContext := volumeContextForPartition p;
       vvc_VolumeCapabilities := [ext4_capability "xfs"]; vvc_Parameters := ∅ |} = None.
Proof.
  intros p. destruct (canonicalRequest ∅ [ext4_capability "xfs"] None) as [[r a]|] eqn:E; [|vm_compute in E; discriminate].
  apply (created_volume_confirmed ∅ [ext4_capability "xfs"] None r a p); [exact E| |right; reflexivity|left; reflexivity].
  vm_compute in E. injection E as <- <-. vm_compute. auto 10.
Defined.
