(* ===== verification/MountInfo.v ===== *)
(** * The mount table

    Models src/internal/csi/mountinfo.go: parsing /proc/self/mountinfo, finding
    the mount at a path, and comparing it with what was requested.  A table that
    the kernel prints is parsed to the mounts it describes. *)

From S2P Require Import Prelude GoStrings GoPath Encoding Capacity ApiTypes Options Prog Host CsiRequest.

Module MountInfo.

Record mountRecord := {
  majorMinor : string;
  root : string;
  target : string;
  filesystem : string;
  source : string;
  options : gset string
}.

(** strings.NewReplacer with the four escapes of the kernel. *)
Fixpoint unescapeMountInfoField (value : string) : string :=
  match value with
  | EmptyString => EmptyString
  | String c rest =>
    match rest with
    | String d1 (String d2 (String d3 tail)) =>
      let code := String d1 (String d2 (String d3 "")) in
      if negb (c ==? "\"%char) then String c (unescapeMountInfoField rest)
      else if code ==? "040" then String " " (unescapeMountInfoField tail)
      else if code ==? "011" then String (Ascii.ascii_of_nat 9) (unescapeMountInfoField tail)
      else if code ==? "012" then String (Ascii.ascii_of_nat 10) (unescapeMountInfoField tail)
      else if code ==? "134" then String "\" (unescapeMountInfoField tail)
      else String c (unescapeMountInfoField rest)
    | _ => String c (unescapeMountInfoField rest)
    end
  end.

(** The index of the first field that is a single hyphen. *)
Fixpoint separatorIndex (index : nat) (fields : list string) : option nat :=
  match fields with
  | [] => None
  | f :: fields => if f ==? "-" then Some index else separatorIndex (S index) fields
  end.


Definition field (fields : list string) (i : nat) : string := default "" (fields !! i).

(** One row; [None] when it is blank. *)
Definition parseRow (line : string) : result (option mountRecord) :=
  let fields := Fields line in
  if (length fields =? 0)%nat then Ok None
  else
    let invalid := Err (Errorf "invalid mountinfo row") in
    match separatorIndex 0 fields with
    | None => invalid
    | Some separator =>
      if (length fields <? 10)%nat || (separator <? 6)%nat || (length fields <=? separator + 3)%nat then invalid
      else Ok (Some {|
        majorMinor := field fields 2;
        root := Clean (unescapeMountInfoField (field fields 3));
        target := Clean (unescapeMountInfoField (field fields 4));
        filesystem := field fields (separator + 1);
        source := unescapeMountInfoField (field fields (separator + 2));
        options := list_to_set (Split comma (field fields 5) ++ Split comma (field fields (separator + 3)))
      |})
    end.

Fixpoint parseLines (lines : list string) : result (list mountRecord) :=
  match lines with
  | [] => Ok []
  | line :: lines =>
    let? r := parseRow line in
    let? records := parseLines lines in
    Ok (match r with Some record => record :: records | None => records end)
  end.

Definition parseMountInfo (data : string) : result (list mountRecord) :=
  parseLines (Split newline (TrimSpace data)).

(** The last record of the target: the mount on top. *)
Definition lastAt (target' : string) (records : list mountRecord) : option mountRecord :=
  foldl (λ found r, if target r ==? target' then Some r else found) None records.

Definition mountInfoPath : string := "/proc/self/mountinfo".

Definition mountAt (target : string) : host (result (option mountRecord)) :=
  let! d := hcall (ReadFile mountInfoPath) in
  match d with
  | inr err => Ret (Err (Wrap "read mountinfo" err))
  | inl data =>
    match parseMountInfo data with
    | inr err => Ret (Err err)
    | inl records => Ret (Ok (lastAt (Clean target) records))
    end
  end.

Definition optionEnabled (record : mountRecord) (option : string) : bool := bool_decide (option ∈ options record).

(** Whether something is mounted at the target, and what is wrong with it. *)
Definition verifyStagingMount (source' target' filesystem' : string) : host (bool * option error) :=
  let! m := mountAt target' in
  match m with
  | inr err => Ret (false, Some err)
  | inl None => Ret (false, None)
  | inl (Some record) =>
    let! d := hcall (DeviceNumber source') in
    match d with
    | inr err => Ret (true, Some (Wrap "inspect expected block device" err))
    | inl expectedDevice =>
      if majorMinor record !=? expectedDevice then Ret (true, Some (Errorf "target is mounted from another device"))
      else if normalizeFilesystem (filesystem record) !=? filesystem'
      then Ret (true, Some (Errorf "target uses another filesystem"))
      else if optionEnabled record "ro" then Ret (true, Some (Errorf "staging target is read-only"))
      else Ret (true, None)
    end
  end.

Definition verifyPublishedMount (source' target' : string) (readOnly : bool) : host (bool * option error) :=
  let! m := mountAt target' in
  match m with
  | inr err => Ret (false, Some err)
  | inl None => Ret (false, None)
  | inl (Some record) =>
    let! s := hcall (Stat source') in
    match s with
    | inr err => Ret (true, Some (Wrap "inspect bind source" err))
    | inl sourceInfo =>
      let! t := hcall (Stat target') in
      match t with
      | inr err => Ret (true, Some (Wrap "inspect bind target" err))
      | inl targetInfo =>
        if negb (fi_File sourceInfo =? fi_File targetInfo)
        then Ret (true, Some (Errorf "target is not a bind mount of the source"))
        else if negb (Bool.eqb readOnly (optionEnabled record "ro"))
        then Ret (true, Some (Errorf "target read-only state does not match"))
        else Ret (true, None)
      end
    end
  end.

End MountInfo.
