(* ===== verification/MountProps.v ===== *)
(** * Correctness of the mount table parser

    What the kernel prints in /proc/self/mountinfo is parsed to the mounts it
    describes, paths with blanks, tabs, newlines and backslashes included. *)

From S2P Require Import Prelude GoStrings GoPath Encoding Capacity ApiTypes Options Prog Host CsiRequest MountInfo.
Import MountInfo.

(** ** Escapes *)

Definition escape_byte (c : ascii) : string :=
  if c ==? " "%char then "\040"
  else if c ==? Ascii.ascii_of_nat 9 then "\011"
  else if c ==? Ascii.ascii_of_nat 10 then "\012"
  else if c ==? "\"%char then "\134"
  else String c "".

Fixpoint escape (s : string) : string :=
  match s with
  | EmptyString => EmptyString
  | String c s => escape_byte c +:+ escape s
  end.

Lemma unescape_plain c s : c ≠ "\"%char → unescapeMountInfoField (String c s) = String c (unescapeMountInfoField s).
Proof.
  intros Hc. simpl. destruct s as [|d1 [|d2 [|d3 t]]]; try done. by rewrite bool_decide_false.
Qed.

Lemma unescape_escape s : unescapeMountInfoField (escape s) = s.
Proof.
  induction s as [|c s IH]; [done|]. cbn [escape]. unfold escape_byte.
  destruct (bool_decide_reflect (c = " "%char)) as [->|H1]; [by transitivity (String " "%char (unescapeMountInfoField (escape s))); [|rewrite IH]|].
  destruct (bool_decide_reflect (c = Ascii.ascii_of_nat 9)) as [->|H2]; [by transitivity (String (Ascii.ascii_of_nat 9) (unescapeMountInfoField (escape s))); [|rewrite IH]|].
  destruct (bool_decide_reflect (c = Ascii.ascii_of_nat 10)) as [->|H3]; [by transitivity (String (Ascii.ascii_of_nat 10) (unescapeMountInfoField (escape s))); [|rewrite IH]|].
  destruct (bool_decide_reflect (c = "\"%char)) as [->|H4]; [by transitivity (String "\"%char (unescapeMountInfoField (escape s))); [|rewrite IH]|].
  change (String c "" +:+ escape s) with (String c (escape s)). rewrite unescape_plain by done. by rewrite IH.
Qed.

(** ** Words *)

Definition word (w : string) : Prop := w ≠ "" ∧ str_all (λ c, negb (Ascii.is_space c)) w = true.

Lemma fields_word acc w s : str_all (λ c, negb (Ascii.is_space c)) w = true →
  fields_from acc (w +:+ s) = fields_from (acc +:+ w) s.
Proof.
  revert acc. induction w as [|c w IH]; intros acc Hw; simpl; [by rewrite str_app_nil_r|].
  unfold str_all in Hw. simpl in Hw. apply andb_true_iff in Hw as [Hc Hw]. apply negb_true_iff in Hc. rewrite Hc.
  rewrite IH by done. by rewrite <- str_app_assoc.
Qed.

Lemma Fields_join ws : Forall word ws → Fields (JoinStrings ws " ") = ws.
Proof.
  unfold Fields. induction ws as [|w ws IH]; intros H; [done|]. inversion_clear H as [|?? [Hne Hw] Hws].
  destruct ws as [|w' ws].
  - simpl. rewrite <- (str_app_nil_r w) at 1. rewrite fields_word by done. simpl. by rewrite bool_decide_false.
  - change (JoinStrings (w :: w' :: ws) " ") with (w +:+ String " " (JoinStrings (w' :: ws) " ")).
    rewrite fields_word by done. cbn [fields_from Ascii.is_space]. change (Ascii.is_space " ") with true. cbv iota.
    change ("" +:+ w) with w. rewrite bool_decide_false, IH by done. done.
Qed.

Lemma separatorIndex_app pre post i : "-" ∉ pre → separatorIndex i (pre ++ "-" :: post) = Some (i + length pre)%nat.
Proof.
  revert i. induction pre as [|f pre IH]; intros i Hn; simpl; [by rewrite Nat.add_0_r|].
  rewrite bool_decide_false, IH by set_solver. f_equal. lia.
Qed.

(** ** The table *)

Record mount_line := {
  l_id : string; l_parent : string; l_device : string; l_root : string; l_target : string; l_options : string;
  l_optional : list string; l_filesystem : string; l_source : string; l_super : string
}.

Definition head_fields (l : mount_line) : list string :=
  [l_id l; l_parent l; l_device l; escape (l_root l); escape (l_target l); l_options l] ++ l_optional l.
Definition line_words (l : mount_line) : list string :=
  head_fields l ++ "-" :: [l_filesystem l; escape (l_source l); l_super l].
Definition line_text (l : mount_line) : string := JoinStrings (line_words l) " ".
Definition line_ok (l : mount_line) : Prop := Forall word (line_words l) ∧ "-" ∉ head_fields l.
Definition line_record (l : mount_line) : mountRecord := {|
  majorMinor := l_device l; root := Clean (l_root l); target := Clean (l_target l); filesystem := l_filesystem l;
  source := l_source l; options := list_to_set (Split comma (l_options l) ++ Split comma (l_super l))
|}.

Definition render (ls : list mount_line) : string :=
  JoinStrings ((line_text <$> ls) ++ [""]) (String newline "").

Lemma field_after (l : mount_line) i : field (line_words l) (length (head_fields l) + S i) =
  field [l_filesystem l; escape (l_source l); l_super l] i.
Proof.
  unfold field, line_words. rewrite lookup_app_r by lia. by replace (length (head_fields l) + S i - length (head_fields l))%nat with (S i) by lia.
Qed.

Lemma mount_row_line l : line_ok l → parseRow (line_text l) = inl (Some (line_record l)).
Proof.
  intros [Hw Hs]. unfold parseRow, line_text. rewrite Fields_join by done.
  assert (length (line_words l) = 10 + length (l_optional l) ∧ length (head_fields l) = 6 + length (l_optional l))%nat as [E1 E2].
  { unfold line_words, head_fields. rewrite !length_app. simpl. lia. }
  rewrite E1. simpl (_ =? 0)%nat. cbv iota. unfold line_words at 1. rewrite separatorIndex_app by done. simpl (0 + _)%nat.
  rewrite (proj2 (Nat.ltb_ge _ _)), (proj2 (Nat.ltb_ge _ _)), (proj2 (Nat.leb_gt _ _)) by lia. cbn [orb].
  rewrite !field_after. unfold line_record, field. simpl. by rewrite !unescape_escape.
Qed.

(** ** The whole table *)

Lemma trim_right_snoc f s c : trim_right f (s +:+ String c "") = if f c then trim_right f s else s +:+ String c "".
Proof.
  induction s as [|d s IH]; simpl; [by destruct (f c)|]. rewrite IH. destruct (f c); [done|]. by destruct s.
Qed.

Lemma word_last w : word w → ∃ s c, w = s +:+ String c "" ∧ Ascii.is_space c = false.
Proof.
  intros [Hne Hw]. induction w as [|c w IH]; [done|]. unfold str_all in *. simpl in Hw.
  apply andb_true_iff in Hw as [Hc Hw]. apply negb_true_iff in Hc. destruct w as [|d w]; [by exists "", c|].
  destruct IH as (s & e & -> & He); [done|done|]. by exists (String c s), e.
Qed.

Lemma JoinStrings_last ws w sep : ∃ s, JoinStrings (ws ++ [w]) sep = s +:+ w.
Proof.
  induction ws as [|v ws [s IH]]; [by exists ""|]. exists (v +:+ sep +:+ s).
  assert (JoinStrings ((v :: ws) ++ [w]) sep = v +:+ sep +:+ JoinStrings (ws ++ [w]) sep) as ->.
  { simpl. by destruct (ws ++ [w]) eqn:E; [destruct ws|]. }
  by rewrite IH, <- !str_app_assoc.
Qed.

Lemma JoinStrings_head w ws sep : ∃ s, JoinStrings (w :: ws) sep = w +:+ s.
Proof. destruct ws; [exists ""; by rewrite str_app_nil_r|]. by eexists. Qed.

(** Lines start and end with a word. *)
Lemma line_ends l : line_ok l → (∃ c s, line_text l = String c s ∧ Ascii.is_space c = false) ∧
  ∃ s c, line_text l = s +:+ String c "" ∧ Ascii.is_space c = false.
Proof.
  intros [Hw _]. rewrite Forall_forall in Hw. split.
  - assert (word (l_id l)) as [Hne H] by (apply Hw; by left). unfold line_text, line_words, head_fields. simpl.
    destruct (l_id l) as [|c w]; [done|]. exists c. eexists. split; [reflexivity|].
    unfold str_all in H. simpl in H. apply andb_true_iff in H as [H _]. by apply negb_true_iff.
  - assert (word (l_super l)) as (s & c & Hs & Hc)%word_last by (apply Hw; set_solver).
    unfold line_text, line_words. destruct (JoinStrings_last (head_fields l ++ ["-"; l_filesystem l; escape (l_source l)]) (l_super l) " ") as [t Ht].
    rewrite <- app_assoc in Ht. exists (t +:+ s), c. split; [|done]. cbn [List.app app] in Ht |- *.
    change (["-"; l_filesystem l; escape (l_source l)] ++ [l_super l]) with ("-" :: [l_filesystem l; escape (l_source l); l_super l]) in Ht.
    rewrite Ht, Hs. by rewrite <- str_app_assoc.
Qed.

Lemma line_newline l : line_ok l → no_byte newline (line_text l) = true.
Proof.
  intros [Hw _]. unfold line_text. induction Hw as [|w ws [_ Hw] Hws IH]; [done|].
  assert (no_byte newline w = true) as Hn.
  { unfold no_byte, str_all in *. rewrite forallb_forall in *. intros c Hc%Hw. apply negb_true_iff in Hc. apply negb_true_iff, bool_decide_eq_false.
    by intros ->. }
  destruct ws as [|w' ws]; [done|]. change (JoinStrings (w :: w' :: ws) " ") with (w +:+ " " +:+ JoinStrings (w' :: ws) " ").
  by rewrite !no_byte_app, Hn, IH.
Qed.

(** Without the newline at its end the table is a list of lines. *)
Lemma render_trim ls : Forall line_ok ls → TrimSpace (render ls) = JoinStrings (line_text <$> ls) (String newline "").
Proof.
  intros H. destruct ls as [|l ls] using rev_ind; [done|]. clear IHls.
  apply Forall_app in H as [Hls Hl]. inversion_clear Hl as [|?? Hl' _]. destruct (line_ends l Hl') as [_ (s & c & Hs & Hc)].
  unfold TrimSpace, TrimFunc, render. rewrite fmap_app. change (line_text <$> [l]) with [line_text l].
  assert (∃ t, JoinStrings ((line_text <$> ls) ++ [line_text l]) (String newline "") = t +:+ String c "") as [t Ht].
  { destruct (JoinStrings_last (line_text <$> ls) (line_text l) (String newline "")) as [t ->]. exists (t +:+ s). by rewrite Hs, <- str_app_assoc. }
  assert (JoinStrings (((line_text <$> ls) ++ [line_text l]) ++ [""]) (String newline "") =
    JoinStrings ((line_text <$> ls) ++ [line_text l]) (String newline "") +:+ String newline "") as ->.
  { clear. generalize (line_text <$> ls) (line_text l). intros vs v. induction vs as [|u vs IH]; [done|].
    simpl. destruct (vs ++ [v]) eqn:E; [by destruct vs|]. simpl in *. rewrite IH. by rewrite <- !str_app_assoc. }
  assert (∃ d u, JoinStrings ((line_text <$> ls) ++ [line_text l]) (String newline "") = String d u ∧ Ascii.is_space d = false) as (d & u & Hu & Hd).
  { destruct ls as [|l0 ls]; [by destruct (line_ends l Hl') as [(d & u & -> & ?) _]; exists d, u|].
    inversion_clear Hls as [|?? Hl0 _]. destruct (line_ends l0 Hl0) as [(d & u & Hu & Hd) _]. exists d.
    destruct (JoinStrings_head (line_text l0) ((line_text <$> ls) ++ [line_text l]) (String newline "")) as [v Hv].
    exists (u +:+ v). split; [|done]. transitivity (line_text l0 +:+ v); [exact Hv|by rewrite Hu]. }
  assert (∀ v, trim_left Ascii.is_space (String d u +:+ v) = String d u +:+ v) as Htl by (intros v; simpl; by rewrite Hd).
  rewrite Hu, Htl, <- Hu, trim_right_snoc. change (Ascii.is_space newline) with true. cbv iota.
  by rewrite Ht, trim_right_snoc, Hc.
Qed.

(** Parsing what the kernel prints. *)
Lemma parse_render ls : Forall line_ok ls → parseMountInfo (render ls) = inl (line_record <$> ls).
Proof.
  intros H. unfold parseMountInfo. rewrite render_trim by done. destruct ls as [|l ls]; [done|].
  rewrite Split_join; [|done|].
  - clear -H. induction H as [|l' ls' Hl Hls IH]; [done|]. cbn [fmap list_fmap parseLines].
    rewrite mount_row_line by done. cbn [rbind]. change (list_fmap _ _ ?f ?x) with (f <$> x). by rewrite IH.
  - apply Forall_fmap. eapply Forall_impl; [done|]. intros l'. apply line_newline.
Qed.

(** C36: parsing the mount table that the kernel prints, with blanks in paths
    escaped and any number of optional fields per line, gives back one record per
    line, in order, with its device, paths, file system, source and options. *)
Theorem mountinfo_roundtrip ls : Forall line_ok ls → parseMountInfo (render ls) = inl (line_record <$> ls).
Proof. apply parse_render. Qed.

Definition example_line : mount_line := {|
  l_id := "36"; l_parent := "35"; l_device := "259:1"; l_root := "/"; l_target := "/var/my pod"; l_options := "rw,noatime";
  l_optional := ["shared:1"]; l_filesystem := "ext4"; l_source := "/dev/nvme1n1"; l_super := "rw"
|}.

Lemma mountinfo_roundtrip_witness : parseMountInfo (render [example_line; example_line]) = inl [line_record example_line; line_record example_line].
Proof.
  apply (mountinfo_roundtrip [example_line; example_line]).
  repeat constructor; try (by intros [=]); vm_compute; intros H; repeat (inversion H as [|? ? ? H']; subst; clear H; rename H' into H).
Defined.
