(* ===== verification/NodeServer.v ===== *)
(** * The CSI node service

    Models src/internal/csi/nvme.go (connecting to NVMe-oF targets with the nvme
    command) and src/internal/csi/node_server.go (staging, publishing and their
    inverses).  The function fields of NodeServer are nil outside its tests: the
    model calls what they default to.  The endless loops that wait for a device
    and that unmount run for at most [fuel] rounds; [None] is the result of a run
    that used them up. *)

From S2P Require Import Prelude GoStrings GoPath Encoding Capacity ApiTypes Identity Options RdmaHealth Prog Kube Host CsiRequest MountInfo.
Import MountInfo.

(** ** nvme.go *)

Module Nvme.

Record path := { path_Name : string; path_Transport : string; path_Address : string; path_State : string }.
Record NVMESubsystem := { sys_NQN : string; sys_Paths : list path }.
Abbreviation NVMEHostList := (list (list NVMESubsystem)).

Fixpoint livePath (paths : list path) : option string :=
  match paths with
  | [] => None
  | p :: paths => if (path_State p ==? "live") && (path_Name p !=? "") then Some ("/dev/" +:+ path_Name p +:+ "n1")
                  else livePath paths
  end.

Fixpoint subsystemDevice (nqn : string) (subsystems : list NVMESubsystem) : option string :=
  match subsystems with
  | [] => None
  | sys :: subsystems =>
    match (if sys_NQN sys ==? nqn then livePath (sys_Paths sys) else None) with
    | Some device => Some device
    | None => subsystemDevice nqn subsystems
    end
  end.

Fixpoint hostDevice (nqn : string) (hosts : NVMEHostList) : option string :=
  match hosts with
  | [] => None
  | host :: hosts =>
    match subsystemDevice nqn host with
    | Some device => Some device
    | None => hostDevice nqn hosts
    end
  end.

Section Nvme.
Context `{Unmarshal NVMEHostList}.

Definition deviceByNQN (data nqn : string) : result string :=
  match unmarshal data with
  | inr _ => Err (Errorf "failed to parse nvme list-subsys JSON")
  | inl hosts =>
    match hostDevice nqn hosts with
    | Some device => Ok device
    | None => Err (Errorf "device for NQN not found")
    end
  end.

(** A command that failed: the error of the context when there is one. *)
Definition orInterrupted {A} (msg : string) (wrap : error → A) (k : host A) : host A :=
  let! c := ctxErr in
  match c with
  | Some e => Ret (wrap (Wrap msg (CtxError e)))
  | None => k
  end.

Definition GetDeviceByNQN (nqn : string) : host (result string) :=
  let! x := command "nvme" ["list-subsys"; "-o"; "json"] in
  match x with
  | (_, Some _) => orInterrupted "nvme list-subsys interrupted" inr (Ret (Err (Errorf "nvme list-subsys failed")))
  | (out, None) => Ret (deviceByNQN out nqn)
  end.

Definition connectArgs (nqn portalIP portalPort hostNQN : string) : list string :=
  ["connect"; "-t"; "rdma"; "-a"; portalIP; "-s"; portalPort; "-n"; nqn; "--hostnqn"; hostNQN].

(** Whether the call made a connection that a rollback has to end, and its error. *)
Definition ConnectRDMA (nqn portalIP portalPort hostNQN : string) : host (bool * option error) :=
  let! d := GetDeviceByNQN nqn in
  match d with
  | inl _ => Ret (false, None)
  | inr _ =>
    let! c := ctxErr in
    match c with
    | Some e => Ret (false, Some (Wrap "inspect existing NVMe connection" (CtxError e)))
    | None =>
      let! x := command "nvme" (connectArgs nqn portalIP portalPort hostNQN) in
      match x with
      | (_, None) => Ret (true, None)
      | (out, Some _) =>
        orInterrupted "nvme connect interrupted" (λ e, (true, Some e))
          (if Contains out "already connected" then Ret (false, None)
           else
             let! d := GetDeviceByNQN nqn in
             match d with
             | inl _ => Ret (false, None)
             | inr _ => Ret (true, Some (Errorf "nvme connect failed"))
             end)
      end
    end
  end.

Definition DisconnectRDMA (nqn : string) : host (option error) :=
  let! x := command "nvme" ["disconnect"; "-n"; nqn] in
  match x with
  | (_, None) => Ret None
  | (out, Some _) =>
    orInterrupted "nvme disconnect interrupted" Some
      (if Contains out "no controllers found" then Ret None else Ret (Some (Errorf "nvme disconnect failed")))
  end.

End Nvme.

End Nvme.

(** ** node_server.go *)

Module Node.
Import Nvme.

Definition publishContextNodeID : string := "attachedNodeID".
Definition publishContextHostNQN : string := "hostNQN".
Definition publishContextAttachmentID : string := "attachmentID".

Record validatedNodeStageRequest := {
  st_volumeID : string;
  st_stagingTargetPath : string;
  st_nqn : string;
  st_portalIP : string;
  st_portalPort : string;
  st_hostNQN : string;
  st_filesystem : string
}.

Record NodeStageVolumeRequest := {
  sr_VolumeId : string;
  sr_StagingTargetPath : string;
  sr_VolumeCapability : option VolumeCapability;
  sr_VolumeContext : gmap string string;
  sr_PublishContext : gmap string string
}.

Record NodePublishVolumeRequest := {
  pr_VolumeId : string;
  pr_StagingTargetPath : string;
  pr_TargetPath : string;
  pr_VolumeCapability : option VolumeCapability;
  pr_VolumeContext : gmap string string;
  pr_Readonly : bool
}.

Definition invalid (msg : string) : error := StatusErr InvalidArgument msg.

Definition validateNodePath (path : string) : result string :=
  if path ==? "" then Err (invalid "path must be provided")
  else if Contains path (String (Ascii.ascii_of_nat 0) "") || negb (IsAbs path)
  then Err (invalid "path must be an absolute path")
  else if Clean path ==? "/" then Err (invalid "path must not be the filesystem root")
  else if Clean path !=? path then Err (invalid "path must be canonical")
  else Ok (Clean path).

Definition hostNQNForNode (nodeID : string) : string := Attachment.HostNQN nodeID.

Section Server.
Variable nodeID : string.

Definition validateNodeStageRequest (req : NodeStageVolumeRequest) : result validatedNodeStageRequest :=
  if sr_VolumeId req ==? "" then Err (invalid "Volume ID must be provided")
  else
    let? stagingTargetPath := validateNodePath (sr_StagingTargetPath req) in
    match validateVolumeCapabilities (sr_VolumeContext req) [sr_VolumeCapability req] with
    | inr _ => Err (invalid "Invalid volume capability")
    | inl capability =>
      let nqn := TrimSpace (param (sr_VolumeContext req) "nqn") in
      let portalIP := TrimSpace (param (sr_VolumeContext req) "portalIP") in
      let portalPort := TrimSpace (param (sr_VolumeContext req) "portalPort") in
      if nqn ==? "" then Err (invalid "Volume context NQN must be provided")
      else if negb (is_ok (ParseUsableIP portalIP)) then Err (invalid "Volume context portalIP is not a usable remote IP")
      else match Atoi portalPort with
      | None => Err (invalid "Volume context portalPort is invalid")
      | Some port =>
        if (port <? 1) || (65535 <? port) then Err (invalid "Volume context portalPort is invalid")
        else
          let attachedNodeID := TrimSpace (param (sr_PublishContext req) publishContextNodeID) in
          let hostNQN := TrimSpace (param (sr_PublishContext req) publishContextHostNQN) in
          let attachmentID := TrimSpace (param (sr_PublishContext req) publishContextAttachmentID) in
          if (nodeID ==? "") || (attachedNodeID !=? nodeID)
          then Err (StatusErr FailedPrecondition "Volume attachment belongs to another node")
          else if (attachmentID ==? "") || (hostNQN !=? hostNQNForNode nodeID)
          then Err (StatusErr FailedPrecondition "Volume attachment authorization is missing or invalid")
          else Ok {|
            st_volumeID := sr_VolumeId req; st_stagingTargetPath := stagingTargetPath; st_nqn := nqn;
            st_portalIP := portalIP; st_portalPort := Itoa port; st_hostNQN := hostNQN;
            st_filesystem := cvc_Filesystem capability
          |}
      end
    end.

Definition nodeOperationError (message : string) : host error :=
  let! c := ctxErr in
  Ret (match c with Some e => FromContextError e | None => StatusErr Internal message end).

(** NodeGetInfo answers with the node; the constant capabilities are in Driver.v. *)
Definition NodeGetInfo : string := nodeID.

(** *** Mounting *)

Variable fuel : nat.

(** errors.As for a filesystemMismatchError or a mountMismatchError. *)
Fixpoint isMismatch (mountOnly : bool) (err : error) : bool :=
  match err with
  | FsMismatch _ _ _ => negb mountOnly
  | MountMismatch _ => true
  | Wrap _ e | ObservationErr e | PartedErr _ e | KernelErr e | SPDKErr e => isMismatch mountOnly e
  | Join e1 e2 | DiscoveryErr e1 e2 => isMismatch mountOnly e1 || isMismatch mountOnly e2
  | _ => false
  end.

Definition isMountPoint (target : string) : host (result bool) :=
  let!? record := mountAt target in Ret (Ok (bool_decide (is_Some record))).

Definition unmount_round (target : string) : host (unit + option error) :=
  let! c := ctxErr in
  match c with
  | Some e => Ret (inr (Some (Wrap "unmount interrupted" (CtxError e))))
  | None =>
    let! m := isMountPoint target in
    match m with
    | inr err => Ret (inr (Some (Wrap "checking mount point" err)))
    | inl false => Ret (inr None)
    | inl true =>
      let! x := command "umount" [target] in
      match x with
      | (_, None) => Ret (inl tt)
      | (out, Some _) =>
        orInterrupted "unmount interrupted" (λ e, inr (Some e))
          (if Contains out "not mounted" || Contains out "no mount point specified" then Ret (inr None)
           else Ret (inr (Some (Errorf "unmount failed"))))
      end
    end
  end.

Definition unmount (target : string) : host (option (option error)) :=
  iterate fuel (λ _, unmount_round target) tt.

Definition probeFilesystem (source : string) : host (result string) :=
  let! x := command "blkid" ["-p"; "-s"; "TYPE"; "-o"; "value"; source] in
  match x with
  | (out, None) => Ret (Ok (normalizeFilesystem out))
  | (out, Some err) =>
    orInterrupted "blkid interrupted" inr
      (match err with
       | ExitErr 2 => Ret (Ok "")
       | _ => Ret (Err (Wrap "blkid failed" err))
       end)
  end.

Definition filesystemFormatCommand (source fsType : string) : result (string * list string) :=
  if fsType ==? defaultFilesystem then Ok ("mkfs.ext4", ["-F"; source])
  else if fsType ==? xfsFilesystem then Ok ("mkfs.xfs", ["-f"; source])
  else Err (Errorf "unsupported filesystem").

Definition formatFilesystem (source fsType : string) : host (option error) :=
  match filesystemFormatCommand source fsType with
  | inr err => Ret (Some err)
  | inl (cmd, args) =>
    let! x := command cmd args in
    match x with
    | (_, None) => Ret None
    | (_, Some err) => orInterrupted "formatting interrupted" Some (Ret (Some (Wrap "formatting failed" err)))
    end
  end.

(** ensureFilesystemContext with the probe and the formatter it is called with. *)
Definition ensureFilesystem (source requested : string) : host (option error) :=
  let! d := probeFilesystem source in
  match d with
  | inr err => Ret (Some (Wrap "probing filesystem" err))
  | inl detected =>
    if detected ==? "" then formatFilesystem source requested
    else if normalizeFilesystem detected !=? requested then Ret (Some (FsMismatch source requested detected))
    else Ret None
  end.

(** After a mount command: the mount is verified, and taken back when it is not
    what was requested. *)
Definition verifyMounted (verify : host (bool * option error)) (target : string) : host (option (option error)) :=
  let! v := verify in
  match v with
  | (true, None) => Ret (Some None)
  | (_, err) =>
    let~ _ := unmount target in
    Ret (Some (Some (MountMismatch (default (Errorf "target is not mounted after mount command succeeded") err))))
  end.

(** Whether this call mounted the target, and its error. *)
Definition formatAndMount (source target fsType : string) : host (option (bool * option error)) :=
  let! r := hcall (MkdirAll target) in
  match r with
  | Some err => Ret (Some (false, Some err))
  | None =>
    let! v := verifyStagingMount source target fsType in
    match v with
    | (_, Some err) => Ret (Some (false, Some (MountMismatch err)))
    | (true, None) => Ret (Some (false, None))
    | (false, None) =>
      let! r := ensureFilesystem source fsType in
      match r with
      | Some err => Ret (Some (false, Some err))
      | None =>
        let! x := command "mount" ["-t"; fsType; source; target] in
        match x with
        | (_, Some _) =>
          orInterrupted "mount interrupted" (λ e, Some (false, Some e)) (Ret (Some (false, Some (Errorf "mount failed"))))
        | (_, None) =>
          let~ r := verifyMounted (verifyStagingMount source target fsType) target in
          Ret (Some (match r with None => (true, None) | Some err => (false, Some err) end))
        end
      end
    end
  end.

Definition remountReadOnly (target : string) (readOnly : bool) : host (option (option error)) :=
  if readOnly then
    let! x := command "mount" ["-o"; "remount,bind,ro"; target] in
    match x with
    | (_, None) => Ret (Some None)
    | (_, Some _) =>
      let~ _ := unmount target in
      orInterrupted "read-only bind remount interrupted" (λ e, Some (Some e))
        (Ret (Some (Some (Errorf "read-only bind remount failed"))))
    end
  else Ret (Some None).

Definition publishBindMount (source target : string) (readOnly : bool) : host (option (option error)) :=
  let! r := hcall (MkdirAll target) in
  match r with
  | Some err => Ret (Some (Some err))
  | None =>
    let! v := verifyPublishedMount source target readOnly in
    match v with
    | (_, Some err) => Ret (Some (Some (MountMismatch err)))
    | (true, None) => Ret (Some None)
    | (false, None) =>
      let! x := command "mount" ["--bind"; source; target] in
      match x with
      | (_, Some _) =>
        orInterrupted "bind mount interrupted" (λ e, Some (Some e)) (Ret (Some (Some (Errorf "bind mount failed"))))
      | (_, None) =>
        let~ r := remountReadOnly target readOnly in
        match r with
        | Some err => Ret (Some (Some err))
        | None => verifyMounted (verifyPublishedMount source target readOnly) target
        end
      end
    end
  end.

(** *** The service *)

Context `{Unmarshal NVMEHostList}.

Definition waitForDevice (path : string) : host (option (option error)) :=
  iterate fuel (λ _ : unit,
    let! s := hcall (Stat path) in
    match s with
    | inl _ => Ret (inr None)
    | inr err =>
      if negb (os_IsNotExist err) then Ret (inr (Some err))
      else
        let! w := hcall SelectOp in
        Ret (match w with
             | CtxDone e => inr (Some (CtxError e))
             | TimedOut => inr (Some (Errorf "timed out waiting for device"))
             | Tick => inl tt
             end)
    end) tt.

(** The part of NodeStageVolume after the connection was made: whether it mounted
    the staging path, and its outcome. *)
Definition stageDevice (stage : validatedNodeStageRequest) : host (option (bool * option error)) :=
  let failed mounted message := let! e := nodeOperationError message in Ret (Some (mounted, Some e)) in
  let! d := GetDeviceByNQN (st_nqn stage) in
  match d with
  | inr _ => failed false "Failed to locate block device for NQN"
  | inl devPath =>
    let~ r := waitForDevice devPath in
    match r with
    | Some _ => failed false "Block device did not appear"
    | None =>
      let~ m := formatAndMount devPath (st_stagingTargetPath stage) (st_filesystem stage) in
      match m with
      | (mountedByCall, None) => Ret (Some (mountedByCall, None))
      | (mountedByCall, Some err) =>
        if isMismatch false err then Ret (Some (mountedByCall, Some (StatusErr FailedPrecondition "mismatch")))
        else failed mountedByCall "Failed to format and mount"
      end
    end
  end.

(** The deferred cleanup of a call that did not succeed. *)
Definition stageCleanup (stage : validatedNodeStageRequest) (mountedByCall createdConnection createdDirectory : bool)
    : host (option unit) :=
  let~ _ := if mountedByCall then unmount (st_stagingTargetPath stage) else Ret (Some None) in
  let! _ := if createdConnection then DisconnectRDMA (st_nqn stage) else Ret None in
  let! _ := if createdDirectory then hcall (Remove (st_stagingTargetPath stage)) else Ret None in
  Ret (Some tt).

Definition connectAndStage (stage : validatedNodeStageRequest) (createdDirectory : bool) : host (option (result unit)) :=
  let! x := ConnectRDMA (st_nqn stage) (st_portalIP stage) (st_portalPort stage) (st_hostNQN stage) in
  match x with
  | (createdConnection, Some _) =>
    let~ _ := stageCleanup stage false createdConnection createdDirectory in
    let! e := nodeOperationError "Failed to connect to NVMe-oF target" in
    Ret (Some (Err e))
  | (createdConnection, None) =>
    let~ m := stageDevice stage in
    match m with
    | (_, None) => Ret (Some (Ok tt))
    | (mountedByCall, Some err) =>
      let~ _ := stageCleanup stage mountedByCall createdConnection createdDirectory in
      Ret (Some (Err err))
    end
  end.

Definition NodeStageVolume (req : NodeStageVolumeRequest) : host (option (result unit)) :=
  match validateNodeStageRequest req with
  | inr err => Ret (Some (Err err))
  | inl stage =>
    let! s := hcall (Stat (st_stagingTargetPath stage)) in
    match s with
    | inl _ => connectAndStage stage false
    | inr statErr =>
      if negb (os_IsNotExist statErr) then Ret (Some (Err (StatusErr Internal "Failed to inspect staging target path")))
      else
        let! r := hcall (MkdirAll (st_stagingTargetPath stage)) in
        match r with
        | Some _ => Ret (Some (Err (StatusErr Internal "Failed to create staging target path")))
        | None => connectAndStage stage true
        end
    end
  end.

(** The NQN of the target of a volume handle. *)
Definition unstageNQN (volID : string) : result string :=
  match VolumeIdentity.ParseVolumeHandle volID with
  | inr _ => Ok (VolumeIdentity.NQN volID)
  | inl reference =>
    match VolumeIdentity.New (VolumeIdentity.r_Namespace reference) (VolumeIdentity.r_Name reference)
            (VolumeIdentity.r_UID reference) with
    | inr _ => Err (invalid "Invalid volume identity")
    | inl identity => Ok (VolumeIdentity.NQN (VolumeIdentity.ExternalID identity))
    end
  end.

Definition NodeUnstageVolume (volID stagingTargetPath : string) : host (option (result unit)) :=
  if volID ==? "" then Ret (Some (Err (invalid "Volume ID must be provided")))
  else match validateNodePath stagingTargetPath with
  | inr err => Ret (Some (Err err))
  | inl stagingTargetPath =>
    let~ r := unmount stagingTargetPath in
    match r with
    | Some _ => Ret (Some (Err (StatusErr Internal "Failed to unmount staging path")))
    | None =>
      match unstageNQN volID with
      | inr err => Ret (Some (Err err))
      | inl nqn =>
        let! r := DisconnectRDMA nqn in
        match r with
        | Some _ => Ret (Some (Err (StatusErr Internal "Failed to disconnect NVMe target")))
        | None => Ret (Some (Ok tt))
        end
      end
    end
  end.

Definition NodePublishVolume (req : NodePublishVolumeRequest) : host (option (result unit)) :=
  if pr_VolumeId req ==? "" then Ret (Some (Err (invalid "Volume ID must be provided")))
  else match validateNodePath (pr_StagingTargetPath req), validateNodePath (pr_TargetPath req) with
  | inr err, _ => Ret (Some (Err err))
  | _, inr err => Ret (Some (Err err))
  | inl source, inl target =>
    match validateVolumeCapabilities (pr_VolumeContext req) [pr_VolumeCapability req] with
    | inr _ => Ret (Some (Err (invalid "Invalid volume capability")))
    | inl _ =>
      let~ r := publishBindMount source target (pr_Readonly req) in
      match r with
      | None => Ret (Some (Ok tt))
      | Some err =>
        if isMismatch true err then Ret (Some (Err (StatusErr FailedPrecondition "mismatch")))
        else let! e := nodeOperationError "Failed to bind mount" in Ret (Some (Err e))
      end
    end
  end.

Definition NodeUnpublishVolume (volID targetPath : string) : host (option (result unit)) :=
  if volID ==? "" then Ret (Some (Err (invalid "Volume ID must be provided")))
  else match validateNodePath targetPath with
  | inr err => Ret (Some (Err err))
  | inl target =>
    let~ r := unmount target in
    match r with
    | Some _ => Ret (Some (Err (StatusErr Internal "Failed to unmount target path")))
    | None => Ret (Some (Ok tt))
    end
  end.

End Server.

End Node.
