(* ===== verification/NodeProps.v ===== *)
(** * Correctness of the CSI node service

    A node is its mounts, the file systems on its block devices, its NVMe
    connections and the files its paths lead to.  [node_step] says what commands
    may reply and do; one that fails may still have had its effect. *)

From S2P Require Import Prelude GoStrings GoPath Encoding Capacity ApiTypes Identity Options RdmaHealth Prog Kube Host CsiRequest MountInfo MountProps NodeServer.
Import MountInfo Nvme Node.

Record node := {
  mounts : list mountRecord;
  formatted : gmap string string;
  links : gset string;
  ident : string → Z
}.

(** The mounts at a path, the top one last. *)
Definition stack (w : node) (t : string) : list mountRecord := List.filter (λ r, target r ==? t) (mounts w).

Lemma lastAt_stack w t : lastAt t (mounts w) = last (stack w t).
Proof.
  unfold lastAt, stack. generalize (mounts w). intros l. induction l as [|r l IH] using rev_ind; [done|].
  rewrite foldl_snoc, List.filter_app, IH. simpl. destruct (bool_decide (target r = t)).
  - by rewrite last_snoc.
  - by rewrite app_nil_r.
Qed.

Section Node.
Context `{UL : Unmarshal NVMEHostList}.
(** The number of the device that a path names. *)
Variable devno : string → string.
(** The devices through which a subsystem is reached. *)
Variable served : string → string → Prop.

(** ** What commands do

    The documented behaviour relied on: mount and umount change the mounts at
    their target only, umount takes the top one away; mkfs changes the device it
    is given; blkid with exit code 2, or without output, has found no file system;
    a live path in the list of subsystems belongs to a connection; connect and
    disconnect change the connections of the NQN they are given. *)

Definition same_but_mounts (t : string) (w w' : node) : Prop :=
  (∀ t', t' ≠ t → stack w' t' = stack w t') ∧ formatted w' = formatted w ∧ links w' = links w.

Definition fsOf (cmd : string) : option string :=
  if cmd ==? "mkfs.ext4" then Some "-F" else if cmd ==? "mkfs.xfs" then Some "-f" else None.

Definition command_effect (cmd : string) (args : list string) (w w' : node) : Prop :=
  (∀ t, cmd = "umount" → args = [t] → same_but_mounts (Clean t) w w' ∧ stack w' (Clean t) = removelast (stack w (Clean t)) ∧
     stack w (Clean t) ≠ []) ∧
  (∀ fs src t, cmd = "mount" → args = ["-t"; fs; src; t] → same_but_mounts (Clean t) w w' ∧
     ∃ r, stack w' (Clean t) = stack w (Clean t) ++ [r]) ∧
  (∀ src t, cmd = "mount" → args = ["--bind"; src; t] → same_but_mounts (Clean t) w w' ∧
     ∃ r, stack w' (Clean t) = stack w (Clean t) ++ [r]) ∧
  (∀ t, cmd = "mount" → args = ["-o"; "remount,bind,ro"; t] → same_but_mounts (Clean t) w w' ∧
     length (stack w' (Clean t)) = length (stack w (Clean t))) ∧
  (∀ flag src, fsOf cmd = Some flag → args = [flag; src] → mounts w' = mounts w ∧ links w' = links w ∧
     ∀ d, d ≠ src → formatted w' !! d = formatted w !! d) ∧
  (∀ n ip port h, cmd = "nvme" → args = connectArgs n ip port h →
     mounts w' = mounts w ∧ formatted w' = formatted w ∧ links w' = links w ∪ {[n]}) ∧
  (∀ n, cmd = "nvme" → args = ["disconnect"; "-n"; n] →
     mounts w' = mounts w ∧ formatted w' = formatted w ∧ links w' = links w ∖ {[n]}) ∧
  (cmd = "blkid" → w' = w) ∧ (cmd = "nvme" → args = ["list-subsys"; "-o"; "json"] → w' = w).

Definition command_reply (cmd : string) (args : list string) (w : node) (x : string * option error) : Prop :=
  (∀ t out e, cmd = "umount" → args = [t] → x = (out, Some e) →
     Contains out "not mounted" || Contains out "no mount point specified" = true → stack w (Clean t) = []) ∧
  (∀ src, cmd = "blkid" → args = ["-p"; "-s"; "TYPE"; "-o"; "value"; src] → formatted w !! src ≠ None →
     match x with (out, None) => normalizeFilesystem out ≠ "" | (_, Some e) => e ≠ ExitErr 2 end) ∧
  (∀ out hosts n d, cmd = "nvme" → args = ["list-subsys"; "-o"; "json"] → x = (out, None) → unmarshal out = inl hosts →
     hostDevice n hosts = Some d → n ∈ links w ∧ served n d) ∧
  (∀ n out e, cmd = "nvme" → args = ["disconnect"; "-n"; n] → x = (out, Some e) →
     Contains out "no controllers found" = true → n ∉ links w).

Definition node_step (w : node) (o : hostOp) : hostRep o → node → Prop :=
  match o with
  | Exec _ cmd args => λ x w', command_reply cmd args w x ∧
      (command_effect cmd args w w' ∨ x.2 ≠ None ∧ w' = w)
  | ReadFile p => λ x w', w' = w ∧ (p = mountInfoPath → ∀ out, x = inl out →
      ∃ ls, Forall line_ok ls ∧ out = render ls ∧ line_record <$> ls = mounts w)
  | DeviceNumber p => λ x w', w' = w ∧ ∀ n, x = inl n → n = devno p
  | Stat p => λ x w', w' = w ∧ ∀ i, x = inl i → fi_File i = ident w p
  | _ => λ _ w', w' = w
  end.

Section Inv.
Variable inv : node → Prop.
Local Notation swp := (swp node_step inv).

Lemma ctx_swp {A} (k : option CtxErr → host A) w Q : inv w → (∀ c, swp (k c) w Q) → swp (bind ctxErr k) w Q.
Proof. intros Hi Hk. apply swp_vis; [done|]. intros c w' ->. apply Hk. Qed.

Lemma interrupted_swp {A} msg wrap (k : host A) w Q : inv w → (∀ e, Q (wrap e) w) → swp k w Q → swp (orInterrupted msg wrap k) w Q.
Proof. intros Hi He Hk. apply ctx_swp; [done|]. intros [e|]; [by apply swp_ret|done]. Qed.

Lemma nodeError_swp {A} msg (k : error → host A) w Q : inv w → (∀ e, swp (k e) w Q) → swp (bind (nodeOperationError msg) k) w Q.
Proof. intros Hi Hk. apply swp_bind, ctx_swp; [done|]. intros c. apply swp_ret; [done|]. apply Hk. Qed.

Lemma command_swp {A} cmd args (k : string * option error → host A) w Q : inv w →
  (∀ x w', command_reply cmd args w x → (command_effect cmd args w w' ∨ x.2 ≠ None ∧ w' = w) → swp (k x) w' Q) →
  swp (bind (command cmd args) k) w Q.
Proof. intros Hi Hk. apply swp_vis; [done|]. intros x w' [Hr He]. by apply Hk. Qed.

Lemma mountAt_swp {A} t (k : result (option mountRecord) → host A) w Q : inv w →
  (∀ e, swp (k (inr e)) w Q) → swp (k (inl (last (stack w (Clean t))))) w Q → swp (bind (mountAt t) k) w Q.
Proof.
  intros Hi He Hk. unfold mountAt. apply swp_bind, swp_vis; [done|]. intros [out|e] w' [-> Hm]; cbn [bind]; [|by apply swp_ret].
  destruct (Hm eq_refl out eq_refl) as (ls & Hls & -> & Heq). rewrite parse_render by done. apply swp_ret; [done|].
  by rewrite Heq, lastAt_stack.
Qed.

End Inv.

(** ** Unmounting *)

(** Mounts at [t] were taken away from the top, and nothing else changed. *)
Definition popped (t : string) (w w' : node) : Prop :=
  same_but_mounts (Clean t) w w' ∧ ∃ top, stack w (Clean t) = stack w' (Clean t) ++ top.

Lemma popped_refl t w : popped t w w.
Proof. split; [done|]. exists []. by rewrite app_nil_r. Qed.

Lemma same_but_trans t w1 w2 w3 : same_but_mounts t w1 w2 → same_but_mounts t w2 w3 → same_but_mounts t w1 w3.
Proof. intros (H1 & H2 & H3) (G1 & G2 & G3). split_and!; [|congruence..]. intros t' Ht. by rewrite G1, H1. Qed.

Lemma popped_trans t w1 w2 w3 : popped t w1 w2 → popped t w2 w3 → popped t w1 w3.
Proof.
  intros [H [a Ha]] [G [b Hb]]. split; [by eapply same_but_trans|]. exists (b ++ a). by rewrite Ha, Hb, app_assoc.
Qed.

Lemma umount_popped t w w' : command_effect "umount" [t] w w' →
  popped t w w' ∧ (length (stack w' (Clean t)) < length (stack w (Clean t)))%nat.
Proof.
  intros [He _]. destruct (He t eq_refl eq_refl) as (Hs & Hst & Hne). destruct (stack w (Clean t)) as [|r l _] eqn:E using rev_ind; [done|].
  rewrite removelast_last in Hst. split.
  - split; [done|]. exists [r]. by rewrite E, Hst.
  - rewrite Hst, length_app. simpl. lia.
Qed.

Lemma unmount_round_swp inv t w : (∀ w', popped t w w' → inv w') →
  swp node_step inv (unmount_round t) w (λ r w', popped t w w' ∧
    match r with
    | inl _ => (length (stack w' (Clean t)) < length (stack w (Clean t)))%nat
    | inr None => stack w' (Clean t) = []
    | inr (Some _) => True
    end).
Proof.
  intros Hinv. pose proof (popped_refl t w) as Hw. pose proof (Hinv w Hw) as Hi. unfold unmount_round.
  apply ctx_swp; [done|]. intros [e|]; [by apply swp_ret|]. unfold isMountPoint.
  apply swp_bind, mountAt_swp; [done|intros e; by do 2 (apply swp_ret; [done|])|].
  apply swp_ret; [done|]. destruct (last (stack w (Clean t))) as [r|] eqn:El.
  2:{ apply last_None in El. by apply swp_ret. }
  apply command_swp; [done|]. intros [out [e|]] w' [Hnot _] He; simpl.
  - assert (popped t w w') as Hw' by (destruct He as [He%umount_popped|[_ ->]]; [apply He|done]).
    apply interrupted_swp; [by apply Hinv|done|]. destruct (_ || _) eqn:Hc; apply swp_ret; try (by apply Hinv); [|done].
    specialize (Hnot t out e eq_refl eq_refl eq_refl Hc). split; [done|]. destruct Hw' as [_ [top Ht]].
    rewrite Hnot in Ht. symmetry in Ht. by apply app_eq_nil in Ht as [? _].
  - destruct He as [[??]%umount_popped|[? _]]; [|done]. by apply swp_ret; [apply Hinv|].
Qed.

Lemma unmount_swp inv fuel t w0 : (∀ w, popped t w0 w → inv w) →
  swp node_step inv (unmount fuel t) w0 (λ r w, popped t w0 w ∧ (r = Some None → stack w (Clean t) = []) ∧
    ((length (stack w0 (Clean t)) < fuel)%nat → r ≠ None)).
Proof.
  unfold unmount. revert w0. induction fuel as [|fuel IH]; intros w0 Hinv.
  { apply swp_ret; [apply Hinv, popped_refl|]. split_and!; [apply popped_refl|done|lia]. }
  cbn [iterate]. apply swp_bind. eapply swp_mono; [|by apply unmount_round_swp].
  intros [[]|[e|]] w Hi [Hw H]; [|by apply swp_ret..].
  eapply swp_mono; [|apply IH; intros w' Hw'; apply Hinv; by eapply popped_trans].
  intros r w' _ (Hw' & Hr & Hf). split_and!; [by eapply popped_trans|done|]. intros Hl. apply Hf. lia.
Qed.

(** ** Mounting *)

(** The devices that may be formatted. *)
Variable touched : string → Prop.

(** No device but these is formatted, and none that holds a file system. *)
Definition data_kept (w w' : node) : Prop :=
  (∀ d, ¬ touched d → formatted w' !! d = formatted w !! d) ∧
  ∀ d f, formatted w !! d = Some f → formatted w' !! d = Some f.

Lemma data_kept_eq w w' : formatted w' = formatted w → data_kept w w'.
Proof. intros E. split; by rewrite E. Qed.

Lemma data_kept_trans w1 w2 w3 : data_kept w1 w2 → data_kept w2 w3 → data_kept w1 w3.
Proof. intros [H1 H2] [G1 G2]. split; [|auto]. intros d Hd. by rewrite G1, H1. Qed.

(** Only the mounts at [p] changed, and no data was lost. *)
Definition mount_kept (p : string) (w w' : node) : Prop :=
  (∀ t, t ≠ p → stack w' t = stack w t) ∧ data_kept w w' ∧ links w' = links w.

Lemma mount_kept_refl p w : mount_kept p w w.
Proof. done. Qed.

Lemma mount_kept_trans p w1 w2 w3 : mount_kept p w1 w2 → mount_kept p w2 w3 → mount_kept p w1 w3.
Proof.
  intros (H1 & H2 & H3) (G1 & G2 & G3). split_and!; [|by eapply data_kept_trans|congruence]. intros t Ht. by rewrite G1, H1.
Qed.

Lemma same_kept p w w' : same_but_mounts p w w' → mount_kept p w w'.
Proof. intros (H1 & H2 & H3). split; [done|split; [by apply data_kept_eq|done]]. Qed.

Lemma popped_kept t w w' : popped t w w' → mount_kept (Clean t) w w'.
Proof. intros [H _]. by apply same_kept. Qed.

(** What the verification of a staging mount has established. *)
Definition staged (src t fs : string) (w : node) : Prop :=
  ∃ r, last (stack w (Clean t)) = Some r ∧ majorMinor r = devno src ∧ normalizeFilesystem (filesystem r) = fs ∧
       "ro" ∉ options r.

Definition published (src t : string) (readOnly : bool) (w : node) : Prop :=
  ident w src = ident w t ∧
  ∃ r, last (stack w (Clean t)) = Some r ∧ ("ro" ∈ options r ↔ readOnly = true).

Section Mount.
Variable inv : node → Prop.
Local Notation swp := (swp node_step inv).

Lemma verifyStaging_swp {A} src t fs (k : bool * option error → host A) w Q : inv w →
  (∀ m e, swp (k (m, Some e)) w Q) → (stack w (Clean t) = [] → swp (k (false, None)) w Q) →
  (staged src t fs w → swp (k (true, None)) w Q) → swp (bind (verifyStagingMount src t fs) k) w Q.
Proof.
  intros Hi He Hno Hyes. unfold verifyStagingMount. apply swp_bind, mountAt_swp; [done|intros e; by apply swp_ret|].
  destruct (last (stack w (Clean t))) as [r|] eqn:El.
  2:{ apply last_None in El. apply swp_ret; auto. }
  apply swp_vis; [done|]. intros [n|e] w' [-> Hn]; cbn [bind]; [|by apply swp_ret]. specialize (Hn n eq_refl). subst n.
  destruct (bool_decide_reflect (majorMinor r = devno src)) as [E1|]; simpl; [|by apply swp_ret].
  destruct (bool_decide_reflect (normalizeFilesystem (filesystem r) = fs)) as [E2|]; simpl; [|by apply swp_ret].
  unfold optionEnabled. destruct (bool_decide_reflect ("ro" ∈ options r)) as [|E3]; [by apply swp_ret|].
  apply swp_ret; [done|]. apply Hyes. by exists r.
Qed.

Lemma verifyPublished_swp {A} src t ro (k : bool * option error → host A) w Q : inv w →
  (∀ m e, swp (k (m, Some e)) w Q) → (stack w (Clean t) = [] → swp (k (false, None)) w Q) →
  (published src t ro w → swp (k (true, None)) w Q) → swp (bind (verifyPublishedMount src t ro) k) w Q.
Proof.
  intros Hi He Hno Hyes. unfold verifyPublishedMount. apply swp_bind, mountAt_swp; [done|intros e; by apply swp_ret|].
  destruct (last (stack w (Clean t))) as [r|] eqn:El.
  2:{ apply last_None in El. apply swp_ret; auto. }
  apply swp_vis; [done|]. intros [si|e] w' [-> Hs]; cbn [bind]; [|by apply swp_ret].
  apply swp_vis; [done|]. intros [ti|e] w' [-> Ht]; cbn [bind]; [|by apply swp_ret].
  rewrite (Hs si eq_refl), (Ht ti eq_refl). destruct (Z.eqb_spec (ident w src) (ident w t)) as [E|]; simpl; [|by apply swp_ret].
  destruct (eqb_spec ro (optionEnabled r "ro")) as [E2|]; simpl; [|by apply swp_ret]. apply swp_ret; [done|]. apply Hyes.
  split; [done|]. exists r. split; [done|]. rewrite E2. unfold optionEnabled. by rewrite bool_decide_eq_true.
Qed.

End Mount.

(** A device is formatted only when the probe found no file system on it. *)
Lemma ensureFilesystem_swp (p : string) inv src fs w : touched src →
  (∀ w', mount_kept p w w' → mounts w' = mounts w → inv w') →
  swp node_step inv (ensureFilesystem src fs) w (λ _ w', mount_kept p w w' ∧ mounts w' = mounts w).
Proof.
  intros Htouch Hinv. assert (inv w) as Hi by (by apply Hinv). unfold ensureFilesystem, probeFilesystem.
  assert (formatted w !! src = None → swp node_step inv (formatFilesystem src fs) w (λ _ w', mount_kept p w w' ∧ mounts w' = mounts w)) as Hfmt.
  { intros Hnone. unfold formatFilesystem. destruct (filesystemFormatCommand src fs) as [[cmd args]|e] eqn:Ef; [|by apply swp_ret].
    assert (∃ flag, fsOf cmd = Some flag ∧ args = [flag; src]) as (flag & Hcmd & ->).
    { unfold filesystemFormatCommand in Ef. destruct (fs ==? defaultFilesystem), (fs ==? xfsFilesystem); simplify_eq; by eexists. }
    apply command_swp; [done|]. intros [out err] w' _ He.
    assert (mount_kept p w w' ∧ mounts w' = mounts w) as [Hk Hm].
    { destruct He as [(_ & _ & _ & _ & Hf & _)|[_ ->]]; [|done]. destruct (Hf flag src Hcmd eq_refl) as (Hm & Hl & Hd).
      split; [|done]. split; [by intros t _; unfold stack; rewrite Hm|]. split; [|done]. split.
      - intros d Hnt. apply Hd. by intros ->.
      - intros d f Hdf. rewrite Hd; [done|congruence]. }
    pose proof (Hinv w' Hk Hm). destruct err; [apply interrupted_swp; [done|done|]|]; by apply swp_ret. }
  apply swp_bind, command_swp; [done|]. intros x w' (_ & Hb & _) He.
  assert (w' = w) as -> by (destruct He as [(_ & _ & _ & _ & _ & _ & _ & He & _)|[_ ->]]; [by apply He|done]).
  specialize (Hb src eq_refl eq_refl). assert (Q : ∀ e, swp node_step inv (Ret (Some e)) w (λ _ w', mount_kept p w w' ∧ mounts w' = mounts w)) by done.
  destruct x as [out [e|]].
  - apply interrupted_swp; [done|done|]. assert (e = ExitErr 2 ∨ e ≠ ExitErr 2) as [->|Hne] by (destruct (decide (e = ExitErr 2)); auto).
    + apply swp_ret; [done|]. apply Hfmt. destruct (formatted w !! src) eqn:E; [|done]. exfalso. by apply Hb.
    + destruct e; try (by apply swp_ret). destruct code as [|[?|[?|?|]|]|?]; by apply swp_ret.
  - apply swp_ret; [done|]. destruct (bool_decide_reflect (normalizeFilesystem out = "")) as [E|E].
    + apply Hfmt. destruct (formatted w !! src) eqn:Ef; [|done]. exfalso. by apply Hb.
    + by destruct (_ !=? fs); apply swp_ret.
Qed.

(** A mount that was just made, and is taken back when it is not as requested. *)
Lemma verifyMounted_swp inv fuel verify t w (P : node → Prop) :
  (∀ w', mount_kept (Clean t) w w' → inv w') →
  (∀ (k : bool * option error → host (option (option error))) Q, (∀ m e, swp node_step inv (k (m, Some e)) w Q) → swp node_step inv (k (false, None)) w Q →
     (P w → swp node_step inv (k (true, None)) w Q) → swp node_step inv (bind verify k) w Q) →
  swp node_step inv (verifyMounted fuel verify t) w (λ r w', mount_kept (Clean t) w w' ∧ (r = Some None → P w') ∧
    ((length (stack w (Clean t)) < fuel)%nat → r ≠ None)).
Proof.
  intros Hinv Hv. unfold verifyMounted.
  assert (∀ err, swp node_step inv (let~ _ := unmount fuel t in Ret (Some (Some (MountMismatch err)))) w
    (λ r w', mount_kept (Clean t) w w' ∧ (r = Some None → P w') ∧ ((length (stack w (Clean t)) < fuel)%nat → r ≠ None))) as Hback.
  { intros err. apply swp_bind. eapply swp_mono; [|apply unmount_swp; intros w' Hw; by apply Hinv, popped_kept].
    intros r w' Hi (Hw & _ & Hf). apply popped_kept in Hw. by destruct r; apply swp_ret. }
  apply Hv; [by intros [] e|apply Hback|]. intros HP. apply swp_ret; [by apply Hinv|]. done.
Qed.

Lemma mounted_kept cmd args t w w' (x : string * option error) : command_effect cmd args w w' ∨ x.2 ≠ None ∧ w' = w →
  cmd = "mount" → (∃ fs src, args = ["-t"; fs; src; t]) ∨ (∃ src, args = ["--bind"; src; t]) ∨ args = ["-o"; "remount,bind,ro"; t] →
  mount_kept (Clean t) w w' ∧ (length (stack w' (Clean t)) ≤ S (length (stack w (Clean t))))%nat.
Proof.
  intros [(_ & Hm & Hb & Hr & _)|[_ ->]] Hc Ha; [|split; [done|lia]].
  assert (same_but_mounts (Clean t) w w' ∧ (length (stack w' (Clean t)) ≤ S (length (stack w (Clean t))))%nat) as [? ?];
    [|split; [by apply same_kept|done]].
  destruct Ha as [(fs & src & ->)|[(src & ->)| ->]].
  - destruct (Hm fs src t Hc eq_refl) as (? & r & ->). rewrite length_app. simpl. split; [done|lia].
  - destruct (Hb src t Hc eq_refl) as (? & r & ->). rewrite length_app. simpl. split; [done|lia].
  - destruct (Hr t Hc eq_refl) as (? & ->). split; [done|lia].
Qed.

(** Formatting and mounting changes the mounts at the target only and no device
    that holds a file system; on success the target is a verified mount of the
    device; three rounds are enough. *)
Lemma formatAndMount_swp inv fuel src t fs w : touched src → (∀ w', mount_kept (Clean t) w w' → inv w') →
  swp node_step inv (formatAndMount fuel src t fs) w (λ r w', mount_kept (Clean t) w w' ∧
    (∀ b, r = Some (b, None) → staged src t fs w') ∧ ((2 ≤ fuel)%nat → r ≠ None)).
Proof.
  intros Htouch Hinv. assert (inv w) as Hi by (by apply Hinv). unfold formatAndMount.
  apply swp_vis; [done|]. intros [e|] w' ->; cbn [bind]; [by apply swp_ret|].
  apply verifyStaging_swp; [done|intros m e; destruct m; by apply swp_ret| |].
  2:{ intros Hs. apply swp_ret; [done|]. split_and!; [done|by intros b|done]. }
  intros Hempty. apply swp_bind. eapply swp_mono; [|apply (ensureFilesystem_swp (Clean t)); [done|]; by intros w1 Hk _; apply Hinv].
  intros [e|] w1 Hi1 [Hk1 Hm1]; [by apply swp_ret|].
  apply command_swp; [done|]. intros [out err] w2 _ He.
  destruct (mounted_kept _ _ t w1 w2 _ He eq_refl) as [Hk2 Hlen]; [by left; exists fs, src|].
  pose proof (mount_kept_trans _ _ _ _ Hk1 Hk2) as Hk. destruct err as [e|].
  { apply interrupted_swp; [by apply Hinv|done|]. by apply swp_ret; [apply Hinv|]. }
  assert (length (stack w2 (Clean t)) ≤ 1)%nat as Hl1.
  { unfold stack in Hempty, Hlen. rewrite Hm1, Hempty in Hlen. exact Hlen. }
  apply swp_bind. eapply swp_mono; [|apply (verifyMounted_swp _ _ _ _ _ (staged src t fs)); [intros w3 Hw3; apply Hinv; by eapply mount_kept_trans|]].
  - intros [[e'|]|] w3 Hi3 (Hk3 & Hst & Hf); (apply swp_ret; [done|]); (split; [by eapply mount_kept_trans|]); (split; [naive_solver|]); [done|done|].
    intros Hfuel. by destruct Hf; [lia|].
  - intros k Q H1 H2 H3. apply verifyStaging_swp; [by apply Hinv|done|done|done].
Qed.

(** ** Connections *)

(** Only the mounts at [p] and the connection [n] changed, and no data was lost. *)
Definition kept (p n : string) (w w' : node) : Prop :=
  (∀ t, t ≠ p → stack w' t = stack w t) ∧ data_kept w w' ∧ ∀ m, m ≠ n → m ∈ links w' ↔ m ∈ links w.

Lemma kept_trans p n w1 w2 w3 : kept p n w1 w2 → kept p n w2 w3 → kept p n w1 w3.
Proof.
  intros (H1 & H2 & H3) (G1 & G2 & G3). split; [|split; [by eapply data_kept_trans|]].
  - intros t Ht. by rewrite G1, H1.
  - intros m Hm. by rewrite (G3 m Hm), (H3 m Hm).
Qed.

Lemma mount_kept_kept p n w w' : mount_kept p w w' → kept p n w w'.
Proof. intros (? & ? & E). split; [done|split; [done|]]. intros m _. by rewrite E. Qed.

(** Only the connection [n] changed. *)
Definition relinked (n : string) (w w' : node) : Prop :=
  mounts w' = mounts w ∧ formatted w' = formatted w ∧ ∀ m, m ≠ n → m ∈ links w' ↔ m ∈ links w.

Lemma relinked_kept p n w w' : relinked n w w' → kept p n w w'.
Proof.
  intros (Hm & Hf & Hl). split; [|split; [by apply data_kept_eq|done]]. intros t _. unfold stack. by rewrite Hm.
Qed.

Lemma connect_relinked n ip port h w w' : command_effect "nvme" (connectArgs n ip port h) w w' → relinked n w w'.
Proof.
  intros (_ & _ & _ & _ & _ & Hc & _). destruct (Hc n ip port h eq_refl eq_refl) as (? & ? & Hl). split_and!; [done..|].
  intros m Hm. rewrite Hl. set_solver.
Qed.

Section Links.
Variable inv : node → Prop.
Local Notation swp := (swp node_step inv).

Lemma GetDevice_swp {A} n (k : result string → host A) w Q : inv w →
  (∀ e, swp (k (inr e)) w Q) → (∀ d, n ∈ links w → served n d → swp (k (inl d)) w Q) → swp (bind (GetDeviceByNQN n) k) w Q.
Proof.
  intros Hi He Hk. unfold GetDeviceByNQN. apply swp_bind, command_swp; [done|]. intros [out err] w' (_ & _ & Hl & _) Heff.
  assert (w' = w) as ->.
  { destruct Heff as [(_ & _ & _ & _ & _ & _ & _ & _ & H)|[_ ->]]; [by apply H|done]. }
  destruct err as [e|]; [apply interrupted_swp; [done|done|]; by apply swp_ret|]. apply swp_ret; [done|].
  unfold deviceByNQN. destruct (unmarshal out) as [hosts|e] eqn:Eu; [|done].
  destruct (hostDevice n hosts) as [d|] eqn:Ed; [|done]. destruct (Hl out hosts n d eq_refl eq_refl eq_refl Eu Ed). by apply Hk.
Qed.

Lemma Connect_swp n ip port h w : (∀ w', relinked n w w' → inv w') →
  swp (ConnectRDMA n ip port h) w (λ _ w', relinked n w w').
Proof.
  intros Hinv. assert (inv w) as Hi by (by apply Hinv). unfold ConnectRDMA.
  apply GetDevice_swp; [done| |intros d _ _; by apply swp_ret]. intros _. apply ctx_swp; [done|]. intros [e|]; [by apply swp_ret|].
  apply command_swp; [done|]. intros [out err] w' _ He.
  assert (relinked n w w') as Hr by (destruct He as [He%connect_relinked|[_ ->]]; done). pose proof (Hinv w' Hr).
  destruct err as [e|]; [|by apply swp_ret]. apply interrupted_swp; [done|done|]. destruct (Contains _ _); [by apply swp_ret|].
  apply GetDevice_swp; [done|intros; by apply swp_ret..].
Qed.

Lemma Disconnect_swp n w : (∀ w', relinked n w w' → inv w') →
  swp (DisconnectRDMA n) w (λ r w', relinked n w w' ∧ (r = None → n ∉ links w')).
Proof.
  intros Hinv. assert (inv w) as Hi by (by apply Hinv). unfold DisconnectRDMA. apply command_swp; [done|].
  intros [out err] w' (_ & _ & _ & Hno) He.
  assert (relinked n w w' ∧ (n ∉ links w → n ∉ links w') ∧ (err = None → n ∉ links w')) as (Hr & Hsub & Hok).
  { destruct He as [(_ & _ & _ & _ & _ & _ & Hd & _)|[Hne ->]]; [|done].
    destruct (Hd n eq_refl eq_refl) as (? & ? & Hl). unfold relinked. rewrite Hl. split_and!; [done..|set_solver|set_solver|set_solver]. }
  pose proof (Hinv w' Hr). destruct err as [e|]; [|apply swp_ret; auto].
  apply interrupted_swp; [done|done|]. destruct (Contains out "no controllers found") eqn:Ec; apply swp_ret; try done.
  split; [done|]. intros _. apply Hsub. by eapply Hno.
Qed.

End Links.

(** ** Staging *)

Lemma waitForDevice_swp inv fuel path w : inv w → swp node_step inv (waitForDevice fuel path) w (λ _ w', w' = w).
Proof.
  intros Hi. unfold waitForDevice. apply (swp_iterate _ _ _ (λ _ w', w' = w)); [|by intros [] w' ->|done].
  intros [] w' ->. apply swp_vis; [done|]. intros [i|e] w' [-> _]; cbn [bind]; [by apply swp_ret|].
  destruct (negb _); [by apply swp_ret|]. apply swp_vis; [done|]. intros wk w' ->. destruct wk; by apply swp_ret.
Qed.

Section Stage.
Variables (nodeID : string) (fuel : nat) (stage : validatedNodeStageRequest) (w0 : node).
Local Notation p := (Clean (st_stagingTargetPath stage)).
Local Notation n := (st_nqn stage).
Local Notation inv := (kept p n w0).
Hypothesis served_touched : ∀ d, served n d → touched d.

(** The outcome of a successful call: the staging path is a verified mount of a
    device of the connected subsystem. *)
Definition stage_done (w : node) : Prop :=
  n ∈ links w ∧ ∃ d, served n d ∧ staged d (st_stagingTargetPath stage) (st_filesystem stage) w.

Lemma stageDevice_swp w : kept p n w0 w →
  swp node_step inv (stageDevice fuel stage) w (λ r w', kept p n w0 w' ∧ ∀ m, r = Some (m, None) → stage_done w').
Proof.
  intros Hw. unfold stageDevice. apply GetDevice_swp; [done|intros e; apply nodeError_swp; [done|]; intros; by apply swp_ret|].
  intros d Hn Hd. apply swp_bind. eapply swp_mono; [|by apply waitForDevice_swp]. intros [[e|]|] w' _ ->; [| |by apply swp_ret].
  { apply nodeError_swp; [done|]. intros. by apply swp_ret. }
  apply swp_bind. eapply swp_mono; [|apply formatAndMount_swp; [by apply served_touched|]; intros w' Hk; by eapply kept_trans, mount_kept_kept].
  intros [[m [e|]]|] w' Hi (Hk & Hs & _); [| |by apply swp_ret].
  - destruct (isMismatch _ _); [by apply swp_ret|]. apply nodeError_swp; [done|]. intros. by apply swp_ret.
  - apply swp_ret; [done|]. split; [done|]. intros _ _. destruct Hk as (_ & _ & Hl). split; [by rewrite Hl|]. exists d. split; [done|]. by apply (Hs m).
Qed.

Lemma stageCleanup_swp b1 b2 b3 w : kept p n w0 w →
  swp node_step inv (stageCleanup fuel stage b1 b2 b3) w (λ _ w', kept p n w0 w').
Proof.
  intros Hw. unfold stageCleanup. apply swp_bind.
  assert (∀ w, kept p n w0 w → swp node_step inv (if b1 then unmount fuel (st_stagingTargetPath stage) else Ret (Some None)) w (λ _ w', kept p n w0 w')) as H1.
  { intros w1 H1. destruct b1; [|by apply swp_ret]. eapply swp_mono; [|apply unmount_swp; intros w2 H2; by eapply kept_trans, mount_kept_kept, popped_kept].
    done. }
  eapply swp_mono; [|by apply H1]. intros [r|] w1 Hi1 _; [|by apply swp_ret]. apply swp_bind.
  assert (swp node_step inv (if b2 then DisconnectRDMA n else Ret None) w1 (λ _ w', kept p n w0 w')) as H2.
  { destruct b2; [|by apply swp_ret]. eapply swp_mono; [|apply Disconnect_swp; intros w2 H2; by eapply kept_trans, relinked_kept]. done. }
  eapply swp_mono; [|by apply H2]. intros _ w2 Hi2 _. apply swp_bind. destruct b3; [|by do 2 (apply swp_ret; [done|])].
  apply swp_vis; [done|]. intros r' w3 ->. by do 2 (apply swp_ret; [done|]).
Qed.

Lemma connectAndStage_swp b w : kept p n w0 w →
  swp node_step inv (connectAndStage fuel stage b) w (λ r w', r = Some (inl tt) → stage_done w').
Proof.
  intros Hw. unfold connectAndStage. apply swp_bind. eapply swp_mono; [|apply Connect_swp; intros w1 H1; by eapply kept_trans, relinked_kept].
  intros [c [e|]] w1 Hi1 _.
  - apply swp_bind. eapply swp_mono; [|by apply stageCleanup_swp]. intros [[]|] w2 Hi2 _; [|by apply swp_ret].
    apply nodeError_swp; [done|]. intros. by apply swp_ret.
  - apply swp_bind. eapply swp_mono; [|by apply stageDevice_swp]. intros [[m [e|]]|] w2 Hi2 [_ Hd]; [| |by apply swp_ret].
    + apply swp_bind. eapply swp_mono; [|by apply stageCleanup_swp]. intros [[]|] w3 Hi3 _; by apply swp_ret.
    + apply swp_ret; [done|]. intros _. by apply (Hd m).
Qed.

Lemma NodeStage_swp req : validateNodeStageRequest nodeID req = inl stage →
  swp node_step inv (NodeStageVolume nodeID fuel req) w0 (λ r w', r = Some (inl tt) → stage_done w').
Proof.
  intros Hv. assert (kept p n w0 w0) as H0 by done. unfold NodeStageVolume. rewrite Hv.
  apply swp_vis; [done|]. intros [i|e] w' [-> _]; cbn [bind]; [by apply connectAndStage_swp|].
  destruct (negb _); [by apply swp_ret|]. apply swp_vis; [done|]. intros [e'|] w' ->; cbn [bind]; [by apply swp_ret|].
  by apply connectAndStage_swp.
Qed.

End Stage.

(** ** Unstaging and publishing *)

(** The connection goes away only once nothing is mounted. *)
Definition unstage_inv (p n : string) (w0 w : node) : Prop :=
  kept p n w0 w ∧ (n ∈ links w0 → n ∉ links w → stack w p = []).

Lemma NodeUnstage_swp fuel volID path w0 n : Clean path = path → unstageNQN volID = inl n →
  swp node_step (unstage_inv path n w0) (NodeUnstageVolume fuel volID path) w0 (λ r w,
    (r = Some (inl tt) → stack w path = [] ∧ n ∉ links w) ∧ ((length (stack w0 path) < fuel)%nat → r ≠ None)).
Proof.
  intros Hp Hn. assert (unstage_inv path n w0 w0) as Hi0 by done. unfold NodeUnstageVolume.
  destruct (volID ==? ""); [by apply swp_ret|]. destruct (validateNodePath path) as [t|e] eqn:Ev; [|by apply swp_ret].
  assert (t = path) as ->.
  { unfold validateNodePath in Ev. repeat (destruct (_ : bool) in Ev; [done|]). congruence. }
  apply swp_bind. eapply swp_mono; [|apply unmount_swp].
  - rewrite Hp. intros [[e|]|] w Hi (Hpop & He & Hf); [by apply swp_ret| |].
    2:{ apply swp_ret; [done|]. split; [done|]. intros Hl. by destruct (Hf Hl). }
    rewrite Hn. specialize (He eq_refl). apply swp_bind. eapply swp_mono; [|apply Disconnect_swp].
    + intros r w' Hi' [(Hm & _ & _) Hno]. destruct r as [e|]; apply swp_ret; try done. split; [|done]. intros _.
      split; [|by apply Hno]. unfold stack in *. by rewrite Hm.
    + intros w' Hr. split; [by eapply kept_trans; [apply Hi|apply relinked_kept]|]. intros _ _. unfold stack in *. by rewrite (proj1 Hr).
  - intros w Hw. split; [by apply mount_kept_kept; rewrite <- Hp; apply popped_kept|]. intros H1 H2.
    destruct Hw as [(_ & _ & E) _]. by rewrite E in H2.
Qed.

Lemma validateNodePath_ok path t : validateNodePath path = inl t → t = path ∧ Clean path = path.
Proof.
  unfold validateNodePath. intros H. destruct (path ==? ""); [done|]. destruct (_ || _); [done|]. destruct (Clean path ==? "/"); [done|].
  destruct (bool_decide_reflect (Clean path = path)) as [E|E]; simpl in H; [|done]. injection H as <-. by rewrite E.
Qed.

Lemma remount_swp inv fuel t ro w : (∀ w', mount_kept (Clean t) w w' → inv w') →
  swp node_step inv (remountReadOnly fuel t ro) w (λ r w', mount_kept (Clean t) w w' ∧
    ((length (stack w (Clean t)) < fuel)%nat → r ≠ None ∧ (length (stack w' (Clean t)) < fuel)%nat)).
Proof.
  intros Hinv. assert (inv w) as Hi by (by apply Hinv). unfold remountReadOnly. destruct ro; [|by apply swp_ret].
  apply command_swp; [done|]. intros [out err] w' _ He.
  assert (mount_kept (Clean t) w w' ∧ length (stack w' (Clean t)) = length (stack w (Clean t))) as [Hk Hl].
  { destruct He as [(_ & _ & _ & Hr & _)|[_ ->]]; [|done]. destruct (Hr t eq_refl eq_refl). split; [by apply same_kept|done]. }
  destruct err as [e|]; [|apply swp_ret; [by apply Hinv|]; split; [done|]; intros; split; [done|lia]].
  apply swp_bind. eapply swp_mono; [|apply unmount_swp; intros w2 H2; apply Hinv; by eapply mount_kept_trans, popped_kept].
  intros r w2 Hi2 (Hpop & _ & Hf). pose proof (mount_kept_trans _ _ _ _ Hk (popped_kept _ _ _ Hpop)) as Hk2.
  assert (length (stack w2 (Clean t)) ≤ length (stack w (Clean t)))%nat as Hle.
  { destruct Hpop as [_ [top E]]. apply (f_equal length) in E. rewrite length_app in E. lia. }
  destruct r as [r|].
  - apply interrupted_swp; [done|..]; [intros e'|apply swp_ret; [done|]]; (split; [done|]); intros; (split; [done|lia]).
  - apply swp_ret; [done|]. split; [done|]. intros Hlt. exfalso. apply Hf; [lia|done].
Qed.

Lemma publishBindMount_swp inv fuel src t ro w : (∀ w', mount_kept (Clean t) w w' → inv w') →
  swp node_step inv (publishBindMount fuel src t ro) w (λ r w', mount_kept (Clean t) w w' ∧
    (r = Some None → published src t ro w') ∧ ((2 ≤ fuel)%nat → r ≠ None)).
Proof.
  intros Hinv. assert (inv w) as Hi by (by apply Hinv). unfold publishBindMount.
  apply swp_vis; [done|]. intros [e|] w' ->; cbn [bind]; [by apply swp_ret|].
  apply verifyPublished_swp; [done|intros m e; destruct m; by apply swp_ret| |intros Hs; by apply swp_ret].
  intros Hempty. apply command_swp; [done|]. intros [out err] w1 _ He.
  destruct (mounted_kept _ _ t w w1 _ He eq_refl) as [Hk1 Hlen]; [by right; left; exists src|]. rewrite Hempty in Hlen. simpl in Hlen.
  destruct err as [e|]; [apply interrupted_swp; [by apply Hinv|done|]; by apply swp_ret; [apply Hinv|]|].
  apply swp_bind. eapply swp_mono; [|apply remount_swp; intros w2 H2; apply Hinv; by eapply mount_kept_trans].
  intros [[e|]|] w2 Hi2 [Hk2 Hf].
  - apply swp_ret; [done|]. split_and!; [by eapply mount_kept_trans|done|done].
  - eapply swp_mono; [|apply (verifyMounted_swp _ _ _ _ _ (published src t ro)); [intros w3 Hw3; apply Hinv; do 2 (eapply mount_kept_trans; [done|]); done|]].
    + intros r w3 Hi3 (Hk3 & Hp & Hf3). split_and!; [do 2 (eapply mount_kept_trans; [done|]); done|done|]. intros Hfuel. apply Hf3, Hf. lia.
    + intros k Q H1 H2 H3. by apply verifyPublished_swp.
  - apply swp_ret; [done|]. split_and!; [by eapply mount_kept_trans|done|]. intros Hfuel. destruct Hf as [? _]; [lia|done].
Qed.

Lemma NodePublish_swp fuel req w0 :
  swp node_step (mount_kept (pr_TargetPath req) w0) (NodePublishVolume fuel req) w0 (λ r w,
    (r = Some (inl tt) → published (pr_StagingTargetPath req) (pr_TargetPath req) (pr_Readonly req) w) ∧ ((2 ≤ fuel)%nat → r ≠ None)).
Proof.
  pose proof (mount_kept_refl (pr_TargetPath req) w0) as Hi0. unfold NodePublishVolume.
  destruct (pr_VolumeId req ==? ""); [by apply swp_ret|].
  destruct (validateNodePath (pr_StagingTargetPath req)) as [src|e] eqn:E1; [|by apply swp_ret].
  destruct (validateNodePath (pr_TargetPath req)) as [t|e] eqn:E2; [|by apply swp_ret].
  apply validateNodePath_ok in E1 as [-> _], E2 as [-> Hc]. destruct (validateVolumeCapabilities _ _); [|by apply swp_ret].
  apply swp_bind. eapply swp_mono; [|apply publishBindMount_swp; intros w' Hw; by rewrite Hc in Hw].
  intros [[e|]|] w Hi (_ & Hp & Hf).
  - destruct (isMismatch _ _); [by apply swp_ret|]. apply nodeError_swp; [done|]. intros. by apply swp_ret.
  - apply swp_ret; [done|]. split; [|done]. intros _. by apply Hp.
  - apply swp_ret; [done|]. split; [done|]. intros Hl. by destruct (Hf Hl).
Qed.

Lemma NodeUnpublish_swp fuel volID path w0 : Clean path = path →
  swp node_step (popped path w0) (NodeUnpublishVolume fuel volID path) w0 (λ r w,
    (r = Some (inl tt) → stack w path = []) ∧ ((length (stack w0 path) < fuel)%nat → r ≠ None)).
Proof.
  intros Hc. pose proof (popped_refl path w0) as Hi0. unfold NodeUnpublishVolume. destruct (volID ==? ""); [by apply swp_ret|].
  destruct (validateNodePath path) as [t|e] eqn:E; [|by apply swp_ret]. apply validateNodePath_ok in E as [-> _].
  apply swp_bind. eapply swp_mono; [|by apply unmount_swp]. rewrite Hc. intros [[e|]|] w Hi (_ & He & Hf).
  - by apply swp_ret.
  - apply swp_ret; [done|]. split; [|done]. intros _. by apply He.
  - apply swp_ret; [done|]. split; [done|]. intros Hl. by destruct (Hf Hl).
Qed.

End Node.

(** ** What staging takes back *)

Section Rollback.
Context `{UL : Unmarshal NVMEHostList}.
Variables (nodeID : string) (fuel : nat) (stage : validatedNodeStageRequest).

(** The operations that need a reason. *)
Definition guarded (o : hostOp) : bool :=
  match o with
  | Exec _ cmd args => (cmd ==? "umount") || ((cmd ==? "nvme") && match args with a :: _ => (a ==? "connect") || (a ==? "disconnect") | [] => false end)
  | Remove _ => true
  | _ => false
  end.

Definition free (o : hostOp) : Prop := guarded o = false.

Definition connectOp : hostOp :=
  Exec [] "nvme" (connectArgs (st_nqn stage) (st_portalIP stage) (st_portalPort stage) (st_hostNQN stage)).
Definition disconnectOp : hostOp := Exec [] "nvme" ["disconnect"; "-n"; st_nqn stage].

Definition listOp : hostOp := Exec [] "nvme" ["list-subsys"; "-o"; "json"].

Definition done_before (h : list hevent) (o : hostOp) : Prop := ∃ x, ev (Rep := hostRep) o x ∈ h.

(** A listing of the controllers failed or showed no live device of the target. *)
Definition saw_no_device (h : list hevent) : Prop := ∃ x, ev (Rep := hostRep) listOp x ∈ h ∧
  match x with (out, None) => is_ok (deviceByNQN out (st_nqn stage)) = false | (_, Some _) => True end.

(** The call may have made a connection: it saw no live device of the target, and
    then its connect command succeeded, or was interrupted, or failed without
    saying that the target is already connected and still no live device was seen. *)
Definition may_have_connected (h : list hevent) : Prop := ∃ a b out err,
  h = a ++ ev (Rep := hostRep) connectOp (out, err) :: b ∧ saw_no_device a ∧
  (err = None ∨ (∃ e, ev (Rep := hostRep) CtxErrOp (Some e) ∈ b) ∨ Contains out "already connected" = false ∧ saw_no_device b).

(** The call mounted the staging path. *)
Definition mounted_by (h : list hevent) : Prop := ∃ src out,
  ev (Rep := hostRep) (Exec [] "mount" ["-t"; st_filesystem stage; src; st_stagingTargetPath stage]) (out, None) ∈ h.

(** There was no staging path, and the call made it. *)
Definition made_by (h : list hevent) : Prop := ev (Rep := hostRep) (MkdirAll (st_stagingTargetPath stage)) None ∈ h ∧
  ∃ e, os_IsNotExist e = true ∧ ev (Rep := hostRep) (Stat (st_stagingTargetPath stage)) (inr e) ∈ h.

(** The only connection is attempted with the request's target and host; a
    connection is ended only if this call may have made it, the staging path
    unmounted and removed only if this call mounted and made it. *)
Definition stage_good (h : list hevent) (e : hevent) : Prop :=
  let o := projT1 e in
  guarded o = true →
    o = connectOp ∨
    o = disconnectOp ∧ may_have_connected h ∨
    o = Exec [] "umount" [st_stagingTargetPath stage] ∧ mounted_by h ∨
    o = Remove (st_stagingTargetPath stage) ∧ made_by h.

#[local] Abbreviation ok := (hwp stage_good).

Lemma done_later h b o : done_before h o → done_before (h ++ b) o.
Proof. intros [x Hx]. exists x. apply elem_of_app. by left. Qed.

Lemma saw_later h b : saw_no_device h → saw_no_device (h ++ b).
Proof. intros (x & Hx & ?). exists x. split; [apply elem_of_app; by left|done]. Qed.

Lemma connected_later h b : may_have_connected h → may_have_connected (h ++ b).
Proof.
  intros (a & c & out & err & -> & Ha & Hc). exists a, (c ++ b), out, err. split; [by rewrite <- app_assoc|]. split; [done|].
  destruct Hc as [?|[[e He]|[? Hc]]]; [by left|right; left; exists e; apply elem_of_app; by left|right; right; split; [done|by apply saw_later]].
Qed.

Lemma connected_grow h b c : may_have_connected (h ++ b) → may_have_connected (h ++ b ++ c).
Proof. rewrite app_assoc. apply connected_later. Qed.

Lemma connected_nil h b : may_have_connected (h ++ b ++ []) → may_have_connected (h ++ b).
Proof. by rewrite app_nil_r. Qed.

Lemma mounted_later h b : mounted_by h → mounted_by (h ++ b).
Proof. intros (src & out & H). exists src, out. apply elem_of_app. by left. Qed.

Lemma made_later h b : made_by h → made_by (h ++ b).
Proof. intros (H & e & He & Hs). split; [apply elem_of_app; by left|]. exists e. split; [done|]. apply elem_of_app. by left. Qed.

Lemma free_good h o x : free o → stage_good h (ev o x).
Proof. intros Hf Hg. unfold free in Hf. simpl in Hg. congruence. Qed.

Lemma free_hwp {A B} (p : host A) (k : A → host B) h Q : performs free p →
  (∀ a b, Forall (λ e, free (projT1 e)) b → ok (k a) (h ++ b) Q) → ok (bind p k) h Q.
Proof.
  intros Hp Hk. apply hwp_bind. eapply hwp_mono; [|by apply (hwp_performs free); [apply free_good|]].
  intros a h' (b & -> & Hb). by apply Hk.
Qed.

Lemma GetDevice_free n : performs free (GetDeviceByNQN n).
Proof. unfold GetDeviceByNQN, orInterrupted. by performs. Qed.

Lemma nodeError_free msg : performs free (nodeOperationError msg).
Proof. unfold nodeOperationError. by performs. Qed.

Lemma wait_free path : performs free (waitForDevice fuel path).
Proof. unfold waitForDevice. by performs. Qed.

Lemma verify_free src t fs : performs free (verifyStagingMount src t fs).
Proof. unfold verifyStagingMount, mountAt. by performs. Qed.

Lemma format_free src fs : performs free (ensureFilesystem src fs).
Proof.
  assert (performs free (formatFilesystem src fs)).
  { unfold formatFilesystem, filesystemFormatCommand, orInterrupted.
    destruct (fs ==? defaultFilesystem), (fs ==? xfsFilesystem); cbn iota; by performs. }
  unfold ensureFilesystem, probeFilesystem, orInterrupted. by performs.
Qed.

Definition command_failed (e : hevent) : bool :=
  match e with existT (Exec _ _ _) (_, Some _) => true | _ => false end.

(** Events that are no connecting. *)
Definition other (b : list hevent) : Prop := Forall (λ e, projT1 e ≠ connectOp) b.

Lemma free_other b : Forall (λ e, free (projT1 e)) b → other b.
Proof. intros H. eapply Forall_impl; [exact H|]. intros e He E. unfold free in He. by rewrite E in He. Qed.

(** Every connection made has been ended. *)
Definition settled (h : list hevent) : Prop :=
  ∀ pre out post, h = pre ++ ev (Rep := hostRep) connectOp (out, None) :: post → done_before post disconnectOp.

Lemma settled_app h b : settled h → other b → settled (h ++ b).
Proof.
  intros Hs Hb pre out post E. destruct (decide (length pre < length h)%nat) as [Hl|Hl].
  - apply app_eq_inv in E as [(k & E1 & E2)|(k & E1 & E2)].
    + destruct k as [|e k]; [rewrite app_nil_r in E1; subst; lia|]. injection E2 as <- ->.
      apply done_later. by apply (Hs pre out k).
    + subst pre. rewrite length_app in Hl. lia.
  - apply app_eq_inv in E as [(k & E1 & E2)|(k & E1 & E2)].
    + apply (f_equal length) in E1. rewrite length_app in E1. destruct k as [|e k]; [|simpl in E1; lia]. simpl in E2.
      exfalso. rewrite <- E2 in Hb. by inversion_clear Hb.
    + exfalso. rewrite E2 in Hb. apply Forall_app in Hb as [_ Hb]. by inversion_clear Hb.
Qed.

Lemma settled_grow h b c : settled (h ++ b) → other c → settled (h ++ b ++ c).
Proof. rewrite app_assoc. apply settled_app. Qed.

Lemma settled_disconnect h x : settled (h ++ [ev (Rep := hostRep) disconnectOp x]).
Proof.
  intros pre out post E. exists x. destruct post as [|e post] using rev_ind.
  - apply app_inj_tail in E as [_ E]. exfalso. apply (f_equal (@projT1 _ _)) in E. done.
  - rewrite app_comm_cons, app_assoc in E. apply app_inj_tail in E as [_ <-]. apply elem_of_app. right. by left.
Qed.

(** Unmounting the staging path after it was mounted. *)
Lemma unmount_hwp h Q : mounted_by h →
  (∀ r b, other b → Q r (h ++ b)) → ok (unmount fuel (st_stagingTargetPath stage)) h Q.
Proof.
  intros Hm HQ. unfold unmount. apply (hwp_iterate _ _ (λ _ h', ∃ b, h' = h ++ b ∧ other b)).
  - intros [] h' (b & -> & Hb). unfold unmount_round. apply free_hwp; [by performs|]. intros c b1 H1%free_other. rewrite <- app_assoc.
    assert (other (b ++ b1)) as Hb1 by (by apply Forall_app).
    destruct c; [by apply h_ret, HQ|]. apply free_hwp; [unfold isMountPoint, mountAt; by performs|]. intros m b2 H2%free_other.
    rewrite <- app_assoc. assert (other ((b ++ b1) ++ b2)) as Hb2 by (by apply Forall_app).
    destruct m as [[]|e]; [|by apply h_ret, HQ..]. apply hwp_vis.
    { intros x _. right. right. left. split; [done|]. by apply mounted_later. }
    intros x. rewrite <- app_assoc. set (b3 := _ ++ [_]). assert (other b3) as Hb3 by (by apply Forall_app; split; [|repeat constructor]).
    destruct x as [out [e|]]; [|by apply h_ret; exists b3].
    apply free_hwp; [by performs|]. intros c' b4 H4%free_other. rewrite <- app_assoc. assert (other (b3 ++ b4)) by (by apply Forall_app).
    destruct c'; [by apply h_ret, HQ|]. by destruct (_ || _); apply h_ret, HQ.
  - intros [] h' (b & -> & Hb). by apply HQ.
  - exists []. split; [by rewrite app_nil_r|constructor].
Qed.

Lemma formatAndMount_hwp src h Q :
  (∀ r b, other b → (∀ e, r = Some (true, e) → mounted_by (h ++ b)) → Q r (h ++ b)) →
  ok (formatAndMount fuel src (st_stagingTargetPath stage) (st_filesystem stage)) h Q.
Proof.
  intros HQ. unfold formatAndMount. apply free_hwp; [by performs|]. intros r b1 H1%free_other. destruct r; [by apply h_ret, HQ|].
  apply free_hwp; [apply verify_free|]. intros v b2 H2%free_other. rewrite <- app_assoc. assert (other (b1 ++ b2)) as Hb2 by (by apply Forall_app).
  assert (ok (Ret (Some (false, None))) (h ++ b1 ++ b2) Q) as Hdone by (by apply h_ret, HQ).
  destruct v as [[] [e|]]; [by apply h_ret, HQ|done|by apply h_ret, HQ|].
  apply free_hwp; [apply format_free|]. intros f b3 H3%free_other. rewrite <- app_assoc.
  assert (other ((b1 ++ b2) ++ b3)) as Hb3 by (by apply Forall_app). destruct f; [by apply h_ret, HQ|].
  apply hwp_vis; [intros x; by apply free_good|]. intros x. rewrite <- app_assoc. set (b4 := _ ++ [_]).
  assert (other b4) as Hb4 by (by apply Forall_app; split; [|repeat constructor]).
  assert (x.2 = None → mounted_by (h ++ b4)) as Hm.
  { destruct x as [out err]. simpl. intros ->. exists src, out. unfold b4. rewrite !elem_of_app. right. right. by left. }
  destruct x as [out [e|]]; [|specialize (Hm eq_refl)].
  - apply free_hwp; [by performs|]. intros c b5 H5%free_other. rewrite <- app_assoc. assert (other (b4 ++ b5)) by (by apply Forall_app).
    by destruct c; apply h_ret, HQ.
  - apply hwp_bind. unfold verifyMounted. apply free_hwp; [apply verify_free|]. intros v b5 H5%free_other. rewrite <- app_assoc.
    assert (other (b4 ++ b5)) as Hb5 by (by apply Forall_app). assert (mounted_by (h ++ b4 ++ b5)) as Hm5.
    { rewrite app_assoc. by apply mounted_later. }
    assert (∀ err, ok (let~ _ := unmount fuel (st_stagingTargetPath stage) in Ret (Some (Some (MountMismatch err)))) (h ++ b4 ++ b5)
      (λ a h', ok match a with Some x => Ret (Some match x with Some err => (false, Some err) | None => (true, None) end) | None => Ret None end h' Q)) as Hback.
    { intros err. apply hwp_bind, unmount_hwp; [done|]. intros r' b6 H6. rewrite <- app_assoc. assert (other ((b4 ++ b5) ++ b6)) by (by apply Forall_app).
      by destruct r'; do 2 apply h_ret; apply HQ. }
    destruct v as [[] [e|]]; [apply Hback| |apply Hback..]. do 2 apply h_ret. by apply HQ.
Qed.

Lemma stageDevice_hwp h Q : (∀ r b, other b → (∀ e, r = Some (true, e) → mounted_by (h ++ b)) → Q r (h ++ b)) →
  ok (stageDevice fuel stage) h Q.
Proof.
  intros HQ. unfold stageDevice. apply free_hwp; [apply GetDevice_free|]. intros d b1 H1%free_other.
  assert (∀ b m msg, other b → (m = true → mounted_by (h ++ b)) → ok (let! e := nodeOperationError msg in Ret (Some (m, Some e))) (h ++ b) Q) as Hfail.
  { intros b m msg Hb Hm. apply free_hwp; [apply nodeError_free|]. intros e b' Hb'%free_other. rewrite <- app_assoc. apply h_ret, HQ; [by apply Forall_app|].
    intros e' [= -> _]. rewrite app_assoc. by apply mounted_later, Hm. }
  destruct d as [dev|e]; [|by apply Hfail]. apply free_hwp; [apply wait_free|]. intros r b2 H2%free_other. rewrite <- app_assoc.
  assert (other (b1 ++ b2)) as Hb2 by (by apply Forall_app). destruct r as [[e|]|]; [by apply Hfail| |by apply h_ret, HQ].
  apply hwp_bind, formatAndMount_hwp. intros r b3 H3 Hm. rewrite <- app_assoc in *. assert (other ((b1 ++ b2) ++ b3)) as Hb3 by (by apply Forall_app).
  destruct r as [[m [e|]]|].
  - destruct (isMismatch _ _); [|apply Hfail; [done|]; intros ->; by apply (Hm (Some e))]. apply h_ret, HQ; [done|]. intros e' [= -> _]. by apply (Hm (Some e)).
  - apply h_ret, HQ; [done|]. intros e' [= -> _]. by apply (Hm None).
  - by apply h_ret, HQ.
Qed.

(** The cleanup ends a connection that this call made. *)
Lemma stageCleanup_hwp mounted created directory h Q :
  (mounted = true → mounted_by h) → (created = true → may_have_connected h) → (created = false → settled h) →
  (directory = true → made_by h) →
  (∀ b, Q None (h ++ b)) → (∀ b, settled (h ++ b) → Q (Some tt) (h ++ b)) →
  ok (stageCleanup fuel stage mounted created directory) h Q.
Proof.
  intros Hm Hc Hs Hd HQn HQ. unfold stageCleanup. apply hwp_bind.
  assert (∀ Q', (∀ r b, other b → Q' r (h ++ b)) → ok (if mounted then unmount fuel (st_stagingTargetPath stage) else Ret (Some None)) h Q') as Hun.
  { intros Q' HQ'. destruct mounted; [apply unmount_hwp; [by apply Hm|done]|]. apply h_ret. rewrite <- (app_nil_r h). apply HQ'. constructor. }
  apply Hun. intros [r|] b1 H1; [|by apply h_ret].
  assert (∀ Q', (∀ r b, settled (h ++ b1 ++ b) → Q' r (h ++ b1 ++ b)) → ok (if created then DisconnectRDMA (st_nqn stage) else Ret None) (h ++ b1) Q') as Hdis.
  { intros Q' HQ'. destruct created.
    - apply hwp_vis; [intros x _; right; left; split; [done|]; apply connected_later, Hc; done|]. intros x. rewrite <- app_assoc.
      assert (settled (h ++ b1 ++ [ev disconnectOp x])) as Hset by (rewrite app_assoc; apply settled_disconnect).
      destruct x as [out [e|]]; [|by apply h_ret, HQ']. apply free_hwp; [by performs|]. intros c b2 H2%free_other. rewrite <- !app_assoc.
      assert (settled (h ++ b1 ++ [ev disconnectOp (out, Some e)] ++ b2)).
      { rewrite (app_assoc b1). by apply settled_grow. }
      destruct c; [by apply h_ret, HQ'|]. by destruct (Contains _ _); apply h_ret, HQ'.
    - apply h_ret. rewrite <- (app_nil_r b1). apply HQ'. rewrite app_nil_r. apply settled_app; auto. }
  apply hwp_bind, Hdis. intros r' b2 Hset. destruct directory; [|apply h_ret, HQ, Hset].
  apply hwp_bind, hwp_vis; [intros x _; do 3 right; split; [done|]; by apply made_later, Hd|]. intros x. rewrite <- !app_assoc. apply h_ret, h_ret, HQ.
  rewrite (app_assoc b1). apply settled_grow; [done|]. by repeat constructor.
Qed.

Lemma GetDevice_hwp {B} (k : result string → host B) h Q :
  (∀ d b, Forall (λ e, free (projT1 e)) b → (is_ok d = false → saw_no_device b) → ok (k d) (h ++ b) Q) →
  ok (bind (GetDeviceByNQN (st_nqn stage)) k) h Q.
Proof.
  intros Hk. unfold GetDeviceByNQN. apply hwp_bind, hwp_vis; [intros x; by apply free_good|]. intros [out [e|]].
  - assert (∀ b, saw_no_device ([ev (Rep := hostRep) listOp (out, Some e)] ++ b)) as Hs by (intros b; exists (out, Some e); split; [by left|done]).
    apply hwp_vis; [intros x; by apply free_good|]. intros c. rewrite <- app_assoc.
    destruct c; apply h_ret, Hk; try (by repeat constructor); intros _; apply Hs.
  - apply h_ret, Hk; [by repeat constructor|]. intros Hd. exists (out, None). split; [by left|done].
Qed.

Lemma Connect_hwp h Q : settled h →
  (∀ c e b, (c = true → may_have_connected (h ++ b)) → (c = false → settled (h ++ b)) → Q (c, e) (h ++ b)) →
  ok (ConnectRDMA (st_nqn stage) (st_portalIP stage) (st_portalPort stage) (st_hostNQN stage)) h Q.
Proof.
  intros Hs HQ. unfold ConnectRDMA. apply GetDevice_hwp. intros d b1 H1%free_other Hn.
  assert (settled (h ++ b1)) as Hs1 by (by apply settled_app). destruct d; [by apply h_ret, HQ|]. specialize (Hn eq_refl).
  apply free_hwp; [by performs|]. intros c b2 H2%free_other. rewrite <- app_assoc.
  assert (settled (h ++ b1 ++ b2)) as Hs2 by (by apply settled_grow). destruct c; [by apply h_ret, HQ|].
  apply hwp_vis; [intros x _; by left|]. intros x. rewrite <- !app_assoc.
  set (b3 := b1 ++ b2 ++ [ev connectOp x]).
  assert (∀ b, (x.2 = None ∨ (∃ e, ev (Rep := hostRep) CtxErrOp (Some e) ∈ b) ∨ Contains x.1 "already connected" = false ∧ saw_no_device b) →
    may_have_connected (h ++ b3 ++ b)) as Hd.
  { intros b Hb. exists (h ++ b1 ++ b2), b, x.1, x.2. unfold b3. rewrite <- !app_assoc, <- surjective_pairing. split; [done|].
    split; [|done]. destruct Hn as (y & Hy & ?). exists y. split; [|done]. rewrite !elem_of_app. auto. }
  destruct x as [out [er|]]; [|apply h_ret, HQ; [|done]; intros _; apply (connected_nil h b3), Hd; by left].
  assert (settled (h ++ b3)) as Hs3.
  { unfold b3. rewrite !app_assoc in *. intros pre o post E. destruct post as [|e' post _] using rev_ind.
    - apply app_inj_tail in E as [_ E]. by apply (f_equal command_failed) in E.
    - rewrite app_comm_cons, app_assoc in E. apply app_inj_tail in E as [E _]. apply done_later. by apply (Hs2 pre o post). }
  apply hwp_vis; [intros y; by apply free_good|]. intros c. rewrite <- app_assoc.
  set (b4 := [ev CtxErrOp c]). assert (other b4) as H4 by by repeat constructor.
  assert (settled (h ++ b3 ++ b4)) as Hs4 by (by apply settled_grow).
  destruct c as [e'|]; [apply h_ret, HQ; [|done]; intros _; apply Hd; right; left; exists e'; by left|].
  destruct (Contains out "already connected") eqn:Ec; [by apply h_ret, HQ|].
  apply GetDevice_hwp. intros d b5 H5%free_other Hn5. rewrite <- app_assoc.
  destruct d; apply h_ret, HQ; try done; intros _; [by apply settled_grow|]. rewrite <- app_assoc. apply Hd. right. right. split; [done|].
  destruct (Hn5 eq_refl) as (y & Hy & ?). exists y. split; [apply elem_of_app; by right|done].
Qed.

Lemma connectAndStage_hwp directory h : settled h →
  (directory = true → made_by h) →
  ok (connectAndStage fuel stage directory) h (λ r h', ∀ e, r = Some (inr e) → settled h').
Proof.
  intros Hs Hd. unfold connectAndStage. apply hwp_bind, Connect_hwp; [done|]. intros c [e|] b Hc Hset.
  - apply hwp_bind, stageCleanup_hwp; try done; [by intros; apply made_later, Hd|]. intros b2 Hs2.
    apply free_hwp; [apply nodeError_free|]. intros e' b3 H3%free_other. apply h_ret. intros _ _. by apply settled_app.
  - apply hwp_bind, stageDevice_hwp. intros r b2 H2 Hm. rewrite <- app_assoc in *. destruct r as [[m [e|]]|]; [| |by apply h_ret].
    2:{ by apply h_ret. }
    apply hwp_bind, stageCleanup_hwp.
    + intros ->. by apply (Hm (Some e)).
    + intros Ht. by apply connected_grow, Hc.
    + intros Hf. by apply settled_grow; [apply Hset|].
    + intros Ht. by apply made_later, Hd.
    + done.
    + intros b3 Hs3. by apply h_ret.
Qed.

Lemma NodeStage_hwp req : validateNodeStageRequest nodeID req = inl stage →
  ok (NodeStageVolume nodeID fuel req) [] (λ r h, ∀ e, r = Some (inr e) → settled h).
Proof.
  intros Hv. unfold NodeStageVolume. rewrite Hv.
  assert (∀ b, Forall (λ e, free (projT1 e)) b → settled ([] ++ b)) as Hs.
  { intros b Hb%free_other. apply settled_app; [|done]. intros pre out post E. by destruct pre. }
  apply hwp_vis; [intros x; by apply free_good|]. intros s. set (b := [ev _ s]). assert (Forall (λ e, free (projT1 e)) b) as H1 by by repeat constructor.
  destruct s as [i|se]; [apply connectAndStage_hwp; [by apply Hs|done]|].
  destruct (os_IsNotExist se) eqn:En; cbn [negb]; [|apply h_ret; intros _ _; by apply Hs].
  apply hwp_vis; [intros x; by apply free_good|]. intros x. rewrite <- app_assoc.
  assert (settled ([] ++ b ++ [ev (MkdirAll (st_stagingTargetPath stage)) x])) as Hs2.
  { apply Hs, Forall_app. split; [done|]. by repeat constructor. }
  destruct x as [e|]; [by apply h_ret; intros _ _|]. apply connectAndStage_hwp; [done|]. intros _.
  split; [rewrite !elem_of_app; do 2 right; by left|]. exists se. split; [done|]. rewrite !elem_of_app. right. left. by left.
Qed.

End Rollback.
