(* ===== verification/NodeCorrect.v ===== *)
(** * The node service: theorems

    What the node service promises, over whole runs against [node_step] of
    NodeProps, and runs of it on a small node that show what the theorems say. *)

From S2P Require Import Prelude GoStrings GoPath Encoding Capacity ApiTypes Identity Options RdmaHealth Prog Kube Host CsiRequest MountInfo MountProps NodeServer NodeProps.
Import MountInfo Nvme Node.

(** C3: in every state of every run of NodeStageVolume, through command failures
    of any kind, the mounts at other paths and the other NVMe connections are as
    they were, no device but those of the requested subsystem is formatted, and no
    device that holds a file system; when it succeeds the subsystem is connected
    and the staging path is a writable mount of one of its devices with the
    requested file system. *)
Theorem stage_safe `{Unmarshal NVMEHostList} devno served nodeID fuel req stage w0 q w :
  validateNodeStageRequest nodeID req = inl stage →
  reaches (node_step devno served) (NodeStageVolume nodeID fuel req) w0 q w →
  (∀ t, t ≠ Clean (st_stagingTargetPath stage) → stack w t = stack w0 t) ∧
  (∀ m, m ≠ st_nqn stage → m ∈ links w ↔ m ∈ links w0) ∧
  (∀ d, ¬ served (st_nqn stage) d → formatted w !! d = formatted w0 !! d) ∧
  (∀ d f, formatted w0 !! d = Some f → formatted w !! d = Some f) ∧
  (q = Ret (Some (inl tt)) → st_nqn stage ∈ links w ∧
     ∃ d, served (st_nqn stage) d ∧ staged devno d (st_stagingTargetPath stage) (st_filesystem stage) w).
Proof.
  intros Hv Hr. destruct (swp_sound _ _ _ _ _ _ _ (NodeStage_swp devno served (served (st_nqn stage)) nodeID fuel stage w0 (λ _ H, H) req Hv) Hr)
    as [(? & [? ?] & ?) HQ]. split_and!; [done..|]. intros Hq. by apply (HQ (Some (inl tt))).
Qed.


(** C22: in every state of every run of NodeUnstageVolume other mounts, other
    connections and all file systems are as they were, and the volume is
    disconnected only once nothing is mounted at the staging path; when it succeeds
    nothing is, and the volume is disconnected; and the loop that unmounts ends
    within one round more than there are mounts. *)
Theorem unstage_ordered `{Unmarshal NVMEHostList} devno served fuel volID path n w0 q w :
  Clean path = path → unstageNQN volID = inl n →
  reaches (node_step devno served) (NodeUnstageVolume fuel volID path) w0 q w →
  (∀ t, t ≠ path → stack w t = stack w0 t) ∧ (∀ m, m ≠ n → m ∈ links w ↔ m ∈ links w0) ∧
  (∀ d, formatted w !! d = formatted w0 !! d) ∧
  (n ∈ links w0 → n ∉ links w → stack w path = []) ∧
  (q = Ret (Some (inl tt)) → stack w path = [] ∧ n ∉ links w) ∧
  ((length (stack w0 path) < fuel)%nat → q ≠ Ret None).
Proof.
  intros Hp Hn Hr. destruct (swp_sound _ _ _ _ _ _ _ (NodeUnstage_swp devno served (λ _, False) fuel volID path w0 n Hp Hn) Hr)
    as [[(? & [Hd _] & ?) ?] HQ]. split_and!; [done|done|by intros d; apply Hd; intros []|done|..].
  - intros Hq. by apply (HQ _ Hq).
  - intros Hl Hq. by apply (HQ _ Hq).
Qed.

(** C23: in every state of every run of NodePublishVolume the mounts at other paths,
    the connections and all file systems are as they were; when it succeeds the
    target path shows the file of the staging path, through a mount that is
    read-only exactly when that was requested; two rounds of unmounting are enough. *)
Theorem publish_exact `{Unmarshal NVMEHostList} devno served fuel req w0 q w :
  reaches (node_step devno served) (NodePublishVolume fuel req) w0 q w →
  (∀ t, t ≠ pr_TargetPath req → stack w t = stack w0 t) ∧ links w = links w0 ∧
  (∀ d, formatted w !! d = formatted w0 !! d) ∧
  (q = Ret (Some (inl tt)) → ident w (pr_StagingTargetPath req) = ident w (pr_TargetPath req) ∧
     ∃ r, last (stack w (Clean (pr_TargetPath req))) = Some r ∧ ("ro" ∈ options r ↔ pr_Readonly req = true)) ∧
  ((2 ≤ fuel)%nat → q ≠ Ret None).
Proof.
  intros Hr. destruct (swp_sound _ _ _ _ _ _ _ (NodePublish_swp devno served (λ _, False) fuel req w0) Hr)
    as [(? & [Hd _] & ?) HQ]. split_and!; [done|done|by intros d; apply Hd; intros []|..].
  - intros Hq. by apply (HQ _ Hq).
  - intros Hl Hq. by apply (HQ _ Hq).
Qed.

(** C20: after a volume was staged, published, unpublished and unstaged, nothing is
    mounted at its paths and it is disconnected; every other mount and connection
    is as before and its file system is the one staging left; while it was
    published, its target path showed the staging path, which was a mount of a
    device of the volume. *)
Theorem volume_lifecycle `{Unmarshal NVMEHostList} devno served nodeID fuel sreq preq stage w0 w1 w2 w3 w4 :
  validateNodeStageRequest nodeID sreq = inl stage → unstageNQN (sr_VolumeId sreq) = inl (st_nqn stage) →
  Clean (st_stagingTargetPath stage) = st_stagingTargetPath stage → Clean (pr_TargetPath preq) = pr_TargetPath preq →
  pr_StagingTargetPath preq = st_stagingTargetPath stage → pr_TargetPath preq ≠ st_stagingTargetPath stage →
  reaches (node_step devno served) (NodeStageVolume nodeID fuel sreq) w0 (Ret (Some (inl tt))) w1 →
  reaches (node_step devno served) (NodePublishVolume fuel preq) w1 (Ret (Some (inl tt))) w2 →
  reaches (node_step devno served) (NodeUnpublishVolume fuel (pr_VolumeId preq) (pr_TargetPath preq)) w2 (Ret (Some (inl tt))) w3 →
  reaches (node_step devno served) (NodeUnstageVolume fuel (sr_VolumeId sreq) (st_stagingTargetPath stage)) w3 (Ret (Some (inl tt))) w4 →
  (∃ d, served (st_nqn stage) d ∧ staged devno d (st_stagingTargetPath stage) (st_filesystem stage) w2 ∧
     ident w2 (st_stagingTargetPath stage) = ident w2 (pr_TargetPath preq)) ∧
  stack w4 (st_stagingTargetPath stage) = [] ∧ stack w4 (pr_TargetPath preq) = [] ∧ st_nqn stage ∉ links w4 ∧
  (∀ t, t ≠ st_stagingTargetPath stage → t ≠ pr_TargetPath preq → stack w4 t = stack w0 t) ∧
  (∀ m, m ≠ st_nqn stage → m ∈ links w4 ↔ m ∈ links w0) ∧ (∀ d, formatted w4 !! d = formatted w1 !! d).
Proof.
  intros Hv Hn Hcs Hct Hs Hne R1 R2 R3 R4.
  destruct (swp_sound _ _ _ _ _ _ _ (NodeStage_swp devno served (served (st_nqn stage)) nodeID fuel stage w0 (λ _ H, H) sreq Hv) R1)
    as [(S1 & _ & L1) Q1]. destruct (Q1 _ eq_refl eq_refl) as [_ (d & Hd & Hst)].
  destruct (swp_sound _ _ _ _ _ _ _ (NodePublish_swp devno served (λ _, False) fuel preq w1) R2) as [(S2 & [D2 _] & L2) Q2].
  destruct (proj1 (Q2 _ eq_refl) eq_refl) as [Hid _]. rewrite Hs in Hid.
  destruct (swp_sound _ _ _ _ _ _ _ (NodeUnpublish_swp devno served fuel (pr_VolumeId preq) (pr_TargetPath preq) w2 Hct) R3)
    as [[(S3 & D3 & L3) _] Q3]. pose proof (proj1 (Q3 _ eq_refl) eq_refl) as E3. rewrite Hct in S3.
  destruct (swp_sound _ _ _ _ _ _ _ (NodeUnstage_swp devno served (λ _, False) fuel (sr_VolumeId sreq) _ w3 _ Hcs Hn) R4)
    as [[(S4 & [D4 _] & L4) _] Q4]. destruct (proj1 (Q4 _ eq_refl) eq_refl) as [E4 N4]. rewrite Hcs in S1.
  split; [|split_and!; [done|by rewrite S4|done|..]].
  - exists d. split_and!; [done| |done]. unfold staged in *. rewrite Hcs in *. by rewrite (S2 _ (not_eq_sym Hne)).
  - intros t H1 H2. by rewrite S4, S3, S2, S1.
  - intros m Hm. by rewrite L4, L3, L2, L1.
  - intros d'. rewrite D4 by (intros []). rewrite D3. apply D2. intros [].
Qed.

(** Unstaging a volume by the handle that was issued for it disconnects the
    subsystem that the volume is exported as, and unstaging it by its external
    identifier, as older releases did, the same one. *)
Theorem unstage_finds_target ns name uid id : VolumeIdentity.New ns name uid = inl id →
  unstageNQN (VolumeIdentity.VolumeHandle id) = inl (VolumeIdentity.NQN (VolumeIdentity.ExternalID id)) ∧
  unstageNQN (VolumeIdentity.ExternalID id) = inl (VolumeIdentity.NQN (VolumeIdentity.ExternalID id)).
Proof.
  intros Hn. unfold unstageNQN. rewrite (VolumeIdentity.Parse_New _ _ _ _ Hn). simpl. rewrite Hn. split; [done|].
  pose proof (VolumeIdentity.Parse_ExternalID _ _ _ _ Hn). by destruct (VolumeIdentity.ParseVolumeHandle _).
Qed.

Lemma unstage_finds_target_witness :
  match VolumeIdentity.New "default" "v1" "u1" with
  | inl id => unstageNQN (VolumeIdentity.VolumeHandle id) = inl (VolumeIdentity.NQN (VolumeIdentity.ExternalID id))
  | inr _ => False
  end.
Proof.
  destruct (VolumeIdentity.New "default" "v1" "u1") as [id|] eqn:E; [|by vm_compute in E].
  apply (unstage_finds_target "default" "v1" "u1" id E).
Defined.

(** ** Runs *)

Module NodeExample.

Definition volume : string := "v1".
Definition nqn : string := Eval vm_compute in VolumeIdentity.NQN volume.
Definition dev : string := "/dev/nvme1n1".
Definition stagingPath : string := "/stage".
Definition targetPath : string := "/pod".

(** The output of list-subsys, reduced to the state of the one path. *)
#[local] Instance hosts_unmarshal : Unmarshal NVMEHostList := λ state,
  Ok [[{| sys_NQN := nqn; sys_Paths := [{| path_Name := "nvme1"; path_Transport := "rdma"; path_Address := ""; path_State := state |}] |}]].

Definition devno (path : string) : string := "259:1".
Definition served (n d : string) : Prop := n = nqn ∧ d = dev.

Definition capability : VolumeCapability :=
  {| cap_AccessType := Mount {| FsType := "ext4"; MountFlags := [] |}; cap_AccessMode := Some SINGLE_NODE_WRITER |}.

Definition stageRequest : NodeStageVolumeRequest := {|
  sr_VolumeId := volume; sr_StagingTargetPath := stagingPath; sr_VolumeCapability := Some capability;
  sr_VolumeContext := {[ "nqn" := nqn; "portalIP" := "10.0.0.1"; "portalPort" := "4420" ]};
  sr_PublishContext := {[ publishContextNodeID := "n1"; publishContextHostNQN := hostNQNForNode "n1"; publishContextAttachmentID := "a" ]}
|}.

Definition publishRequest : NodePublishVolumeRequest := {|
  pr_VolumeId := volume; pr_StagingTargetPath := stagingPath; pr_TargetPath := targetPath;
  pr_VolumeCapability := Some capability; pr_VolumeContext := ∅; pr_Readonly := false
|}.

Definition stage : validatedNodeStageRequest := Eval vm_compute in
  match validateNodeStageRequest "n1" stageRequest with
  | inl s => s
  | inr _ => {| st_volumeID := ""; st_stagingTargetPath := ""; st_nqn := ""; st_portalIP := ""; st_portalPort := ""; st_hostNQN := ""; st_filesystem := "" |}
  end.

Lemma stage_valid : validateNodeStageRequest "n1" stageRequest = inl stage.
Proof. vm_compute. reflexivity. Qed.

Definition line (path : string) : mount_line := {|
  l_id := "36"; l_parent := "35"; l_device := "259:1"; l_root := "/"; l_target := path; l_options := "rw"; l_optional := [];
  l_filesystem := "ext4"; l_source := dev; l_super := "rw"
|}.

Definition at_node (paths : list string) (formatted : gmap string string) (links : gset string) : node :=
  {| mounts := (λ t, line_record (line t)) <$> paths; formatted := formatted; links := links; ident := λ _, 1%Z |}.

Definition w0 : node := at_node [] ∅ {[nqn]}.
Definition w1 : node := at_node [] {[dev := "ext4"]} {[nqn]}.
Definition w2 : node := at_node [stagingPath] {[dev := "ext4"]} {[nqn]}.
Definition w3 : node := at_node [stagingPath; targetPath] {[dev := "ext4"]} {[nqn]}.
Definition w4 : node := at_node [] {[dev := "ext4"]} ∅.

Local Abbreviation step := (node_step devno served).

(** A command that succeeds, or fails without effect. *)
Ltac replies := split_and!; try (intros; unfold connectArgs in *; simplify_eq; done).
Ltac effect := left; replies.

Ltac runs o x w w' := eapply (reaches_bind step _ _ _ _ w w'); [apply (reaches_hcall step o x w w')|cbn beta iota].
Ltac exec cmd args x w w' := eapply (reaches_bind step _ _ _ _ w w'); [apply (reaches_command step cmd args x w w'); split|cbn beta iota].
Ltac calls p x w w' := apply (reaches_bind step p _ x _ w w'); [|cbn beta iota].

Lemma line_fine t : t ∈ [stagingPath; targetPath] → line_ok (line t).
Proof.
  intros H. assert (forallb (λ w, (w !=? "") && str_all (λ c, negb (Ascii.is_space c)) w) (line_words (line t)) = true ∧
    bool_decide ("-" ∈ head_fields (line t)) = false) as [Hw Hs].
  { rewrite !elem_of_cons, elem_of_nil in H. destruct H as [->|[->|[]]]; split; vm_compute; reflexivity. }
  split; [|by apply bool_decide_eq_false in Hs].
  apply Forall_forall. intros w Hin. rewrite forallb_forall in Hw. apply list_elem_of_In, Hw, andb_prop in Hin as [Hn Hsp].
  split; [|done]. intros ->. by vm_compute in Hn.
Qed.

Lemma mountAt_run paths f l t : Forall (λ p, p ∈ [stagingPath; targetPath]) paths →
  reaches step (mountAt t) (at_node paths f l) (Ret (inl (last (stack (at_node paths f l) (Clean t))))) (at_node paths f l).
Proof.
  intros Hp. unfold mountAt. assert (Forall line_ok (line <$> paths)) as Hok.
  { apply Forall_fmap. eapply Forall_impl; [exact Hp|]. intros p Hin. by apply line_fine. }
  runs (ReadFile mountInfoPath) (inl (render (line <$> paths)) : result string) (at_node paths f l) (at_node paths f l).
  - split; [done|]. intros _ out [= <-]. exists (line <$> paths). split_and!; [done..|]. by rewrite <- list_fmap_compose.
  - rewrite parse_render by done. rewrite <- list_fmap_compose. unfold compose. rewrite <- lastAt_stack. apply reaches_refl.
Qed.

Lemma subsystems_run state w : (state = "live" → nqn ∈ links w) →
  reaches step (GetDeviceByNQN nqn) w (Ret (deviceByNQN state nqn)) w.
Proof.
  intros Hl. unfold GetDeviceByNQN. exec "nvme" ["list-subsys"; "-o"; "json"] (state, None : option error) w w.
  - replies. intros out hosts n d _ _ [= <-] [= <-] Hd. simpl in Hd. unfold served.
    destruct (decide (nqn = n)) as [<-|Hne]; [|by rewrite bool_decide_false in Hd].
    rewrite bool_decide_true in Hd by done. destruct (decide (state = "live")) as [->|Hs]; [|by rewrite bool_decide_false in Hd].
    simpl in Hd. simplify_eq. auto.
  - effect.
  - apply reaches_refl.
Qed.

Lemma live_device : deviceByNQN "live" nqn = inl dev.
Proof. reflexivity. Qed.

Lemma paths_ok (paths : list string) : bool_decide (Forall (λ p, p ∈ [stagingPath; targetPath]) paths) = true →
  Forall (λ p, p ∈ [stagingPath; targetPath]) paths.
Proof. apply bool_decide_eq_true. Qed.

Ltac mounted w r := eapply (reaches_bind step (mountAt _) _ (inl r) _ w w); [apply mountAt_run, paths_ok; reflexivity|cbn beta iota].

Lemma push_same paths f l t : same_but_mounts (Clean t) (at_node paths f l) (at_node (paths ++ [t]) f l).
Proof.
  split; [|done]. intros t' Ht. unfold stack. simpl. rewrite fmap_app, List.filter_app. simpl.
  by rewrite bool_decide_false, app_nil_r by (intros E; apply Ht; by rewrite <- E).
Qed.

Lemma pop_same paths f l t : same_but_mounts (Clean t) (at_node (paths ++ [t]) f l) (at_node paths f l).
Proof. destruct (push_same paths f l t) as (H & ? & ?). split; [|done]. intros t' Ht. by rewrite H. Qed.

Lemma format_run : reaches step (ensureFilesystem dev "ext4") w0 (Ret None) w1.
Proof.
  unfold ensureFilesystem. calls (probeFilesystem dev) (inl "" : result string) w0 w0.
  { unfold probeFilesystem. exec "blkid" ["-p"; "-s"; "TYPE"; "-o"; "value"; dev] ("", Some (ExitErr 2)) w0 w0; [replies|effect|].
    runs CtxErrOp (None : option CtxErr) w0 w0; [done|]. apply reaches_refl. }
  unfold formatFilesystem. exec "mkfs.ext4" ["-F"; dev] ("", None : option error) w0 w1; [replies|effect|apply reaches_refl].
  intros flag src _ [= <- <-]. split_and!; [done..|]. intros d Hd. by apply lookup_singleton_ne.
Qed.

Lemma mount_run : reaches step (formatAndMount 3 dev stagingPath "ext4") w0 (Ret (Some (true, None))) w2.
Proof.
  unfold formatAndMount. runs (MkdirAll stagingPath) (None : option error) w0 w0; [done|].
  calls (verifyStagingMount dev stagingPath "ext4") (false, None : option error) w0 w0.
  { unfold verifyStagingMount. mounted w0 (None : option mountRecord). apply reaches_refl. }
  calls (ensureFilesystem dev "ext4") (None : option error) w0 w1; [apply format_run|].
  exec "mount" ["-t"; "ext4"; dev; stagingPath] ("", None : option error) w1 w2; [replies|effect|].
  { intros fs src t _ [= <- <- <-]. split; [apply (push_same [])|by exists (line_record (line stagingPath))]. }
  calls (verifyMounted 3 (verifyStagingMount dev stagingPath "ext4") stagingPath) (Some None : option (option error)) w2 w2; [|apply reaches_refl].
  unfold verifyMounted. calls (verifyStagingMount dev stagingPath "ext4") (true, None : option error) w2 w2; [|apply reaches_refl].
  unfold verifyStagingMount. mounted w2 (Some (line_record (line stagingPath))).
  runs (DeviceNumber dev) (inl "259:1" : result string) w2 w2; [split; [done|]; by intros n [= <-]|]. apply reaches_refl.
Qed.

Lemma stage_run : reaches step (NodeStageVolume "n1" 3 stageRequest) w0 (Ret (Some (inl tt))) w2.
Proof.
  unfold NodeStageVolume. rewrite stage_valid. 
  runs (Stat stagingPath) (inl {| fi_Symlink := false; fi_File := 1%Z |} : result FileInfo) w0 w0; [split; [done|]; by intros i [= <-]|].
  unfold connectAndStage. calls (ConnectRDMA nqn "10.0.0.1" "4420" (st_hostNQN stage)) (false, None : option error) w0 w0.
  { unfold ConnectRDMA. calls (GetDeviceByNQN nqn) (inl dev : result string) w0 w0; [|apply reaches_refl].
    rewrite <- live_device. apply subsystems_run. intros _. reflexivity. }
  calls (stageDevice 3 stage) (Some (true, None : option error)) w0 w2; [|apply reaches_refl].
  unfold stageDevice. cbv zeta. calls (GetDeviceByNQN nqn) (inl dev : result string) w0 w0.
  { rewrite <- live_device. apply subsystems_run. intros _. reflexivity. }
  calls (waitForDevice 3 dev) (Some None : option (option error)) w0 w0.
  { unfold waitForDevice. cbn [iterate]. eapply (reaches_bind step _ _ (inr None) _ w0 w0); [|apply reaches_refl].
    runs (Stat dev) (inl {| fi_Symlink := false; fi_File := 1%Z |} : result FileInfo) w0 w0; [split; [done|]; by intros i [= <-]|apply reaches_refl]. }
  calls (formatAndMount 3 dev stagingPath "ext4") (Some (true, None : option error)) w0 w2; [apply mount_run|apply reaches_refl].
Qed.

Ltac stats path w := runs (Stat path) (inl {| fi_Symlink := false; fi_File := 1%Z |} : result FileInfo) w w; [split; [done|]; by intros i [= <-]|].

Lemma publish_run : reaches step (NodePublishVolume 3 publishRequest) w2 (Ret (Some (inl tt))) w3.
Proof.
  unfold NodePublishVolume. cbn -[bind publishBindMount]. 
  calls (publishBindMount 3 stagingPath targetPath false) (Some None : option (option error)) w2 w3; [|apply reaches_refl].
  unfold publishBindMount. runs (MkdirAll targetPath) (None : option error) w2 w2; [done|].
  calls (verifyPublishedMount stagingPath targetPath false) (false, None : option error) w2 w2.
  { unfold verifyPublishedMount. mounted w2 (None : option mountRecord). apply reaches_refl. }
  exec "mount" ["--bind"; stagingPath; targetPath] ("", None : option error) w2 w3; [replies|effect|].
  { intros src t _ [= <- <-]. split; [apply (push_same [stagingPath])|by exists (line_record (line targetPath))]. }
  calls (remountReadOnly 3 targetPath false) (Some None : option (option error)) w3 w3; [apply reaches_refl|].
  unfold verifyMounted. calls (verifyPublishedMount stagingPath targetPath false) (true, None : option error) w3 w3; [|apply reaches_refl].
  unfold verifyPublishedMount. mounted w3 (Some (line_record (line targetPath))). stats stagingPath w3. stats targetPath w3. apply reaches_refl.
Qed.

(** Unmounting the path mounted last. *)
Lemma unmount_run paths t f l : Forall (λ p, p ∈ [stagingPath; targetPath]) (paths ++ [t]) →
  stack (at_node paths f l) (Clean t) = [] →
  reaches step (unmount 3 t) (at_node (paths ++ [t]) f l) (Ret (Some None)) (at_node paths f l).
Proof.
  intros Hp Ht. set (w := at_node (paths ++ [t]) f l). set (w' := at_node paths f l).
  assert (stack w (Clean t) = [line_record (line t)]) as Hst.
  { unfold w, stack. simpl. rewrite fmap_app, List.filter_app. unfold stack in Ht. simpl in Ht. rewrite Ht. simpl. by rewrite bool_decide_true. }
  unfold unmount. cbn [iterate]. calls (unmount_round t) (inl tt : unit + option error) w w'.
  { unfold unmount_round. runs CtxErrOp (None : option CtxErr) w w; [done|].
    calls (isMountPoint t) (inl true : result bool) w w.
    { unfold isMountPoint. eapply (reaches_bind step (mountAt t) _ _ _ w w); [by apply mountAt_run|]. fold w. rewrite Hst. apply reaches_refl. }
    exec "umount" [t] ("", None : option error) w w'; [replies|effect|apply reaches_refl].
    intros t' _ [= <-]. fold w'. change (stack w' (Clean t) = []) in Ht. rewrite Hst, Ht. split_and!; [apply pop_same|done|done]. }
  calls (unmount_round t) (inr None : unit + option error) w' w'; [|apply reaches_refl].
  unfold unmount_round. runs CtxErrOp (None : option CtxErr) w' w'; [done|].
  calls (isMountPoint t) (inl false : result bool) w' w'; [|apply reaches_refl].
  unfold isMountPoint. eapply (reaches_bind step (mountAt t) _ _ _ w' w'); [by apply mountAt_run; apply Forall_app in Hp as [? _]|].
  fold w'. change (stack w' (Clean t) = []) in Ht. rewrite Ht. apply reaches_refl.
Qed.

Lemma unpublish_run : reaches step (NodeUnpublishVolume 3 volume targetPath) w3 (Ret (Some (inl tt))) w2.
Proof.
  unfold NodeUnpublishVolume. cbn -[bind unmount]. calls (unmount 3 targetPath) (Some None : option (option error)) w3 w2; [|apply reaches_refl].
  apply (unmount_run [stagingPath] targetPath); [by apply paths_ok|done].
Qed.

Lemma volume_nqn : unstageNQN volume = inl nqn.
Proof. vm_compute. reflexivity. Qed.

Lemma unstage_run : reaches step (NodeUnstageVolume 3 volume stagingPath) w2 (Ret (Some (inl tt))) w4.
Proof.
  unfold NodeUnstageVolume. cbn -[bind unmount unstageNQN]. calls (unmount 3 stagingPath) (Some None : option (option error)) w2 w1.
  { apply (unmount_run [] stagingPath); [by apply paths_ok|done]. }
  rewrite volume_nqn. cbn beta iota.
  calls (DisconnectRDMA nqn) (None : option error) w1 w4; [|apply reaches_refl].
  unfold DisconnectRDMA. exec "nvme" ["disconnect"; "-n"; nqn] ("", None : option error) w1 w4; [replies|effect|apply reaches_refl].
Qed.

(** The volume is staged and published; its path is reconnecting, and a connect
    reports an error. *)
Definition w3' : node := at_node [stagingPath; targetPath] {[dev := "ext4"]} ∅.

Lemma restage_run : reaches step (NodeStageVolume "n1" 3 stageRequest) w3
  (Ret (Some (inr (StatusErr Internal "Failed to connect to NVMe-oF target")))) w3'.
Proof.
  unfold NodeStageVolume. rewrite stage_valid. stats stagingPath w3.
  assert (reaches step (GetDeviceByNQN nqn) w3 (Ret (inr (Errorf "device for NQN not found"))) w3) as Hd.
  { apply (subsystems_run "connecting"). by intros. }
  unfold connectAndStage. calls (ConnectRDMA nqn "10.0.0.1" "4420" (st_hostNQN stage)) (true, Some (Errorf "nvme connect failed")) w3 w3.
  { unfold ConnectRDMA. eapply (reaches_bind step _ _ _ _ w3 w3); [exact Hd|cbn beta iota].
    runs CtxErrOp (None : option CtxErr) w3 w3; [done|].
    exec "nvme" (connectArgs nqn "10.0.0.1" "4420" (st_hostNQN stage)) ("Invalid argument", Some (ExitErr 1)) w3 w3; [replies|right; done|].
    runs CtxErrOp (None : option CtxErr) w3 w3; [done|]. 
    eapply (reaches_bind step _ _ _ _ w3 w3); [exact Hd|apply reaches_refl]. }
  calls (stageCleanup 3 stage false true false) (Some tt) w3 w3'.
  { unfold stageCleanup. 
    eapply (reaches_bind step _ _ (Some None) _ w3 w3); [apply reaches_refl|cbn beta iota].
    calls (DisconnectRDMA nqn) (None : option error) w3 w3'; [|apply reaches_refl].
    unfold DisconnectRDMA. exec "nvme" ["disconnect"; "-n"; nqn] ("", None : option error) w3 w3'; [replies|effect|apply reaches_refl]. }
  calls (nodeOperationError "Failed to connect to NVMe-oF target") (StatusErr Internal "Failed to connect to NVMe-oF target") w3' w3'; [|apply reaches_refl].
  unfold nodeOperationError. runs CtxErrOp (None : option CtxErr) w3' w3'; [done|apply reaches_refl].
Qed.

(** A target that connects and never comes up. *)
Definition handle (w : unit) (o : hostOp) : hostRep o * unit :=
  (match o return hostRep o with
   | Exec _ _ args => (if bool_decide (head args = Some "list-subsys") then "connecting" else "", None)
   | Stat _ | Lstat _ => inl {| fi_Symlink := false; fi_File := 1%Z |}
   | CtxErrOp => None
   | SelectOp => TimedOut
   | Getenv _ => ""
   | ReadFile _ | Readlink _ | EvalSymlinks _ | DeviceNumber _ => inl ""
   | WriteFile _ _ | Mkdir _ | MkdirAll _ | Remove _ | Symlink _ _ | StartTarget _ | KillTarget | SetRlimit _ => None
   | ReadDir _ | InterfaceAddrs _ => inl []
   | Rlimit => inl (0%Z, 0%Z)
   | ManagedTarget | TargetExited | ReapTarget => false
   | InterfaceUp _ => inl false
   | SetManagedTarget _ => tt
   end, w).

Definition failed_history : list hevent := (trace handle (NodeStageVolume "n1" 3 stageRequest) tt).1.

Lemma failed_returns : returns (NodeStageVolume "n1" 3 stageRequest) failed_history
  (Some (inr (StatusErr Internal "Failed to locate block device for NQN"))).
Proof.
  pose proof (trace_returns handle (NodeStageVolume "n1" 3 stageRequest) tt) as H.
  assert ((trace handle (NodeStageVolume "n1" 3 stageRequest) tt).2 = Some (inr (StatusErr Internal "Failed to locate block device for NQN")))
    as E by (vm_compute; reflexivity). by rewrite E in H.
Qed.

End NodeExample.

#[local] Existing Instance NodeExample.hosts_unmarshal.

Lemma stage_safe_witness : formatted NodeExample.w2 !! "/dev/sda" = formatted NodeExample.w0 !! "/dev/sda".
Proof.
  apply (stage_safe _ _ _ _ _ NodeExample.stage NodeExample.w0 _ _ NodeExample.stage_valid NodeExample.stage_run).
  by intros [_ ?].
Defined.


Lemma unstage_ordered_witness : stack NodeExample.w4 NodeExample.stagingPath = [] ∧ NodeExample.nqn ∉ links NodeExample.w4.
Proof.
  destruct (unstage_ordered _ _ 3 NodeExample.volume NodeExample.stagingPath NodeExample.nqn _ _ _ eq_refl NodeExample.volume_nqn
    NodeExample.unstage_run) as (_ & _ & _ & _ & H & _). exact (H eq_refl).
Defined.

Lemma publish_exact_witness : stack NodeExample.w3 "/other" = stack NodeExample.w2 "/other" ∧ links NodeExample.w3 = links NodeExample.w2.
Proof.
  destruct (publish_exact _ _ _ _ _ _ _ NodeExample.publish_run) as (H1 & H2 & _). split; [by apply H1|done].
Defined.

Lemma volume_lifecycle_witness : stack NodeExample.w4 NodeExample.targetPath = [] ∧ NodeExample.nqn ∉ links NodeExample.w4.
Proof.
  destruct (volume_lifecycle _ _ "n1" 3 NodeExample.stageRequest NodeExample.publishRequest NodeExample.stage _ _ _ _ _
    NodeExample.stage_valid NodeExample.volume_nqn eq_refl eq_refl eq_refl ltac:(intros [=])
    NodeExample.stage_run NodeExample.publish_run NodeExample.unpublish_run NodeExample.unstage_run) as (_ & _ & H1 & H2 & _). exact (conj H1 H2).
Defined.

(** A volume that is staged and published loses its connection when it is staged
    again while its path reconnects and the connect command reports an error: the
    rollback ends the connection though the call did not make it. *)
Theorem reconnecting_target_disconnected :
  reaches (node_step NodeExample.devno NodeExample.served) (NodeStageVolume "n1" 3 NodeExample.stageRequest) NodeExample.w3
    (Ret (Some (inr (StatusErr Internal "Failed to connect to NVMe-oF target")))) NodeExample.w3' ∧
  st_nqn NodeExample.stage ∈ links NodeExample.w3 ∧ st_nqn NodeExample.stage ∉ links NodeExample.w3' ∧
  stack NodeExample.w3' (st_stagingTargetPath NodeExample.stage) ≠ [].
Proof. split; [apply NodeExample.restage_run|]. by split_and!. Qed.
