(* ===== verification/CsiController.v ===== *)
(** * The CSI controller service

    Models the RPCs of src/internal/csi/controller_server.go and
    controller_attachment.go.  The service reads the API server without a cache.

    The polling loops have no bound of their own: they end with a reply, a
    timeout or the end of the request.  They are run with fuel, one unit per
    round; a run that uses up its fuel returns [None].  Every statement holds for
    every fuel, and [poll_returns] shows that fuel suffices as soon as one
    [select] is not woken by the ticker. *)

From S2P Require Import Prelude GoStrings Encoding Capacity ApiTypes Identity Options RdmaHealth Prog Kube CsiRequest NodeServer.

Inductive csiOp :=
  | CKube (o : kubeOp)
  | CSelect
  | CNewUUID.

Definition csiRep (o : csiOp) : Type :=
  match o with
  | CKube o => kubeRep o
  | CSelect => wakeup
  | CNewUUID => string
  end.

Abbreviation csi A := (prog csiOp csiRep A).

Definition ckube (o : kubeOp) : csi (kubeRep o) := call (Rep := csiRep) (CKube o).
Definition cselect : csi wakeup := call (Rep := csiRep) CSelect.
Definition newUUID : csi string := call (Rep := csiRep) CNewUUID.

(** errors.Is *)
Fixpoint errors_Is (err target : error) : bool :=
  (err ==? target) ||
  match err with
  | Wrap _ e | ObservationErr e | PartedErr _ e | KernelErr e | SPDKErr e => errors_Is e target
  | Join e1 e2 | DiscoveryErr e1 e2 => errors_Is e1 target || errors_Is e2 target
  | _ => false
  end.

Section Controller.
Context `{AM : ApiMachinery}.
Variable fuel : nat.

(** ** Volumes *)

Record CreateVolumeRequest := {
  cv_Name : string;
  cv_CapacityRange : option CapacityRange;
  cv_VolumeCapabilities : list (option VolumeCapability);
  cv_Parameters : gmap string string
}.

Record Volume := { VolumeId : string; CapacityBytes : Z; VolumeContext : gmap string string }.

Definition new_meta (name namespace : string) : ObjectMeta :=
  {| Name := name; Namespace := namespace; UID := ""; Generation := 0; ResourceVersion := "";
     Finalizers := []; Annotations := ∅; OwnerReferences := []; DeletionTimestamp := None |}.

Definition waitForPartitionReady (key : ObjectKey) : csi (option (option error)) :=
  iterate fuel (λ _ : unit,
    let! w := cselect in
    match w with
    | TimedOut => Ret (inr (Some (Errorf "timeout waiting for NVMePartition")))
    | CtxDone e => Ret (inr (Some (CtxError e)))
    | Tick =>
      let! r := ckube (Get Live KPartition key) in
      match r with
      | inr _ => Ret (inl tt)
      | inl p =>
        if pt_State (Status p) ==? NVMePartitionStateExported then Ret (inr None)
        else if pt_State (Status p) ==? NVMePartitionStateFailed
        then Ret (inr (Some (Errorf "partition creation failed")))
        else Ret (inl tt)
      end
    end) tt.

(** The partition that CreateVolume submits. *)
Definition desiredPartition (name ns : string) (request : canonicalCreateVolumeRequest) : NVMePartition :=
  mkObject (new_meta name ns)
    {| ps_Size := NewQuantity (ccr_RequiredBytes request);
       ps_NodeName := ""; ps_ParentDeviceSerialNumber := ""; ps_ClaimRef := None;
       ps_AccessMode := cvc_AccessMode (ccr_Capability request);
       ps_Filesystem := cvc_Filesystem (ccr_Capability request);
       ps_RequestFingerprint := fingerprintCreateVolumeRequest request;
       ps_TargetBackend := ccr_TargetBackend request;
       ps_VolumeManager := ccr_VolumeManager request;
       ps_TargetOptions := ccr_TargetOptions request |}
    (zero_status KPartition).

(** The reply of CreateVolume from the exported partition. *)
Definition volumeForPartition (partition : NVMePartition) (requiredBytes expectedAllocation limitBytes : Z)
    : result Volume :=
  let? volumeID :=
    if pt_VolumeID (Status partition) ==? "" then
      match VolumeIdentity.New (Namespace (Meta partition)) (Name (Meta partition)) (UID (Meta partition)) with
      | inr _ => Err (StatusErr Internal "failed to derive partition identity")
      | inl identity => Ok (VolumeIdentity.VolumeHandle identity)
      end
    else Ok (pt_VolumeID (Status partition)) in
  let allocatedBytes := Value (pt_AllocatedCapacity (Status partition)) in
  let allocatedBytes := if allocatedBytes =? 0 then expectedAllocation else allocatedBytes in
  if allocatedBytes <? requiredBytes then Err (StatusErr Internal "backend allocated fewer bytes than required_bytes")
  else if (0 <? limitBytes) && (limitBytes <? allocatedBytes)
  then Err (StatusErr Internal "backend allocated more bytes than limit_bytes")
  else Ok {| VolumeId := volumeID; CapacityBytes := allocatedBytes;
             VolumeContext := volumeContextForPartition partition |}.

Definition CreateVolume (req : CreateVolumeRequest) : csi (option (result Volume)) :=
  let name := cv_Name req in
  if name ==? "" then Ret (Some (Err (StatusErr InvalidArgument "Name cannot be empty")))
  else
    match canonicalRequest (cv_Parameters req) (cv_VolumeCapabilities req) (cv_CapacityRange req) with
    | inr err => Ret (Some (Err err))
    | inl (request, expectedAllocation) =>
      let ns := param (cv_Parameters req) "csi.storage.k8s.io/pvc/namespace" in
      let ns := if ns ==? "" then "default" else ns in
      let key := {| key_Namespace := ns; key_Name := name |} in
      let! r := ckube (Create KPartition (desiredPartition name ns request)) in
      let! reused :=
        match r with
        | inl _ => Ret (Ok tt)
        | inr err =>
          if negb (IsAlreadyExists err) then Ret (Err (StatusErr Internal "failed to create partition"))
          else
            let! r := ckube (Get Live KPartition key) in
            Ret (match r with
                 | inr _ => Err (StatusErr Internal "failed to get existing partition")
                 | inl existing =>
                   if ps_RequestFingerprint (Spec existing) !=? fingerprintCreateVolumeRequest request
                   then Err (StatusErr AlreadyExistsCode "partition already exists with different properties")
                   else Ok tt
                 end)
        end in
      match reused with
      | inr err => Ret (Some (Err err))
      | inl _ =>
        let~ ready := waitForPartitionReady key in
        match ready with
        | Some err => Ret (Some (Err (StatusErr DeadlineExceededCode "partition failed to become ready")))
        | None =>
          let! r := ckube (Get Live KPartition key) in
          match r with
          | inr _ => Ret (Some (Err (StatusErr Internal "failed to get final partition status")))
          | inl partition =>
            let limitBytes := match cv_CapacityRange req with Some cr => LimitBytes cr | None => 0 end in
            Ret (Some (volumeForPartition partition (ccr_RequiredBytes request) expectedAllocation limitBytes))
          end
        end
      end
    end.

Definition partitionForVolumeHandle (volumeID : string) : csi (result NVMePartition) :=
  match VolumeIdentity.ParseVolumeHandle volumeID with
  | inr _ => Ret (Err (StatusErr NotFoundCode "Volume handle is invalid or legacy and cannot be attached"))
  | inl reference =>
    let key := {| key_Namespace := VolumeIdentity.r_Namespace reference;
                  key_Name := VolumeIdentity.r_Name reference |} in
    let! r := ckube (Get Live KPartition key) in
    Ret (match r with
         | inr err => if IsNotFound err then Err (StatusErr NotFoundCode "Volume does not exist")
                      else Err (StatusErr Internal "Failed to get volume")
         | inl partition =>
           if UID (Meta partition) !=? VolumeIdentity.r_UID reference
           then Err (StatusErr NotFoundCode "Volume no longer exists")
           else Ok partition
         end)
  end.

(** ** Validation of capabilities *)

(** The confirmation repeats the request; otherwise only a message is sent. *)
Inductive ValidateVolumeCapabilitiesResponse :=
  | Confirmed (context : gmap string string) (capabilities : list (option VolumeCapability))
      (parameters : gmap string string)
  | Unconfirmed (err : error).

Definition ValidateVolumeCapabilities (req : ValidateVolumeCapabilitiesRequest)
    : csi (result ValidateVolumeCapabilitiesResponse) :=
  if vvc_VolumeId req ==? "" then Ret (Err (StatusErr InvalidArgument "Volume ID must be provided"))
  else
    let!? partition := partitionForVolumeHandle (vvc_VolumeId req) in
    Ret (Ok (match validatePersistedVolumeRequest partition req with
             | Some err => Unconfirmed err
             | None => Confirmed (vvc_VolumeContext req) (vvc_VolumeCapabilities req) (vvc_Parameters req)
             end)).

(** ** Deletion *)

Definition errPartitionDeletionTimeout : error := Errorf "timed out waiting for NVMePartition deletion".

Definition waitForPartitionDeleted (key : ObjectKey) (uid : string) : csi (option (option error)) :=
  iterate fuel (λ _ : unit,
    let! r := ckube (Get Live KPartition key) in
    let next :=
      let! w := cselect in
      Ret (match w with
           | CtxDone e => inr (Some (CtxError e))
           | TimedOut => inr (Some (Wrap "" errPartitionDeletionTimeout))
           | Tick => inl tt
           end) in
    match r with
    | inr err => Ret (inr (if IsNotFound err then None else Some err))
    | inl current => if UID (Meta current) !=? uid then Ret (inr None) else next
    end) tt.

Definition deletePartitionAndWait (partition : NVMePartition) : csi (option (option error)) :=
  let key := ObjectKeyFromObject partition in
  let attachmentKey := {| key_Namespace := Namespace (Meta partition);
                          key_Name := Attachment.attachment_Name (UID (Meta partition)) |} in
  let! r := ckube (Get Live KAttachment attachmentKey) in
  match r with
  | inl _ => Ret (Some (Some (StatusErr FailedPrecondition "volume is still attached")))
  | inr err =>
    if negb (IsNotFound err) then Ret (Some (Some (StatusErr Internal "failed to check volume attachment")))
    else
      let! d := ckube (Delete KPartition partition) in
      if match d with Some err => negb (IsNotFound err) | None => false end
      then Ret (Some (Some (StatusErr Internal "failed to delete partition")))
      else
        let~ w := waitForPartitionDeleted key (UID (Meta partition)) in
        Ret (Some (match w with
                   | None => None
                   | Some err =>
                     if errors_Is err (CtxError DeadlineExceeded) then Some (FromContextError DeadlineExceeded)
                     else if errors_Is err (CtxError Canceled) then Some (FromContextError Canceled)
                     else if errors_Is err errPartitionDeletionTimeout
                     then Some (StatusErr DeadlineExceededCode "timed out waiting for NVMePartition deletion")
                     else Some (StatusErr Internal "failed to verify partition deletion")
                   end))
  end.

(** The partition is the volume of a release that used bare names. *)
Definition legacyMatch (volumeID : string) (partition : NVMePartition) : bool :=
  (Name (Meta partition) ==? volumeID) &&
  let externalID :=
    if pt_ExternalID (Status partition) ==? ""
    then (VolumeIdentity.ExternalIDFromNQN (pt_NQN (Status partition))).1
    else pt_ExternalID (Status partition) in
  (externalID ==? "") || (externalID ==? volumeID).

Definition deleteLegacyVolume (volumeID : string) : csi (option (result unit)) :=
  let! r := ckube (List Live KPartition) in
  match r with
  | inr _ => Ret (Some (Err (StatusErr Internal "failed to resolve legacy volume ID")))
  | inl partitions =>
    match List.filter (legacyMatch volumeID) partitions with
    | [] => Ret (Some (Ok tt))
    | [partition] =>
      let~ r := deletePartitionAndWait partition in
      Ret (Some (match r with Some err => Err err | None => Ok tt end))
    | _ => Ret (Some (Err (StatusErr FailedPrecondition "legacy volume ID matches multiple partitions")))
    end
  end.

Definition DeleteVolume (volID : string) : csi (option (result unit)) :=
  if volID ==? "" then Ret (Some (Err (StatusErr InvalidArgument "Volume ID missing in request")))
  else
    match VolumeIdentity.ParseVolumeHandle volID with
    | inr _ => deleteLegacyVolume volID
    | inl reference =>
      let key := {| key_Namespace := VolumeIdentity.r_Namespace reference;
                    key_Name := VolumeIdentity.r_Name reference |} in
      let! r := ckube (Get Live KPartition key) in
      match r with
      | inr err =>
        Ret (Some (if IsNotFound err then Ok tt else Err (StatusErr Internal "failed to get partition")))
      | inl partition =>
        if UID (Meta partition) !=? VolumeIdentity.r_UID reference then Ret (Some (Ok tt))
        else
          let~ r := deletePartitionAndWait partition in
          Ret (Some (match r with Some err => Err err | None => Ok tt end))
      end
    end.

(** ** Attachments *)

(** One round of pollAttachment; [check] is the closure [done]. *)
Definition poll_round (key : ObjectKey) (check : option NVMeVolumeAttachment → result bool)
    (timeoutMessage : string) (_ : unit) : csi (unit + option error) :=
  let! r := ckube (Get Live KAttachment key) in
  if match r with inr err => negb (IsNotFound err) | inl _ => false end
  then Ret (inr (Some (StatusErr Internal "Failed to observe volume attachment")))
  else
    let value := match r with inl current => Some current | inr _ => None end in
    match check value with
    | inr err => Ret (inr (Some err))
    | inl true => Ret (inr None)
    | inl false =>
      let! w := cselect in
      Ret (match w with
           | CtxDone e => inr (Some (FromContextError e))
           | TimedOut => inr (Some (StatusErr DeadlineExceededCode timeoutMessage))
           | Tick => inl tt
           end)
    end.

Definition pollAttachment (key : ObjectKey) (check : option NVMeVolumeAttachment → result bool)
    (timeoutMessage : string) : csi (option (option error)) :=
  iterate fuel (poll_round key check timeoutMessage) tt.

Definition attachmentReady (attachmentID : string) (current : option NVMeVolumeAttachment) : result bool :=
  match current with
  | None => Err (StatusErr Aborted "Volume attachment was revoked while waiting for target authorization")
  | Some current =>
    if negb (TimePtr_IsZero (DeletionTimestamp (Meta current)))
    then Err (StatusErr Aborted "Volume attachment was revoked while waiting for target authorization")
    else Ok ((at_ObservedAttachmentID (Status current) ==? attachmentID) &&
             IsStatusConditionTrue (at_Conditions (Status current)) Attachment.AccessReadyCondition)
  end.

Definition waitForAttachmentReady (key : ObjectKey) (attachmentID : string) : csi (option (option error)) :=
  pollAttachment key (attachmentReady attachmentID) "Timed out waiting for provider target to authorize attachment".

Definition attachmentGone (current : option NVMeVolumeAttachment) : result bool :=
  Ok (match current with None => true | Some _ => false end).

Definition waitForAttachmentDeleted (key : ObjectKey) : csi (option (option error)) :=
  pollAttachment key attachmentGone "Timed out waiting for provider target to revoke attachment".

Record ControllerPublishVolumeRequest := {
  cp_VolumeId : string;
  cp_NodeId : string;
  cp_VolumeCapability : option VolumeCapability;
  cp_VolumeContext : gmap string string
}.


Definition publishContext (attachment : NVMeVolumeAttachment) : gmap string string :=
  <[Node.publishContextNodeID := as_NodeID (Spec attachment)]>
  (<[Node.publishContextHostNQN := as_HostNQN (Spec attachment)]>
  {[Node.publishContextAttachmentID := as_AttachmentID (Spec attachment)]}).

Definition desiredAttachment (key : ObjectKey) (partition : NVMePartition) (nodeID attachmentID : string)
    : NVMeVolumeAttachment :=
  mkObject
    {| Name := key_Name key; Namespace := key_Namespace key; UID := ""; Generation := 0; ResourceVersion := "";
       Finalizers := [Attachment.Finalizer]; Annotations := ∅;
       OwnerReferences := [{| o_APIVersion := "storage.distort.io/v1alpha1"; o_Kind := "NVMePartition";
                              o_Name := Name (Meta partition); o_UID := UID (Meta partition);
                              o_Controller := true; o_BlockOwnerDeletion := true |}];
       DeletionTimestamp := None |}
    {| as_VolumeRef := {| vr_Name := Name (Meta partition); vr_UID := UID (Meta partition) |};
       as_NodeID := nodeID; as_HostNQN := Attachment.HostNQN nodeID; as_AttachmentID := attachmentID |}
    (zero_status KAttachment).

(** The part of the loop of ControllerPublishVolume after the attachment is
    known; [inl] goes round again. *)
Definition publish_existing (key : ObjectKey) (partition : NVMePartition) (nodeID : string)
    (existing : NVMeVolumeAttachment) : csi (option (unit + result (gmap string string))) :=
  if (vr_Name (as_VolumeRef (Spec existing)) !=? Name (Meta partition)) ||
     (vr_UID (as_VolumeRef (Spec existing)) !=? UID (Meta partition))
  then Ret (Some (inr (Err (StatusErr FailedPrecondition "Attachment identity does not match the requested volume"))))
  else if negb (TimePtr_IsZero (DeletionTimestamp (Meta existing))) then
    let~ r := waitForAttachmentDeleted key in
    Ret (Some (match r with Some err => inr (Err err) | None => inl tt end))
  else if as_NodeID (Spec existing) !=? nodeID then
    if default "" (Annotations (Meta existing) !! Attachment.ForceDetachAnnotation) !=? as_NodeID (Spec existing)
    then Ret (Some (inr (Err (StatusErr FailedPrecondition "Volume is attached to another node"))))
    else
      let! d := ckube (Delete KAttachment existing) in
      if match d with Some err => negb (IsNotFound err) | None => false end
      then Ret (Some (inr (Err (StatusErr Internal "Failed to begin forced attachment revocation"))))
      else
        let~ r := waitForAttachmentDeleted key in
        Ret (Some (match r with Some err => inr (Err err) | None => inl tt end))
  else
    let~ r := waitForAttachmentReady key (as_AttachmentID (Spec existing)) in
    Ret (Some (inr (match r with Some err => Err err | None => Ok (publishContext existing) end))).

(** One round of the loop of ControllerPublishVolume. *)
Definition publish_round (key : ObjectKey) (partition : NVMePartition) (nodeID : string) (_ : unit)
    : csi (unit + option (result (gmap string string))) :=
  let finish (p : csi (option (unit + result (gmap string string)))) : csi (unit + option (result (gmap string string))) :=
    let! r := p in
    Ret (match r with
         | None => inr None
         | Some (inl _) => inl tt
         | Some (inr res) => inr (Some res)
         end) in
  let! r := ckube (Get Live KAttachment key) in
  match r with
  | inl existing => finish (publish_existing key partition nodeID existing)
  | inr err =>
    if IsNotFound err then
      let! attachmentID := newUUID in
      let! r := ckube (Create KAttachment (desiredAttachment key partition nodeID attachmentID)) in
      match r with
      | inr err =>
        Ret (if IsAlreadyExists err then inl tt
             else inr (Some (Err (StatusErr Internal "Failed to create volume attachment"))))
      | inl existing => finish (publish_existing key partition nodeID existing)
      end
    else Ret (inr (Some (Err (StatusErr Internal "Failed to get volume attachment"))))
  end.

Definition ControllerPublishVolume (req : ControllerPublishVolumeRequest)
    : csi (option (result (gmap string string))) :=
  if (cp_VolumeId req ==? "") || (cp_NodeId req ==? "")
  then Ret (Some (Err (StatusErr InvalidArgument "Volume ID and node ID must be provided")))
  else
    match validateVolumeCapabilities (cp_VolumeContext req) [cp_VolumeCapability req] with
    | inr _ => Ret (Some (Err (StatusErr InvalidArgument "Invalid volume capability")))
    | inl _ =>
      let! r := partitionForVolumeHandle (cp_VolumeId req) in
      match r with
      | inr err => Ret (Some (Err err))
      | inl partition =>
        if pt_State (Status partition) !=? NVMePartitionStateExported
        then Ret (Some (Err (StatusErr FailedPrecondition "Volume is not exported")))
        else
          let key := {| key_Namespace := Namespace (Meta partition);
                        key_Name := Attachment.attachment_Name (UID (Meta partition)) |} in
          let~ r := iterate fuel (publish_round key partition (cp_NodeId req)) tt in
          Ret r
      end
    end.

(** status.Code is NotFound *)
Definition isNotFoundStatus (err : error) : bool :=
  match err with StatusErr NotFoundCode _ => true | _ => false end.

Definition ControllerUnpublishVolume (volumeID nodeID : string) : csi (option (result unit)) :=
  if volumeID ==? "" then Ret (Some (Err (StatusErr InvalidArgument "Volume ID must be provided")))
  else
    let! r := partitionForVolumeHandle volumeID in
    match r with
    | inr err => Ret (Some (if isNotFoundStatus err then Ok tt else Err err))
    | inl partition =>
      let key := {| key_Namespace := Namespace (Meta partition);
                    key_Name := Attachment.attachment_Name (UID (Meta partition)) |} in
      let! r := ckube (Get Live KAttachment key) in
      match r with
      | inr err =>
        Ret (Some (if IsNotFound err then Ok tt else Err (StatusErr Internal "Failed to get volume attachment")))
      | inl existing =>
        if (nodeID !=? "") && (as_NodeID (Spec existing) !=? nodeID) then Ret (Some (Ok tt))
        else
          let! d := ckube (Delete KAttachment existing) in
          if match d with Some err => negb (IsNotFound err) | None => false end
          then Ret (Some (Err (StatusErr Internal "Failed to delete volume attachment")))
          else
            let~ r := waitForAttachmentDeleted key in
            Ret (Some (match r with Some err => Err err | None => Ok tt end))
      end
    end.

End Controller.
