(* ===== verification/CsiProps.v ===== *)
(** * Properties of the CSI controller service

    Statements about the history of one RPC, for all replies of the API server
    and all outcomes of its waits, and for every fuel. *)

From S2P Require Import Prelude GoStrings Encoding Capacity ApiTypes Identity Options RdmaHealth Prog Kube CsiRequest.
From S2P Require Import CsiRequestProps CsiController.

Abbreviation cevent := (@event csiOp csiRep).

Definition evc (o : kubeOp) (x : kubeRep o) : cevent := ev (Rep := csiRep) (CKube o) x.

(** Operations that change nothing. *)
Definition c_read (o : csiOp) : bool :=
  match o with CKube (Get _ _ _) | CKube (List _ _) | CSelect | CNewUUID => true | _ => false end.

Section Props.
Context `{AM : ApiMachinery}.
Variable fuel : nat.

(** What a Get has shown: the attachment, or that there is none. *)
Definition observed (h : list cevent) (key : ObjectKey) (v : option NVMeVolumeAttachment) : Prop :=
  match v with
  | Some a => evc (Get Live KAttachment key) (inl a) ∈ h
  | None => ∃ e, IsNotFound e = true ∧ evc (Get Live KAttachment key) (inr e) ∈ h
  end.

Definition observed_partition (h : list cevent) (key : ObjectKey) (v : option NVMePartition) : Prop :=
  match v with
  | Some p => evc (Get Live KPartition key) (inl p) ∈ h
  | None => ∃ e, IsNotFound e = true ∧ evc (Get Live KPartition key) (inr e) ∈ h
  end.

Section Waits.
Variable good : list cevent → cevent → Prop.
Hypothesis good_read : ∀ h o x, c_read o = true → good h (ev o x).

#[local] Abbreviation ok := (hwp good).

Lemma c_ret {A} (a : A) h Q : Q a h → ok (Ret a) h Q.
Proof. done. Qed.

Lemma c_vis {A} o (k : csiRep o → csi A) h Q :
  c_read o = true → (∀ x, ok (k x) (h ++ [ev o x]) Q) → ok (Vis o k) h Q.
Proof. intros Ho Hk. apply hwp_vis; [intros x; by apply good_read|done]. Qed.

Lemma pollAttachment_hwp key check msg h Q :
  (∀ r b, (r = Some None → ∃ v, check v = Ok true ∧ observed b key v) → Q r (h ++ b)) →
  ok (pollAttachment fuel key check msg) h Q.
Proof.
  intros HQ. unfold pollAttachment.
  apply (hwp_iterate _ _ (λ _ h', ∃ b, h' = h ++ b)); [|by intros _ h' [b ->]; apply HQ|exists []; by rewrite app_nil_r].
  intros [] h' [b ->]. apply c_vis; [done|]. intros r. rewrite <- app_assoc.
  set (b' := b ++ _). assert (∀ v, v = match r with inl c => Some c | inr _ => None end →
    match r with inr e => IsNotFound e = true | inl _ => True end → observed b' key v) as Hobs.
  { intros v -> Hr. destruct r as [a|e]; simpl; [|exists e; split; [done|]];
      apply elem_of_app; right; apply list_elem_of_here. }
  guard G; [by apply c_ret, HQ|].
  specialize (Hobs _ eq_refl). cbv zeta. set (v := match r with inl c => Some c | inr _ => None end) in *.
  destruct (check v) as [[]|e] eqn:Hc; [| |by apply c_ret, HQ].
  - apply c_ret, HQ. intros _. eexists. split; [exact Hc|]. apply Hobs. destruct r; [done|]. by bool_to_prop.
  - apply c_vis; [done|]. intros [| |e]; apply c_ret; rewrite <- app_assoc; [by eexists|by apply HQ..].
Qed.

Lemma partitionForVolumeHandle_hwp volumeID h Q :
  (∀ e b, Q (inr e) (h ++ b)) →
  (∀ p ref b, VolumeIdentity.ParseVolumeHandle volumeID = Ok ref → UID (Meta p) = VolumeIdentity.r_UID ref →
     observed_partition b {| key_Namespace := VolumeIdentity.r_Namespace ref;
                             key_Name := VolumeIdentity.r_Name ref |} (Some p) → Q (inl p) (h ++ b)) →
  ok (partitionForVolumeHandle volumeID) h Q.
Proof.
  intros He Hok. unfold partitionForVolumeHandle.
  destruct (VolumeIdentity.ParseVolumeHandle volumeID) as [ref|e] eqn:E;
    [|apply c_ret; rewrite <- (app_nil_r h); apply He].
  apply c_vis; [done|]. intros [p|e]; apply c_ret; [|by destruct (IsNotFound e); apply He].
  destruct (_ !=? _) eqn:G; [apply He|]. bool_to_prop. apply (Hok p ref); [done|done|]. apply list_elem_of_here.
Qed.

Lemma waitForPartitionDeleted_hwp key uid h Q :
  (∀ r b, (r = Some None → observed_partition b key None ∨
     ∃ p, observed_partition b key (Some p) ∧ UID (Meta p) ≠ uid) → Q r (h ++ b)) →
  ok (waitForPartitionDeleted fuel key uid) h Q.
Proof.
  intros HQ. unfold waitForPartitionDeleted.
  apply (hwp_iterate _ _ (λ _ h', ∃ b, h' = h ++ b)); [|by intros _ h' [b ->]; apply HQ|exists []; by rewrite app_nil_r].
  intros [] h' [b ->]. apply c_vis; [done|]. intros r. rewrite <- app_assoc.
  assert (∀ x, x ∈ b ++ [x]) as Hin by (intros x; apply elem_of_app; right; apply list_elem_of_here).
  destruct r as [p|e].
  - guard G.
    + apply c_ret, HQ. intros _. right. exists p. bool_to_prop. split; [apply Hin|done].
    + apply c_vis; [done|]. intros [| |e]; apply c_ret; rewrite <- app_assoc; [by eexists|by apply HQ..].
  - apply c_ret, HQ. destruct (IsNotFound e) eqn:G; [|done]. intros _. left. exists e. split; [done|apply Hin].
Qed.

End Waits.

Lemma observed_app a b key v : observed a key v → observed (a ++ b) key v.
Proof. destruct v; simpl; setoid_rewrite elem_of_app; naive_solver. Qed.

Lemma observed_later a b key v : observed b key v → observed (a ++ b) key v.
Proof. destruct v; simpl; setoid_rewrite elem_of_app; naive_solver. Qed.

Lemma observed_partition_app a b key v : observed_partition a key v → observed_partition (a ++ b) key v.
Proof. destruct v; simpl; setoid_rewrite elem_of_app; naive_solver. Qed.

Lemma observed_partition_later a b key v : observed_partition b key v → observed_partition (a ++ b) key v.
Proof. destruct v; simpl; setoid_rewrite elem_of_app; naive_solver. Qed.

(** ** Publishing *)

Definition reference_key (ref : VolumeIdentity.Reference) : ObjectKey :=
  {| key_Namespace := VolumeIdentity.r_Namespace ref; key_Name := VolumeIdentity.r_Name ref |}.

(** The partition that the volume handle names was read, with the UID of the
    handle. *)
Definition volume_partition (h : list cevent) (volumeID : string) (p : NVMePartition) : Prop :=
  ∃ ref, VolumeIdentity.ParseVolumeHandle volumeID = Ok ref ∧ UID (Meta p) = VolumeIdentity.r_UID ref ∧
    observed_partition h (reference_key ref) (Some p).

Lemma volume_partition_app a b v p : volume_partition a v p → volume_partition (a ++ b) v p.
Proof. intros (ref & ? & ? & ?). exists ref. split_and!; try done. by apply observed_partition_app. Qed.

Definition attachment_key (p : NVMePartition) : ObjectKey :=
  {| key_Namespace := Namespace (Meta p); key_Name := Attachment.attachment_Name (UID (Meta p)) |}.

Definition refers (a : NVMeVolumeAttachment) (p : NVMePartition) : Prop :=
  as_VolumeRef (Spec a) = {| vr_Name := Name (Meta p); vr_UID := UID (Meta p) |}.

(** The attachment was read or created. *)
Definition seen_attachment (h : list cevent) (p : NVMePartition) (a : NVMeVolumeAttachment) : Prop :=
  observed h (attachment_key p) (Some a) ∨
  ∃ o : NVMeVolumeAttachment, evc (Create KAttachment o) (inl a) ∈ h.

Lemma seen_attachment_app a b p x : seen_attachment a p x → seen_attachment (a ++ b) p x.
Proof. intros [?|[o ?]]; [left; by apply observed_app|right; exists o; apply elem_of_app; by left]. Qed.

Section Publish.
Variable req : ControllerPublishVolumeRequest.

(** The writes of ControllerPublishVolume: it creates the attachment for the
    requesting node when there is none, and deletes the attachment of another
    node only when that is annotated for forced detachment. *)
Definition publish_good (h : list cevent) (e : cevent) : Prop :=
  let 'existT o _ := e in
  match o with
  | CKube (Create KAttachment a) => ∃ p id, volume_partition h (cp_VolumeId req) p ∧
      observed h (attachment_key p) None ∧ a = desiredAttachment (attachment_key p) p (cp_NodeId req) id
  | CKube (Delete KAttachment a) => ∃ p, volume_partition h (cp_VolumeId req) p ∧ seen_attachment h p a ∧
      refers a p ∧ as_NodeID (Spec a) ≠ cp_NodeId req ∧
      default "" (Annotations (Meta a) !! Attachment.ForceDetachAnnotation) = as_NodeID (Spec a)
  | o => c_read o = true
  end.

(** The volume is exported, its attachment is for the requesting node, and the
    target has confirmed exactly this attachment. *)
Definition published (h : list cevent) (ctx : gmap string string) : Prop :=
  ∃ p a cur, volume_partition h (cp_VolumeId req) p ∧ pt_State (Status p) = NVMePartitionStateExported ∧
    seen_attachment h p a ∧ refers a p ∧ as_NodeID (Spec a) = cp_NodeId req ∧ ctx = publishContext a ∧
    observed h (attachment_key p) (Some cur) ∧ TimePtr_IsZero (DeletionTimestamp (Meta cur)) = true ∧
    at_ObservedAttachmentID (Status cur) = as_AttachmentID (Spec a) ∧
    IsStatusConditionTrue (at_Conditions (Status cur)) Attachment.AccessReadyCondition = true.

#[local] Abbreviation ok := (hwp publish_good).

Lemma publish_read h o x : c_read o = true → publish_good h (ev o x).
Proof. by destruct o as [[| |[]|[]|[]|[]|[]]| |]. Qed.

Lemma attachmentReady_true id v : attachmentReady id v = Ok true → ∃ cur, v = Some cur ∧
  TimePtr_IsZero (DeletionTimestamp (Meta cur)) = true ∧ at_ObservedAttachmentID (Status cur) = id ∧
  IsStatusConditionTrue (at_Conditions (Status cur)) Attachment.AccessReadyCondition = true.
Proof.
  destruct v as [cur|]; [|done]. simpl. destruct (negb _) eqn:E; [done|]. intros H. injection H as H.
  bool_to_prop. by exists cur.
Qed.

Lemma publish_existing_hwp p a h Q :
  volume_partition h (cp_VolumeId req) p → pt_State (Status p) = NVMePartitionStateExported →
  seen_attachment h p a →
  (∀ r b, (∀ ctx, r = Some (inr (Ok ctx)) → published (h ++ b) ctx) → Q r (h ++ b)) →
  ok (publish_existing fuel (attachment_key p) p (cp_NodeId req) a) h Q.
Proof.
  intros Hp Hs Ha HQ. unfold publish_existing.
  assert (∀ r b, (∀ ctx, r ≠ Some (inr (Ok ctx))) → ok (Ret r) (h ++ b) Q) as Hno.
  { intros r b Hr. apply c_ret, HQ. intros ctx H. by destruct (Hr ctx). }
  assert (∀ r, (∀ ctx, r ≠ Some (inr (Ok ctx))) → ok (Ret r) h Q) as Hno'.
  { intros r Hr. rewrite <- (app_nil_r h). by apply Hno. }
  guard G1; [by apply Hno'|]. assert (refers a p) as Href.
  { bool_to_prop. unfold refers. destruct (as_VolumeRef (Spec a)); simpl in *; congruence. }
  guard G2.
  - apply hwp_bind, pollAttachment_hwp; [exact publish_read|]. intros [[e|]|] b _; by apply Hno.
  - guard G3; [guard G4; [by apply Hno'|]|].
    + bool_to_prop. apply hwp_vis; [intros x; by exists p|]. intros d.
      guard G5; [by apply Hno|]. apply hwp_bind, pollAttachment_hwp; [exact publish_read|].
      intros [[e|]|] b _; rewrite <- app_assoc; by apply Hno.
    + bool_to_prop. apply hwp_bind, pollAttachment_hwp; [exact publish_read|]. intros [[e|]|] b Hr; [by apply Hno| |by apply Hno].
      destruct (Hr eq_refl) as (v & (cur & -> & ? & ? & ?)%attachmentReady_true & Hobs).
      apply c_ret, HQ. intros ctx [= <-]. exists p, a, cur.
      split_and!; try done; [by apply volume_partition_app|by apply seen_attachment_app|].
      by apply (observed_later h) in Hobs.
Qed.

Lemma publish_round_hwp p h Q :
  volume_partition h (cp_VolumeId req) p → pt_State (Status p) = NVMePartitionStateExported →
  (∀ r b, (∀ ctx, r = inr (Some (Ok ctx)) → published (h ++ b) ctx) → Q r (h ++ b)) →
  ok (publish_round fuel (attachment_key p) p (cp_NodeId req) tt) h Q.
Proof.
  intros Hp Hs HQ. unfold publish_round. apply c_vis; [exact publish_read|done|].
  assert (∀ b a, seen_attachment (h ++ b) p a → ok (let! r := publish_existing fuel (attachment_key p) p (cp_NodeId req) a in
    Ret (match r with None => inr None | Some (inl _) => inl tt | Some (inr res) => inr (Some res) end)) (h ++ b) Q) as He.
  { intros b a Ha. apply hwp_bind, publish_existing_hwp; [by apply volume_partition_app|done|done|].
    intros r b' Hr. apply c_ret. rewrite <- app_assoc. apply HQ. intros ctx H. rewrite app_assoc. apply Hr.
    by destruct r as [[|]|]; simplify_eq. }
  intros [a|e].
  - apply He. left. apply elem_of_app. right. apply list_elem_of_here.
  - guard G; [|by apply c_ret, HQ]. apply c_vis; [exact publish_read|done|]. intros id. apply hwp_vis.
    { intros x. exists p, id. rewrite <- app_assoc. split_and!; [by apply volume_partition_app| |done].
      apply observed_later. exists e. split; [done|apply list_elem_of_here]. }
    rewrite <- app_assoc. intros [a|e']; rewrite <- app_assoc.
    + apply He. right. eexists. apply elem_of_app. right. apply elem_of_app. right. apply list_elem_of_here.
    + apply c_ret, HQ. by destruct (IsAlreadyExists e').
Qed.

Lemma publish_hwp :
  ok (ControllerPublishVolume fuel req) [] (λ r h, ∀ ctx, r = Some (Ok ctx) → published h ctx).
Proof.
  unfold ControllerPublishVolume. guard G; [done|]. destruct (validateVolumeCapabilities _ _); [|done].
  apply hwp_bind, partitionForVolumeHandle_hwp; [exact publish_read|done|]. intros p ref b Href Huid Hobs.
  assert (volume_partition ([] ++ b) (cp_VolumeId req) p) as Hp by (by exists ref). simpl app in *.
  guard G2; [done|]. bool_to_prop. apply hwp_bind.
  apply (hwp_iterate _ _ (λ _ h', volume_partition h' (cp_VolumeId req) p)); [|done|done].
  intros [] h' Hp'. apply publish_round_hwp; [done..|]. intros [[]|[r|]] b' Hr.
  - by apply volume_partition_app.
  - apply c_ret. intros ctx Hctx. apply Hr. congruence.
  - done.
Qed.

End Publish.

(** ** Unpublishing *)

Section Unpublish.
Variables volumeID nodeID : string.

(** The only write: the attachment of the given node (or of any, when no node is
    given) is deleted. *)
Definition unpublish_good (h : list cevent) (e : cevent) : Prop :=
  let 'existT o _ := e in
  match o with
  | CKube (Delete KAttachment a) => ∃ p, volume_partition h volumeID p ∧
      observed h (attachment_key p) (Some a) ∧ (nodeID = "" ∨ as_NodeID (Spec a) = nodeID)
  | o => c_read o = true
  end.

(** The volume is not attached to the node: the handle names no volume, the
    volume has no attachment, or it is attached to another node. *)
Definition unpublished (h : list cevent) : Prop :=
  (∃ e : error, VolumeIdentity.ParseVolumeHandle volumeID = Err e) ∨
  (∃ ref, VolumeIdentity.ParseVolumeHandle volumeID = Ok ref ∧
     (observed_partition h (reference_key ref) None ∨
      ∃ p, observed_partition h (reference_key ref) (Some p) ∧ UID (Meta p) ≠ VolumeIdentity.r_UID ref)) ∨
  (∃ p, volume_partition h volumeID p ∧
     (observed h (attachment_key p) None ∨
      ∃ a, observed h (attachment_key p) (Some a) ∧ nodeID ≠ "" ∧ as_NodeID (Spec a) ≠ nodeID)).

#[local] Abbreviation ok := (hwp unpublish_good).

Lemma unpublish_read h o x : c_read o = true → unpublish_good h (ev o x).
Proof. by destruct o as [[| |[]|[]|[]|[]|[]]| |]. Qed.

Lemma partitionForVolumeHandle_exact h Q :
  (∀ e b, (isNotFoundStatus e = true → unpublished (h ++ b)) → Q (inr e) (h ++ b)) →
  (∀ p b, volume_partition (h ++ b) volumeID p → Q (inl p) (h ++ b)) →
  ok (partitionForVolumeHandle volumeID) h Q.
Proof.
  intros He Hok. unfold partitionForVolumeHandle.
  destruct (VolumeIdentity.ParseVolumeHandle volumeID) as [ref|e] eqn:E.
  2:{ apply c_ret. rewrite <- (app_nil_r h). apply He. intros _. left. by exists e. }
  apply c_vis; [exact unpublish_read|done|]. intros [p|e]; apply c_ret.
  - destruct (_ !=? _) eqn:G; bool_to_prop.
    + apply He. intros _. right. left. exists ref. split; [done|]. right. exists p. split; [|done].
      apply observed_partition_later, list_elem_of_here.
    + apply Hok. exists ref. split_and!; [done..|]. apply observed_partition_later, list_elem_of_here.
  - destruct (IsNotFound e) eqn:G; apply He; [|done]. intros _. right. left. exists ref. split; [done|]. left.
    apply observed_partition_later. exists e. split; [done|apply list_elem_of_here].
Qed.

Lemma unpublish_hwp :
  ok (ControllerUnpublishVolume fuel volumeID nodeID) [] (λ r h, r = Some (Ok tt) → unpublished h).
Proof.
  unfold ControllerUnpublishVolume. guard G1; [done|]. apply hwp_bind, partitionForVolumeHandle_exact.
  - intros e b He. apply c_ret. destruct (isNotFoundStatus e) eqn:E; [|done]. intros _. by apply He.
  - intros p b Hp. simpl app in *. apply c_vis; [exact unpublish_read|done|]. intros [a|e].
    + guard G2; bool_to_prop.
      { apply c_ret. intros _. right. right. exists p. split; [by apply volume_partition_app|]. right.
        exists a. split; [apply observed_later, list_elem_of_here|done]. }
      apply hwp_vis.
      { intros x. exists p. split; [by apply volume_partition_app|].
        split; [apply observed_later, list_elem_of_here|]. apply andb_false_iff in G2.
        rewrite !negb_false_iff, !bool_decide_eq_true in G2. naive_solver. }
      intros d. guard G3; [done|]. apply hwp_bind, pollAttachment_hwp; [exact unpublish_read|].
      intros [[e|]|] b' Hr; apply c_ret; [done| |done]. intros _. right. right. exists p.
      split; [by do 3 apply volume_partition_app|]. left. destruct (Hr eq_refl) as ([c|] & Hc & Hobs); [done|].
      by apply observed_later.
    + apply c_ret. destruct (IsNotFound e) eqn:E; [|done]. intros _. right. right. exists p.
      split; [by apply volume_partition_app|]. left. apply observed_later. exists e.
      split; [done|apply list_elem_of_here].
Qed.

End Unpublish.

(** ** Deletion *)

Section Delete.
Variable volID : string.

(** The partition is the one that the volume ID names: by UID, or by the legacy
    rule as the only match. *)
Definition names_volume (h : list cevent) (p : NVMePartition) : Prop :=
  volume_partition h volID p ∨
  ((∃ e : error, VolumeIdentity.ParseVolumeHandle volID = Err e) ∧
   ∃ l, evc (List Live KPartition) (inl l) ∈ h ∧ List.filter (legacyMatch volID) l = [p]).

Lemma names_volume_app a b p : names_volume a p → names_volume (a ++ b) p.
Proof.
  intros [?|(? & l & ? & ?)]; [left; by apply volume_partition_app|right].
  split; [done|]. exists l. split; [apply elem_of_app; by left|done].
Qed.

(** The only write: the partition is deleted, when it is the volume and was seen
    without attachment. *)
Definition delete_good (h : list cevent) (e : cevent) : Prop :=
  let 'existT o _ := e in
  match o with
  | CKube (Delete KPartition p) => names_volume h p ∧ observed h (attachment_key p) None
  | o => c_read o = true
  end.

Definition gone_partition (h : list cevent) (key : ObjectKey) (uid : string) : Prop :=
  observed_partition h key None ∨ ∃ p, observed_partition h key (Some p) ∧ UID (Meta p) ≠ uid.

Lemma gone_later a b key uid : gone_partition b key uid → gone_partition (a ++ b) key uid.
Proof.
  intros [?|(p & ? & ?)]; [left; by apply observed_partition_later|right; exists p].
  split; [by apply observed_partition_later|done].
Qed.

(** The volume was seen to be gone. *)
Definition deleted_volume (h : list cevent) : Prop :=
  (∃ ref, VolumeIdentity.ParseVolumeHandle volID = Ok ref ∧
     gone_partition h (reference_key ref) (VolumeIdentity.r_UID ref)) ∨
  (∃ p, names_volume h p ∧ gone_partition h (ObjectKeyFromObject p) (UID (Meta p))) ∨
  ((∃ e : error, VolumeIdentity.ParseVolumeHandle volID = Err e) ∧
   ∃ l, evc (List Live KPartition) (inl l) ∈ h ∧ List.filter (legacyMatch volID) l = []).

#[local] Abbreviation ok := (hwp delete_good).

Lemma delete_read h o x : c_read o = true → delete_good h (ev o x).
Proof. by destruct o as [[| |[]|[]|[]|[]|[]]| |]. Qed.

Lemma deletePartitionAndWait_hwp p h Q :
  names_volume h p →
  (∀ r b, (r = Some None → gone_partition b (ObjectKeyFromObject p) (UID (Meta p))) → Q r (h ++ b)) →
  ok (deletePartitionAndWait fuel p) h Q.
Proof.
  intros Hp HQ. unfold deletePartitionAndWait. apply c_vis; [exact delete_read|done|].
  intros [a|e]; [by apply c_ret, HQ|]. guard G1; [by apply c_ret, HQ|]. bool_to_prop. apply hwp_vis.
  { intros x. split; [by apply names_volume_app|]. apply observed_later. exists e.
    split; [done|apply list_elem_of_here]. }
  intros d. rewrite <- app_assoc. guard G2; [by apply c_ret, HQ|].
  apply hwp_bind, waitForPartitionDeleted_hwp; [exact delete_read|]. intros r b Hr.
  rewrite <- app_assoc. destruct r as [[err|]|]; apply c_ret, HQ; [|intros _; by apply gone_later, Hr|done].
  by repeat destruct (errors_Is _ _).
Qed.

Lemma delete_hwp : ok (DeleteVolume fuel volID) [] (λ r h, r = Some (Ok tt) → deleted_volume h).
Proof.
  unfold DeleteVolume. guard G; [done|].
  assert (∀ p h, names_volume h p → ok (let~ r := deletePartitionAndWait fuel p in
    Ret (Some (match r with Some err => Err err | None => Ok tt end))) h (λ r h, r = Some (Ok tt) → deleted_volume h))
    as Hdel.
  { intros p h Hp. apply hwp_bind, deletePartitionAndWait_hwp; [done|]. intros [[err|]|] b Hr; apply c_ret; [done| |done].
    intros _. right. left. exists p. split; [by apply names_volume_app|by apply gone_later, Hr]. }
  destruct (VolumeIdentity.ParseVolumeHandle volID) as [ref|e] eqn:E.
  - apply c_vis; [exact delete_read|done|]. intros [p|e].
    + guard G2; bool_to_prop; [|apply Hdel; left; exists ref; split_and!; [done..|apply list_elem_of_here]].
      apply c_ret. intros _. left. exists ref. split; [done|]. right. exists p. split; [apply list_elem_of_here|done].
    + apply c_ret. destruct (IsNotFound e) eqn:G2; [|done]. intros _. left. exists ref. split; [done|]. left.
      exists e. split; [done|apply list_elem_of_here].
  - unfold deleteLegacyVolume. apply c_vis; [exact delete_read|done|]. intros [l|e']; [|done].
    destruct (List.filter _ _) as [|p [|p' l']] eqn:Ef; [| |done].
    + apply c_ret. intros _. right. right. split; [by exists e|]. exists l. split; [apply list_elem_of_here|done].
    + apply Hdel. right. split; [by exists e|]. exists l. split; [apply list_elem_of_here|done].
Qed.

End Delete.

(** ** Creation *)

Section Create.
Variable req : CreateVolumeRequest.

Definition create_namespace : string :=
  if param (cv_Parameters req) "csi.storage.k8s.io/pvc/namespace" ==? "" then "default"
  else param (cv_Parameters req) "csi.storage.k8s.io/pvc/namespace".

Definition create_key : ObjectKey := {| key_Namespace := create_namespace; key_Name := cv_Name req |}.

Definition request_of (r : canonicalCreateVolumeRequest) (expected : Z) : Prop :=
  canonicalRequest (cv_Parameters req) (cv_VolumeCapabilities req) (cv_CapacityRange req) = Ok (r, expected).

(** The only write: the partition of the canonical request is created. *)
Definition create_good (h : list cevent) (e : cevent) : Prop :=
  let 'existT o _ := e in
  match o with
  | CKube (Create KPartition p) => ∃ r expected, request_of r expected ∧
      p = desiredPartition (cv_Name req) create_namespace r
  | o => c_read o = true
  end.

Definition limit_bytes : Z := match cv_CapacityRange req with Some cr => LimitBytes cr | None => 0 end.

#[local] Abbreviation ok := (hwp create_good).

Lemma create_read h o x : c_read o = true → create_good h (ev o x).
Proof. by destruct o as [[| |[]|[]|[]|[]|[]]| |]. Qed.

Lemma volumeForPartition_bounds p r e l v : volumeForPartition p r e l = Ok v →
  r ≤ CapacityBytes v ∧ (0 < l → CapacityBytes v ≤ l).
Proof.
  unfold volumeForPartition. intros (id & _ & H)%rbind_ok. cbv zeta in H.
  destruct (_ <? r) eqn:G1 in H; [done|]. destruct ((0 <? l) && _) eqn:G2 in H; [done|]. injection H as <-.
  cbn [CapacityBytes]. bool_to_prop. split; [done|]. intros Hl. apply andb_false_iff in G2. destruct G2; bool_to_prop; lia.
Qed.

Lemma create_hwp : ok (CreateVolume fuel req) [] (λ _ _, True).
Proof.
  unfold CreateVolume. guard G1; [done|]. destruct (canonicalRequest _ _ _) as [[r expected]|err] eqn:Hr; [|done].
  cbv zeta. fold create_namespace. fold create_key. apply hwp_vis; [intros x; by exists r, expected|]. intros x.
  eapply hwp_mono; [|apply (hwp_performs (λ o, c_read o = true)); [exact create_read|unfold waitForPartitionReady; performs; done]]. done.
Qed.

End Create.

(** ** The waits end *)

Definition is_tick (e : cevent) : bool :=
  match e with existT CSelect Tick => true | _ => false end.
Definition ticks (h : list cevent) : nat := length (List.filter is_tick h).

Lemma ticks_app a b : ticks (a ++ b) = (ticks a + ticks b)%nat.
Proof. unfold ticks. by rewrite List.filter_app, length_app. Qed.

(** C38: A wait whose fuel is used up was woken by the ticker once per unit of fuel:
    when the timer or the context ends it, or the awaited state is seen, before
    the [n]-th tick, fuel [n] is enough for its result. *)
Theorem waits_end key check msg uid h :
  (returns (pollAttachment fuel key check msg) h None → ticks h = fuel) ∧
  (returns (waitForPartitionDeleted fuel key uid) h None → ticks h = fuel) ∧
  (returns (waitForPartitionReady fuel key) h None → ticks h = fuel).
Proof.
  assert (∀ (body : unit → csi (unit + option error)) h,
    (∀ s h s', returns (body s) h (inl s') → ticks h = 1%nat) →
    returns (iterate fuel body tt) h None → ticks h = fuel) as Hit
    by (intros body h' Hb; by apply iterate_exhausted; [apply ticks_app|..]).
  split_and!; apply Hit; intros [] h' [] Hr;
    (destruct h' as [|e h']; [by destruct Hr|]); destruct Hr as (x & -> & Hr).
  - cbv zeta in Hr. destruct x as [a|e]; simpl in Hr; [|destruct (IsNotFound e); simpl in Hr; [|by destruct h']];
      (destruct (check _) as [[]|] in Hr; [by destruct h'| |by destruct h']);
      (destruct h' as [|e' h']; [done|]); destruct Hr as (w & -> & Hr); destruct h', w; done.
  - destruct x as [p|e]; [|by destruct h']. cbn [bind] in Hr. cbv zeta in Hr.
    destruct (negb (bool_decide (UID (Meta p) = uid))) in Hr; [by destruct h'|].
    destruct h' as [|e' h']; [done|]. destruct Hr as (w & -> & Hr). destruct h', w; done.
  - destruct x; [|by destruct h'..]. destruct h' as [|e' h']; [done|]. destruct Hr as (y & -> & Hr).
    cbn [bind] in Hr. destruct y as [p|e]; [|by destruct h'].
    destruct (pt_State (Status p) ==? NVMePartitionStateExported); [by destruct h'|].
    destruct (pt_State (Status p) ==? NVMePartitionStateFailed); by destruct h'.
Qed.

End Props.

(** ** The check of the UID and the deletion are not atomic *)

Definition race_handle (replacement : Cluster) (c : Cluster) (o : csiOp) : csiRep o * Cluster :=
  match o with
  | CKube (Delete KPartition p) => model_serve replacement (Delete KPartition p)
  | CKube o => model_serve c o
  | CSelect => (Tick, c)
  | CNewUUID => ("uuid-1", c)
  end.

Definition volume_at (uid version : string) : NVMePartition :=
  let p := PlacementAuth.example_partition 1 in
  mkObject {| Name := Name (Meta p); Namespace := Namespace (Meta p); UID := uid; Generation := 1;
              ResourceVersion := version; Finalizers := []; Annotations := ∅; OwnerReferences := [];
              DeletionTimestamp := None |} (Spec p) (Status p).

Definition volume_cluster (p : NVMePartition) : Cluster :=
  {| partitions := mk_store (k := KPartition) [p]; devices := mk_store (k := KDevice) [];
     claims := mk_store (k := KClaim) []; nodes := mk_store (k := KNode) [];
     attachments := mk_store (k := KAttachment) [] |}.

Definition volume_key : ObjectKey := {| key_Namespace := "default"; key_Name := "pvc-1" |}.

Definition volume_handle (uid : string) : string :=
  match VolumeIdentity.New "default" "pvc-1" uid with inl id => VolumeIdentity.VolumeHandle id | inr _ => "" end.

(** DeleteVolume deletes by name.  When the partition of the handle is replaced
    by another one of the same name after its UID was checked, the replacement
    is deleted, and the RPC reports success. *)
Theorem replacement_deleted :
  let old := volume_at "p-1" "1" in
  let new := volume_at "p-2" "2" in
  let final := run (race_handle (volume_cluster new)) (DeleteVolume 5 (volume_handle "p-1")) (volume_cluster old) in
  VolumeIdentity.ParseVolumeHandle (volume_handle "p-1") =
    Ok {| VolumeIdentity.r_Namespace := "default"; VolumeIdentity.r_Name := "pvc-1"; VolumeIdentity.r_UID := "p-1" |} ∧
  objects (volume_cluster new) KPartition !! volume_key = Some new ∧ UID (Meta new) = "p-2" ∧
  final.1 = Some (Ok tt) ∧ objects final.2 KPartition !! volume_key = None.
Proof. cbv zeta. split_and!; vm_compute; reflexivity. Qed.
