(* ===== verification/CsiEffects.v ===== *)
(** * Effects of the CSI controller service

    CsiProps.v is about the requests of an RPC and what justifies them.  This file
    adds what they do to the objects, while other actors change the cluster
    between any two requests.  The API server deletes by name, so what is deleted
    is the object that was read only as long as nobody replaces it meanwhile; that
    condition is explicit below ([undisturbed]), and [replacement_deleted] shows
    that it cannot be dropped. *)

From S2P Require Import Prelude GoStrings Encoding Capacity ApiTypes Identity Options RdmaHealth Prog Kube CsiRequest.
From S2P Require Import CsiRequestProps CsiController CsiProps.

(** ** The world of an RPC *)

(** Requests have any documented reply, failed writes that are applied included. *)
Definition csi_step (c : Cluster) (o : csiOp) : csiRep o → Cluster → Prop :=
  match o with
  | CKube o => λ x c', kube_spec c o x c'
  | CSelect | CNewUUID => λ _ c', c' = c
  end.

(** A field that is the same in all versions of an object. *)
Definition immutable {k X} (F : obj k → X) (c : Cluster) : Prop := ∀ v v' (a a' : obj k),
  versions c k !! v = Some a → versions c k !! v' = Some a' → UID (Meta a) = UID (Meta a') → F a = F a'.

(** The schema makes the spec of an attachment and the fingerprint of a partition
    immutable. *)
Record lawful_objects (c : Cluster) : Prop := {
  lawful_wf : cluster_wf c;
  lawful_attachments : immutable (k := KAttachment) Spec c;
  lawful_partitions : immutable (k := KPartition) (λ p : NVMePartition, ps_RequestFingerprint (Spec p)) c
}.

(** Nobody makes an object called [key] meanwhile, neither a first one nor a
    replacement; changing and deleting it is allowed. *)
Definition not_replaced (k : kind) (key : ObjectKey) (c c' : Cluster) : Prop := ∀ ob' : obj k,
  objects c' k !! key = Some ob' → ∃ ob, objects c k !! key = Some ob ∧ UID (Meta ob) = UID (Meta ob').

Definition undisturbed (k : kind) (key : ObjectKey) (c c' : Cluster) : Prop := grows c c' ∧ not_replaced k key c c'.

(** What others may do between two requests. *)
Definition meanwhile (k : kind) (key : ObjectKey) (c c' : Cluster) : Prop := undisturbed k key c c' ∧ lawful_objects c'.

Lemma undisturbed_refl k key c : undisturbed k key c c.
Proof. split; [apply grows_refl|]. intros ob H. by exists ob. Qed.

Lemma undisturbed_trans k key c1 c2 c3 : undisturbed k key c1 c2 → undisturbed k key c2 c3 → undisturbed k key c1 c3.
Proof.
  intros [G1 H1] [G2 H2]. split; [by eapply grows_trans|]. intros ob3 (ob2 & H & Hu)%H2.
  destruct (H1 _ H) as (ob1 & ? & ?). exists ob1. split; congruence.
Qed.

(** A step changes no object but the one called [key0]: one that satisfies [del] is
    removed or marked for deletion, or one that satisfies [mk] is made. *)
Definition changes_only {k} (key0 : ObjectKey) (del : Cluster → obj k → Prop) (mk : obj k → Prop) (c c' : Cluster) : Prop :=
  (∀ k', k' ≠ k → objects c' k' = objects c k') ∧
  ∀ key, objects c' k !! key = objects c k !! key ∨ key = key0 ∧
    match objects c k !! key, objects c' k !! key with
    | Some ob, None => del c ob
    | Some ob, Some ob' => del c ob ∧ deleting ob' = true ∧ UID (Meta ob') = UID (Meta ob) ∧ Spec ob' = Spec ob
    | None, Some ob' => mk ob'
    | None, None => True
    end.

Lemma changes_refl {k} key0 (del : Cluster → obj k → Prop) mk c : changes_only key0 del mk c c.
Proof. split; [done|]. by left. Qed.

(** ** Effects of single requests *)

(** The new version belongs to a new object, or the spec is as before. *)
Definition agrees {k} (c : Cluster) (ob : obj k) : Prop :=
  (∀ v (old : obj k), versions c k !! v = Some old → UID (Meta old) ≠ UID (Meta ob)) ∨
  (∃ v (cur : obj k), versions c k !! v = Some cur ∧ UID (Meta cur) = UID (Meta ob) ∧ Spec cur = Spec ob).

Lemma immutable_settle {k X} (F : KSpec k → X) c (ob : obj k) :
  immutable (λ o : obj k, F (Spec o)) c → agrees c ob → immutable (λ o : obj k, F (Spec o)) (settle c k ob).
Proof.
  intros HF Ha v v' a a'. assert (∀ v (old : obj k), versions c k !! v = Some old → UID (Meta old) = UID (Meta ob) → F (Spec old) = F (Spec ob)) as Hold.
  { intros v0 old H0 Hu. destruct Ha as [Ha|(v1 & cur & H1 & Hu1 & <-)]; [by destruct (Ha _ _ H0)|]. eapply HF; [done..|congruence]. }
  rewrite versions_settle.
  intros [[_ <-]|[_ H]]%lookup_insert_Some [[_ <-]|[_ H']]%lookup_insert_Some Hu; [done|symmetry; by eapply Hold|by eapply Hold|by eapply HF].
Qed.

Lemma immutable_other {k k' X} (F : obj k → X) c (ob : obj k') : k' ≠ k → immutable F c → immutable F (settle c k' ob).
Proof. intros Hk HF v v' a a'. rewrite versions_settle_ne by done. apply HF. Qed.

Lemma lawful_settle c k (ob : obj k) : lawful_objects c → fresh_version c ob → agrees c ob → lawful_objects (settle c k ob).
Proof.
  intros [Hwf Ha Hp] Hf Hob. split; [by apply wf_settle|destruct k; try by apply immutable_other|destruct k; try by apply immutable_other].
  - by apply (immutable_settle (k := KAttachment) id).
  - by apply (immutable_settle (k := KPartition) ps_RequestFingerprint).
Qed.

Lemma lawful_remove c k key : lawful_objects c → lawful_objects (remove c k key).
Proof.
  intros [Hwf Ha Hp]. split; [by apply wf_remove|..]; intros v v' a a'; rewrite versions_remove; [apply Ha|apply Hp].
Qed.

(** What a deletion does, whatever its reply. *)
Lemma delete_effect {k} c (o : obj k) x c' (del : Cluster → obj k → Prop) mk : lawful_objects c → kube_spec c (Delete k o) x c' →
  (∀ cur, objects c k !! ObjectKeyFromObject o = Some cur → del c cur) →
  changes_only (ObjectKeyFromObject o) del mk c c' ∧ lawful_objects c'.
Proof.
  intros Hl Hs Hdel. assert (c' = c ∨ delete_applied c o c') as [->|(cur & Hcur & Hcase)].
  { destruct x as [e|]; simpl in Hs; [|by right]. destruct Hs as [?|[_ ?]]; auto. }
  { split; [apply changes_refl|done]. }
  specialize (Hdel _ Hcur). destruct (proj1 (lawful_wf _ Hl k) _ _ Hcur) as [Hk Hv].
  destruct Hcase as [[_ ->]|[(_ & _ & ->)|(Hfin & _ & ob & Hn & Hns & Hu & Hf & _ & _ & Hd & Hsp & _ & Hfr & ->)]].
  - split; [|by apply lawful_remove]. split; [intros k' Hk'; by apply objects_remove_ne|]. intros key. rewrite objects_remove.
    destruct (decide (key = ObjectKeyFromObject o)) as [->|Hne]; [|left; by apply lookup_delete_ne].
    right. split; [done|]. by rewrite lookup_delete_eq, Hcur.
  - split; [apply changes_refl|done].
  - split; [|apply lawful_settle; [done|done|right; by exists (ResourceVersion (Meta cur)), cur]].
    assert (ObjectKeyFromObject ob = ObjectKeyFromObject o) as Hkey by (rewrite <- Hk; unfold ObjectKeyFromObject; congruence).
    split; [intros k' Hk'; by apply objects_settle_ne|]. intros key.
    destruct (decide (key = ObjectKeyFromObject o)) as [->|Hne]; [|left; apply lookup_settle_ne; congruence].
    right. split; [done|]. rewrite Hcur, objects_settle, Hd, Hf, bool_decide_false by done. simpl. rewrite Hkey, lookup_insert_eq. done.
Qed.

(** What a creation does, whatever its reply. *)
Lemma create_effect {k} c (o : obj k) x c' del (mk : obj k → Prop) : lawful_objects c → kube_spec c (Create k o) x c' →
  (∀ ob : obj k, Spec ob = Spec o → mk ob) →
  changes_only (ObjectKeyFromObject o) del mk c c' ∧ lawful_objects c' ∧
  match x with
  | inl ob => objects c' k !! ObjectKeyFromObject o = Some ob ∧ Spec ob = Spec o ∧ ObjectKeyFromObject ob = ObjectKeyFromObject o
  | inr _ => True
  end.
Proof.
  intros Hl Hs Hmk.
  assert (∀ ob : obj k, create_applied c o ob c' → changes_only (ObjectKeyFromObject o) del mk c c' ∧ lawful_objects c' ∧
    objects c' k !! ObjectKeyFromObject o = Some ob ∧ Spec ob = Spec o ∧ ObjectKeyFromObject ob = ObjectKeyFromObject o) as Happ.
  { intros ob (Hn & Hk & Hsp & _ & _ & _ & Hd & _ & Hu & Hf & ->).
    assert (objects (settle c k ob) k !! ObjectKeyFromObject o = Some ob) as Ho
      by (rewrite <- Hk; apply lookup_settle_eq; unfold deleting; by rewrite Hd).
    split; [|split; [apply lawful_settle; [done|done|by left]|done]]. split; [intros k' Hk'; by apply objects_settle_ne|].
    intros key. destruct (decide (key = ObjectKeyFromObject o)) as [->|Hne]; [|left; apply lookup_settle_ne; congruence].
    right. split; [done|]. rewrite Hn. unfold obj in *. rewrite Ho. by apply Hmk. }
  destruct x as [ob|e]; [by apply Happ|]. destruct Hs as [->|[_ [ob Hob]]]; [by split; [apply changes_refl|]|].
  by destruct (Happ ob Hob) as (? & ? & _).
Qed.

(** ** RPCs among other actors *)

Section Rpc.
Context `{AM : ApiMachinery}.
Variable fuel : nat.

Section Logic.
Variables (k : kind) (key : ObjectKey) (guar : Cluster → Cluster → Prop).
Hypothesis guar_refl : ∀ c, guar c c.

#[local] Abbreviation cw := (wp csi_step (undisturbed k key) guar lawful_objects).

Lemma read_keeps o c x c' : c_read o = true → csi_step c o x c' → c' = c.
Proof. destruct o as [[[] | [] | | | | |]| |]; try done; intros _; simpl; try (by intros [-> _]); done. Qed.

Lemma cw_read {B} o (f : csiRep o → csi B) c Q : c_read o = true →
  (∀ c1 x, undisturbed k key c c1 → lawful_objects c1 → csi_step c1 o x c1 → cw (f x) c1 Q) → cw (Vis o f) c Q.
Proof. intros Ho H. apply wp_call_read; [intros w x w'; by apply read_keeps|done|done]. Qed.

Lemma cw_reads {A} (p : csi A) c (J : Cluster → Prop) : performs (λ o, c_read o = true) p →
  (∀ c c', undisturbed k key c c' → J c → J c') → J c → cw p c (λ _ c', J c').
Proof.
  intros Hp HJ. revert c. induction p as [a|o f IH]; intros c Hc; [intros c1 H1 _; by eapply HJ|].
  destruct Hp as [Ho Hf]. apply cw_read; [done|]. intros c1 x H1 _ _. apply IH; [done|]. by eapply HJ.
Qed.

(** The rest of the RPC only reads. *)
Lemma cw_rest {A} (p : csi A) c (Q : A → Cluster → Prop) : performs (λ o, c_read o = true) p → (∀ a c, Q a c) → cw p c Q.
Proof. intros Hp HQ. eapply wp_mono; [|by apply (cw_reads p c (λ _, True))]. intros a c' _. apply HQ. Qed.

End Logic.

Lemma pollAttachment_reads key check msg : performs (λ o, c_read o = true) (pollAttachment fuel key check msg).
Proof. unfold pollAttachment, poll_round. cbv zeta. performs; done. Qed.

Lemma waitForPartitionDeleted_reads key uid : performs (λ o, c_read o = true) (waitForPartitionDeleted fuel key uid).
Proof. unfold waitForPartitionDeleted. cbv zeta. performs; done. Qed.

#[local] Hint Resolve pollAttachment_reads waitForPartitionDeleted_reads : performs.

(** The object called [key], if there is one, is the one with the UID. *)
Definition holds (k : kind) (key : ObjectKey) (uid : string) (c : Cluster) : Prop :=
  ∀ ob : obj k, objects c k !! key = Some ob → UID (Meta ob) = uid.

Lemma holds_undisturbed k key uid c c' : undisturbed k key c c' → holds k key uid c → holds k key uid c'.
Proof. intros [_ Hn] Hh ob' (ob & Hob & <-)%Hn. by apply Hh. Qed.

Lemma holds_now k key c (ob : obj k) : objects c k !! key = Some ob → holds k key (UID (Meta ob)) c.
Proof. intros H ob'. rewrite H. by intros [= ->]. Qed.

(** *** DeleteVolume *)

Section DeleteVolume.
Variables (volID : string) (ref : VolumeIdentity.Reference).
Hypothesis handle : VolumeIdentity.ParseVolumeHandle volID = Ok ref.

(** The only change: the partition with the name and the UID of the handle is
    deleted. *)
Definition deletes_volume : Cluster → Cluster → Prop :=
  changes_only (k := KPartition) (reference_key ref) (λ _ p, UID (Meta p) = VolumeIdentity.r_UID ref) (λ _, False).

Lemma delete_volume_wp c : lawful_objects c →
  wp csi_step (undisturbed KPartition (reference_key ref)) deletes_volume lawful_objects (DeleteVolume fuel volID) c (λ _ _, True).
Proof.
  intros Hc. unfold DeleteVolume. destruct (_ ==? _); [done|]. rewrite handle. fold (reference_key ref).
  assert (∀ c, deletes_volume c c) as Hrefl by (intros c0; apply changes_refl).
  apply cw_read; [done|done|]. intros c1 [p|e] _ L1 H1; [|done]. destruct H1 as [_ H1]. kn.
  destruct (proj1 (lawful_wf _ L1 KPartition) _ _ H1) as [Hk _]. kn.
  destruct (_ !=? _) eqn:Gu; [done|]. bool_to_prop. unfold deletePartitionAndWait.
  apply wp_bind; [apply undisturbed_refl|done|]. apply cw_read; [done|done|]. intros c2 [a|e] R2 L2 _; [done|].
  destruct (negb _); [done|]. intros c3 d c4 R3 L3 H4.
  destruct (delete_effect (k := KPartition) c3 p d c4 (λ _ p, UID (Meta p) = VolumeIdentity.r_UID ref) (λ _, False) L3 H4) as [Hg L4].
  { rewrite <- Gu. kn. rewrite Hk. apply (holds_undisturbed _ _ _ _ _ R3), (holds_undisturbed _ _ _ _ _ R2).
    by apply (holds_now KPartition). }
  kn. rewrite Hk in Hg. split; [exact Hg|]. split; [done|].
  apply cw_rest; [done|performs|]. by intros [r|] c5 _.
Qed.

End DeleteVolume.

(** *** Attachments *)

Section Attachments.
Variables (volumeID : string) (ref : VolumeIdentity.Reference).
Hypothesis handle : VolumeIdentity.ParseVolumeHandle volumeID = Ok ref.

(** The name of the attachment of the volume. *)
Definition volume_attachment : ObjectKey :=
  {| key_Namespace := VolumeIdentity.r_Namespace ref; key_Name := Attachment.attachment_Name (VolumeIdentity.r_UID ref) |}.

#[local] Abbreviation aw guar := (wp csi_step (undisturbed KAttachment volume_attachment) guar lawful_objects).

(** The partition of the handle. *)
Definition is_volume (p : NVMePartition) : Prop :=
  ObjectKeyFromObject p = reference_key ref ∧ UID (Meta p) = VolumeIdentity.r_UID ref.

Lemma volume_key_of p : is_volume p → attachment_key p = volume_attachment.
Proof. intros [[= Hn _] Hu]. unfold attachment_key, volume_attachment. by rewrite Hn, Hu. Qed.

Lemma partitionForVolumeHandle_wp guar c Q : (∀ c, guar c c) → (∀ e c', Q (inr e) c') → (∀ p c', is_volume p → Q (inl p) c') →
  aw guar (partitionForVolumeHandle volumeID) c Q.
Proof.
  intros Hg He Hp. unfold partitionForVolumeHandle. rewrite handle. fold (reference_key ref).
  apply cw_read; [done|done|]. intros c1 [p|e] _ L1 H1 c2 R2 _; [|by destruct (IsNotFound e); apply He].
  destruct H1 as [_ H1]. destruct (proj1 (lawful_wf _ L1 KPartition) _ _ H1) as [Hk _]. kn.
  destruct (_ !=? _) eqn:G; [apply He|]. bool_to_prop. by apply Hp.
Qed.

(** The attachment that was read is still the one of the name, if there is one. *)
Definition known (a : NVMeVolumeAttachment) (c : Cluster) : Prop :=
  holds KAttachment volume_attachment (UID (Meta a)) c ∧ versions c KAttachment !! ResourceVersion (Meta a) = Some a.

Lemma known_undisturbed a c c' : undisturbed KAttachment volume_attachment c c' → known a c → known a c'.
Proof.
  intros Hu [Hh Hv]. split; [by eapply holds_undisturbed|]. destruct Hu as [Hg _]. eapply lookup_weaken; [exact Hv|apply (Hg KAttachment)].
Qed.

Lemma known_now a c : lawful_objects c → objects c KAttachment !! volume_attachment = Some a → known a c.
Proof. intros Hl Ha. split; [by apply (holds_now KAttachment)|]. by destruct (proj1 (lawful_wf _ Hl KAttachment) _ _ Ha). Qed.

(** Deleting it by name deletes an object with its UID and its spec. *)
Lemma delete_known_wp {B} guar (del : Cluster → NVMeVolumeAttachment → Prop) mk (a : NVMeVolumeAttachment) (f : option error → csi B) c Q :
  (∀ c c', changes_only (k := KAttachment) volume_attachment del mk c c' → guar c c') →
  ObjectKeyFromObject a = volume_attachment → known a c →
  (∀ c cur, known a c → UID (Meta cur) = UID (Meta a) → Spec cur = Spec a → del c cur) →
  (∀ d c', lawful_objects c' → aw guar (f d) c' Q) →
  aw guar (Vis (Rep := csiRep) (CKube (Delete KAttachment a)) f) c Q.
Proof.
  intros Hg Hk Hkn Hdel HQ c1 d c2 R1 L1 H2. pose proof (known_undisturbed _ _ _ R1 Hkn) as [Hh Hv].
  destruct (delete_effect (k := KAttachment) c1 a d c2 del mk L1 H2) as [Hc L2].
  { intros cur Hcur. kn. rewrite Hk in Hcur. apply Hdel; [done|by apply Hh|].
    destruct (proj1 (lawful_wf _ L1 KAttachment) _ _ Hcur) as [_ Hvc]. eapply (lawful_attachments _ L1); [exact Hvc|exact Hv|by apply Hh]. }
  kn. rewrite Hk in Hc. split; [by apply Hg|]. split; [done|]. by apply HQ.
Qed.

Section Unpublish.
Variable nodeID : string.

(** The only change: the attachment of the volume is deleted, when it is for the
    given node or no node is given. *)
Definition unpublishes : Cluster → Cluster → Prop :=
  changes_only (k := KAttachment) volume_attachment (λ _ a, nodeID = "" ∨ as_NodeID (Spec a) = nodeID) (λ _, False).

Lemma unpublish_wp c : lawful_objects c → aw unpublishes (ControllerUnpublishVolume fuel volumeID nodeID) c (λ _ _, True).
Proof.
  intros Hc. unfold ControllerUnpublishVolume. destruct (_ ==? _); [done|].
  assert (∀ c, unpublishes c c) as Hrefl by (intros c0; apply changes_refl).
  apply wp_bind; [apply undisturbed_refl|done|]. apply partitionForVolumeHandle_wp; [done|done|]. intros p c1 Hp L1.
  fold (attachment_key p). rewrite (volume_key_of _ Hp).
  apply cw_read; [done|done|]. intros c2 [a|e] R2 L2 H2; [|done]. destruct H2 as [_ H2]. kn.
  destruct (_ && _) eqn:G; [done|]. destruct (proj1 (lawful_wf _ L2 KAttachment) _ _ H2) as [Hk _]. kn.
  eapply (delete_known_wp _ (λ _ a, nodeID = "" ∨ as_NodeID (Spec a) = nodeID) (λ _, False)); [done|done|by apply known_now| |].
  - intros c3 cur _ _ ->. apply andb_false_iff in G. rewrite !negb_false_iff, !bool_decide_eq_true in G. naive_solver.
  - intros d c3 L3. apply cw_rest; [done|performs|done].
Qed.

End Unpublish.

Section Publish.
Variable node : string.

(** The attachment carried the annotation for its node. *)
Definition was_annotated (c : Cluster) (a : NVMeVolumeAttachment) : Prop := ∃ v (old : NVMeVolumeAttachment),
  versions c KAttachment !! v = Some old ∧ UID (Meta old) = UID (Meta a) ∧
  default "" (Annotations (Meta old) !! Attachment.ForceDetachAnnotation) = as_NodeID (Spec a).

Definition may_detach (c : Cluster) (a : NVMeVolumeAttachment) : Prop := as_NodeID (Spec a) ≠ node ∧ was_annotated c a.

Definition may_attach (a : NVMeVolumeAttachment) : Prop :=
  as_NodeID (Spec a) = node ∧ as_HostNQN (Spec a) = Attachment.HostNQN node ∧
  as_VolumeRef (Spec a) = {| vr_Name := VolumeIdentity.r_Name ref; vr_UID := VolumeIdentity.r_UID ref |}.

(** The changes: an attachment of another node that was annotated for forced
    detachment is deleted, or one is made for the requesting node. *)
Definition publishes : Cluster → Cluster → Prop := changes_only (k := KAttachment) volume_attachment may_detach may_attach.

Lemma publish_existing_wp p a c : is_volume p → ObjectKeyFromObject a = volume_attachment → known a c → lawful_objects c →
  aw publishes (publish_existing fuel volume_attachment p node a) c (λ _ _, True).
Proof.
  intros Hp Hk Hkn Hc. assert (∀ c, publishes c c) as Hrefl by (intros c0; apply changes_refl).
  unfold publish_existing, waitForAttachmentDeleted, waitForAttachmentReady.
  destruct (_ || _); [done|]. destruct (negb (TimePtr_IsZero _)); [apply cw_rest; [done|performs|done]|].
  destruct (as_NodeID (Spec a) !=? node) eqn:G; [|apply cw_rest; [done|performs|done]].
  destruct (default _ _ !=? _) eqn:Ga; [done|]. bool_to_prop.
  eapply (delete_known_wp publishes may_detach may_attach); [done|done|done| |].
  - intros c1 cur [_ Hv] Hu Hsp. unfold may_detach, was_annotated. rewrite Hsp. split; [done|]. by exists (ResourceVersion (Meta a)), a.
  - intros d c1 L1. apply cw_rest; [done|performs|done].
Qed.

Lemma publish_round_wp p c : is_volume p → lawful_objects c →
  aw publishes (publish_round fuel volume_attachment p node tt) c (λ _ _, True).
Proof.
  intros Hp Hc. assert (∀ c, publishes c c) as Hrefl by (intros c0; apply changes_refl).
  assert (∀ a c, ObjectKeyFromObject a = volume_attachment → known a c → lawful_objects c →
    aw publishes (let! x := publish_existing fuel volume_attachment p node a in
      Ret (match x with None => inr None | Some (inl _) => inl tt | Some (inr res) => inr (Some res) end)) c (λ _ _, True)) as He.
  { intros a c0 Hk Hkn L0. apply wp_bind; [apply undisturbed_refl|done|]. eapply wp_mono; [|by apply publish_existing_wp]. done. }
  unfold publish_round. apply cw_read; [done|done|]. intros c1 [a|e] _ L1 H1.
  { destruct H1 as [_ H1]. destruct (proj1 (lawful_wf _ L1 KAttachment) _ _ H1) as [Hk _]. kn. apply He; [done|by apply known_now|done]. }
  destruct (IsNotFound e); [|done]. apply cw_read; [done|done|]. intros c2 id R2 L2 _ c3 x c4 R3 L3 H4.
  destruct (create_effect (k := KAttachment) c3 (desiredAttachment volume_attachment p node id) x c4 may_detach may_attach L3 H4) as (Hg & L4 & Hx).
  { intros ob Hob. destruct Hp as [[= _ Hn] Hu]. unfold may_attach. kn. rewrite Hob. simpl. by rewrite Hn, Hu. }
  split; [exact Hg|]. split; [done|]. destruct x as [a|e']; [|done]. destruct Hx as (Ha & _ & Hk). kn. apply He; [done| |done].
  by apply known_now.
Qed.

Lemma publish_wp req c : cp_VolumeId req = volumeID → cp_NodeId req = node → lawful_objects c →
  aw publishes (ControllerPublishVolume fuel req) c (λ _ _, True).
Proof.
  intros Hv Hn Hc. assert (∀ c, publishes c c) as Hrefl by (intros c0; apply changes_refl).
  unfold ControllerPublishVolume. destruct (_ || _); [done|]. destruct (validateVolumeCapabilities _ _); [|done].
  rewrite Hv, Hn. apply wp_bind; [apply undisturbed_refl|done|]. apply partitionForVolumeHandle_wp; [done|done|]. intros p c1 Hp L1.
  destruct (pt_State _ !=? _); [done|]. fold (attachment_key p). rewrite (volume_key_of _ Hp).
  apply wp_bind; [apply undisturbed_refl|done|].
  eapply wp_mono; [|apply (wp_iterate _ _ _ _ (undisturbed_refl _ _) _ (λ _ _, True) (λ _ _, True)); try done].
  - by intros [x|] c2 _ _.
  - intros [] c2 L2 _. eapply wp_mono; [|by apply publish_round_wp]. by intros [] c3 _.
Qed.

End Publish.

End Attachments.

(** *** CreateVolume *)

Section CreateVolume.
Variable req : CreateVolumeRequest.

#[local] Abbreviation key := (create_key req).

(** The only change: the partition of the canonical request is made. *)
Definition creates_volume : Cluster → Cluster → Prop :=
  changes_only (k := KPartition) key (λ _ _, False)
    (λ p, ∃ r expected, request_of req r expected ∧ Spec p = Spec (desiredPartition (cv_Name req) (create_namespace req) r)).

#[local] Abbreviation vw := (wp csi_step (undisturbed KPartition key) creates_volume lawful_objects).

Definition stored_version (c : Cluster) (p : NVMePartition) : Prop :=
  ObjectKeyFromObject p = key ∧ versions c KPartition !! ResourceVersion (Meta p) = Some p.

(** The volume answered with is a version of the partition of the name that has
    the fingerprint of the request, and of which a version was exported. *)
Definition answers (c : Cluster) (v : Volume) : Prop := ∃ r expected p q, request_of req r expected ∧
  stored_version c p ∧ ps_RequestFingerprint (Spec p) = fingerprintCreateVolumeRequest r ∧
  stored_version c q ∧ UID (Meta q) = UID (Meta p) ∧ pt_State (Status q) = NVMePartitionStateExported ∧
  volumeForPartition p (ccr_RequiredBytes r) expected (limit_bytes req) = Ok v ∧
  ccr_RequiredBytes r ≤ CapacityBytes v ∧ (0 < limit_bytes req → CapacityBytes v ≤ limit_bytes req).

Lemma version_undisturbed c c' p : undisturbed KPartition key c c' → stored_version c p → stored_version c' p.
Proof. intros [Hg _] [Hk Hv]. split; [done|]. eapply lookup_weaken; [exact Hv|apply (Hg KPartition)]. Qed.

Lemma answers_undisturbed c c' v : undisturbed KPartition key c c' → answers c v → answers c' v.
Proof.
  intros Hu (r & expected & p & q & ? & ? & ? & ? & ?). exists r, expected, p, q.
  split; [done|]. split; [by eapply version_undisturbed|]. split; [done|]. split; [by eapply version_undisturbed|done].
Qed.

(** The partition is the one with the fingerprint. *)
Definition ours (r : canonicalCreateVolumeRequest) (p0 : NVMePartition) (c : Cluster) : Prop :=
  holds KPartition key (UID (Meta p0)) c ∧ stored_version c p0 ∧ ps_RequestFingerprint (Spec p0) = fingerprintCreateVolumeRequest r.

Lemma ours_undisturbed r p0 c c' : undisturbed KPartition key c c' → ours r p0 c → ours r p0 c'.
Proof. intros Hu (? & ? & ?). split; [by eapply holds_undisturbed|]. split; [by eapply version_undisturbed|done]. Qed.

Lemma ours_read r p0 c (p : NVMePartition) : lawful_objects c → ours r p0 c → objects c KPartition !! key = Some p →
  stored_version c p ∧ UID (Meta p) = UID (Meta p0) ∧ ps_RequestFingerprint (Spec p) = fingerprintCreateVolumeRequest r.
Proof.
  intros Hl (Hh & [_ Hv] & <-) Hp. destruct (proj1 (lawful_wf _ Hl KPartition) _ _ Hp) as [Hk Hvp]. kn.
  pose proof (Hh _ Hp) as Hu. split; [done|]. split; [done|]. by eapply (lawful_partitions _ Hl).
Qed.

Lemma waitForPartitionReady_wp r p0 c : ours r p0 c → lawful_objects c →
  vw (waitForPartitionReady fuel key) c (λ a c', ours r p0 c' ∧ (a = Some None → ∃ q, stored_version c' q ∧
    UID (Meta q) = UID (Meta p0) ∧ pt_State (Status q) = NVMePartitionStateExported)).
Proof.
  intros Ho Hc. assert (∀ c, creates_volume c c) as Hrefl by (intros c0; apply changes_refl).
  apply (wp_iterate _ _ _ _ (undisturbed_refl _ _) _ (λ _ c, ours r p0 c)); [..|done|done].
  - intros [] c1 L1 O1. apply cw_read; [done|done|].
    intros c2 w R2 L2 _. apply (ours_undisturbed _ _ _ _ R2) in O1 as O2.
    destruct w; [|intros c3 R3 _; split; [by eapply ours_undisturbed|done]..].
    apply cw_read; [done|done|]. intros c3 [p|e] R3 L3 H3; pose proof (ours_undisturbed _ _ _ _ R3 O2) as O3;
      [|intros c4 R4 _; by eapply ours_undisturbed].
    destruct H3 as [_ H3]. kn. destruct (ours_read _ _ _ _ L3 O3 H3) as (Hv & Hu & _).
    destruct (pt_State (Status p) ==? NVMePartitionStateExported) eqn:G; [|destruct (pt_State (Status p) ==? NVMePartitionStateFailed)];
      intros c4 R4 _; pose proof (ours_undisturbed _ _ _ _ R4 O3) as O4; [|done|done].
    split; [done|]. intros _. bool_to_prop. exists p. split; [by eapply version_undisturbed|done].
  - done.
  - intros [] c1 c2 R2. by apply ours_undisturbed.
  - intros a c1 c2 R2 [O1 Ha]. split; [by eapply ours_undisturbed|]. intros E. destruct (Ha E) as (q & ? & ?).
    exists q. split; [by eapply version_undisturbed|done].
Qed.

Lemma create_rest_wp r expected p0 c : request_of req r expected → ours r p0 c → lawful_objects c →
  vw (let~ ready := waitForPartitionReady fuel key in
      match ready with
      | Some err => Ret (Some (Err (StatusErr DeadlineExceededCode "partition failed to become ready")))
      | None =>
        let! x := ckube (Get Live KPartition key) in
        match x with
        | inr _ => Ret (Some (Err (StatusErr Internal "failed to get final partition status")))
        | inl partition => Ret (Some (volumeForPartition partition (ccr_RequiredBytes r) expected (limit_bytes req)))
        end
      end) c (λ res c', ∀ v, res = Some (Ok v) → answers c' v).
Proof.
  intros Hr Ho Hc. assert (∀ c, creates_volume c c) as Hrefl by (intros c0; apply changes_refl).
  apply wp_bind; [apply undisturbed_refl|done|]. eapply wp_mono; [|by apply waitForPartitionReady_wp].
  intros [[err|]|] c1 [O1 Hx] L1; [done| |done]. destruct (Hx eq_refl) as (q & Hq & Huq & Hs).
  apply cw_read; [done|done|]. intros c2 [p|e] R2 L2 H2; [|done]. destruct H2 as [_ H2]. kn.
  destruct (ours_read _ _ _ _ L2 (ours_undisturbed _ _ _ _ R2 O1) H2) as (Hp & Hup & Hf).
  intros c3 R3 _ v [= Hv]. exists r, expected, p, q. split; [done|]. split; [by eapply version_undisturbed|]. split; [done|].
  split; [do 2 (eapply version_undisturbed; [done|]); done|]. split; [congruence|]. split; [done|]. split; [done|].
  by eapply volumeForPartition_bounds.
Qed.

Lemma create_wp c : lawful_objects c → vw (CreateVolume fuel req) c (λ res c', ∀ v, res = Some (Ok v) → answers c' v).
Proof.
  intros Hc. assert (∀ c, creates_volume c c) as Hrefl by (intros c0; apply changes_refl).
  unfold CreateVolume. destruct (_ ==? _); [done|].
  destruct (canonicalRequest _ _ _) as [[r expected]|err] eqn:Hr; [|by intros c1 _ _ v [= ]].
  cbv zeta. fold (create_namespace req). fold key. fold (limit_bytes req).
  intros c1 x c2 R1 L1 H2.
  destruct (create_effect (k := KPartition) c1 (desiredPartition (cv_Name req) (create_namespace req) r) x c2 (λ _ _, False)
    (λ p, ∃ r expected, request_of req r expected ∧ Spec p = Spec (desiredPartition (cv_Name req) (create_namespace req) r)) L1 H2) as (Hg & L2 & Hx).
  { intros ob Hob. by exists r, expected. }
  split; [exact Hg|]. split; [done|]. destruct x as [p|e].
  - destruct Hx as (Hp & Hsp & Hk). kn. apply (create_rest_wp r expected p); [done| |done].
    split; [by apply (holds_now KPartition)|]. split; [|by rewrite Hsp].
    split; [exact Hk|]. by destruct (proj1 (lawful_wf _ L2 KPartition) _ _ Hp).
  - cbn [bind]. apply wp_bind; [apply undisturbed_refl|done|]. destruct (IsAlreadyExists e); [|by intros c3 _ _ _ c4 _ _ v [= ]]. apply cw_read; [done|done|].
    intros c3 [p|e'] R3 L3 H3 c4 R4 _ L4; [|by intros c5 _ _ v [= ]]. destruct H3 as [_ H3]. kn.
    destruct (ps_RequestFingerprint (Spec p) !=? _) eqn:G; [by intros c5 _ _ v [= ]|]. bool_to_prop. apply (create_rest_wp r expected p); [done| |done]. apply (ours_undisturbed _ _ _ _ R4).
    split; [by apply (holds_now KPartition)|]. split; [|done]. by destruct (proj1 (lawful_wf _ L3 KPartition) _ _ H3).
Qed.

End CreateVolume.

(** ** Properties *)

Lemma rpc_effects {A} k key guar (p q : csi A) c t c' Q : lawful_objects c →
  wp csi_step (undisturbed k key) guar lawful_objects p c Q → disturbed csi_step (meanwhile k key) p c t q c' →
  (∀ a, q = Ret a → Q a c') ∧ ∀ c1 c2, (c1, c2) ∈ t → guar c1 c2.
Proof.
  intros Hc Hp Hd. destruct (wp_disturbed csi_step (undisturbed k key) guar lawful_objects (meanwhile k key) p q c t c' Q) as (L' & Hq & Ht);
    [by intros w w' _ [? ?]|done..|]. split; [|done].
  intros a ->. by apply Hq; [apply undisturbed_refl|].
Qed.

(** C5: ControllerPublishVolume sends a deletion only for an attachment of another
    node that it has read carrying the force-detach annotation for that node, a
    creation only for the requesting node after it has seen no attachment, and no
    other write; and it succeeds only when it has seen the target confirm the
    attachment of this node.  So for a volume handle that parses, as long as nobody
    else makes an attachment of the volume meanwhile, the only changes it makes to
    the cluster are the removal of an attachment of another node that has carried
    the annotation, and the creation of one for the requesting node.  (The deletion
    is by name: an attachment that replaces the annotated one after the read would
    be deleted as well.) *)
Theorem publish_exclusive req :
  (∀ h, emits (ControllerPublishVolume fuel req) h → justified (publish_good req) h) ∧
  (∀ h ctx, returns (ControllerPublishVolume fuel req) h (Some (Ok ctx)) → published req h ctx) ∧
  (∀ ref c t q c', VolumeIdentity.ParseVolumeHandle (cp_VolumeId req) = Ok ref → lawful_objects c →
     disturbed csi_step (meanwhile KAttachment (volume_attachment ref)) (ControllerPublishVolume fuel req) c t q c' →
     ∀ c1 c2, (c1, c2) ∈ t → publishes ref (cp_NodeId req) c1 c2).
Proof.
  split; [intros h; apply (hwp_justified _ _ _ _ (publish_hwp fuel req))|].
  split; [intros h ctx Hr; by apply (hwp_returns _ _ _ _ _ _ (publish_hwp fuel req) Hr)|].
  intros ref c t q c' Href Hc Hd. by eapply (rpc_effects _ _ _ _ _ _ _ _ _ Hc (publish_wp _ _ Href _ _ _ eq_refl eq_refl Hc) Hd).
Qed.

(** C19: ControllerUnpublishVolume sends a deletion only for an attachment of the
    volume that it has read as that of the given node (or of any node, when none is
    given), and no other write; and it succeeds only when it has seen that the
    volume is not attached to the node any more.  So for a volume handle that
    parses, as long as nobody makes an attachment of the volume meanwhile, the only
    change it makes to the cluster is the removal of the volume's attachment, which
    is the one to the given node if a node is given.  (The deletion is by name: an
    attachment that replaces the one read would be deleted as well.) *)
Theorem unpublish_fences volumeID nodeID :
  (∀ h, emits (ControllerUnpublishVolume fuel volumeID nodeID) h → justified (unpublish_good volumeID nodeID) h) ∧
  (∀ h, returns (ControllerUnpublishVolume fuel volumeID nodeID) h (Some (Ok tt)) → unpublished volumeID nodeID h) ∧
  (∀ ref c t q c', VolumeIdentity.ParseVolumeHandle volumeID = Ok ref → lawful_objects c →
     disturbed csi_step (meanwhile KAttachment (volume_attachment ref)) (ControllerUnpublishVolume fuel volumeID nodeID) c t q c' →
     ∀ c1 c2, (c1, c2) ∈ t → unpublishes ref nodeID c1 c2).
Proof.
  split; [intros h; apply (hwp_justified _ _ _ _ (unpublish_hwp fuel volumeID nodeID))|].
  split; [intros h Hr; by apply (hwp_returns _ _ _ _ _ _ (unpublish_hwp fuel volumeID nodeID) Hr)|].
  intros ref c t q c' Href Hc Hd. by eapply (rpc_effects _ _ _ _ _ _ _ _ _ Hc (unpublish_wp _ _ Href _ _ Hc) Hd).
Qed.

(** C17: DeleteVolume sends a deletion only for a partition that it has read with the
    UID of the handle (or as the only match of a legacy name) and after it has seen
    no attachment of it, and no other write; and it succeeds only when it has seen
    the volume gone.  So for a handle that parses, as long as nobody makes a
    partition of its name meanwhile, the only change it makes to the cluster is the
    deletion of the partition with the name and the UID of the handle.  (The
    deletion is by name:
    [replacement_deleted] shows a replacement being deleted, which the comment in
    the source rules out.) *)
Theorem delete_volume_safe volID :
  (∀ h, emits (DeleteVolume fuel volID) h → justified (delete_good volID) h) ∧
  (∀ h, returns (DeleteVolume fuel volID) h (Some (Ok tt)) → deleted_volume volID h) ∧
  (∀ ref c t q c', VolumeIdentity.ParseVolumeHandle volID = Ok ref → lawful_objects c →
     disturbed csi_step (meanwhile KPartition (reference_key ref)) (DeleteVolume fuel volID) c t q c' →
     ∀ c1 c2, (c1, c2) ∈ t → deletes_volume ref c1 c2).
Proof.
  split; [intros h; apply (hwp_justified _ _ _ _ (delete_hwp fuel volID))|].
  split; [intros h Hr; by apply (hwp_returns _ _ _ _ _ _ (delete_hwp fuel volID) Hr)|].
  intros ref c t q c' Href Hc Hd. by eapply (rpc_effects _ _ _ _ _ _ _ _ _ Hc (delete_volume_wp _ _ Href _ Hc) Hd).
Qed.

(** C18: CreateVolume sends no write but the creation of the partition of the
    canonical request.  As long as nobody else makes a partition of that name
    meanwhile, the only change it makes to the cluster is this creation, and it
    answers only with a version of one partition of the name: it has the fingerprint
    of the request, was exported in some version, and has a capacity of at least the
    required and at most the limit bytes. *)
Theorem create_volume_correct req :
  (∀ h, emits (CreateVolume fuel req) h → justified (create_good req) h) ∧
  (∀ c t q c', lawful_objects c → disturbed csi_step (meanwhile KPartition (create_key req)) (CreateVolume fuel req) c t q c' →
     (∀ c1 c2, (c1, c2) ∈ t → creates_volume req c1 c2) ∧ (∀ v, q = Ret (Some (Ok v)) → answers req c' v)).
Proof.
  split; [intros h; apply (hwp_justified _ _ _ _ (create_hwp fuel req))|].
  intros c t q c' Hc Hd. destruct (rpc_effects _ _ _ _ _ _ _ _ _ Hc (create_wp req c Hc) Hd) as [Hq Ht]. split; [done|].
  intros v ->. by apply (Hq _ eq_refl).
Qed.

End Rpc.
