(* ===== verification/CsiAttach.v ===== *)
(** * From the controller to the node

    What ControllerPublishVolume hands to the node that a volume is attached to is
    what NodeStageVolume of that node, and of no other, accepts. *)

From S2P Require Import Prelude GoStrings GoPath Encoding Capacity ApiTypes Identity Options RdmaHealth Prog Kube Host CsiRequest NodeServer CsiController.
Import Node.

Lemma HostNQN_solid nodeID : solid (Attachment.HostNQN nodeID) = true.
Proof.
  unfold Attachment.HostNQN. rewrite solid_app. apply andb_true_intro. split; [done|].
  eapply str_all_impl; [|apply hex_encode_lower, Forall_take, Sha256.Sum256_range].
  intros [[] [] [] [] [] [] [] []]; vm_compute; congruence.
Qed.

(** The request that the kubelet makes of the node: the context of the volume, and
    the context that publishing it returned. *)
Definition stageRequestFor (volumeID path : string) (capability : VolumeCapability) (partition : NVMePartition)
    (attachment : NVMeVolumeAttachment) : NodeStageVolumeRequest := {|
  sr_VolumeId := volumeID; sr_StagingTargetPath := path; sr_VolumeCapability := Some capability;
  sr_VolumeContext := volumeContextForPartition partition; sr_PublishContext := publishContext attachment
|}.

Section Attach.
Variables (volumeID path attachmentID : string) (capability : VolumeCapability) (c : canonicalVolumeCapability).
Variables (key : ObjectKey) (partition : NVMePartition) (nodeID : string).
Hypothesis volume_named : volumeID ≠ "".
Hypothesis path_ok : validateNodePath path = inl path.
Hypothesis capability_ok : validateVolumeCapabilities (volumeContextForPartition partition) [Some capability] = inl c.
Hypothesis exported : pt_NQN (Status partition) ≠ "" ∧ solid (pt_NQN (Status partition)) = true.
Hypothesis address_ok : is_ok (ParseUsableIP (pt_PortalIP (Status partition))) = true ∧ solid (pt_PortalIP (Status partition)) = true.
Hypothesis port_ok : 1 ≤ pt_PortalPort (Status partition) ≤ 65535.
Hypothesis node_ok : nodeID ≠ "" ∧ solid nodeID = true.
Hypothesis attachment_ok : attachmentID ≠ "" ∧ solid attachmentID = true.

Local Notation attachment := (desiredAttachment key partition nodeID attachmentID).

Lemma stage_request_checked n :
  validateNodeStageRequest n (stageRequestFor volumeID path capability partition attachment) =
  if (n ==? "") || (nodeID !=? n) then Err (StatusErr FailedPrecondition "Volume attachment belongs to another node")
  else if (attachmentID ==? "") || (Attachment.HostNQN nodeID !=? Attachment.HostNQN n)
  then Err (StatusErr FailedPrecondition "Volume attachment authorization is missing or invalid")
  else Ok {|
    st_volumeID := volumeID; st_stagingTargetPath := path; st_nqn := pt_NQN (Status partition);
    st_portalIP := pt_PortalIP (Status partition); st_portalPort := Itoa (pt_PortalPort (Status partition));
    st_hostNQN := as_HostNQN (Spec attachment); st_filesystem := cvc_Filesystem c
  |}.
Proof.
  unfold validateNodeStageRequest, stageRequestFor. cbn [sr_VolumeId sr_StagingTargetPath sr_VolumeContext sr_VolumeCapability sr_PublishContext].
  rewrite bool_decide_false by done. rewrite path_ok. cbn [rbind]. rewrite capability_ok.
  assert (param (volumeContextForPartition partition) "nqn" = pt_NQN (Status partition)) as -> by done.
  assert (param (volumeContextForPartition partition) "portalIP" = pt_PortalIP (Status partition)) as -> by done.
  assert (param (volumeContextForPartition partition) "portalPort" = Itoa (pt_PortalPort (Status partition))) as -> by done.
  assert (param (publishContext attachment) publishContextNodeID = nodeID) as -> by done.
  assert (param (publishContext attachment) publishContextHostNQN = Attachment.HostNQN nodeID) as -> by done.
  assert (param (publishContext attachment) publishContextAttachmentID = attachmentID) as -> by done.
  rewrite !TrimSpace_solid by (apply exported || apply address_ok || apply node_ok || apply attachment_ok || apply HostNQN_solid || (apply Itoa_solid; lia)).
  cbv zeta. rewrite (bool_decide_false (pt_NQN _ = "")) by apply exported. rewrite (proj1 address_ok). cbn [negb].
  rewrite Atoi_Itoa by (unfold int64, MinInt64, MaxInt64; lia). rewrite (proj2 (Z.ltb_ge _ _)), (proj2 (Z.ltb_ge _ _)) by lia. done.
Qed.

End Attach.

(** C6: the node that a volume was attached to, and no other, accepts to stage it
    with the context that publishing returned; it connects to the target that the
    partition records, as the host that the attachment asks the target to admit. *)
Theorem attached_node_only volumeID path attachmentID capability c key partition nodeID n :
  volumeID ≠ "" → validateNodePath path = inl path →
  validateVolumeCapabilities (volumeContextForPartition partition) [Some capability] = inl c →
  pt_NQN (Status partition) ≠ "" ∧ solid (pt_NQN (Status partition)) = true →
  is_ok (ParseUsableIP (pt_PortalIP (Status partition))) = true ∧ solid (pt_PortalIP (Status partition)) = true →
  1 ≤ pt_PortalPort (Status partition) ≤ 65535 → nodeID ≠ "" ∧ solid nodeID = true → attachmentID ≠ "" ∧ solid attachmentID = true →
  match validateNodeStageRequest n
          (stageRequestFor volumeID path capability partition (desiredAttachment key partition nodeID attachmentID)) with
  | inl stage => n = nodeID ∧ st_nqn stage = pt_NQN (Status partition) ∧ st_portalIP stage = pt_PortalIP (Status partition) ∧
      Atoi (st_portalPort stage) = Some (pt_PortalPort (Status partition)) ∧
      st_hostNQN stage = as_HostNQN (Spec (desiredAttachment key partition nodeID attachmentID)) ∧ st_filesystem stage = cvc_Filesystem c
  | inr e => n ≠ nodeID ∧ e = StatusErr FailedPrecondition "Volume attachment belongs to another node"
  end.
Proof.
  intros Hv Hp Hc He Ha Ht Hn Hi. rewrite (stage_request_checked volumeID path attachmentID capability c key partition nodeID) by assumption.
  destruct (decide (nodeID = n)) as [<-|Hne].
  - rewrite (bool_decide_false (nodeID = "")), (bool_decide_false (attachmentID = "")) by (apply Hn || apply Hi).
    rewrite (bool_decide_true (nodeID = nodeID)), (bool_decide_true (Attachment.HostNQN nodeID = _)) by reflexivity. cbn [orb negb].
    do 3 (split; [reflexivity|]). split; [|split; reflexivity]. apply Atoi_Itoa. unfold int64, MinInt64, MaxInt64. lia.
  - rewrite (bool_decide_false (nodeID = n)) by done. rewrite orb_true_r. auto.
Qed.

Module AttachExample.

Definition partition : NVMePartition :=
  let p := PlacementAuth.example_partition 1 in
  mkObject (Meta p) (Spec p)
    {| pt_PlacementFingerprint := ""; pt_State := NVMePartitionStateExported; pt_ExternalID := "vol-1"; pt_VolumeID := "";
       pt_BackendVolumeID := ""; pt_AllocatedCapacity := NewQuantity 0; pt_SPDKBaseBdev := ""; pt_SPDKLvstoreName := "";
       pt_SPDKLvstoreUUID := ""; pt_SPDKLvolName := ""; pt_SPDKLvolUUID := ""; pt_NQN := VolumeIdentity.NQN "vol-1";
       pt_PortalIP := "10.0.0.1"; pt_PortalPort := 4420; pt_Conditions := [] |}.

Definition capability : VolumeCapability :=
  {| cap_AccessType := Mount {| FsType := ""; MountFlags := [] |}; cap_AccessMode := Some SINGLE_NODE_WRITER |}.

Definition canonical : canonicalVolumeCapability := {| cvc_AccessMode := supportedAccessModeString; cvc_Filesystem := "ext4" |}.

End AttachExample.

Lemma attached_node_only_witness :
  match validateNodeStageRequest "n1" (stageRequestFor "v" "/stage" AttachExample.capability AttachExample.partition
          (desiredAttachment {| key_Namespace := "default"; key_Name := "a" |} AttachExample.partition "n1" "u")) with
  | inl stage => st_nqn stage = VolumeIdentity.NQN "vol-1"
  | inr _ => "n1" ≠ "n1"
  end.
Proof.
  assert (validateVolumeCapabilities (volumeContextForPartition AttachExample.partition) [Some AttachExample.capability] =
    inl AttachExample.canonical) as Hc by (vm_compute; reflexivity).
  assert (is_ok (ParseUsableIP "10.0.0.1") = true ∧ solid "10.0.0.1" = true) as Ha by (vm_compute; auto).
  assert (1 ≤ 4420 ≤ 65535) as Ht by lia.
  pose proof (attached_node_only "v" "/stage" "u" AttachExample.capability AttachExample.canonical
    {| key_Namespace := "default"; key_Name := "a" |} AttachExample.partition "n1" "n1"
    ltac:(intros [=]) ltac:(vm_compute; reflexivity) Hc ltac:(split; [intros [=]|reflexivity]) Ha Ht
    ltac:(split; [intros [=]|reflexivity]) ltac:(split; [intros [=]|reflexivity])) as H.
  destruct (validateNodeStageRequest _ _) as [stage|]; apply H.
Defined.
