(* ===== verification/Discovery.v ===== *)
(** * Discovery of NVMe devices

    Models src/internal/agent/nvme_discovery.go: which devices may be managed
    ([discoveryPolicy]), the scan of sysfs for devices of the kernel driver, the
    query of a running SPDK target, and their union. *)

From S2P Require Import Prelude GoStrings GoPath Encoding Capacity ApiTypes Prog Kube Host Plugins.

(** errors.Join of an error that may be nil and one that is not. *)
Definition joinError (err : option error) (e : error) : option error :=
  Some (match err with None => e | Some err => Join err e end).

(** strconv.ParseBool. *)
Definition ParseBool (s : string) : option bool :=
  if bool_decide (s ∈ ["1"; "t"; "T"; "TRUE"; "true"; "True"]) then Some true
  else if bool_decide (s ∈ ["0"; "f"; "F"; "FALSE"; "false"; "False"]) then Some false
  else None.

Module Discovery.

Definition sysClassNVMe : string := "/sys/class/nvme".
Definition sysClassBlock : string := "/sys/class/block".
Definition unsafeMountInspectionEnv : string := "NVME_ALLOW_UNSAFE_MOUNT_INSPECTION".
Definition primaryNamespaceID : Z := 1.

(** The match of the regular expression: [n] lower case hexadecimal digits, then
    the rest. *)
Fixpoint hex_digits (n : nat) (s : string) : option string :=
  match n, s with
  | O, _ => Some s
  | S n, String c s => if is_lower_hex c then hex_digits n s else None
  | S _, EmptyString => None
  end.

Definition pciAddressPattern (s : string) : bool :=
  match (s ← hex_digits 4 s; s ← CutPrefix s ":"; s ← hex_digits 2 s; s ← CutPrefix s ":"; s ← hex_digits 2 s; CutPrefix s ".") with
  | Some (String c EmptyString) => bool_decide (c ∈ ["0"; "1"; "2"; "3"; "4"; "5"; "6"; "7"]%char)
  | _ => false
  end.

Definition validateHardwareNVMe (device : HardwareNVMe) : option error :=
  if TrimSpace (hw_Name device) ==? "" then Some (Errorf "device name is empty")
  else if TrimSpace (hw_SerialNumber device) ==? "" then Some (Errorf "serial number is empty")
  else if negb (pciAddressPattern (ToLower (TrimSpace (hw_PCIAddress device)))) then Some (Errorf "PCI address is invalid")
  else if hw_TotalBytes device <=? 0 then Some (Errorf "capacity must be positive")
  else None.

(** ** The policy *)

Record discoveryPolicy := {
  allowed : gset string;
  excluded : gset string;
  unsafeMountInspection : bool
}.

Fixpoint parseAddresses (raws : list string) (found : gset string) : result (gset string) :=
  match raws with
  | [] => Ok found
  | raw :: raws =>
    let address := ToLower (TrimSpace raw) in
    if (address ==? "") || negb (pciAddressPattern address) then Err (Errorf "invalid PCI address")
    else parseAddresses raws ({[address]} ∪ found)
  end.

Definition parsePCIAddressSet (value : string) : result (gset string) :=
  if TrimSpace value ==? "" then Ok ∅ else parseAddresses (Split comma value) ∅.

Definition currentDiscoveryPolicy : host (result discoveryPolicy) :=
  let! value := hcall (Getenv "NVME_ALLOWED_DEVICES") in
  match parsePCIAddressSet value with
  | inr err => Ret (Err err)
  | inl allowed =>
    let! value := hcall (Getenv "NVME_EXCLUDE_DEVICES") in
    match parsePCIAddressSet value with
    | inr err => Ret (Err err)
    | inl excluded =>
      let! value := hcall (Getenv unsafeMountInspectionEnv) in
      match (if value ==? "" then Some false else ParseBool value) with
      | None => Ret (Err (Errorf "must be a boolean"))
      | Some unsafe => Ret (Ok {| allowed := allowed; excluded := excluded; unsafeMountInspection := unsafe |})
      end
    end
  end.

Definition permits (p : discoveryPolicy) (pciAddress : string) : bool :=
  let address := ToLower (TrimSpace pciAddress) in
  if bool_decide (address ∈ excluded p) then false
  else if bool_decide (allowed p = ∅) then true
  else bool_decide (address ∈ allowed p).

(** ** The kernel's devices *)

(** Whether a name space of the controller is mounted. *)
Definition inspectDeviceMounts (devName : string) : host (result bool) :=
  let!? entries := hcall (ReadDir sysClassBlock) in
  let! r := for_each entries tt (λ bName _,
    if negb (HasPrefix bName (devName +:+ "n")) then Ret (inl tt)
    else
      let! x := command "lsblk" ["/dev/" +:+ bName; "-n"; "-o"; "MOUNTPOINT"] in
      match x with
      | (_, Some err) => Ret (inr (Err (Wrap "lsblk namespace" err)))
      | (out, None) =>
        if existsb (λ line, TrimSpace line !=? "") (Split newline out) then Ret (inr (Ok true)) else Ret (inl tt)
      end) in
  Ret (match r with inl _ => Ok false | inr r => r end).

Definition calculatePrimaryNamespaceBytes (nvmeName : string) : host (result Z) :=
  let namespaceName := nvmeName +:+ "n" +:+ Itoa primaryNamespaceID in
  let!? b := hcall (ReadFile (filepath_Join [sysClassBlock; namespaceName; "size"])) in
  match ParseInt (TrimSpace b) 10 64 with
  | None => Ret (Err (Errorf "invalid syntax"))
  | Some blocks => Ret (let? rawBytes := checkedCapacityBytes blocks 512 in allocatableNamespaceBytes rawBytes)
  end.

(** The text of an attribute that may be missing. *)
Definition attribute (devPath name fallback : string) : host string :=
  let! b := hcall (ReadFile (filepath_Join [devPath; name])) in
  Ret (match b with inl b => TrimSpace b | inr _ => fallback end).

(** One round of the loop over the controllers: the device, an error to report, or
    [None] for a controller that is passed over. *)
Definition kernelDevice (policy : discoveryPolicy) (devName : string) : host (option (HardwareNVMe + error)) :=
  let failed msg err := Ret (Some (inr (Wrap msg err))) in
  if negb (HasPrefix devName "nvme") then Ret None
  else
    let devPath := filepath_Join [sysClassNVMe; devName] in
    let! transport := attribute devPath "transport" "pcie" in
    if transport !=? "pcie" then Ret None
    else
      let! model := attribute devPath "model" "" in
      let! serial := hcall (ReadFile (filepath_Join [devPath; "serial"])) in
      match serial with
      | inr err => failed "read serial" err
      | inl serial =>
        let! numa := attribute devPath "numa_node" "" in
        let! link := hcall (Readlink (filepath_Join [devPath; "device"])) in
        match link with
        | inr err => failed "resolve PCI address" err
        | inl link =>
          let pciAddress := ToLower (Base link) in
          if negb (permits policy pciAddress) then Ret None
          else
            let! mounted := inspectDeviceMounts devName in
            match mounted, unsafeMountInspection policy with
            | inr err, false => failed "inspect mount state" err
            | inl true, _ => Ret None
            | _, _ =>
              let! bytes := calculatePrimaryNamespaceBytes devName in
              match bytes with
              | inr err => failed "calculate capacity" err
              | inl bytes =>
                let hwDev := {| hw_Name := devName; hw_PCIAddress := pciAddress; hw_SerialNumber := TrimSpace serial;
                                hw_Model := model; hw_TotalBytes := bytes; hw_NUMANode := default 0 (Atoi numa) |} in
                match validateHardwareNVMe hwDev with
                | Some err => failed "validate" err
                | None => Ret (Some (inl hwDev))
                end
              end
            end
        end
      end.

Definition discoverKernelNVMeWithPolicy (policy : discoveryPolicy) : host (list HardwareNVMe * option error) :=
  let! entries := hcall (ReadDir sysClassNVMe) in
  match entries with
  | inr err => Ret ([], if os_IsNotExist err then None else Some err)
  | inl entries =>
    let! r := for_each (B := Empty_set) entries ([], []) (λ devName '(devices, discoveryErrors),
      let! d := kernelDevice policy devName in
      Ret (inl (match d with
                | None => (devices, discoveryErrors)
                | Some (inl d) => (devices ++ [d], discoveryErrors)
                | Some (inr e) => (devices, discoveryErrors ++ [e])
                end))) in
    Ret (match r with
         | inl (devices, discoveryErrors) => (devices, errors_Join discoveryErrors)
         | inr e => match e with end
         end)
  end.

(** ** The devices of SPDK *)

Record spdkNVMeNamespace := {
  ns_PCIAddress : string;
  ns_ModelNumber : string;
  ns_SerialNumber : string;
  ns_ID : Z
}.

(** A block device; the list is that of driver_specific.nvme, empty when the
    driver is another one. *)
Record SpdkBdev := {
  bdev_Name : string;
  bdev_BlockSize : Z;
  bdev_NumBlocks : Z;
  bdev_NVMe : list spdkNVMeNamespace
}.

Definition bdevDevice (policy : discoveryPolicy) (bdev : SpdkBdev) : option (HardwareNVMe + error) :=
  match bdev_NVMe bdev with
  | [] => None
  | namespace :: _ =>
    if ns_ID namespace =? 0 then Some (inr (Errorf "SPDK bdev is missing its NVMe namespace ID"))
    else if negb (ns_ID namespace =? primaryNamespaceID) then None
    else match (let? capacityBytes := checkedCapacityBytes (bdev_NumBlocks bdev) (bdev_BlockSize bdev) in
                allocatableNamespaceBytes capacityBytes) with
    | inr err => Some (inr err)
    | inl capacityBytes =>
      let hwDev := {| hw_Name := bdev_Name bdev; hw_PCIAddress := ToLower (TrimSpace (ns_PCIAddress namespace));
                      hw_SerialNumber := TrimSpace (ns_SerialNumber namespace); hw_Model := TrimSpace (ns_ModelNumber namespace);
                      hw_TotalBytes := capacityBytes; hw_NUMANode := -1 |} in
      if negb (permits policy (hw_PCIAddress hwDev)) then None
      else match validateHardwareNVMe hwDev with
      | Some err => Some (inr (Wrap "validate SPDK bdev" err))
      | None => Some (inl hwDev)
      end
    end
  end.

Fixpoint hardwareFromSPDKBdevs_loop (policy : discoveryPolicy) (bdevs : list SpdkBdev) : list HardwareNVMe * list error :=
  match bdevs with
  | [] => ([], [])
  | bdev :: bdevs =>
    let '(devices, errs) := hardwareFromSPDKBdevs_loop policy bdevs in
    match bdevDevice policy bdev with
    | None => (devices, errs)
    | Some (inl d) => (d :: devices, errs)
    | Some (inr e) => (devices, e :: errs)
    end
  end.

Definition hardwareFromSPDKBdevs (bdevs : list SpdkBdev) (policy : discoveryPolicy) : list HardwareNVMe * option error :=
  let '(devices, errs) := hardwareFromSPDKBdevs_loop policy bdevs in (devices, errors_Join errs).

Section Discover.
Context `{Quoting} `{Unmarshal (list SpdkBdev)}.

Definition discoverSPDKNVMeWithPolicy (policy : discoveryPolicy) : host (list HardwareNVMe * option error) :=
  let! x := command "pidof" ["nvmf_tgt"] in
  match x with
  | (_, Some _) => Ret ([], None)
  | (_, None) =>
    let! bdevs := CallSPDKRPCInto "bdev_get_bdevs" [] in
    Ret (match bdevs with inr err => ([], Some err) | inl bdevs => hardwareFromSPDKBdevs bdevs policy end)
  end.

(** ** The union *)

Definition serialKey (d : HardwareNVMe) : string := ToLower (TrimSpace (hw_SerialNumber d)).

(** The devices whose serial number was not seen before. *)
Fixpoint newSerials (seenSerials : gset string) (devices : list HardwareNVMe) : list HardwareNVMe :=
  match devices with
  | [] => []
  | d :: devices =>
    let serial := serialKey d in
    if (serial !=? "") && negb (bool_decide (serial ∈ seenSerials))
    then d :: newSerials ({[serial]} ∪ seenSerials) devices
    else newSerials seenSerials devices
  end.

Definition discoveryError (kernelErr spdkErr : option error) : option error :=
  match kernelErr, spdkErr with
  | None, None => None
  | Some e, None => Some (KernelErr e)
  | None, Some e => Some (SPDKErr e)
  | Some k, Some s => Some (DiscoveryErr k s)
  end.

Definition DiscoverNVMe : host (list HardwareNVMe * option error) :=
  let! policy := currentDiscoveryPolicy in
  match policy with
  | inr err => Ret ([], Some err)
  | inl policy =>
    let! k := discoverKernelNVMeWithPolicy policy in
    let! s := discoverSPDKNVMeWithPolicy policy in
    Ret (newSerials ∅ (k.1 ++ s.1), discoveryError k.2 s.2)
  end.

End Discover.

End Discovery.
