(* ===== verification/DiscoveryProps.v ===== *)
(** * Correctness of discovery

    A machine is what its environment, sysfs, mounts and SPDK target contain.
    Reading may fail at any time; what is read is true.  Discovery reads only, so
    the machine is the same throughout. *)

From S2P Require Import Prelude GoStrings GoPath Encoding Capacity ApiTypes Prog Kube Host Plugins Discovery.
Import Discovery.

Record machine := {
  m_env : string → string;
  (** The entries of a directory that exists. *)
  m_dir : string → option (list string);
  m_file : string → string;
  m_link : string → string;
  (** Whether something is mounted from a block device. *)
  m_mounted : string → bool;
  (** The block devices of the SPDK target when it runs. *)
  m_bdevs : option (list SpdkBdev)
}.

Section Discover.
Context `{Quoting} `{Unmarshal (list SpdkBdev)}.
Variable m : machine.

(** What a reply may be. *)
Definition truthful (o : hostOp) : hostRep o → Prop :=
  match o with
  | Getenv name => λ x, x = m_env m name
  | ReadDir p => λ x, match x with inl l => m_dir m p = Some l | inr e => os_IsNotExist e = true → m_dir m p = None end
  | ReadFile p => λ x, ∀ s, x = inl s → s = m_file m p
  | Readlink p => λ x, ∀ s, x = inl s → s = m_link m p
  | Exec _ cmd args => λ x,
      (∀ b, cmd = "lsblk" → args = ["/dev/" +:+ b; "-n"; "-o"; "MOUNTPOINT"] → x.2 = None →
         existsb (λ line, TrimSpace line !=? "") (Split newline x.1) = m_mounted m b) ∧
      (cmd = "pidof" → args = ["nvmf_tgt"] → x.2 = Some (ExitErr 1) → m_bdevs m = None) ∧
      (cmd = spdkRPCExecutable → args = ["bdev_get_bdevs"] → x.2 = None → ∀ bdevs, unmarshal (rpcOutput x.1) = inl bdevs → m_bdevs m = Some bdevs)
  | _ => λ _, True
  end.

(** A command failed otherwise than by reporting that there is no such process. *)
Definition undecided (x : string * option error) : bool := (x.2 !=? None) && (x.2 !=? Some (ExitErr 1)).

(** The world remembers whether the last run of pidof told nothing, because the
    command could not be run or failed. *)
Definition machine_step (w : bool) (o : hostOp) (x : hostRep o) (w' : bool) : Prop :=
  truthful o x ∧
  w' = match o, x with Exec _ cmd _, x => if cmd ==? "pidof" then undecided x else w | _, _ => w end.

Local Notation sees := (swp machine_step (λ _, True)).

Lemma sees_mono {A} (p : host A) w (Q Q' : A → bool → Prop) : (∀ a w, Q a w → Q' a w) → sees p w Q → sees p w Q'.
Proof. intros HQ. apply swp_mono. auto. Qed.

Lemma look {A} o (k : hostRep o → host A) w Q : (∀ x w', truthful o x → sees (k x) w' Q) → sees (bind (hcall o) k) w Q.
Proof. intros Hk. apply swp_vis; [done|]. intros x w' [Hx _]. by apply Hk. Qed.

Lemma run_cmd {A} cmd args (k : string * option error → host A) w Q :
  (∀ x w', truthful (Exec [] cmd args) x → sees (k x) w' Q) → sees (bind (command cmd args) k) w Q.
Proof. intros Hk. apply swp_vis; [done|]. intros x w' [Hx _]. by apply Hk. Qed.

Lemma pidof_cmd {A} args (k : string * option error → host A) w Q :
  (∀ x, truthful (Exec [] "pidof" args) x → sees (k x) (undecided x) Q) → sees (bind (command "pidof" args) k) w Q.
Proof. intros Hk. apply swp_vis; [done|]. intros x w' [Hx ->]. by apply Hk. Qed.

Lemma attribute_sees {A} p n fb (k : string → host A) w Q :
  (∀ v w', v = fb ∨ v = TrimSpace (m_file m (filepath_Join [p; n])) → sees (k v) w' Q) → sees (bind (attribute p n fb) k) w Q.
Proof.
  intros Hk. unfold attribute. apply swp_bind, look. intros [b|e] w' Hx; apply swp_ret; try done; apply Hk; [|by left].
  right. by rewrite (Hx b eq_refl).
Qed.

(** ** The policy *)

Definition policy_of (p : discoveryPolicy) : Prop :=
  parsePCIAddressSet (m_env m "NVME_ALLOWED_DEVICES") = inl (allowed p) ∧
  parsePCIAddressSet (m_env m "NVME_EXCLUDE_DEVICES") = inl (excluded p) ∧
  unsafeMountInspection p = default false (ParseBool (m_env m unsafeMountInspectionEnv)).

Lemma policy_sees w : sees currentDiscoveryPolicy w (λ r _, ∀ p, r = inl p → policy_of p).
Proof.
  unfold currentDiscoveryPolicy. apply look. intros x w1 ->. destruct (parsePCIAddressSet _) as [al|e] eqn:E1; [|by apply swp_ret].
  apply look. intros x w2 ->. destruct (parsePCIAddressSet (m_env m "NVME_EXCLUDE_DEVICES")) as [ex|e] eqn:E2; [|by apply swp_ret].
  apply look. intros x w3 ->. destruct (decide (m_env m unsafeMountInspectionEnv = "")) as [E|E].
  - rewrite bool_decide_true by done. apply swp_ret; [done|]. intros p [= <-]. split_and!; [done..|]. simpl. by rewrite E.
  - rewrite bool_decide_false by done. destruct (ParseBool _) as [b|] eqn:Eb; apply swp_ret; try done. intros p [= <-]. split_and!; [done..|]. by rewrite Eb.
Qed.

(** ** The kernel's devices *)

(** Something is mounted from a name space of the controller. *)
Definition in_use (c : string) : Prop :=
  ∃ l b, m_dir m sysClassBlock = Some l ∧ b ∈ l ∧ HasPrefix b (c +:+ "n") = true ∧ m_mounted m b = true.

Lemma mounts_sees c w : sees (inspectDeviceMounts c) w (λ r _, ∀ b, r = inl b → b = true ↔ in_use c).
Proof.
  unfold inspectDeviceMounts. apply look. intros [l|e] w1 Hl; [|by apply swp_ret]. apply swp_bind.
  eapply (swp_for_each _ _ _ (λ rest _ _, ∃ pre, l = pre ++ rest ∧ ∀ b, b ∈ pre → HasPrefix b (c +:+ "n") = true → m_mounted m b = false)).
  - intros b rest [] w2 (pre & El & Hpre). assert (∀ b', b' ∈ pre ++ [b] → b' ∈ pre ∨ b' = b) as Hin by set_solver.
    destruct (negb _) eqn:Ep.
    { apply swp_ret; [done|]. exists (pre ++ [b]). split; [by rewrite <- app_assoc|]. intros b' [?| ->]%Hin Hp; [by apply Hpre|].
      by rewrite Hp in Ep. }
    apply negb_false_iff in Ep. apply run_cmd. intros [out [err|]] w3 (Hm & _); [apply swp_ret; [done|]; by apply swp_ret|].
    specialize (Hm b eq_refl eq_refl eq_refl). cbn [fst] in Hm. rewrite Hm. destruct (m_mounted m b) eqn:Em; apply swp_ret; try done.
    + apply swp_ret; [done|]. intros b' [= <-]. split; [|done]. intros _. exists l, b. split_and!; [done| |done..]. set_solver.
    + exists (pre ++ [b]). split; [by rewrite <- app_assoc|]. intros b' [?| ->]%Hin Hp; [by apply Hpre|done].
  - intros [] w2 (pre & El & Hpre). split; [done|]. apply swp_ret; [done|]. intros b [= <-]. split; [done|].
    intros (l' & b & Hl' & Hb & Hp & Hm). rewrite app_nil_r in El. simpl in Hl. rewrite Hl in Hl'. simplify_eq. by rewrite Hpre in Hm.
  - exists []. split; [done|]. set_solver.
Qed.

(** What is offered of [raw] bytes: the most whole allocation units that leave one
    percent of them to the metadata. *)
Definition offers (raw bytes : Z) : Prop :=
  0 < bytes ∧ (AllocationUnitBytes | bytes) ∧ bytes ≤ raw * 99 / 100 < bytes + AllocationUnitBytes.

Lemma capacity_offers n b u : int64 n → int64 b →
  (let? raw := checkedCapacityBytes n b in allocatableNamespaceBytes raw) = inl u → offers (n * b) u.
Proof.
  intros Hn Hb E. pose proof (checkedCapacityBytes_spec n b Hn Hb) as H1. destruct (checkedCapacityBytes n b) as [raw|]; [|done].
  destruct H1 as (_ & _ & -> & Hr). pose proof (allocatableNamespaceBytes_spec (n * b) ltac:(unfold int64, MinInt64; unfold_cap; lia)) as H2.
  cbn [rbind] in E. rewrite E in H2. destruct H2 as (-> & ? & _). split; [done|]. split; [apply Z.divide_factor_r|].
  pose proof (Z.div_mod (n * b * 99 / 100) AllocationUnitBytes ltac:(done)).
  pose proof (Z.mod_pos_bound (n * b * 99 / 100) AllocationUnitBytes ltac:(done)). lia.
Qed.

(** The size of the first name space of a controller in sectors of 512 bytes. *)
Definition sectors (c : string) : option Z := ParseInt (TrimSpace (m_file m (filepath_Join [sysClassBlock; c +:+ "n1"; "size"]))) 10 64.

Lemma bytes_sees c w : sees (calculatePrimaryNamespaceBytes c) w (λ r _, ∀ u, r = inl u → ∃ n, sectors c = Some n ∧ offers (n * 512) u).
Proof.
  unfold calculatePrimaryNamespaceBytes. change (Itoa primaryNamespaceID) with "1". apply look. intros [s|e] w1 Hs; [|by apply swp_ret].
  rewrite (Hs s eq_refl). destruct (ParseInt _ 10 64) as [n|] eqn:En; apply swp_ret; try done. intros u Hu.
  exists n. split; [exact En|]. apply capacity_offers; [by eapply ParseInt_int64|done|done].
Qed.

(** A controller that discovery must report. *)
Definition devPath (c : string) : string := filepath_Join [sysClassNVMe; c].
Definition serial_of (c : string) : string := TrimSpace (m_file m (filepath_Join [devPath c; "serial"])).
Definition address_of (c : string) : string := ToLower (Base (m_link m (filepath_Join [devPath c; "device"]))).

Definition eligible (p : discoveryPolicy) (c : string) : Prop :=
  HasPrefix c "nvme" = true ∧ TrimSpace (m_file m (filepath_Join [devPath c; "transport"])) = "pcie" ∧
  permits p (address_of c) = true ∧ ¬ in_use c.

Definition acceptable (p : discoveryPolicy) (d : HardwareNVMe) : Prop :=
  permits p (hw_PCIAddress d) = true ∧ validateHardwareNVMe d = None.

Definition from_kernel (p : discoveryPolicy) (c : string) (d : HardwareNVMe) : Prop :=
  hw_Name d = c ∧ hw_SerialNumber d = serial_of c ∧ hw_PCIAddress d = address_of c ∧
  (∃ n, sectors c = Some n ∧ offers (n * 512) (hw_TotalBytes d)) ∧
  (unsafeMountInspection p = false → ¬ in_use c).

Definition kernel_spec (p : discoveryPolicy) (c : string) (r : option (HardwareNVMe + error)) : Prop :=
  match r with
  | Some (inl d) => acceptable p d ∧ from_kernel p c d
  | Some (inr _) => True
  | None => ¬ eligible p c
  end.

Lemma kernelDevice_sees p c w : sees (kernelDevice p c) w (λ r _, kernel_spec p c r).
Proof.
  unfold kernelDevice. cbv zeta. destruct (HasPrefix c "nvme") eqn:Ec; simpl negb; cbv iota.
  2:{ apply swp_ret; [done|]. intros (? & _). congruence. }
  apply attribute_sees. intros tr w1 Htr. destruct (decide (tr = "pcie")) as [->|Hne].
  2:{ rewrite bool_decide_false by done. apply swp_ret; [done|]. intros (_ & Ht & _). unfold devPath in Ht. destruct Htr as [->| ->]; [done|]. congruence. }
  rewrite bool_decide_true by done. cbn [negb]. apply attribute_sees. intros model w2 _.
  apply look. intros [serial|e] w3 Hs; [|by apply swp_ret]. apply attribute_sees. intros numa w4 _.
  apply look. intros [link|e] w5 Hl; [|by apply swp_ret]. rewrite (Hs serial eq_refl), (Hl link eq_refl).
  fold (devPath c). fold (address_of c). fold (serial_of c). destruct (permits p (address_of c)) eqn:Ep; cbn [negb].
  2:{ apply swp_ret; [done|]. intros (_ & _ & ? & _). congruence. }
  apply swp_bind. eapply sees_mono; [|apply mounts_sees]. intros mounted w6 Hm. cbv beta.
  destruct mounted as [[]|e]; [apply swp_ret; [done|]; intros (_ & _ & _ & Hu); by apply Hu, (Hm true)| |].
  2: destruct (unsafeMountInspection p) eqn:Eu; [|by apply swp_ret].
  all: apply swp_bind; eapply sees_mono; [|apply bytes_sees]; intros [u|e'] w7 Hu; cbv beta iota; [|by apply swp_ret].
  all: match goal with |- context [validateHardwareNVMe ?d] => destruct (validateHardwareNVMe d) eqn:Ev end; apply swp_ret; try done.
  all: split; [done|split_and!; try done; try by apply Hu].
  - intros _ Hin. by apply (Hm false eq_refl) in Hin.
  - by rewrite Eu.
Qed.

(** ** Lists of devices *)

Definition kernel_ok (p : discoveryPolicy) (l : list string) (ds : list HardwareNVMe) : Prop :=
  ∀ d, d ∈ ds → acceptable p d ∧ ∃ c, c ∈ l ∧ from_kernel p c d.
Definition kernel_all (p : discoveryPolicy) (l : list string) (ds : list HardwareNVMe) : Prop :=
  ∀ c, c ∈ l → eligible p c → ∃ d, d ∈ ds ∧ hw_SerialNumber d = serial_of c.

Definition controllers : list string := default [] (m_dir m sysClassNVMe).

Lemma errors_Join_None errs : errors_Join errs = None ↔ errs = [].
Proof. by destruct errs. Qed.

Lemma kernel_sees p w : sees (discoverKernelNVMeWithPolicy p) w (λ r _,
  kernel_ok p controllers r.1 ∧ (r.2 = None → kernel_all p controllers r.1)).
Proof.
  unfold discoverKernelNVMeWithPolicy. apply look. intros [l|e] w1 Hl.
  2:{ apply swp_ret; [done|]. simpl in *. split; [intros d; set_solver|]. unfold kernel_all, controllers.
      destruct (os_IsNotExist e); [|done]. rewrite Hl by done. set_solver. }
  assert (controllers = l) as -> by (unfold controllers; simpl in Hl; by rewrite Hl). apply swp_bind.
  eapply (swp_for_each _ _ _ (λ rest s _, ∃ pre, l = pre ++ rest ∧ kernel_ok p pre s.1 ∧ (s.2 = [] → kernel_all p pre s.1))).
  - intros c rest [ds errs] w2 (pre & -> & Hok & Hall). apply swp_bind. eapply sees_mono; [|apply kernelDevice_sees].
    intros r w3 Hr. apply swp_ret; [done|]. exists (pre ++ [c]). split; [by rewrite <- app_assoc|]. simpl in *.
    destruct r as [[d|e]|]; simpl in *.
    + destruct Hr as [Ha Hk]. split.
      * intros d' [Hd|Hd%list_elem_of_singleton]%elem_of_app; [|subst d'; split; [done|]; exists c; set_solver].
        destruct (Hok d' Hd) as [? (c' & ? & ?)]. split; [done|]. exists c'. set_solver.
      * intros He c' [Hc|Hc%list_elem_of_singleton]%elem_of_app Hel.
        -- destruct (Hall He c' Hc Hel) as (d' & ? & ?). exists d'. set_solver.
        -- subst c'. exists d. split; [set_solver|]. apply Hk.
    + split; [|by intros [_ ?]%app_nil]. intros d' Hd. destruct (Hok d' Hd) as [? (c' & ? & ?)]. split; [done|]. exists c'. set_solver.
    + split.
      * intros d' Hd. destruct (Hok d' Hd) as [? (c' & ? & ?)]. split; [done|]. exists c'. set_solver.
      * intros He c' [Hc|Hc%list_elem_of_singleton]%elem_of_app Hel; [by apply Hall|]. by subst c'.
  - intros [ds errs] w2 (pre & E & Hok & Hall). split; [done|]. apply swp_ret; [done|]. rewrite app_nil_r in E. subst pre.
    split; [done|]. simpl. intros ?%errors_Join_None. by apply Hall.
  - exists []. split_and!; [done|intros d; set_solver|intros _ c; set_solver].
Qed.

(** ** The devices of SPDK *)

(** The numbers of a block device are Go integers. *)
Hypothesis bdevs_int64 : ∀ l b, m_bdevs m = Some l → b ∈ l → int64 (bdev_NumBlocks b) ∧ int64 (bdev_BlockSize b).

Definition from_bdev (b : SpdkBdev) (d : HardwareNVMe) : Prop :=
  ∃ n rest, bdev_NVMe b = n :: rest ∧ ns_ID n = primaryNamespaceID ∧ hw_Name d = bdev_Name b ∧
    hw_SerialNumber d = TrimSpace (ns_SerialNumber n) ∧ hw_PCIAddress d = ToLower (TrimSpace (ns_PCIAddress n)) ∧
    offers (bdev_NumBlocks b * bdev_BlockSize b) (hw_TotalBytes d).

Definition eligible_bdev (p : discoveryPolicy) (b : SpdkBdev) : Prop :=
  ∃ n rest, bdev_NVMe b = n :: rest ∧ ns_ID n = primaryNamespaceID ∧ permits p (ToLower (TrimSpace (ns_PCIAddress n))) = true.

Lemma bdevDevice_spec p b : int64 (bdev_NumBlocks b) ∧ int64 (bdev_BlockSize b) →
  match bdevDevice p b with
  | Some (inl d) => acceptable p d ∧ from_bdev b d
  | Some (inr _) => True
  | None => ¬ eligible_bdev p b
  end.
Proof.
  intros [Hn Hb]. unfold bdevDevice. destruct (bdev_NVMe b) as [|n rest] eqn:En; [intros (? & ? & ? & _); congruence|].
  destruct (Z.eqb_spec (ns_ID n) 0); [done|]. destruct (Z.eqb_spec (ns_ID n) primaryNamespaceID) as [Eid|Hid]; cbn [negb].
  2:{ intros (n' & r' & E & ? & _). congruence. }
  destruct (let? _ := _ in _) as [u|e] eqn:Eu; [|done]. cbv zeta. cbn [hw_PCIAddress]. destruct (permits p _) eqn:Ep; cbn [negb].
  2:{ intros (n' & r' & E & _ & ?). rewrite En in E. simplify_eq. congruence. }
  destruct (validateHardwareNVMe _) eqn:Ev; [done|]. split.
  - done.
  - exists n, rest. split_and!; try done. exact (capacity_offers _ _ _ Hn Hb Eu).
Qed.

Definition spdk_ok (p : discoveryPolicy) (l : list SpdkBdev) (ds : list HardwareNVMe) : Prop :=
  ∀ d, d ∈ ds → acceptable p d ∧ ∃ b, b ∈ l ∧ from_bdev b d.
Definition spdk_all (p : discoveryPolicy) (l : list SpdkBdev) (ds : list HardwareNVMe) : Prop :=
  ∀ b, b ∈ l → eligible_bdev p b → ∃ d, d ∈ ds ∧ from_bdev b d.

Lemma spdk_loop p l : (∀ b, b ∈ l → int64 (bdev_NumBlocks b) ∧ int64 (bdev_BlockSize b)) →
  spdk_ok p l (hardwareFromSPDKBdevs_loop p l).1 ∧
  ((hardwareFromSPDKBdevs_loop p l).2 = [] → spdk_all p l (hardwareFromSPDKBdevs_loop p l).1).
Proof.
  intros Hl. induction l as [|b l IH]; [split; [intros d|intros _ b]; set_solver|]. cbn [hardwareFromSPDKBdevs_loop].
  destruct IH as [Hok Hall]; [intros; apply Hl; set_solver|]. pose proof (bdevDevice_spec p b (Hl b ltac:(set_solver))) as Hb.
  destruct (hardwareFromSPDKBdevs_loop p l) as [ds errs]. simpl in *.
  assert (spdk_ok p (b :: l) ds) as Hok' by (intros d Hd; destruct (Hok d Hd) as [? (b' & ? & ?)]; split; [done|]; exists b'; set_solver).
  destruct (bdevDevice p b) as [[d|e]|]; simpl; [|split; done|].
  - destruct Hb as [Ha Hf]. split.
    + intros d' [->|Hd]%elem_of_cons; [split; [done|]; exists b; set_solver|by apply Hok'].
    + intros He b' [->|Hb]%elem_of_cons Hel; [exists d; set_solver|]. destruct (Hall He b' Hb Hel) as (d' & ? & ?). exists d'. set_solver.
  - split; [done|]. intros He b' [->|Hb']%elem_of_cons Hel; [done|]. by apply Hall.
Qed.

Definition bdevs : list SpdkBdev := default [] (m_bdevs m).

Lemma spdk_sees p w : sees (discoverSPDKNVMeWithPolicy p) w (λ r w', spdk_ok p bdevs r.1 ∧ (r.2 = None → w' = false → spdk_all p bdevs r.1)).
Proof.
  unfold discoverSPDKNVMeWithPolicy. apply pidof_cmd. intros [out [e|]] (_ & Hp & _); simpl in Hp; cbv beta iota.
  { apply swp_ret; [done|]. split; [intros d; set_solver|]. intros _ Hw. unfold undecided in Hw. simpl in Hw.
    bool_to_prop. assert (e = ExitErr 1) as -> by congruence. unfold bdevs. rewrite Hp by done. intros b; set_solver. }
  unfold CallSPDKRPCInto. apply swp_bind, swp_bind. unfold runSPDKRPC. apply run_cmd. intros [out' [e|]] w2 (_ & _ & Hr); simpl in Hr; cbv beta iota.
  { apply look. intros c w3 _. destruct c; do 3 (apply swp_ret; [done|]); (split; [intros d; set_solver|done]). }
  apply swp_ret; [done|]. cbv beta iota. destruct (unmarshal (rpcOutput out')) as [l|e] eqn:El.
  - apply swp_ret; [done|]. apply swp_ret; [done|]. specialize (Hr eq_refl eq_refl eq_refl l eq_refl). unfold bdevs. rewrite Hr. simpl.
    unfold hardwareFromSPDKBdevs. destruct (spdk_loop p l (λ b, bdevs_int64 l b Hr)) as [Hok Hall].
    destruct (hardwareFromSPDKBdevs_loop p l) as [ds errs]. split; [done|]. simpl. intros ?%errors_Join_None _. by apply Hall.
  - do 2 (apply swp_ret; [done|]). split; [intros d; set_solver|done].
Qed.

(** ** The union *)

Lemma newSerials_sub seen l d : d ∈ newSerials seen l → d ∈ l ∧ serialKey d ∉ seen.
Proof.
  revert seen. induction l as [|d' l IH]; intros seen; simpl; [set_solver|]. destruct (_ && _) eqn:E.
  - apply andb_prop in E as [_ E%negb_true_iff]. bool_to_prop. intros [->|Hd]%elem_of_cons; [set_solver|]. apply IH in Hd. set_solver.
  - intros Hd%IH. set_solver.
Qed.

Lemma newSerials_NoDup seen l : NoDup (serialKey <$> newSerials seen l).
Proof.
  revert seen. induction l as [|d l IH]; intros seen; simpl; [constructor|]. destruct (_ && _); [|done]. simpl. constructor; [|done].
  intros (d' & E & Hd)%list_elem_of_fmap. apply newSerials_sub in Hd. set_solver.
Qed.

Lemma newSerials_all seen l d : d ∈ l → serialKey d ≠ "" → serialKey d ∈ seen ∨ ∃ d', d' ∈ newSerials seen l ∧ serialKey d' = serialKey d.
Proof.
  revert seen. induction l as [|d' l IH]; intros seen Hd Hk; [set_solver|]. simpl.
  destruct (decide (serialKey d' = serialKey d)) as [E|Hne].
  - rewrite E. rewrite (bool_decide_false (serialKey d = "")) by done. destruct (decide (serialKey d ∈ seen)) as [?|Hn]; [by left|].
    rewrite bool_decide_false by done. right. exists d'. set_solver.
  - apply elem_of_cons in Hd as [->|Hd]; [done|]. destruct (_ && _).
    + destruct (IH ({[serialKey d']} ∪ seen) Hd Hk) as [?|(d'' & ? & ?)]; [set_solver|]. right. exists d''. set_solver.
    + by apply IH.
Qed.

Definition discovered (d : HardwareNVMe) : Prop :=
  ∃ p, policy_of p ∧ acceptable p d ∧ ((∃ c, c ∈ controllers ∧ from_kernel p c d) ∨ ∃ b, b ∈ bdevs ∧ from_bdev b d).

(** Every eligible controller is represented in [ds], and so is, unless pidof told
    nothing, every eligible block device of a running SPDK target. *)
Definition nothing_missed (blind : bool) (ds : list HardwareNVMe) : Prop :=
  ∃ p, policy_of p ∧
    (∀ c, c ∈ controllers → eligible p c → ∃ d, d ∈ ds ∧ serialKey d = ToLower (serial_of c)) ∧
    (blind = false → ∀ b, b ∈ bdevs → eligible_bdev p b →
       ∃ d, d ∈ ds ∧ ∃ n rest, bdev_NVMe b = n :: rest ∧ serialKey d = ToLower (TrimSpace (ns_SerialNumber n))).

Lemma acceptable_serial p d : acceptable p d → serialKey d ≠ "".
Proof.
  intros (_ & Hv). unfold validateHardwareNVMe in Hv. destruct (_ ==? _) in Hv; [done|]. destruct (TrimSpace (hw_SerialNumber d) ==? "") eqn:E; [done|].
  bool_to_prop. unfold serialKey. by destruct (TrimSpace (hw_SerialNumber d)).
Qed.

Lemma trim_serial s : ToLower (TrimSpace (TrimSpace s)) = ToLower (TrimSpace s).
Proof. by rewrite TrimSpace_idemp. Qed.

Lemma discover_sees w : sees DiscoverNVMe w (λ r w',
  NoDup (serialKey <$> r.1) ∧ (∀ d, d ∈ r.1 → discovered d) ∧ (r.2 = None → nothing_missed w' r.1)).
Proof.
  unfold DiscoverNVMe. apply swp_bind. eapply sees_mono; [|apply policy_sees]. intros [p|e] w1 Hp.
  2:{ apply swp_ret; [done|]. split_and!; [constructor|intros d; set_solver|done]. }
  specialize (Hp p eq_refl). apply swp_bind. eapply sees_mono; [|apply kernel_sees]. intros [kd ke] w2 [Kok Kall].
  apply swp_bind. eapply sees_mono; [|apply spdk_sees]. intros [sd se] w3 [Sok Sall]. apply swp_ret; [done|]. simpl in *.
  assert (∀ d, d ∈ kd ++ sd → ∃ d', d' ∈ newSerials ∅ (kd ++ sd) ∧ serialKey d' = serialKey d) as Hin.
  { intros d Hd. destruct (newSerials_all ∅ (kd ++ sd) d Hd) as [?|?]; [|set_solver|done].
    apply elem_of_app in Hd as [Hd|Hd]; [apply Kok in Hd as [Hd _]|apply Sok in Hd as [Hd _]]; by eapply acceptable_serial. }
  split_and!; [apply newSerials_NoDup|..].
  - intros d [[Hd|Hd]%elem_of_app _]%newSerials_sub; exists p.
    + apply Kok in Hd as [? ?]. auto.
    + apply Sok in Hd as [? ?]. auto.
  - intros He. assert (ke = None ∧ se = None) as [-> ->] by (by destruct ke, se). exists p. split_and!; [done|..].
    + intros c Hc Hel. destruct (Kall eq_refl c Hc Hel) as (d & Hd & Es). destruct (Hin d ltac:(set_solver)) as (d' & ? & E). exists d'.
      split; [done|]. rewrite E. unfold serialKey. rewrite Es. apply trim_serial.
    + intros Hw b Hb Hel. destruct (Sall eq_refl Hw b Hb Hel) as (d & Hd & n & rest & En & _ & _ & Es & _).
      destruct (Hin d ltac:(set_solver)) as (d' & ? & E). exists d'. split; [done|]. exists n, rest. split; [done|]. rewrite E.
      unfold serialKey. rewrite Es. apply trim_serial.
Qed.

End Discover.

(** C33: Every device that discovery returns is real and permitted, whatever
    fails to be read, what is read being true of the machine.  It passes the checks and the policy of the environment, and
    it is one of two kinds.  It is a controller of the kernel, with its serial
    number and PCI address, from which nothing is mounted unless the operator
    allowed devices whose mounts cannot be inspected, and its capacity is the most
    whole allocation units in 99 percent of the size that sysfs gives for its name
    space 1.  Or it is a block device of the SPDK target whose first name space has
    the identifier 1, with the serial number and PCI address of that, and with the
    same share of its blocks times their size as the capacity; nothing is said
    about mounts of such a device.  No two devices have the same serial number. *)
Theorem discovery_sound `{Quoting} `{Unmarshal (list SpdkBdev)} m w w' ds err :
  (∀ l b, m_bdevs m = Some l → b ∈ l → int64 (bdev_NumBlocks b) ∧ int64 (bdev_BlockSize b)) →
  reaches (machine_step m) DiscoverNVMe w (Ret (ds, err)) w' →
  NoDup (serialKey <$> ds) ∧ ∀ d, d ∈ ds → discovered m d.
Proof.
  intros Hb Hr. destruct (swp_sound _ _ _ _ _ _ _ (discover_sees m Hb w) Hr) as [_ HQ]. destruct (HQ _ eq_refl) as (? & ? & _). done.
Qed.

(** C34: A discovery without error, what it reads being true of the machine, has
    missed no controller of the kernel: every
    permitted PCIe controller from which nothing is mounted is represented by a
    device of its serial number.  It has missed no device of SPDK either, provided
    that pidof either found the target or exited with the status 1 that stands for
    no such process: then every permitted block device of a running target whose
    first name space has the identifier 1 is represented likewise.  When pidof
    fails in another way, discovery takes the target as not running and reports no
    error, see [failing_pidof_misses]. *)
Theorem discovery_complete `{Quoting} `{Unmarshal (list SpdkBdev)} m w w' ds :
  (∀ l b, m_bdevs m = Some l → b ∈ l → int64 (bdev_NumBlocks b) ∧ int64 (bdev_BlockSize b)) →
  reaches (machine_step m) DiscoverNVMe w (Ret (ds, None)) w' → nothing_missed m w' ds.
Proof.
  intros Hb Hr. destruct (swp_sound _ _ _ _ _ _ _ (discover_sees m Hb w) Hr) as [_ HQ]. destruct (HQ _ eq_refl) as (_ & _ & H'). by apply H'.
Qed.

Module DiscoveryExample.

#[local] Instance quoting : Quoting := λ s, s.
#[local] Instance no_bdevs : Unmarshal (list SpdkBdev) := λ _, Err (Errorf "no output").

(** One controller with a name space of 1 GiB, nothing mounted, no SPDK target. *)
Definition box : machine := {|
  m_env := λ _, "";
  m_dir := λ p, if p ==? sysClassNVMe then Some ["nvme0"] else if p ==? sysClassBlock then Some ["nvme0n1"; "sda"] else None;
  m_file := λ p, if p ==? "/sys/class/nvme/nvme0/transport" then "pcie"
                 else if p ==? "/sys/class/nvme/nvme0/serial" then "S1 " else "2097152";
  m_link := λ _, "../../../0000:01:00.0";
  m_mounted := λ _, false;
  m_bdevs := None
|}.

Definition handle (w : bool) (o : hostOp) : hostRep o * bool :=
  (match o return hostRep o with
   | Getenv name => m_env box name
   | ReadDir p => match m_dir box p with Some l => inl l | None => inr (OsErr ENOENT) end
   | ReadFile p => inl (m_file box p)
   | Readlink p => inl (m_link box p)
   | Exec _ cmd _ => if cmd ==? "lsblk" then ("", None) else ("", Some (ExitErr 1))
   | CtxErrOp => None
   | SelectOp => TimedOut
   | Stat _ | Lstat _ => inr (OsErr ENOENT)
   | EvalSymlinks _ | DeviceNumber _ => inl ""
   | WriteFile _ _ | Mkdir _ | MkdirAll _ | Remove _ | Symlink _ _ | StartTarget _ | KillTarget | SetRlimit _ => None
   | InterfaceAddrs _ => inl []
   | Rlimit => inl (0, 0)
   | ManagedTarget | TargetExited | ReapTarget => false
   | InterfaceUp _ => inl false
   | SetManagedTarget _ => tt
   end, match o with Exec _ cmd _ => if cmd ==? "pidof" then false else w | _ => w end).

Lemma handle_truthful w o : machine_step box w o (handle w o).1 (handle w o).2.
Proof.
  split; [|destruct o; try done; simpl; case_bool_decide as E; [by subst|done]].
  destruct o; simpl; try done.
  - by intros s [= <-].
  - by intros s [= <-].
  - by destruct (path ==? sysClassNVMe); [|destruct (path ==? sysClassBlock)].
  - destruct (decide (command = "lsblk")) as [->|Hne]; [by split_and!|]. rewrite bool_decide_false by done. split_and!; try done.
Qed.

Definition found : HardwareNVMe := {|
  hw_Name := "nvme0"; hw_PCIAddress := "0000:01:00.0"; hw_SerialNumber := "S1"; hw_Model := "2097152";
  hw_TotalBytes := 1061158912; hw_NUMANode := 2097152
|}.

Lemma discover_run : reaches (machine_step box) DiscoverNVMe false (Ret ([found], None)) false.
Proof.
  pose proof (run_reaches (machine_step box) handle DiscoverNVMe false handle_truthful) as H.
  assert (run handle DiscoverNVMe false = (([found], None), false)) as E by (vm_compute; reflexivity). by rewrite E in H.
Qed.

(** The same with a running target that has one device, when pidof cannot be run. *)
Definition spdk_bdev : SpdkBdev := {|
  bdev_Name := "Nvme1n1"; bdev_BlockSize := 512; bdev_NumBlocks := 2097152;
  bdev_NVMe := [{| ns_PCIAddress := "0000:02:00.0"; ns_ModelNumber := "M"; ns_SerialNumber := "S2"; ns_ID := 1 |}]
|}.

Definition spdk_box : machine := {|
  m_env := m_env box; m_dir := m_dir box; m_file := m_file box; m_link := m_link box; m_mounted := m_mounted box;
  m_bdevs := Some [spdk_bdev]
|}.

Definition failing_handle (w : bool) (o : hostOp) : hostRep o * bool :=
  match o with
  | Exec _ cmd _ => if cmd ==? "lsblk" then (("", None), w) else (("", Some (OsErr ENOENT)), if cmd ==? "pidof" then true else w)
  | o => handle w o
  end.

Lemma failing_handle_truthful w o : machine_step spdk_box w o (failing_handle w o).1 (failing_handle w o).2.
Proof.
  assert (∀ env cmd args, machine_step spdk_box w (Exec env cmd args)
    (failing_handle w (Exec env cmd args)).1 (failing_handle w (Exec env cmd args)).2) as Hexec.
  { intros env cmd args. unfold failing_handle.
    destruct (decide (cmd = "lsblk")) as [->|Hne]; [by split; [split_and!|]|].
    rewrite (bool_decide_false (cmd = "lsblk")) by done. split; [by split_and!|done]. }
  pose proof (handle_truthful w o) as H. destruct o; try exact H. apply Hexec.
Qed.

(** A failure of pidof hides the devices of a running target, without an error. *)
Lemma failing_pidof_misses :
  reaches (machine_step spdk_box) DiscoverNVMe false (Ret ([found], None)) true ∧ ¬ nothing_missed spdk_box false [found].
Proof.
  split.
  - pose proof (run_reaches (machine_step spdk_box) failing_handle DiscoverNVMe false failing_handle_truthful) as H.
    assert (run failing_handle DiscoverNVMe false = (([found], None), true)) as E by (vm_compute; reflexivity). by rewrite E in H.
  - intros (p & (Ha & He & _) & _ & H). destruct (H eq_refl spdk_bdev) as (d & Hd & n & rest & En & Es).
    + by apply list_elem_of_singleton.
    + assert (∀ x, parsePCIAddressSet "" = inl x → x = ∅) as Hempty
        by (intros x Hx; change (inl ∅ = (inl x : result (gset string))) in Hx; congruence).
      apply Hempty in Ha, He. eexists _, _. split; [done|]. split; [done|]. unfold permits. by rewrite Ha, He.
    + apply list_elem_of_singleton in Hd as ->. simpl in En. injection En as <- <-. vm_compute in Es. discriminate.
Qed.

End DiscoveryExample.

#[local] Existing Instance DiscoveryExample.quoting.
#[local] Existing Instance DiscoveryExample.no_bdevs.

Lemma discovery_sound_witness : discovered DiscoveryExample.box DiscoveryExample.found.
Proof.
  apply (discovery_sound DiscoveryExample.box false false [DiscoveryExample.found] None ltac:(intros l b [=]) DiscoveryExample.discover_run).
  by apply list_elem_of_singleton.
Defined.

Lemma discovery_complete_witness : nothing_missed DiscoveryExample.box false [DiscoveryExample.found].
Proof. apply (discovery_complete DiscoveryExample.box false false [DiscoveryExample.found] ltac:(intros l b [=]) DiscoveryExample.discover_run). Defined.
