(* ===== verification/RdmaDiscovery.v ===== *)
(** * Discovery of the RDMA endpoint

    Models src/internal/agent/rdma_discovery.go: which active port of an RDMA
    device leads to a network interface with an address that other nodes reach.
    The parts of Go's net and strconv packages it uses are written out:
    [net.ParseCIDR], the text of a [net.IP], and unsigned numbers with a prefix
    for their base. *)

From S2P Require Import Prelude GoStrings GoPath Encoding ApiTypes RdmaHealth Prog Kube Host.

(** ** strconv.ParseUint with base 0 *)

(** Underscores only between digits; [last] is '0' after a digit or a base
    prefix, '_' after an underscore, and something else otherwise. *)
Fixpoint underscore_from (hex : bool) (last : ascii) (s : string) : bool :=
  match s with
  | EmptyString => negb (last ==? "_"%char)
  | String c s =>
    if is_digit c || (hex && match digit_of c with Some d => (10 <=? d) && (d <? 16) | None => false end)
    then underscore_from hex "0"%char s
    else if c ==? "_"%char then (last ==? "0"%char) && underscore_from hex "_"%char s
    else negb (last ==? "_"%char) && underscore_from hex "!"%char s
  end.

Definition base_letter (c : ascii) : option Z :=
  if (c ==? "b"%char) || (c ==? "B"%char) then Some 2
  else if (c ==? "o"%char) || (c ==? "O"%char) then Some 8
  else if (c ==? "x"%char) || (c ==? "X"%char) then Some 16
  else None.

Definition underscoreOK (s : string) : bool :=
  match s with
  | String "0" (String c r) =>
    match base_letter c with
    | Some base => underscore_from (base =? 16) "0"%char r
    | None => underscore_from false "^"%char s
    end
  | _ => underscore_from false "^"%char s
  end.

Fixpoint strip_underscores (s : string) : string :=
  match s with
  | EmptyString => EmptyString
  | String c s => if c ==? "_"%char then strip_underscores s else String c (strip_underscores s)
  end.

(** The base and the digits that follow its prefix. *)
Definition base_prefix (s : string) : Z * string :=
  match s with
  | String "0" (String c (String d r)) =>
    match base_letter c with Some base => (base, String d r) | None => (8, String c (String d r)) end
  | String "0" r => (8, r)
  | _ => (10, s)
  end.

Definition ParseUint0 (s : string) (bits : Z) : option Z :=
  if s ==? "" then None
  else
    let '(base, digits) := base_prefix s in
    match parse_digits base (strip_underscores digits) 0 with
    | None => None
    | Some v =>
      if negb (no_byte "_" digits) && negb (underscoreOK s) then None
      else if v <=? 2 ^ bits - 1 then Some v else None
    end.

(** ** net *)

Module Addr.
Import Net.

(** The eight 16-bit groups of an address. *)
Definition groups (ip : IP) : list Z := map (λ i, byte_at ip (2 * i) * 256 + byte_at ip (2 * i + 1)) (seq 0 8).

(** The length of the run of zeros at the head. *)
Fixpoint zeros (l : list Z) : nat :=
  match l with 0 :: l => S (zeros l) | _ => 0%nat end.

(** The longest run of at least two zero groups, the first one of that length:
    its start and length. *)
Fixpoint longest_zeros (i : nat) (l : list Z) (best : nat * nat) : nat * nat :=
  match l with
  | [] => best
  | _ :: l' =>
    let n := zeros l in
    longest_zeros (S i) l' (if (2 <=? n)%nat && (best.2 <? n)%nat then (i, n) else best)
  end.

Definition hex_groups (l : list Z) : string := JoinStrings (map (λ g, FormatInt g 16) l) ":".

Definition String6 (ip : IP) : string :=
  match longest_zeros 0 (groups ip) (0%nat, 0%nat) with
  | (_, O) => hex_groups (groups ip)
  | (start, n) => hex_groups (take start (groups ip)) +:+ "::" +:+ hex_groups (drop (start + n) (groups ip))
  end.

(** [net.IP.String]. *)
Definition ip_String (ip : IP) : string :=
  match To4 ip with
  | Some ip4 => JoinStrings (map Itoa ip4) "."
  | None => String6 ip
  end.

(** [net.ParseCIDR]: the address; the prefix length must fit its family. *)
Definition ParseCIDR (s : string) : option IP :=
  match CutByte "/" s with
  | None => None
  | Some (addr, mask) =>
    match ParseIP addr, (if str_all is_digit mask then parse_nat 10 mask else None) with
    | Some ip, Some n =>
      let bits := if bool_decide (family addr = Some "."%char) then 32 else 128 in
      if n <=? bits then Some ip else None
    | _, _ => None
    end
  end.

End Addr.

(** The order of sort.Slice by name: names are different, so it is the only one. *)
Definition name_le (a b : string) : Prop := String.leb a b = true.

#[global] Instance name_le_dec : RelDecision name_le.
Proof. intros a b. unfold name_le. apply _. Defined.

Definition sortNames (names : list string) : list string := merge_sort name_le names.

Module RdmaDiscovery.
Import Addr.

Definition sysClassInfiniBand : string := "/sys/class/infiniband".
Definition sysClassNet : string := "/sys/class/net".

Record RDMAEndpoint := {
  ep_Interface : string;
  ep_IP : string;
  ep_Transport : RDMATransportType;
  ep_LinkSpeed : string
}.

Definition rdmaPortIsActive (state : string) : bool :=
  let state := TrimSpace state in
  let state := match CutByte ":" state with Some (_, value) => TrimSpace value | None => state end in
  EqualFold state "ACTIVE".

Fixpoint appendUniqueStrings (values additions : list string) : list string :=
  match additions with
  | [] => values
  | addition :: additions =>
    appendUniqueStrings (if bool_decide (addition ∈ values) then values else values ++ [addition]) additions
  end.

(** ** Addresses of an interface *)

Fixpoint selectFrom (addresses : list string) (ipv6 : string) : result string :=
  match addresses with
  | [] => if ipv6 !=? "" then Ok ipv6 else Err (Errorf "no routable unicast IP address")
  | address :: addresses =>
    match ParseCIDR address with
    | None => selectFrom addresses ipv6
    | Some ip =>
      if negb (is_ok (ParseUsableIP (ip_String ip))) then selectFrom addresses ipv6
      else if bool_decide (is_Some (Net.To4 ip)) then Ok (ip_String ip)
      else selectFrom addresses (if ipv6 ==? "" then ip_String ip else ipv6)
    end
  end.

Definition selectRoutableAddress (addresses : list string) : result string := selectFrom addresses "".

Definition interfaceAddress (name : string) : host (result string) :=
  let! up := hcall (InterfaceUp name) in
  match up with
  | inr err => Ret (Err (Wrap "resolve RDMA interface" err))
  | inl false => Ret (Err (Errorf "RDMA interface is down"))
  | inl true =>
    let! addresses := hcall (InterfaceAddrs name) in
    match addresses with
    | inr err => Ret (Err (Wrap "list RDMA interface addresses" err))
    | inl addresses =>
      Ret (match selectRoutableAddress addresses with
           | inl ip => Ok ip
           | inr _ => Err (Errorf "RDMA interface has no usable IP address")
           end)
    end
  end.

(** ** The interfaces of a port *)

(** The interfaces that the GID table names; the counter is that of unreadable
    entries. *)
Definition rdmaGIDNetDevices (portRoot : string) : host (result (list string)) :=
  let!? entries := hcall (ReadDir (filepath_Join [portRoot; "gid_attrs"; "ndevs"])) in
  let! r := for_each (B := Empty_set) (sortNames entries) ([], 0%nat) (λ entry '(interfaces, unreadable),
    let! value := hcall (ReadFile (filepath_Join [portRoot; "gid_attrs"; "ndevs"; entry])) in
    Ret (inl (match value with
              | inr _ => (interfaces, S unreadable)
              | inl value =>
                if TrimSpace value !=? "" then (appendUniqueStrings interfaces [TrimSpace value], unreadable)
                else (interfaces, unreadable)
              end))) in
  match r with
  | inr e => match e with end
  | inl (interfaces, unreadable) =>
    if (0 <? length interfaces)%nat then Ret (Ok interfaces)
    else if (0 <? unreadable)%nat then Ret (Err (Errorf "mapping entries unreadable"))
    else Ret (Err (Errorf "mapping entries are empty"))
  end.

Definition networkDevicePort (interfaceRoot : string) : host (result Z) :=
  let! r := for_each ["dev_port"; "dev_id"] tt (λ property _,
    let! value := hcall (ReadFile (filepath_Join [interfaceRoot; property])) in
    Ret (match value with
         | inr _ => inl tt
         | inl value => match ParseUint0 (TrimSpace value) 32 with Some port => inr port | None => inl tt end
         end)) in
  Ret (match r with inr port => Ok port | inl _ => Err (Errorf "network interface has no valid dev_port or dev_id") end).

Definition is_ipoib (rdmaDevicePath : string) (portNumber : Z) (interfaceRoot : string) : host bool :=
  let! networkType := hcall (ReadFile (filepath_Join [interfaceRoot; "type"])) in
  match networkType with
  | inr _ => Ret false
  | inl networkType =>
    if TrimSpace networkType !=? "32" then Ret false
    else
      let! interfaceDevicePath := hcall (EvalSymlinks (filepath_Join [interfaceRoot; "device"])) in
      match interfaceDevicePath with
      | inr _ => Ret false
      | inl interfaceDevicePath =>
        if interfaceDevicePath !=? rdmaDevicePath then Ret false
        else
          let! devPort := networkDevicePort interfaceRoot in
          Ret (match devPort with inl devPort => devPort + 1 =? portNumber | inr _ => false end)
      end
  end.

Definition ipoibPortInterfaces (deviceName portName : string) : host (result (list string)) :=
  let! path := hcall (EvalSymlinks (filepath_Join [sysClassInfiniBand; deviceName; "device"])) in
  match path with
  | inr err => Ret (Err (Wrap "resolve RDMA device" err))
  | inl rdmaDevicePath =>
    match ParseUint portName 10 with
    | None => Ret (Err (Errorf "invalid RDMA port number"))
    | Some portNumber =>
      if (2 ^ 32 - 1 <? portNumber) || (portNumber =? 0) then Ret (Err (Errorf "invalid RDMA port number"))
      else
        let! entries := hcall (ReadDir sysClassNet) in
        match entries with
        | inr err => Ret (Err (Wrap "read network interfaces" err))
        | inl entries =>
          let! r := for_each (B := Empty_set) (sortNames entries) [] (λ entry interfaces,
            let! b := is_ipoib rdmaDevicePath portNumber (filepath_Join [sysClassNet; entry]) in
            Ret (inl (if b then appendUniqueStrings interfaces [entry] else interfaces))) in
          match r with
          | inr e => match e with end
          | inl interfaces =>
            if (length interfaces =? 0)%nat then Ret (Err (Errorf "no IPoIB interface matches RDMA device and port"))
            else Ret (Ok interfaces)
          end
        end
    end
  end.

Definition rdmaPortInterfaces (deviceName portName portRoot : string) (transport : RDMATransportType)
    : host (result (list string)) :=
  let! gid := rdmaGIDNetDevices portRoot in
  let interfaces := match gid with inl l => l | inr _ => [] end in
  let none := Err (Errorf "no associated network interface found") in
  if transport ==? RDMATransportInfiniBand then
    let! ipoib := ipoibPortInterfaces deviceName portName in
    let interfaces := appendUniqueStrings interfaces (match ipoib with inl l => l | inr _ => [] end) in
    Ret (if (length interfaces =? 0)%nat then none else Ok interfaces)
  else Ret (if (length interfaces =? 0)%nat then none else Ok interfaces).

(** ** The endpoint *)

(** The first interface of a port with a usable address; [inl] is whether a
    failure was noted. *)
Definition portEndpoint (deviceName portName portRoot : string) (failed : bool) : host (bool + RDMAEndpoint) :=
  let! state := hcall (ReadFile (filepath_Join [portRoot; "state"])) in
  match state with
  | inr _ => Ret (inl true)
  | inl state =>
    if negb (rdmaPortIsActive state) then Ret (inl failed)
    else
      let! linkLayer := hcall (ReadFile (filepath_Join [portRoot; "link_layer"])) in
      match linkLayer with
      | inr _ => Ret (inl true)
      | inl linkLayer =>
        match (if EqualFold (TrimSpace linkLayer) "Ethernet" then Some RDMATransportRoCEv2
               else if EqualFold (TrimSpace linkLayer) "InfiniBand" then Some RDMATransportInfiniBand
               else None) with
        | None => Ret (inl true)
        | Some transport =>
          let! interfaceNames := rdmaPortInterfaces deviceName portName portRoot transport in
          match interfaceNames with
          | inr _ => Ret (inl true)
          | inl interfaceNames =>
            for_each interfaceNames failed (λ interfaceName _,
              let! ip := interfaceAddress interfaceName in
              match ip with
              | inr _ => Ret (inl true)
              | inl ip =>
                let! rate := hcall (ReadFile (filepath_Join [portRoot; "rate"])) in
                Ret (inr {| ep_Interface := interfaceName; ep_IP := ip; ep_Transport := transport;
                            ep_LinkSpeed := TrimSpace (match rate with inl rate => rate | inr _ => "" end) |})
              end)
          end
        end
      end
  end.

Definition DiscoverRDMAEndpoint : host (result RDMAEndpoint) :=
  let! devices := hcall (ReadDir sysClassInfiniBand) in
  match devices with
  | inr err => Ret (Err (Wrap "read RDMA devices" err))
  | inl devices =>
    let! r := for_each (sortNames devices) false (λ deviceName failed,
      let portsRoot := filepath_Join [sysClassInfiniBand; deviceName; "ports"] in
      let! ports := hcall (ReadDir portsRoot) in
      match ports with
      | inr _ => Ret (inl true)
      | inl ports =>
        for_each ports failed (λ portName failed,
          portEndpoint deviceName portName (filepath_Join [portsRoot; portName]) failed)
      end) in
    Ret (match r with
         | inr endpoint => Ok endpoint
         | inl true => Err (Errorf "no usable active RDMA endpoint")
         | inl false => Err (Errorf "no active RDMA port with a non-loopback IP address")
         end)
  end.

End RdmaDiscovery.
