(* ===== verification/RdmaDiscoveryProps.v ===== *)
(** * Correctness of RDMA discovery

    A fabric is what sysfs and the network interfaces show.  Reading may fail at
    any time; what is read is true. *)

From S2P Require Import Prelude GoStrings GoPath Encoding ApiTypes RdmaHealth Prog Kube Host RdmaDiscovery.
Import Addr RdmaDiscovery.

(** ** The address that is chosen *)

(** The addresses of an interface that other nodes can reach. *)
Definition usable_addresses (addresses : list string) : list Net.IP :=
  omap (λ a, ip ← ParseCIDR a; if is_ok (ParseUsableIP (ip_String ip)) then Some ip else None) addresses.

Definition is_v4 (ip : Net.IP) : bool := bool_decide (is_Some (Net.To4 ip)).

(** The first IPv4 address, or else the first one. *)
Definition preferred (ips : list Net.IP) : option Net.IP :=
  match List.find is_v4 ips with Some ip => Some ip | None => head ips end.

Lemma usable_text ip : is_ok (ParseUsableIP (ip_String ip)) = true → ip_String ip ≠ "".
Proof. by intros H E; rewrite E in H. Qed.

Lemma selectFrom_spec addresses ipv6 : (ipv6 = "" ∨ is_ok (ParseUsableIP ipv6) = true) →
  selectFrom addresses ipv6 =
    match List.find is_v4 (usable_addresses addresses) with
    | Some ip => Ok (ip_String ip)
    | None =>
      if ipv6 ==? "" then
        match head (usable_addresses addresses) with Some ip => Ok (ip_String ip) | None => Err (Errorf "no routable unicast IP address") end
      else Ok ipv6
    end.
Proof.
  revert ipv6. induction addresses as [|a l IH]; intros ipv6 H6; simpl.
  { by destruct (ipv6 ==? ""). }
  destruct (ParseCIDR a) as [ip|]; simpl; [|by apply IH]. destruct (is_ok (ParseUsableIP (ip_String ip))) eqn:Eu; simpl; [|by apply IH].
  fold (is_v4 ip). destruct (is_v4 ip) eqn:E4; simpl; [done|]. rewrite IH by (destruct (ipv6 ==? ""); auto).
  destruct (List.find _ _); [done|]. destruct (decide (ipv6 = "")) as [->|Hne].
  - rewrite (bool_decide_true ("" = "")) by done. by rewrite bool_decide_false by (by apply usable_text).
  - rewrite (bool_decide_false (ipv6 = "")) by done. by rewrite bool_decide_false by done.
Qed.

(** The address that is advertised for an interface is its first IPv4 address
    that other nodes can reach or, when it has none, its first such IPv6 address;
    there is none exactly when the interface has no such address. *)
Theorem routable_address_exact addresses :
  selectRoutableAddress addresses =
    match preferred (usable_addresses addresses) with
    | Some ip => Ok (ip_String ip)
    | None => Err (Errorf "no routable unicast IP address")
    end.
Proof. unfold selectRoutableAddress, preferred. rewrite selectFrom_spec by auto. simpl. by destruct (List.find _ _). Qed.

Lemma select_usable addresses s : selectRoutableAddress addresses = inl s → is_ok (ParseUsableIP s) = true.
Proof.
  unfold selectRoutableAddress. rewrite selectFrom_spec by auto. simpl.
  assert (∀ ip, ip ∈ usable_addresses addresses → is_ok (ParseUsableIP (ip_String ip)) = true) as Hu.
  { intros ip (a & _ & Ha)%list_elem_of_omap. destruct (ParseCIDR a) as [ip'|]; simpl in Ha; [|done].
    destruct (is_ok _) eqn:E; [|done]. by simplify_eq. }
  destruct (List.find _ _) as [ip|] eqn:Ef.
  - intros [= <-]. apply find_some in Ef as [Hin _]. by apply Hu, list_elem_of_In.
  - destruct (head _) as [ip|] eqn:Eh; [|done]. intros [= <-]. apply Hu. destruct (usable_addresses addresses); [done|]. simplify_eq/=. set_solver.
Qed.

(** ** What is seen of a fabric *)

Record fabric := {
  f_dir : string → list string;
  f_file : string → string;
  f_real : string → string;
  f_up : string → bool;
  f_addrs : string → list string
}.

Section Fabric.
Variable f : fabric.

Definition fabric_true (o : hostOp) : hostRep o → Prop :=
  match o with
  | ReadDir p => λ x, ∀ l, x = inl l → l = f_dir f p
  | ReadFile p => λ x, ∀ s, x = inl s → s = f_file f p
  | EvalSymlinks p => λ x, ∀ s, x = inl s → s = f_real f p
  | InterfaceUp n => λ x, ∀ b, x = inl b → b = f_up f n
  | InterfaceAddrs n => λ x, ∀ l, x = inl l → l = f_addrs f n
  | _ => λ _, True
  end.

Definition fabric_step (w : unit) (o : hostOp) (x : hostRep o) (w' : unit) : Prop := fabric_true o x.

Local Notation sees := (swp fabric_step (λ _, True)).

Lemma fsees_mono {A} (p : host A) w (Q Q' : A → unit → Prop) : (∀ a w, Q a w → Q' a w) → sees p w Q → sees p w Q'.
Proof. intros HQ. apply swp_mono. auto. Qed.

Lemma flook {A} o (k : hostRep o → host A) w Q : (∀ x w', fabric_true o x → sees (k x) w' Q) → sees (bind (hcall o) k) w Q.
Proof. intros Hk. apply swp_vis; [done|]. intros x w' Hx. by apply Hk. Qed.

Definition address_ok (name ip : string) : Prop := f_up f name = true ∧ selectRoutableAddress (f_addrs f name) = inl ip.

Lemma address_sees n w : sees (interfaceAddress n) w (λ r _, ∀ ip, r = inl ip → address_ok n ip).
Proof.
  unfold interfaceAddress. apply flook. intros [b|e] w1 Hb; [|by apply swp_ret]. specialize (Hb b eq_refl). destruct b; [|by apply swp_ret].
  apply flook. intros [l|e] w2 Hl; apply swp_ret; try done. rewrite (Hl l eq_refl). intros ip Hip. split; [done|]. by destruct (selectRoutableAddress _).
Qed.

(** A network interface that belongs to a port. *)
Definition gid_interface (portRoot n : string) : Prop :=
  ∃ e, e ∈ f_dir f (filepath_Join [portRoot; "gid_attrs"; "ndevs"]) ∧
       TrimSpace (f_file f (filepath_Join [portRoot; "gid_attrs"; "ndevs"; e])) = n ∧ n ≠ "".

Definition port_number (interfaceRoot : string) (port : Z) : Prop :=
  ∃ property, property ∈ ["dev_port"; "dev_id"] ∧ ParseUint0 (TrimSpace (f_file f (filepath_Join [interfaceRoot; property]))) 32 = Some port.

Definition ipoib_interface (deviceName portName n : string) : Prop :=
  let root := filepath_Join [sysClassNet; n] in
  n ∈ f_dir f sysClassNet ∧ TrimSpace (f_file f (filepath_Join [root; "type"])) = "32" ∧
  f_real f (filepath_Join [root; "device"]) = f_real f (filepath_Join [sysClassInfiniBand; deviceName; "device"]) ∧
  ∃ port, ParseUint portName 10 = Some (port + 1) ∧ port_number root port.

Lemma append_elem values additions x : x ∈ appendUniqueStrings values additions ↔ x ∈ values ∨ x ∈ additions.
Proof.
  revert values. induction additions as [|a l IH]; intros values; simpl; [set_solver|]. rewrite IH. case_bool_decide; set_solver.
Qed.

#[local] Arguments appendUniqueStrings : simpl never.

Lemma sortNames_elem l x : x ∈ sortNames l ↔ x ∈ l.
Proof. unfold sortNames. by rewrite merge_sort_Permutation. Qed.

Lemma gid_sees root w : sees (rdmaGIDNetDevices root) w (λ r _, ∀ l n, r = inl l → n ∈ l → gid_interface root n).
Proof.
  unfold rdmaGIDNetDevices. apply flook. intros [es|e] w1 Hes; [|by apply swp_ret]. rewrite (Hes es eq_refl). apply swp_bind.
  eapply (swp_for_each _ _ _ (λ rest s _, (∀ e, e ∈ rest → e ∈ f_dir f (filepath_Join [root; "gid_attrs"; "ndevs"])) ∧ ∀ n, n ∈ s.1 → gid_interface root n)).
  - intros e rest [ifs u] w2 [Hr Hi]. apply flook. intros [v|err] w3 Hv; apply swp_ret; try done; simpl in *; (split; [set_solver|]); [|done].
    rewrite (Hv v eq_refl). destruct (TrimSpace _ !=? "") eqn:Ev; cbn [fst]; [|done]. bool_to_prop.
    intros n [?|Hn]%append_elem; [by apply Hi|]. apply list_elem_of_singleton in Hn as ->. exists e. split_and!; [set_solver|done|done].
  - intros [ifs u] w2 [_ Hi]. split; [done|]. destruct (0 <? length ifs)%nat; [apply swp_ret; [done|]; by intros l n [= <-] ?; apply Hi|].
    destruct (0 <? u)%nat; by apply swp_ret.
  - split; [intros e He; exact (proj1 (sortNames_elem _ _) He)|]. set_solver.
Qed.

Lemma port_sees root w : sees (networkDevicePort root) w (λ r _, ∀ port, r = inl port → port_number root port).
Proof.
  unfold networkDevicePort. apply swp_bind.
  eapply (swp_for_each _ _ _ (λ rest _ _, ∀ q, q ∈ rest → q ∈ ["dev_port"; "dev_id"])).
  - intros q rest [] w1 Hq. apply flook. intros [v|e] w2 Hv; [|apply swp_ret; [done|]; set_solver]. rewrite (Hv v eq_refl).
    destruct (ParseUint0 _ 32) as [port|] eqn:Ep; apply swp_ret; try done; [|set_solver]. apply swp_ret; [done|].
    intros port' [= <-]. exists q. split; [apply Hq; by left|done].
  - intros [] w1 _. split; [done|]. by apply swp_ret.
  - done.
Qed.

Lemma ipoib_sees dev port w : sees (ipoibPortInterfaces dev port) w (λ r _, ∀ l n, r = inl l → n ∈ l → ipoib_interface dev port n).
Proof.
  unfold ipoibPortInterfaces. apply flook. intros [real|e] w1 Hr; [|by apply swp_ret]. rewrite (Hr real eq_refl).
  destruct (ParseUint port 10) as [num|] eqn:En; [|by apply swp_ret]. destruct (_ || _); [by apply swp_ret|].
  apply flook. intros [es|e] w2 Hes; [|by apply swp_ret]. rewrite (Hes es eq_refl). apply swp_bind.
  eapply (swp_for_each _ _ _ (λ rest s _, (∀ e, e ∈ rest → e ∈ f_dir f sysClassNet) ∧ ∀ n, n ∈ s → ipoib_interface dev port n)).
  - intros e rest ifs w3 [Hin Hi]. apply swp_bind.
    assert (∀ b : bool, (b = true → ipoib_interface dev port e) →
      (∀ e', e' ∈ rest → e' ∈ f_dir f sysClassNet) ∧ (∀ n, n ∈ (if b then appendUniqueStrings ifs [e] else ifs) → ipoib_interface dev port n)) as Hb.
    { intros b Hb. split; [set_solver|]. destruct b; [|done]. intros n [?|Hn]%append_elem; [by apply Hi|].
      apply list_elem_of_singleton in Hn as ->. by apply Hb. }
    eapply (fsees_mono _ _ (λ b _, b = true → ipoib_interface dev port e)); [intros b w4 H; apply swp_ret; [done|]; by apply Hb|].
    unfold is_ipoib. apply flook. intros [ty|err] w4 Hty; [|by apply swp_ret]. rewrite (Hty ty eq_refl).
    destruct (TrimSpace _ !=? "32") eqn:Et; [by apply swp_ret|]. bool_to_prop.
    apply flook. intros [dp|err] w5 Hdp; [|by apply swp_ret]. rewrite (Hdp dp eq_refl). destruct (_ !=? _) eqn:Ed; [by apply swp_ret|]. bool_to_prop.
    apply swp_bind. eapply fsees_mono; [|apply port_sees]. intros [p|err] w6 Hp; apply swp_ret; try done. intros Hpn%Z.eqb_eq.
    split_and!; [apply Hin; by left|done|done|]. exists p. split; [by rewrite Hpn|by apply Hp].
  - intros ifs w3 [_ Hi]. split; [done|]. destruct (length ifs =? 0)%nat; apply swp_ret; try done. intros l n [= <-]. apply Hi.
  - split; [intros e He; exact (proj1 (sortNames_elem _ _) He)|]. set_solver.
Qed.

Definition port_interface (dev port root : string) (transport : RDMATransportType) (n : string) : Prop :=
  gid_interface root n ∨ transport = RDMATransportInfiniBand ∧ ipoib_interface dev port n.

Lemma interfaces_sees dev port root tr w :
  sees (rdmaPortInterfaces dev port root tr) w (λ r _, ∀ l n, r = inl l → n ∈ l → port_interface dev port root tr n).
Proof.
  unfold rdmaPortInterfaces. apply swp_bind. eapply fsees_mono; [|apply gid_sees]. intros gid w1 Hg. cbv zeta.
  set (interfaces := match gid with inl l => l | inr _ => [] end).
  assert (∀ n, n ∈ interfaces → gid_interface root n) as Hi by (intros n Hn; destruct gid as [l|]; [by apply (Hg l)|set_solver]).
  destruct (decide (tr = RDMATransportInfiniBand)) as [->|Hne].
  - rewrite bool_decide_true by done. apply swp_bind. eapply fsees_mono; [|apply ipoib_sees]. intros ib w2 Hb. apply swp_ret; [done|].
    intros l n. destruct (_ =? 0)%nat; [done|]. intros [= <-] [Hn|Hn]%append_elem; [left; by apply Hi|].
    right. split; [done|]. destruct ib as [l|]; [by apply (Hb l)|set_solver].
  - rewrite bool_decide_false by done. apply swp_ret; [done|]. intros l n. destruct (_ =? 0)%nat; [done|]. intros [= <-] Hn. left. by apply Hi.
Qed.

(** ** The endpoint *)

Definition link_transport (linkLayer : string) (tr : RDMATransportType) : Prop :=
  tr = RDMATransportRoCEv2 ∧ EqualFold (TrimSpace linkLayer) "Ethernet" = true ∨
  tr = RDMATransportInfiniBand ∧ EqualFold (TrimSpace linkLayer) "InfiniBand" = true.

Definition on_port (dev port : string) (ep : RDMAEndpoint) : Prop :=
  let root := filepath_Join [filepath_Join [sysClassInfiniBand; dev; "ports"]; port] in
  rdmaPortIsActive (f_file f (filepath_Join [root; "state"])) = true ∧
  link_transport (f_file f (filepath_Join [root; "link_layer"])) (ep_Transport ep) ∧
  port_interface dev port root (ep_Transport ep) (ep_Interface ep) ∧ address_ok (ep_Interface ep) (ep_IP ep).

Lemma endpoint_port_sees dev port failed w :
  sees (portEndpoint dev port (filepath_Join [filepath_Join [sysClassInfiniBand; dev; "ports"]; port]) failed) w
    (λ r _, match r with inr ep => on_port dev port ep | inl _ => True end).
Proof.
  set (root := filepath_Join [filepath_Join [sysClassInfiniBand; dev; "ports"]; port]). unfold portEndpoint.
  apply flook. intros [st|e] w1 Hst; [|by apply swp_ret]. rewrite (Hst st eq_refl). destruct (rdmaPortIsActive _) eqn:Ea; [|by apply swp_ret]. cbn [negb].
  apply flook. intros [ll|e] w2 Hll; [|by apply swp_ret]. rewrite (Hll ll eq_refl).
  destruct (if EqualFold _ _ then _ else _) as [tr|] eqn:Et; [|by apply swp_ret].
  assert (link_transport (f_file f (filepath_Join [root; "link_layer"])) tr) as Htr.
  { destruct (EqualFold _ "Ethernet") eqn:E1; [simplify_eq; by left|]. destruct (EqualFold _ "InfiniBand") eqn:E2; [simplify_eq; by right|done]. }
  apply swp_bind. eapply fsees_mono; [|apply interfaces_sees]. intros [names|e] w3 Hn; [|by apply swp_ret].
  eapply (swp_for_each _ _ _ (λ rest _ _, ∀ n, n ∈ rest → port_interface dev port root tr n)); [|done|by intros n; apply Hn].
  intros n rest _ w4 Hin. apply swp_bind. eapply fsees_mono; [|apply address_sees]. intros [ip|e] w5 Hip; [|apply swp_ret; [done|]; set_solver].
  apply flook. intros rate w6 _. apply swp_ret; [done|]. simpl. split_and!; [done|done|apply Hin; by left|by apply Hip..].
Qed.

Lemma endpoint_sees w : sees DiscoverRDMAEndpoint w (λ r _, ∀ ep, r = inl ep → ∃ dev port,
  dev ∈ f_dir f sysClassInfiniBand ∧ port ∈ f_dir f (filepath_Join [sysClassInfiniBand; dev; "ports"]) ∧ on_port dev port ep).
Proof.
  unfold DiscoverRDMAEndpoint. apply flook. intros [ds|e] w1 Hds; [|by apply swp_ret]. rewrite (Hds ds eq_refl). apply swp_bind.
  eapply (swp_for_each _ _ _ (λ rest _ _, ∀ d, d ∈ rest → d ∈ f_dir f sysClassInfiniBand)).
  - intros dev rest failed w2 Hd. apply flook. intros [ps|e] w3 Hps; [|apply swp_ret; [done|]; set_solver]. rewrite (Hps ps eq_refl).
    eapply (swp_for_each _ _ _ (λ rest' _ _, ∀ p, p ∈ rest' → p ∈ f_dir f (filepath_Join [sysClassInfiniBand; dev; "ports"]))); [| |done].
    + intros port rest' failed' w4 Hp. eapply fsees_mono; [|apply endpoint_port_sees]. intros [?|ep] w5 Hep; [set_solver|].
      apply swp_ret; [done|]. intros ep' [= <-]. exists dev, port. split_and!; [apply Hd; by left|apply Hp; by left|done].
    + intros failed' w4 _. split; [done|]. set_solver.
  - intros [] w2 _; (split; [done|]); by apply swp_ret.
  - intros d Hd. exact (proj1 (sortNames_elem _ _) Hd).
Qed.

End Fabric.

(** C35: an endpoint that discovery returns is an address that passes
    ParseUsableIP, chosen among the addresses of an interface that is up and
    belongs, by the GID table or as IPoIB interface of the same device and port,
    to an active port of an RDMA device whose link layer is the transport
    returned; so a node that advertises it passes the endpoint checks of
    placement. *)
Theorem endpoint_sound f w w' ep :
  reaches (fabric_step f) DiscoverRDMAEndpoint w (Ret (inl ep)) w' →
  is_ok (ParseUsableIP (ep_IP ep)) = true ∧ (ep_Transport ep = RDMATransportRoCEv2 ∨ ep_Transport ep = RDMATransportInfiniBand) ∧
  ∃ dev port, dev ∈ f_dir f sysClassInfiniBand ∧ port ∈ f_dir f (filepath_Join [sysClassInfiniBand; dev; "ports"]) ∧ on_port f dev port ep.
Proof.
  intros Hr. destruct (swp_sound _ _ _ _ _ _ _ (endpoint_sees f w) Hr) as [_ HQ].
  destruct (HQ _ eq_refl ep eq_refl) as (dev & port & Hd & Hp & Hon). pose proof Hon as (_ & Hl & _ & _ & Ha). split_and!.
  - by eapply select_usable.
  - destruct Hl as [[-> _]|[-> _]]; auto.
  - by exists dev, port.
Qed.

Module FabricExample.

Definition net : fabric := {|
  f_dir := λ p, if p ==? sysClassInfiniBand then ["mlx5_0"] else if p ==? "/sys/class/infiniband/mlx5_0/ports" then ["1"] else ["0"];
  f_file := λ p, if p ==? "/sys/class/infiniband/mlx5_0/ports/1/state" then "4: ACTIVE"
                 else if p ==? "/sys/class/infiniband/mlx5_0/ports/1/link_layer" then "Ethernet" else "eth0";
  f_real := λ p, p;
  f_up := λ _, true;
  f_addrs := λ _, ["fe80::1/64"; "2001:db8::5/64"; "10.1.0.7/24"]
|}.

Definition handle (w : unit) (o : hostOp) : hostRep o * unit :=
  (match o return hostRep o with
   | ReadDir p => inl (f_dir net p)
   | ReadFile p => inl (f_file net p)
   | EvalSymlinks p => inl (f_real net p)
   | InterfaceUp n => inl (f_up net n)
   | InterfaceAddrs n => inl (f_addrs net n)
   | Getenv _ => ""
   | Readlink _ | DeviceNumber _ => inl ""
   | Exec _ _ _ => ("", None)
   | CtxErrOp => None
   | SelectOp => TimedOut
   | Stat _ | Lstat _ => inr (OsErr ENOENT)
   | WriteFile _ _ | Mkdir _ | MkdirAll _ | Remove _ | Symlink _ _ | StartTarget _ | KillTarget | SetRlimit _ => None
   | Rlimit => inl (0, 0)
   | ManagedTarget | TargetExited | ReapTarget => false
   | SetManagedTarget _ => tt
   end, w).

Lemma handle_true w o : fabric_step net w o (handle w o).1 (handle w o).2.
Proof. unfold fabric_step. destruct o; simpl; try done; by intros ? [= <-]. Qed.

Definition endpoint : RDMAEndpoint := {|
  ep_Interface := "eth0"; ep_IP := "10.1.0.7"; ep_Transport := RDMATransportRoCEv2; ep_LinkSpeed := "eth0"
|}.

Lemma endpoint_run : reaches (fabric_step net) DiscoverRDMAEndpoint tt (Ret (inl endpoint)) tt.
Proof.
  pose proof (run_reaches (fabric_step net) handle DiscoverRDMAEndpoint tt handle_true) as H.
  assert (run handle DiscoverRDMAEndpoint tt = (inl endpoint, tt)) as E by (vm_compute; reflexivity). by rewrite E in H.
Qed.

(** Without the IPv4 address the IPv6 one is taken, in its canonical form. *)
Lemma ipv6_chosen : selectRoutableAddress ["fe80::1/64"; "2001:DB8:0:0:0:0:0:5/64"] = inl "2001:db8::5".
Proof. vm_compute. reflexivity. Qed.

End FabricExample.

Lemma endpoint_sound_witness : is_ok (ParseUsableIP (ep_IP FabricExample.endpoint)) = true.
Proof. apply (endpoint_sound FabricExample.net tt tt FabricExample.endpoint FabricExample.endpoint_run). Defined.
