(* ===== verification/Reporter.v ===== *)
(** * The hardware reporter of the agent

    Models src/internal/agent/reporter.go: the names of device objects, the round
    that publishes the devices and the storage node, and the loop that repeats it.
    Discovery of devices and of the RDMA endpoint are operations here; Discovery.v
    and RdmaDiscovery.v model what they do. *)

From S2P Require Import Prelude GoStrings GoPath Encoding Capacity ApiTypes RdmaHealth Prog Kube Host Plugins Discovery RdmaDiscovery.
Import RdmaDiscovery.

Inductive repOp :=
  | RKube (o : kubeOp)
  | RNow
  | RSelect
  | RDiscover
  | RDiscoverRDMA.

Definition repRep (o : repOp) : Type :=
  match o with
  | RKube o => kubeRep o
  | RNow => Time
  | RSelect => wakeup
  | RDiscover => list HardwareNVMe * option error
  | RDiscoverRDMA => result RDMAEndpoint
  end.

Abbreviation rep A := (prog repOp repRep A).

Definition rcall (o : repOp) : rep (repRep o) := call o.
Definition rkube (o : kubeOp) : rep (kubeRep o) := call (Rep := repRep) (RKube o).

Module Reporter.

Definition hardwareAvailableCondition : string := "HardwareAvailable".
Definition kernelDiscoveryReadyCondition : string := "KernelNVMeDiscoveryReady".
Definition spdkDiscoveryReadyCondition : string := "SPDKNVMeDiscoveryReady".

(** ** Names *)

Definition is_lower_alnum (c : ascii) : bool := is_digit c || (97 <=? byte_val c) && (byte_val c <=? 122).

(** The readable part: letters and digits, every run of other bytes a dash, cut
    at [room] more bytes. *)
Fixpoint readable_from (room : nat) (lastSeparator : bool) (s : string) : string :=
  match room, s with
  | O, _ | _, EmptyString => EmptyString
  | S room', String c s =>
    if is_lower_alnum c then String c (readable_from room' false s)
    else if lastSeparator then readable_from room true s
    else String "-" (readable_from room' true s)
  end.

Definition readablePrefix (nodeName : string) : string :=
  let readable := TrimByte "-" (readable_from 40 false (ToLower nodeName)) in
  if readable ==? "" then "nvme" else readable.

Definition deviceObjectName (nodeName serialNumber : string) : result string :=
  if TrimSpace nodeName ==? "" then Err (Errorf "node name is empty")
  else if TrimSpace serialNumber ==? "" then Err (Errorf "serial number is empty")
  else
    let digest := Sha256.Sum256 (bytes_of (nodeName +:+ String (Ascii.ascii_of_nat 0) serialNumber)) in
    Ok (readablePrefix nodeName +:+ "-" +:+ hex_encode (take 16 digest)).

(** errors.As for an NVMeDiscoveryError: the errors of its two sources. *)
Fixpoint asDiscoveryError (err : error) : option (option error * option error) :=
  match err with
  | KernelErr k => Some (Some k, None)
  | SPDKErr s => Some (None, Some s)
  | DiscoveryErr k s => Some (Some k, Some s)
  | Wrap _ e | ObservationErr e | PartedErr _ e => asDiscoveryError e
  | Join e1 e2 => match asDiscoveryError e1 with Some r => Some r | None => asDiscoveryError e2 end
  | _ => None
  end.

Section Reporter.
Context `{AM : ApiMachinery}.
(** The text of an error. *)
Variable Error : error → string.
Variable NodeName : string.

(** ** Devices *)

Definition hardwareCondition (dev : NVMeDevice) (status : ConditionStatus) (reason message : string) : Condition :=
  {| c_Type := hardwareAvailableCondition; c_Status := status; c_ObservedGeneration := Generation (Meta dev);
     c_Reason := reason; c_Message := message |}.

Definition set_device_condition (c : Condition) (s : NVMeDeviceStatus) : NVMeDeviceStatus :=
  set_dt_Conditions (SetStatusCondition (dt_Conditions s) c) s.

Definition discoveredCondition (dev : NVMeDevice) : Condition :=
  hardwareCondition dev ConditionTrue "DeviceDiscovered" "The reporting agent discovered the NVMe device".

Definition deviceKey (name : string) : ObjectKey := {| key_Namespace := ""; key_Name := name |}.

Definition clusterMeta (name : string) : ObjectMeta :=
  {| Name := name; Namespace := ""; UID := ""; Generation := 0; ResourceVersion := ""; Finalizers := []; Annotations := ∅;
     OwnerReferences := []; DeletionTimestamp := None |}.

Definition deviceSpec (d : HardwareNVMe) : NVMeDeviceSpec :=
  {| ds_NodeName := NodeName; ds_PCIAddress := ToLower (TrimSpace (hw_PCIAddress d)); ds_SerialNumber := hw_SerialNumber d;
     ds_Model := hw_Model d; ds_TotalCapacity := NewQuantity (hw_TotalBytes d); ds_NUMANode := hw_NUMANode d |}.

(** The status of a device that was just created. *)
Definition initialStatus (latest : NVMeDevice) : NVMeDeviceStatus :=
  set_device_condition (discoveredCondition latest)
    (set_dt_FreeCapacity (ds_TotalCapacity (Spec latest)) (set_dt_State NVMeDeviceStateAvailable (Status latest))).

(** The status of a device that is seen again. *)
Definition presentStatus (dev : NVMeDevice) : NVMeDeviceStatus :=
  let s := Status dev in
  let s := if dt_State s ==? NVMeDeviceStateUnavailable then
             set_dt_State (match dt_ClaimRef s with None => NVMeDeviceStateAvailable | Some _ => NVMeDeviceStateClaimed end) s
           else s in
  set_device_condition (discoveredCondition dev) s.

Definition missingStatus (dev : NVMeDevice) : NVMeDeviceStatus :=
  set_device_condition
    (hardwareCondition dev ConditionFalse "DeviceNotDiscovered" "The reporting agent no longer discovers the NVMe device")
    (set_dt_State NVMeDeviceStateUnavailable (Status dev)).

(** One device of the round: the object it ended with and the capacity it counts
    for, [None] when a request failed. *)
Definition reportDevice (deviceName : string) (d : HardwareNVMe) : rep (option (NVMeDevice * Z * Z)) :=
  let! r := rkube (Get Cached KDevice (deviceKey deviceName)) in
  match r with
  | inr err =>
    if negb (IsNotFound err) then Ret None
    else
      let! r := rkube (Create KDevice (mkObject (clusterMeta deviceName) (deviceSpec d) (zero_status KDevice))) in
      match r with
      | inr _ => Ret None
      | inl devCR =>
        let! r := rkube (Get Cached KDevice (deviceKey deviceName)) in
        match r with
        | inr _ => Ret (Some (devCR, hw_TotalBytes d, hw_TotalBytes d))
        | inl latest =>
          rkube (StatusPatch KDevice latest (with_Status (initialStatus latest) latest)) ;;;
          Ret (Some (devCR, hw_TotalBytes d, hw_TotalBytes d))
        end
      end
  | inl devCR =>
    let! r := rkube (Patch KDevice devCR (with_Spec (deviceSpec d) devCR)) in
    match r with
    | inr _ => Ret None
    | inl devCR =>
      let! r := rkube (StatusPatch KDevice devCR (with_Status (presentStatus devCR) devCR)) in
      match r with
      | inr _ => Ret None
      | inl devCR => Ret (Some (devCR, hw_TotalBytes d, Value (dt_FreeCapacity (Status devCR))))
      end
    end
  end.

Record round := { discoveryErr : option error; seen : gset string; nodeTotalCap : Z; nodeFreeCap : Z }.

Definition reportDiscovered (d : HardwareNVMe) (s : round) : rep round :=
  let failed err := {| discoveryErr := joinError (discoveryErr s) err; seen := seen s;
                       nodeTotalCap := nodeTotalCap s; nodeFreeCap := nodeFreeCap s |} in
  match Discovery.validateHardwareNVMe d with
  | Some err => Ret (failed (Wrap "validate discovered NVMe device" err))
  | None =>
    match deviceObjectName NodeName (hw_SerialNumber d) with
    | inr err => Ret (failed err)
    | inl deviceName =>
      let counted total free := {| discoveryErr := discoveryErr s; seen := {[deviceName]} ∪ seen s;
                                   nodeTotalCap := add64 (nodeTotalCap s) total; nodeFreeCap := add64 (nodeFreeCap s) free |} in
      let! r := reportDevice deviceName d in
      Ret (match r with
           | Some (devCR, devTotal, devFree) =>
             if dt_State (Status devCR) ==? NVMeDeviceStateClaimed then counted devTotal devFree else counted 0 0
           | None => counted 0 0
           end)
    end
  end.

(** The devices of this node that were not seen. *)
Definition reportMissing (seen : gset string) (dev : NVMeDevice) : rep unit :=
  if (ds_NodeName (Spec dev) !=? NodeName) || bool_decide (Name (Meta dev) ∈ seen) then Ret tt
  else
    rkube (StatusPatch KDevice dev (with_Status (missingStatus dev) dev)) ;;;
    Ret tt.

Definition reportDevices : rep (Z * Z * option error) :=
  let! found := rcall RDiscover in
  let '(devices, discoveryErr0) := found in
  let! r := for_each (B := Empty_set) devices {| discoveryErr := discoveryErr0; seen := ∅; nodeTotalCap := 0; nodeFreeCap := 0 |}
    (λ d s, let! s := reportDiscovered d s in Ret (inl s)) in
  match r with
  | inr e => match e with end
  | inl s =>
    let! reported := rkube (List Cached KDevice) in
    match reported with
    | inr err => Ret (nodeTotalCap s, nodeFreeCap s, joinError (discoveryErr s) err)
    | inl items =>
      match discoveryErr s with
      | Some err => Ret (nodeTotalCap s, nodeFreeCap s, Some err)
      | None =>
        for_each (B := Empty_set) items tt (λ dev _, reportMissing (seen s) dev ;;; Ret (inl tt)) ;;;
        Ret (nodeTotalCap s, nodeFreeCap s, None)
      end
    end
  end.

(** ** The storage node *)

(** The Ready, aggregate, kernel and SPDK conditions. *)
Definition nodeCondition (node : RDMAStorageNode) (type : string) (status : ConditionStatus) (reason message : string) : Condition :=
  {| c_Type := type; c_Status := status; c_ObservedGeneration := Generation (Meta node); c_Reason := reason; c_Message := message |}.

Definition sourceCondition (node : RDMAStorageNode) (type name : string) (discoveryErr : option error)
    (pick : option error * option error → option error) : Condition :=
  let succeeded := nodeCondition node type ConditionTrue (name +:+ "DiscoverySucceeded") (name +:+ " NVMe discovery completed successfully") in
  match discoveryErr with
  | None => succeeded
  | Some err =>
    match asDiscoveryError err with
    | None => nodeCondition node type ConditionUnknown "DiscoveryHealthUnknown" (Error err)
    | Some sources =>
      match pick sources with
      | None => succeeded
      | Some e => nodeCondition node type ConditionFalse (name +:+ "DiscoveryFailed") (Error e)
      end
    end
  end.

Definition aggregateCondition (node : RDMAStorageNode) (discoveryErr : option error) : Condition :=
  match discoveryErr with
  | None => nodeCondition node NVMeInventoryReadyCondition ConditionTrue "NVMeDiscoverySucceeded"
              "Kernel and SPDK NVMe inventory sources completed successfully"
  | Some err => nodeCondition node NVMeInventoryReadyCondition ConditionFalse "NVMeDiscoveryDegraded" (Error err)
  end.

Definition setInventoryConditions (node : RDMAStorageNode) (discoveryErr : option error) (cs : list Condition) : list Condition :=
  SetStatusCondition
    (SetStatusCondition
      (SetStatusCondition cs (aggregateCondition node discoveryErr))
      (sourceCondition node kernelDiscoveryReadyCondition "Kernel" discoveryErr fst))
    (sourceCondition node spdkDiscoveryReadyCondition "SPDK" discoveryErr snd).

Definition readyCondition (node : RDMAStorageNode) (endpoint : result RDMAEndpoint) : Condition :=
  match endpoint with
  | inl _ => nodeCondition node ReadyCondition ConditionTrue "RDMAEndpointReady"
               "An active RDMA interface has a usable non-loopback IP address"
  | inr err => nodeCondition node ReadyCondition ConditionFalse "RDMAEndpointUnavailable" (Error err)
  end.

Definition nodeSpec (endpoint : RDMAEndpoint) : RDMAStorageNodeSpec :=
  {| ns_NodeName := NodeName; ns_RDMAIP := ep_IP endpoint; ns_Transport := ep_Transport endpoint;
     ns_LinkSpeed := ep_LinkSpeed endpoint |}.

(** The storage node of this node with the endpoint in its spec; [None] when a
    request failed or there is nothing to create it from. *)
Definition reportNodeSpec (endpoint : result RDMAEndpoint) : rep (option RDMAStorageNode) :=
  let! r := rkube (Get Cached KNode (deviceKey NodeName)) in
  match r, endpoint with
  | inr err, _ =>
    if negb (IsNotFound err) then Ret None
    else match endpoint with
    | inr _ => Ret None
    | inl endpoint =>
      let! r := rkube (Create KNode (mkObject (clusterMeta NodeName) (nodeSpec endpoint) (zero_status KNode))) in
      Ret (match r with inl nodeCR => Some nodeCR | inr _ => None end)
    end
  | inl nodeCR, inr _ => Ret (Some nodeCR)
  | inl nodeCR, inl endpoint =>
    if bool_decide (Spec nodeCR = nodeSpec endpoint) then Ret (Some nodeCR)
    else
      let! r := rkube (Patch KNode nodeCR (with_Spec (nodeSpec endpoint) nodeCR)) in
      Ret (match r with inl nodeCR => Some nodeCR | inr _ => None end)
  end.

Definition isActiveExport (p : NVMePartition) : bool :=
  (ps_NodeName (Spec p) ==? NodeName) && (pt_State (Status p) ==? NVMePartitionStateExported) &&
  TimePtr_IsZero (DeletionTimestamp (Meta p)).

Definition nodeStatus (nodeCR : RDMAStorageNode) (totalCapacity freeCapacity : Z) (partitions : list NVMePartition) (now : Time)
    (endpoint : result RDMAEndpoint) (inventoryErr : option error) : RDMAStorageNodeStatus :=
  {| nt_LastHeartbeatTime := now; nt_TotalCapacity := NewQuantity totalCapacity; nt_FreeCapacity := NewQuantity freeCapacity;
     nt_ActiveExports := Z.of_nat (length (List.filter isActiveExport partitions));
     nt_Conditions := setInventoryConditions nodeCR inventoryErr
       (SetStatusCondition (nt_Conditions (Status nodeCR)) (readyCondition nodeCR endpoint)) |}.

Definition reportNode (totalCapacity freeCapacity : Z) (inventoryErr : option error) : rep unit :=
  let! endpoint := rcall RDiscoverRDMA in
  let! n := reportNodeSpec endpoint in
  match n with
  | None => Ret tt
  | Some nodeCR =>
    let! r := rkube (List Cached KPartition) in
    match r with
    | inr _ => Ret tt
    | inl partitions =>
      let! now := rcall RNow in
      rkube (StatusPatch KNode nodeCR
        (with_Status (nodeStatus nodeCR totalCapacity freeCapacity partitions now endpoint inventoryErr) nodeCR)) ;;;
      Ret tt
    end
  end.

Definition report : rep unit :=
  let! r := reportDevices in
  let '(totalCap, freeCap, inventoryErr) := r in
  reportNode totalCap freeCap inventoryErr.

(** The loop until the context ends, for at most [fuel] ticks. *)
Definition Start (fuel : nat) : rep (option unit) :=
  report ;;;
  iterate fuel (λ _ : unit,
    let! w := rcall RSelect in
    match w with
    | Tick => report ;;; Ret (inl tt)
    | _ => Ret (inr tt)
    end) tt.

End Reporter.

End Reporter.
