(* ===== verification/ReporterProps.v ===== *)
(** * Correctness of the hardware reporter

    What the reporter writes, in terms of what the API server and discovery
    replied before: properties of its histories, whatever the replies are. *)

From S2P Require Import Prelude GoStrings GoPath Encoding Capacity ApiTypes RdmaHealth Prog Kube Host Plugins Discovery RdmaDiscovery RdmaDiscoveryProps Placement Reporter.
Import RdmaDiscovery Reporter.

Abbreviation revent := (@event repOp repRep).

(** ** The latest discovery of a history *)

Definition discovery_of (e : revent) : option (list HardwareNVMe * option error) :=
  match e with existT o x => match o return repRep o → option (list HardwareNVMe * option error) with RDiscover => λ x, Some x | _ => λ _, None end x end.
Definition endpoint_of (e : revent) : option (result RDMAEndpoint) :=
  match e with existT o x => match o return repRep o → option (result RDMAEndpoint) with RDiscoverRDMA => λ x, Some x | _ => λ _, None end x end.

Definition latest_of {A} (f : revent → option A) (h : list revent) : option A :=
  foldl (λ acc e, match f e with Some x => Some x | None => acc end) None h.
Definition latest : list revent → option (list HardwareNVMe * option error) := latest_of discovery_of.
Definition latestRDMA : list revent → option (result RDMAEndpoint) := latest_of endpoint_of.

Lemma latest_of_snoc {A} (f : revent → option A) h e : latest_of f (h ++ [e]) = match f e with Some x => Some x | None => latest_of f h end.
Proof. unfold latest_of. by rewrite foldl_snoc. Qed.

Lemma latest_other h o x : o ≠ RDiscover → latest (h ++ [ev (Rep := repRep) o x]) = latest h.
Proof. intros Ho. unfold latest. rewrite latest_of_snoc. by destruct o. Qed.

Lemma latest_now h x : latest (h ++ [ev (Rep := repRep) RDiscover x]) = Some x.
Proof. unfold latest. by rewrite latest_of_snoc. Qed.

Lemma latestRDMA_other h o x : o ≠ RDiscoverRDMA → latestRDMA (h ++ [ev (Rep := repRep) o x]) = latestRDMA h.
Proof. intros Ho. unfold latestRDMA. rewrite latest_of_snoc. by destruct o. Qed.

Lemma latestRDMA_now h x : latestRDMA (h ++ [ev (Rep := repRep) RDiscoverRDMA x]) = Some x.
Proof. unfold latestRDMA. by rewrite latest_of_snoc. Qed.

Section Reporter.
Context `{AM : ApiMachinery}.
Variable Error : error → string.
Variable NodeName : string.

Definition named (d : HardwareNVMe) (name : string) : Prop := deviceObjectName NodeName (hw_SerialNumber d) = inl name.

(** A device of the latest discovery that passed the checks. *)
Definition found (h : list revent) (d : HardwareNVMe) : Prop :=
  (∃ ds err, latest h = Some (ds, err) ∧ d ∈ ds) ∧ Discovery.validateHardwareNVMe d = None.

Definition replied (h : list revent) (o : repOp) (x : repRep o) : Prop := ev (Rep := repRep) o x ∈ h.

(** The object was read under the name, or is what a patch of such an object made
    of it. *)
Definition read_as (k : kind) (h : list revent) (key : ObjectKey) (b : obj k) : Prop :=
  replied h (RKube (Get Cached k key)) (inl b) ∨
  ∃ b0 o0, replied h (RKube (Get Cached k key)) (inl b0) ∧ replied h (RKube (Patch k b0 o0)) (inl b).

(** A status of a device that keeps what the claim controller and the partition
    manager wrote. *)
Definition keeps_owner (b o : NVMeDevice) : Prop :=
  Meta o = Meta b ∧ Spec o = Spec b ∧ dt_ClaimRef (Status o) = dt_ClaimRef (Status b) ∧
  dt_ActiveBackend (Status o) = dt_ActiveBackend (Status b).

Definition seen_again (h : list revent) (b o : NVMeDevice) : Prop :=
  (∃ d name, found h d ∧ named d name ∧ read_as KDevice h (deviceKey name) b) ∧ dt_State (Status o) ≠ NVMeDeviceStateUnavailable ∧
  (dt_State (Status o) = NVMeDeviceStateClaimed → dt_State (Status b) = NVMeDeviceStateClaimed ∨ dt_ClaimRef (Status b) ≠ None).

(** The device belongs to this node, a discovery without error did not find it,
    and its capacity is kept. *)
Definition gone (h : list revent) (b o : NVMeDevice) : Prop :=
  (∃ items, replied h (RKube (List Cached KDevice)) (inl items) ∧ b ∈ items) ∧
  (∃ ds, latest h = Some (ds, None) ∧ ∀ d, d ∈ ds → ¬ named d (Name (Meta b))) ∧
  ds_NodeName (Spec b) = NodeName ∧ dt_State (Status o) = NVMeDeviceStateUnavailable ∧
  dt_FreeCapacity (Status o) = dt_FreeCapacity (Status b).

Definition created (h : list revent) (k : kind) : obj k → Prop :=
  match k return obj k → Prop with
  | KDevice => λ o, ∃ d name, found h d ∧ named d name ∧ Name (Meta o) = name ∧ Spec o = deviceSpec NodeName d
  | KNode => λ o, ∃ ep, latestRDMA h = Some (inl ep) ∧ Name (Meta o) = NodeName ∧ Spec o = nodeSpec NodeName ep
  | _ => λ _, False
  end.

Definition patches (h : list revent) (k : kind) : obj k → obj k → Prop :=
  match k return obj k → obj k → Prop with
  | KDevice => λ b o, ∃ d name, found h d ∧ named d name ∧ read_as KDevice h (deviceKey name) b ∧ o = with_Spec (deviceSpec NodeName d) b
  | KNode => λ b o, ∃ ep, latestRDMA h = Some (inl ep) ∧ read_as KNode h (deviceKey NodeName) b ∧ o = with_Spec (nodeSpec NodeName ep) b
  | _ => λ _ _, False
  end.

Definition status_patches (h : list revent) (k : kind) : obj k → obj k → Prop :=
  match k return obj k → obj k → Prop with
  | KDevice => λ b o, keeps_owner b o ∧ (seen_again h b o ∨ gone h b o)
  | KNode => λ b o, Meta o = Meta b ∧ Spec o = Spec b ∧
      ∃ t f ps now ep inv, replied h RNow now ∧ latestRDMA h = Some ep ∧ replied h (RKube (List Cached KPartition)) (inl ps) ∧
        (inv = None → ∃ ds, latest h = Some (ds, None)) ∧ Status o = nodeStatus Error NodeName b t f ps now ep inv
  | _ => λ _ _, False
  end.

(** What the reporter may do after [h]. *)
Definition reported (h : list revent) (e : revent) : Prop :=
  match projT1 e with
  | RKube (Create k o) => created h k o
  | RKube (Patch k b o) => patches h k b o
  | RKube (StatusPatch k b o) => status_patches h k b o
  | RKube (Update _ _) | RKube (Delete _ _) => False
  | _ => True
  end.

Local Notation ok := (hwp reported).

(** A request that is allowed. *)
Lemma r_kube {A} o (k : kubeRep o → rep A) h Q :
  (∀ x, reported h (ev (Rep := repRep) (RKube o) x)) → (∀ x, ok (k x) (h ++ [ev (Rep := repRep) (RKube o) x]) Q) → ok (bind (rkube o) k) h Q.
Proof. intros Hg Hk. by apply hwp_vis. Qed.

Lemma r_ret {A} (a : A) h (Q : A → list revent → Prop) : Q a h → ok (Ret a) h Q.
Proof. done. Qed.

Lemma r_call {A} o (k : repRep o → rep A) h Q :
  (∀ x, reported h (ev (Rep := repRep) o x)) → (∀ x, ok (k x) (h ++ [ev (Rep := repRep) o x]) Q) → ok (bind (rcall o) k) h Q.
Proof. intros Hg Hk. by apply hwp_vis. Qed.

Lemma replied_here h o x : replied (h ++ [ev (Rep := repRep) o x]) o x.
Proof. apply elem_of_app. right. by left. Qed.

Lemma replied_later h e o x : replied h o x → replied (h ++ [e]) o x.
Proof. intros H. apply elem_of_app. by left. Qed.

Hint Resolve replied_here replied_later : core.

Lemma found_later h d o x : o ≠ RDiscover → found h d → found (h ++ [ev (Rep := repRep) o x]) d.
Proof. intros Ho [(ds & err & Hl & Hd) Hv]. split; [|done]. exists ds, err. by rewrite latest_other. Qed.

Lemma present_status b : keeps_owner b (with_Status (presentStatus b) b) ∧
  dt_State (presentStatus b) ≠ NVMeDeviceStateUnavailable ∧
  (dt_State (presentStatus b) = NVMeDeviceStateClaimed → dt_State (Status b) = NVMeDeviceStateClaimed ∨ dt_ClaimRef (Status b) ≠ None).
Proof.
  unfold presentStatus, keeps_owner, set_device_condition. cbv zeta. simpl.
  destruct (decide (dt_State (Status b) = NVMeDeviceStateUnavailable)) as [E|E];
    [rewrite bool_decide_true by done|rewrite bool_decide_false by done]; simpl; [|by auto].
  destruct (dt_ClaimRef (Status b)); split_and!; auto; try done.
Qed.

Lemma reportDevice_hwp name d h : found h d → named d name →
  ok (reportDevice NodeName name d) h (λ _ h', latest h' = latest h).
Proof.
  intros Hf Hn. unfold reportDevice. apply r_kube; [done|]. intros [b|e].
  - assert (found (h ++ [ev (Rep := repRep) (RKube (Get Cached KDevice (deviceKey name))) (inl b)]) d) as Hf1 by (by apply found_later).
    apply r_kube; [intros x; exists d, name; split_and!; auto; left; auto|]. intros [b'|e]; [|apply r_ret; by rewrite !latest_other].
    apply r_kube; [|intros [b''|e]; apply r_ret; by rewrite !latest_other].
    intros x. destruct (present_status b') as (Hk & Hu & Hc). split; [done|]. left. split_and!; [|done|done].
    exists d, name. split_and!; [by apply found_later|done|]. right. exists b, (with_Spec (deviceSpec NodeName d) b). auto.
  - assert (found (h ++ [ev (Rep := repRep) (RKube (Get Cached KDevice (deviceKey name))) (inr e)]) d) as Hf1 by (by apply found_later).
    destruct (negb _); [apply r_ret; by rewrite latest_other|].
    apply r_kube; [intros x; by exists d, name|]. intros [c|e']; [|apply r_ret; by rewrite !latest_other].
    apply r_kube; [done|]. intros [l|e']; [|apply r_ret; by rewrite !latest_other].
    apply r_kube; [|intros x; apply r_ret; by rewrite !latest_other].
    intros x. split; [done|]. left. split_and!; [|done|done]. exists d, name. split_and!; [by apply found_later, found_later|done|]. left. auto.
Qed.

(** ** A round *)

(** Nothing failed so far, and every device visited is among those seen. *)
Definition counted (err0 : option error) (pre : list HardwareNVMe) (s : round) : Prop :=
  discoveryErr s = None → err0 = None ∧ ∀ d, d ∈ pre → ∃ name, named d name ∧ name ∈ seen s.

Lemma reportDiscovered_hwp ds err0 pre d s h : latest h = Some (ds, err0) → d ∈ ds → counted err0 pre s →
  ok (reportDiscovered NodeName d s) h (λ s' h', latest h' = Some (ds, err0) ∧ counted err0 (pre ++ [d]) s').
Proof.
  intros Hl Hd Hc. unfold reportDiscovered. cbv zeta. destruct (Discovery.validateHardwareNVMe d) eqn:Ev; [apply r_ret; by split|].
  destruct (deviceObjectName NodeName (hw_SerialNumber d)) as [name|e] eqn:En; [|apply r_ret; by split].
  apply hwp_bind. eapply hwp_mono; [|apply reportDevice_hwp; [split; [by exists ds, err0|done]|exact En]].
  intros r h' Hh'. apply r_ret. split; [by rewrite Hh'|].
  assert (∀ t f, counted err0 (pre ++ [d]) {| discoveryErr := discoveryErr s; seen := {[name]} ∪ seen s; nodeTotalCap := t; nodeFreeCap := f |}) as Hs.
  { intros t f He. simpl in He. destruct (Hc He) as [? Hp]. split; [done|]. simpl.
    intros d' [Hd'|Hd'%list_elem_of_singleton]%elem_of_app; [destruct (Hp d' Hd') as (n & ? & ?); exists n; set_solver|].
    subst d'. exists name. set_solver. }
  destruct r as [[[dev t] f]|]; [destruct (_ ==? _)|]; apply Hs.
Qed.

Lemma reportMissing_hwp ds seen h dev items : latest h = Some (ds, None) → (∀ d, d ∈ ds → ∃ name, named d name ∧ name ∈ seen) →
  replied h (RKube (List Cached KDevice)) (inl items) → dev ∈ items →
  ok (reportMissing NodeName seen dev) h (λ _ h', latest h' = latest h ∧ replied h' (RKube (List Cached KDevice)) (inl items)).
Proof.
  intros Hl Hs Hi Hd. unfold reportMissing. destruct (_ || _) eqn:E; [by apply r_ret|]. apply orb_false_iff in E as [E1 E2]. bool_to_prop.
  apply r_kube; [|intros x; apply r_ret; rewrite latest_other by done; auto]. intros x. split; [done|]. right. split_and!; [by exists items| |done|done|done].
  exists ds. split; [done|]. intros d Hin Hn. destruct (Hs d Hin) as (name & Hn' & Hin'). unfold named in *. congruence.
Qed.

Lemma reportDevices_hwp h : ok (reportDevices NodeName) h (λ r h', ∃ ds err0, latest h' = Some (ds, err0) ∧ (r.2 = None → err0 = None)).
Proof.
  unfold reportDevices. apply r_call; [done|]. intros [ds err0]. set (h1 := h ++ _).
  assert (latest h1 = Some (ds, err0)) as Hl1 by apply latest_now. apply hwp_bind.
  eapply (hwp_for_each _ _ (λ rest s h', ∃ pre, ds = pre ++ rest ∧ latest h' = Some (ds, err0) ∧ counted err0 pre s)).
  - intros d rest s h2 (pre & -> & Hl & Hc). apply hwp_bind. eapply hwp_mono; [|by eapply reportDiscovered_hwp; [done|set_solver|]].
    intros s' h3 [Hl3 Hc3]. apply r_ret. exists (pre ++ [d]). rewrite <- app_assoc. done.
  - intros s h2 (pre & E & Hl & Hc). rewrite app_nil_r in E. subst pre. apply r_kube; [done|]. intros [items|e].
    2:{ apply r_ret. exists ds, err0. rewrite latest_other by done. done. }
    set (h3 := h2 ++ _). assert (latest h3 = Some (ds, err0)) as Hl3 by (unfold h3; by rewrite latest_other).
    destruct (discoveryErr s) as [err|] eqn:Ed; [apply r_ret; by exists ds, err0|]. destruct (Hc Ed) as [-> Hs].
    apply hwp_bind. eapply (hwp_for_each _ _ (λ rest _ h', (∀ dev, dev ∈ rest → dev ∈ items) ∧ latest h' = Some (ds, None) ∧
      replied h' (RKube (List Cached KDevice)) (inl items))).
    + intros dev rest _ h4 (Hin & Hl4 & Hr4). apply hwp_bind. eapply hwp_mono; [|eapply reportMissing_hwp; [done|done|done|set_solver]].
      intros _ h5 [Hl5 Hr5]. apply r_ret. split_and!; [set_solver|by rewrite Hl5|done].
    + intros _ h4 (_ & Hl4 & _). apply r_ret. by exists ds, None.
    + split_and!; [done|done|apply replied_here].
  - exists []. split_and!; [done|done|]. intros E. split; [done|]. set_solver.
Qed.

Lemma nodeSpec_hwp ep h : latestRDMA h = Some ep →
  ok (reportNodeSpec NodeName ep) h (λ n h', latest h' = latest h ∧ latestRDMA h' = Some ep).
Proof.
  intros Hep. unfold reportNodeSpec. apply r_kube; [done|]. intros [b|e].
  - destruct ep as [ep|e]; [|apply r_ret; by rewrite latest_other, latestRDMA_other].
    case_bool_decide; [apply r_ret; by rewrite latest_other, latestRDMA_other|].
    apply r_kube; [|intros x; apply r_ret; by rewrite !latest_other, !latestRDMA_other].
    intros x. exists ep. rewrite latestRDMA_other by done. split_and!; [done| |done]. left. apply replied_here.
  - destruct (negb _); [apply r_ret; by rewrite latest_other, latestRDMA_other|].
    destruct ep as [ep|e']; [|apply r_ret; by rewrite latest_other, latestRDMA_other].
    apply r_kube; [|intros x; apply r_ret; by rewrite !latest_other, !latestRDMA_other].
    intros x. exists ep. rewrite latestRDMA_other by done. done.
Qed.

Lemma reportNode_hwp t f inv ds err0 h : latest h = Some (ds, err0) → (inv = None → err0 = None) →
  ok (reportNode Error NodeName t f inv) h (λ _ _, True).
Proof.
  intros Hl Hinv. unfold reportNode. apply r_call; [done|]. intros ep. set (h1 := h ++ _).
  assert (latest h1 = Some (ds, err0)) as Hl1 by (unfold h1; by rewrite latest_other).
  apply hwp_bind. eapply hwp_mono; [|apply nodeSpec_hwp; apply latestRDMA_now]. intros [n|] h2 [Hl2 Hr2]; [|by apply r_ret].
  apply r_kube; [done|]. intros [ps|e]; [|by apply r_ret]. apply r_call; [done|]. intros now.
  apply r_kube; [|intros x; by apply r_ret]. intros x. split_and!; [done|done|].
  exists t, f, ps, now, ep, inv. rewrite !latest_other, !latestRDMA_other by done. split_and!; auto.
  intros E. exists ds. by rewrite Hl2, Hl1, (Hinv E).
Qed.

Lemma report_hwp h : ok (report Error NodeName) h (λ _ _, True).
Proof.
  unfold report. apply hwp_bind. eapply hwp_mono; [|apply reportDevices_hwp]. intros [[t f] inv] h' (ds & err0 & Hl & Hinv).
  by eapply reportNode_hwp.
Qed.

Lemma Start_hwp fuel h : ok (Start Error NodeName fuel) h (λ _ _, True).
Proof.
  unfold Start. apply hwp_bind. eapply hwp_mono; [|apply report_hwp]. intros _ h1 _.
  eapply (hwp_iterate _ _ (λ _ _, True)); [|done|done]. intros _ h2 _. apply r_call; [done|]. intros [| |]; [|by apply r_ret..].
  apply hwp_bind. eapply hwp_mono; [|apply report_hwp]. intros _ h3 _. by apply r_ret.
Qed.

End Reporter.

(** ** Names of devices *)

Definition dash (c : ascii) : bool := c ==? "-"%char.
Definition label_char (c : ascii) : bool := is_lower_alnum c || dash c.

(** A name that the API server accepts: lower case letters, digits and inner
    dashes. *)
Definition object_name_ok (s : string) : bool :=
  str_all label_char s && (TrimByte "-" s ==? s) && (s !=? "") && (str_len s <=? 253).

Lemma alnum_not_dash c : is_lower_alnum c = true → dash c = false.
Proof. intros H. unfold dash. destruct (decide (c = "-"%char)) as [->|Hne]; [done|]. by rewrite bool_decide_false. Qed.

Lemma trim_right_app f s w : w ≠ "" → str_all (λ c, negb (f c)) w = true → trim_right f (s +:+ w) = s +:+ w.
Proof.
  intros Hne Hw. induction s as [|c s IH]; rewrite ?str_app_nil_l, ?str_app_cons.
  - induction w as [|d w IHw]; [done|]. unfold str_all in Hw. simpl in Hw. apply andb_prop in Hw as [Hd Hw]. apply negb_true_iff in Hd.
    simpl. destruct w as [|e w]; [simpl; by rewrite Hd|]. rewrite IHw by done. done.
  - simpl. rewrite IH. destruct (s +:+ w) eqn:E; [|done]. by destruct s, w.
Qed.

Lemma str_all_trim_left P f s : str_all P s = true → str_all P (trim_left f s) = true.
Proof.
  unfold str_all. induction s as [|c s IH]; simpl; [done|]. intros [Hc Hs]%andb_prop. destruct (f c); [by apply IH|]. simpl. by rewrite Hc.
Qed.

Lemma str_all_trim_right P f s : str_all P s = true → str_all P (trim_right f s) = true.
Proof.
  unfold str_all. induction s as [|c s IH]; simpl; [done|]. intros [Hc Hs]%andb_prop. specialize (IH Hs).
  destruct (trim_right f s); [destruct (f c); simpl; by rewrite ?Hc|]. simpl in *. by rewrite Hc.
Qed.

Lemma trim_left_len f s : str_len (trim_left f s) ≤ str_len s.
Proof. induction s as [|c s IH]; simpl; [done|]. destruct (f c); unfold str_len in *; simpl in *; lia. Qed.

Lemma trim_right_len f s : str_len (trim_right f s) ≤ str_len s.
Proof.
  induction s as [|c s IH]; simpl; [done|]. unfold str_len in *. destruct (trim_right f s); [destruct (f c); simpl; lia|]. simpl in *. lia.
Qed.

Lemma readable_spec room last s : str_all label_char (readable_from room last s) = true ∧ str_len (readable_from room last s) ≤ Z.of_nat room.
Proof.
  revert room last. induction s as [|c s IH]; intros room last; destruct room as [|room]; simpl; try (by split; [|unfold str_len; simpl; lia]).
  unfold str_all, str_len in *. destruct (is_lower_alnum c) eqn:Ec; [|destruct last].
  - destruct (IH room false) as [H1 H2]. simpl. unfold label_char at 1. rewrite Ec, H1. split; [done|]. lia.
  - apply (IH (S room) true).
  - destruct (IH room true) as [H1 H2]. simpl. rewrite H1. split; [done|]. lia.
Qed.

Lemma str_len_app s t : str_len (s +:+ t) = str_len s + str_len t.
Proof. unfold str_len. rewrite str_list_app, length_app. lia. Qed.

Lemma prefix_spec node : str_all label_char (readablePrefix node) = true ∧ str_len (readablePrefix node) ≤ 40 ∧
  ∃ c s, readablePrefix node = String c s ∧ dash c = false.
Proof.
  unfold readablePrefix. cbv zeta. unfold TrimByte, TrimFunc. set (r := readable_from 40 false (ToLower node)).
  destruct (readable_spec 40 false (ToLower node)) as [Hc Hl]. fold r in Hc, Hl.
  destruct (decide (trim_right dash (trim_left dash r) = "")) as [E|E].
  - rewrite bool_decide_true by exact E. split_and!; [done|by vm_compute|by exists "n"%char, "vme"].
  - rewrite bool_decide_false by exact E. split_and!.
    + by apply str_all_trim_right, str_all_trim_left.
    + pose proof (trim_right_len dash (trim_left dash r)). pose proof (trim_left_len dash r). unfold dash in *. lia.
    + destruct (trim_left_head dash r) as [H0|(c & t & H0 & Hd)]; unfold dash in *; rewrite H0 in *; [done|]. simpl in *.
      rewrite Hd in *. destruct (trim_right _ t) as [|d u]; [by exists c, ""|by exists c, (String d u)].
Qed.

Lemma digest_spec m : str_all is_lower_alnum (hex_encode (take 16 (Sha256.Sum256 m))) = true ∧ str_len (hex_encode (take 16 (Sha256.Sum256 m))) = 32.
Proof.
  split; [|by rewrite hex_encode_length, length_take, Sha256.Sum256_length].
  eapply str_all_impl; [|apply hex_encode_lower, Forall_take, Sha256.Sum256_range]. intros [[] [] [] [] [] [] [] []]; vm_compute; congruence.
Qed.

Definition nul : ascii := Ascii.ascii_of_nat 0.

Lemma nul_inj a b a' b' : no_byte nul a = true → no_byte nul a' = true → a +:+ String nul b = a' +:+ String nul b' → a = a' ∧ b = b'.
Proof.
  unfold no_byte, str_all. revert a'. induction a as [|c a IH]; intros [|c' a'] Ha Ha' E; rewrite ?str_app_nil_l, ?str_app_cons in E; simpl in *.
  - by simplify_eq.
  - exfalso. injection E as <- _. apply andb_prop in Ha' as [Hc _]. by rewrite bool_decide_true in Hc.
  - exfalso. injection E as -> _. apply andb_prop in Ha as [Hc _]. by rewrite bool_decide_true in Hc.
  - apply andb_prop in Ha as [_ Ha], Ha' as [_ Ha']. injection E as -> E. destruct (IH a' Ha Ha' E) as [-> ->]. done.
Qed.

(** The name of a device object is one that the API server accepts, of at most
    73 bytes, and two devices share one only if they have the same node and serial
    number or the first 16 bytes of their SHA-256 digests collide. *)
Theorem device_names_distinct node serial node' serial' :
  no_byte nul node = true → no_byte nul node' = true →
  match deviceObjectName node serial, deviceObjectName node' serial' with
  | inl name, inl name' =>
    object_name_ok name = true ∧ str_len name ≤ 73 ∧
    (name = name' → (node = node' ∧ serial = serial') ∨
       ∃ m m', m ≠ m' ∧ take 16 (Sha256.Sum256 (bytes_of m)) = take 16 (Sha256.Sum256 (bytes_of m')))
  | inr _, _ => TrimSpace node = "" ∨ TrimSpace serial = ""
  | _, inr _ => TrimSpace node' = "" ∨ TrimSpace serial' = ""
  end.
Proof.
  intros Hn Hn'. assert (∀ n s, (∃ e, deviceObjectName n s = inr e ∧ (TrimSpace n = "" ∨ TrimSpace s = "")) ∨
    deviceObjectName n s = inl (readablePrefix n +:+ "-" +:+ hex_encode (take 16 (Sha256.Sum256 (bytes_of (n +:+ String nul s)))))) as Hcase.
  { intros n s. unfold deviceObjectName. destruct (decide (TrimSpace n = "")) as [E|E]; [rewrite bool_decide_true by done; left; eauto|].
    rewrite (bool_decide_false (TrimSpace n = "")) by done. destruct (decide (TrimSpace s = "")) as [E'|E']; [rewrite bool_decide_true by done; left; eauto|].
    rewrite bool_decide_false by done. by right. }
  destruct (Hcase node serial) as [(e & -> & ?)| ->]; [done|]. destruct (Hcase node' serial') as [(e & -> & ?)| ->]; [done|].
  destruct (digest_spec (bytes_of (node +:+ String nul serial))) as [Hd Hdl]. destruct (prefix_spec node) as (Hp & Hpl & c & s & Ep & Hc).
  set (x := hex_encode _) in *. assert (str_len (readablePrefix node +:+ "-" +:+ x) ≤ 73) as Hlen.
  { rewrite !str_len_app, Hdl. change (str_len "-") with 1. lia. }
  split_and!; [|done|].
  - unfold object_name_ok. rewrite !andb_true_iff, Z.leb_le. split_and!; [| | |lia].
    + unfold str_all in *. rewrite !str_list_app, !forallb_app, Hp. simpl. eapply (str_all_impl is_lower_alnum); [|exact Hd].
      intros d Hd'. unfold label_char. by rewrite Hd'.
    + apply bool_decide_eq_true. unfold TrimByte, TrimFunc. change (λ d, d ==? "-"%char) with dash. rewrite Ep, str_app_cons. cbn [trim_left].
      rewrite Hc. rewrite <- str_app_cons, str_app_assoc. apply trim_right_app.
      * intros E. apply (f_equal str_len) in E. rewrite Hdl in E. done.
      * eapply str_all_impl; [|exact Hd]. intros d Hd'. by rewrite alnum_not_dash.
    + rewrite Ep, str_app_cons. by rewrite bool_decide_false.
  - intros E. apply (f_equal str_list) in E. rewrite !str_list_app, !app_assoc in E.
    destruct (digest_spec (bytes_of (node' +:+ String nul serial'))) as [_ Hdl']. apply app_inj_2 in E as [_ E%str_list_inj].
    2:{ unfold str_len in Hdl, Hdl'. lia. }
    apply hex_encode_inj in E; [|apply Forall_take, Sha256.Sum256_range..].
    destruct (decide (node +:+ String nul serial = node' +:+ String nul serial')) as [Em|Hm]; [left; by apply nul_inj|]. right. eauto.
Qed.

Lemma device_names_distinct_witness : deviceObjectName "Node 1" "S1" ≠ inr (Errorf "node name is empty") ∧
  match deviceObjectName "Node 1" "S1" with inl name => object_name_ok name = true | inr _ => False end.
Proof.
  pose proof (device_names_distinct "Node 1" "S1" "node-2" "S2" eq_refl eq_refl) as H.
  destruct (deviceObjectName "Node 1" "S1") as [name|e] eqn:E; [|by vm_compute in E].
  destruct (deviceObjectName "node-2" "S2") as [name'|e] eqn:E'; [|by vm_compute in E'].
  split; [intros [=]|apply H].
Defined.

(** ** Readiness *)

(** A node whose status the reporter wrote passes the readiness check of
    placement exactly while its heartbeat is fresh, if the endpoint was discovered
    and the one in its spec is usable; and its inventory counts as ready exactly
    when the round had no error. *)
Theorem reported_node_ready `{AM : ApiMachinery} {AML : ApiMachineryLaws AM} Error NodeName node t f ps now ep inv now' :
  let n := with_Status (nodeStatus Error NodeName node t f ps now ep inv) node in
  (rdma_Validate n now' = None ↔ is_ok ep = true ∧ HeartbeatIsFresh now now' = true ∧
     is_ok (ParseUsableIP (ns_RDMAIP (Spec node))) = true ∧
     (ns_Transport (Spec node) = RDMATransportRoCEv2 ∨ ns_Transport (Spec node) = RDMATransportInfiniBand)) ∧
  (inventoryIsReady n = true ↔ inv = None).
Proof.
  cbv zeta. assert (∀ T n p, c_Type (sourceCondition Error node T n inv p) = T) as Hs.
  { intros T n p. unfold sourceCondition. destruct inv as [e|]; [|done]. destruct (asDiscoveryError e) as [s|]; [|done]. by destruct (p s). }
  assert (c_Type (aggregateCondition Error node inv) = NVMeInventoryReadyCondition) as Ha by (by destruct inv).
  assert (c_Type (readyCondition Error node ep) = ReadyCondition) as Hr by (by destruct ep).
  split.
  - rewrite rdma_Validate_exact. simpl. unfold setInventoryConditions.
    rewrite !find_set_ne by (rewrite ?Hs, ?Ha; intros [=]). rewrite <- Hr, find_set_eq.
    split; intros (H1 & H2 & H3 & H4); (split_and!; [..|done]); try done.
    + destruct H1 as (c & [= <-] & Hc). by destruct ep.
    + destruct H3 as (ip & ->). done.
    + exists (readyCondition Error node ep). split; [done|]. by destruct ep.
    + destruct (ParseUsableIP _) as [ip|]; [by exists ip|done].
  - unfold inventoryIsReady. simpl. unfold setInventoryConditions. rewrite !find_set_ne by (rewrite ?Hs; intros [=]).
    rewrite <- Ha, find_set_eq. destruct inv; simpl; by split.
Qed.

(** C32: whatever the API server and discovery reply, the reporter writes nothing
    but: a device of this node that the latest discovery found and validated, with
    its data and under its name; the status of such a device, never unavailable,
    or of a device of this node that a discovery without error did not find, in
    both cases with its claim and backend kept; and the storage node of this node,
    with an endpoint that was discovered, whose inventory is reported ready only
    after a discovery without error. *)
Theorem reporter_justified `{AM : ApiMachinery} Error NodeName fuel h :
  emits (Start Error NodeName fuel) h → justified (reported Error NodeName) h.
Proof. apply (hwp_justified _ _ _ _ (Start_hwp Error NodeName fuel [])). Qed.

Definition example_node : RDMAStorageNode := mkObject (clusterMeta "n1") (nodeSpec "n1" FabricExample.endpoint) (zero_status KNode).

Lemma reported_node_ready_witness :
  let n := with_Status (nodeStatus (λ _, "error") "n1" example_node 0 0 [] (100 * Second) (inl FabricExample.endpoint) None) example_node in
  rdma_Validate n (130 * Second) = None ∧ inventoryIsReady n = true.
Proof.
  destruct (reported_node_ready (λ _, "error") "n1" example_node 0 0 [] (100 * Second) (inl FabricExample.endpoint) None (130 * Second)) as [H1 H2].
  split; [apply (proj2 H1)|apply (proj2 H2 eq_refl)].
  split; [reflexivity|split; [vm_compute; reflexivity|split; [vm_compute; reflexivity|left; reflexivity]]].
Defined.

Module ReporterExample.

Definition disk : HardwareNVMe := {|
  hw_Name := "nvme0"; hw_PCIAddress := "0000:01:00.0"; hw_SerialNumber := "S1"; hw_Model := "m"; hw_TotalBytes := 4194304; hw_NUMANode := 0
|}.

Definition endpoint : RDMAEndpoint :=
  {| ep_Interface := "eth0"; ep_IP := "10.1.0.7"; ep_Transport := RDMATransportRoCEv2; ep_LinkSpeed := "100" |}.

(** An API server without objects; one disk is discovered. *)
Definition handle (c : Cluster) (o : repOp) : repRep o * Cluster :=
  match o return repRep o * Cluster with
  | RKube o => model_serve c o
  | RNow => (100 * Second, c)
  | RSelect => (CtxDone Canceled, c)
  | RDiscover => (([disk], None), c)
  | RDiscoverRDMA => (inl endpoint, c)
  end.

Definition empty : Cluster :=
  {| partitions := mk_store []; devices := mk_store []; claims := mk_store []; nodes := mk_store []; attachments := mk_store [] |}.
Definition history : list revent := (trace handle (Start (λ _, "error") "n1" 1) empty).1.

End ReporterExample.

Lemma reporter_justified_witness : justified (reported (λ _, "error") "n1") ReporterExample.history.
Proof.
  apply (reporter_justified (λ _, "error") "n1" 1). eapply returns_emits, trace_returns.
Defined.
