(* ===== verification/NodeAgent.v ===== *)
(** * The agent on its plugins

    The partition manager sees plugins as operations; here every operation is
    carried out by the program of the plugin it names, so that a reconcile is one
    program over requests to the API server and operations of the host.  Whatever
    the API server replies, a host can reach a subsystem of the SPDK target only
    if it could before or the API server has shown a valid attachment of that host
    to the partition of the subsystem. *)

From S2P Require Import Prelude GoStrings GoPath Encoding Capacity ApiTypes Identity Options RdmaHealth Prog Kube Host Placement PlacementProps ClaimController Plugins.
From S2P Require Import Parted Lvol SpdkBackend KernelBackend TargetContract SpdkProps Discovery PartitionManager PartitionManagerProps.
Import PartitionManager.

Inductive sysOp :=
  | SKube (o : kubeOp)
  | SNow
  | SHost (o : hostOp).

Definition sysRep (o : sysOp) : Type :=
  match o with
  | SKube o => kubeRep o
  | SNow => Time
  | SHost o => hostRep o
  end.

Abbreviation sys A := (prog sysOp sysRep A).

(** What the API server has replied to. *)
Abbreviation kevent := (@event kubeOp kubeRep).

(** A program of the host as part of the system. *)
Definition on_host {A} (p : host A) : sys A := interp (λ o, call (Rep := sysRep) (SHost o)) p.

Definition managerOf (name : string) {A} (lvol partition : host A) (missing : A) : host A :=
  if name ==? "spdk-lvol" then lvol else if name ==? "parted" then partition else Ret missing.
Definition backendOf (name : string) {A} (spdk kernel : host A) (missing : A) : host A :=
  if name ==? "spdk" then spdk else if name ==? "kernel" then kernel else Ret missing.

Definition unregistered : error := Errorf "plugin not registered".

Section Agent.
Context `{QT : Quoting} `{UM : Unmarshal (list string)} `{UC : Unmarshal (list Spdk.controller)}
  `{UT : Unmarshal (list Spdk.transport)} `{US : Unmarshal (list Spdk.spdkSubsystem)} `{UB : Unmarshal (list Lvol.spdkBdev)}
  `{UL : Unmarshal (list Lvol.spdkLvstore)} `{UN : Unmarshal string} `{UD : Unmarshal (list Discovery.SpdkBdev)}.
Variable Error : error → string.

(** The plugins that the init functions of the package register. *)
Definition registered : Plugins.Registry :=
  Plugins.RegisterVolumeManager {| Plugins.manager_Name := "spdk-lvol" |}
    (Plugins.RegisterVolumeManager {| Plugins.manager_Name := "parted" |}
      (Plugins.RegisterTargetBackend {| Plugins.backend_Name := "spdk"; Plugins.isExportHealthChecker := true |}
        (Plugins.RegisterTargetBackend {| Plugins.backend_Name := "kernel"; Plugins.isExportHealthChecker := true |}
          {| Plugins.backends := ∅; Plugins.volumeManagers := ∅ |}))).

Definition plugin (o : agentOp) : sys (agentRep o) :=
  match o return sys (agentRep o) with
  | AKube o => call (Rep := sysRep) (SKube o)
  | ANow => call (Rep := sysRep) SNow
  | ADiscover => on_host Discovery.DiscoverNVMe
  | SetupDevice b pci name options => on_host (backendOf b
      (Spdk.SetupDevice pci name options) (Kernel.SetupDevice pci name options) (Some unregistered))
  | ExportVolume b v path ip port options => on_host (backendOf b
      (Spdk.ExportVolume v path ip port options) (Kernel.ExportVolume v path ip port options) (Err unregistered))
  | UnexportVolume b nqn => on_host (backendOf b (Spdk.UnexportVolume nqn) (Kernel.UnexportVolume nqn) (Some unregistered))
  | ReconcileHostAccess b nqn h => on_host (backendOf b
      (Spdk.ReconcileHostAccess nqn h) (Kernel.ReconcileHostAccess nqn h) (Some unregistered))
  | CheckExport b nqn path ip port options => on_host (backendOf b
      (Spdk.CheckExport nqn path ip port options) (Kernel.CheckExport nqn path ip port options) (Some unregistered))
  | SetupStorage m path name => on_host (managerOf m
      (Lvol.SetupStorage path name) (Parted.SetupStorage Error path name) (Some unregistered))
  | CreateVolume m path name v size => on_host (managerOf m
      (Lvol.CreateVolume path name v size) (Parted.CreateVolume path name v size) (Err unregistered))
  | DeleteVolume m path name v identity => on_host (managerOf m
      (Lvol.DeleteVolume path name v identity) (Parted.DeleteVolume path name v identity) (Some unregistered))
  end.

Definition agentReconcile `{AM : ApiMachinery} (NodeName : string) (req : ObjectKey) : sys (result ctrlResult) :=
  interp plugin (Reconcile Error registered NodeName req).

(** ** The SPDK target *)

(** The subsystems of the target, and the replies of the API server so far. *)
Definition sys_step (backing : string → list Lvol.spdkBdev) (s : subsystems * list kevent) (o : sysOp)
    : sysRep o → subsystems * list kevent → Prop :=
  match o return sysRep o → subsystems * list kevent → Prop with
  | SHost o => λ x s', subs_step backing s.1 o x s'.1 ∧ s'.2 = s.2
  | SKube o => λ x s', s'.1 = s.1 ∧ s'.2 = s.2 ++ [ev (Rep := kubeRep) o x]
  | SNow => λ _ s', s' = s
  end.

Lemma on_host_swp {A} backing inv (p : host A) w l Q : swp (subs_step backing) inv p w Q →
  swp (sys_step backing) (λ s, inv s.1 ∧ s.2 = l) (on_host p) (w, l) (λ a s, Q a s.1 ∧ s.2 = l).
Proof.
  revert w. induction p as [a|o k IH]; intros w H; destruct H as [Hi Hk]; [by apply swp_ret|]. apply swp_vis; [done|].
  intros x [w' l'] [Hs Hl]. simpl in Hs, Hl. rewrite Hl. apply IH. by apply Hk.
Qed.

(** Nobody gains access. *)
Definition closing (w0 w : subsystems) : Prop := subs_ok w ∧ ∀ n x, subs_open w n x → subs_open w0 n x.

Lemma closing_refl w : subs_ok w → closing w w.
Proof. done. Qed.

Lemma quiet_closing {A} backing (p : host A) w0 : subs_ok w0 → performs subs_quiet_op p →
  swp (subs_step backing) (closing w0) p w0 (λ _ _, True).
Proof.
  intros Hok Hp. eapply swp_mono; [|apply (swp_performs subs_quiet_op _ (closing w0)); [|exact Hp|by apply closing_refl]]; [done|].
  intros w o x w' Ho Hc Hs. destruct (subs_quiet_step backing w o x w' Ho Hs) as [->| ->]; [done|].
  split; [by intros n s H; rewrite lookup_empty in H|]. by intros n h (s & H & _); rewrite lookup_empty in H.
Qed.

Local Notation quiet := (performs subs_quiet_op).

Ltac head_of p := lazymatch p with ?f _ => head_of f | _ => p end.
Ltac opens := match goal with |- performs _ ?p => let f := head_of p in unfold f; cbv zeta end.

(** Programs that call no RPC that changes subsystems. *)
Ltac quietly := repeat
  (first [done | apply CallSPDKRPCInto_performs; set_solver | apply CallSPDKRPC_performs; set_solver
         | apply EnsureSPDKRunning_performs; exact (λ _, []) | performs_call | performs_step | opens]).

Lemma spdk_setup_quiet pci name options : quiet (Spdk.SetupDevice pci name options).
Proof. quietly. Qed.

Lemma spdk_check_quiet nqn path ip port options : quiet (Spdk.CheckExport nqn path ip port options).
Proof. quietly. Qed.

Lemma lvol_setup_quiet path name : quiet (Lvol.SetupStorage path name).
Proof. quietly. Qed.

Lemma lvol_create_quiet path name v size : quiet (Lvol.CreateVolume path name v size).
Proof. quietly. Qed.

Lemma lvol_delete_quiet path name v identity : quiet (Lvol.DeleteVolume path name v identity).
Proof. quietly. Qed.

Lemma parted_setup_quiet path name : quiet (Parted.SetupStorage Error path name).
Proof. quietly. Qed.

Lemma parted_create_quiet path name v size : quiet (Parted.CreateVolume path name v size).
Proof. quietly. Qed.

Lemma parted_delete_quiet path name v identity : quiet (Parted.DeleteVolume path name v identity).
Proof. quietly. Qed.

Lemma discover_quiet : quiet Discovery.DiscoverNVMe.
Proof. quietly. Qed.

Lemma kernel_setup_quiet pci name options : quiet (Kernel.SetupDevice pci name options).
Proof. quietly. Qed.

Lemma kernel_export_quiet v path ip port options : quiet (Kernel.ExportVolume v path ip port options).
Proof. quietly. Qed.

Lemma kernel_unexport_quiet nqn : quiet (Kernel.UnexportVolume nqn).
Proof. quietly. Qed.

Lemma kernel_access_quiet nqn h : quiet (Kernel.ReconcileHostAccess nqn h).
Proof. quietly. Qed.

Lemma kernel_check_quiet nqn path ip port options : quiet (Kernel.CheckExport nqn path ip port options).
Proof. quietly. Qed.

(** ** One operation *)

Variable backing : string → list Lvol.spdkBdev.

Lemma backendOf_swp name {A} (spdk kernel : host A) missing w0 Q : subs_ok w0 →
  swp (subs_step backing) (closing w0) spdk w0 Q → performs subs_quiet_op kernel → (∀ a w, Q a w) →
  swp (subs_step backing) (closing w0) (backendOf name spdk kernel missing) w0 Q.
Proof.
  intros Hok Hs Hk HQ. unfold backendOf. destruct (_ ==? _); [done|]. destruct (_ ==? _); [|apply swp_ret; [by apply closing_refl|done]].
  eapply swp_mono; [|by apply quiet_closing]. auto.
Qed.

Lemma managerOf_quiet name {A} (lvol partition : host A) missing : performs subs_quiet_op lvol → performs subs_quiet_op partition →
  performs subs_quiet_op (managerOf name lvol partition missing).
Proof. intros. unfold managerOf. by repeat destruct (_ ==? _). Qed.

Lemma closing_weaken {A} (inv : subsystems → Prop) (p : host A) w0 Q : (∀ w, inv w → closing w0 w) →
  swp (subs_step backing) inv p w0 Q → swp (subs_step backing) (closing w0) p w0 (λ _ _, True).
Proof. intros Hi Hp. eapply swp_mono; [|eapply swp_weaken; [exact Hi|exact Hp]]. done. Qed.

Definition about_access (o : agentOp) : bool := match o with ReconcileHostAccess _ _ _ => true | _ => false end.

(** The reply of an event of the agent that the API server gave. *)
Definition kube_reply (e : aevent) : list kevent :=
  match e with existT o x => match o return agentRep o → list kevent with AKube o => λ x, [ev (Rep := kubeRep) o x] | _ => λ _, [] end x end.

(** [p] keeps [inv] of the target and logs what it should. *)
Definition runs_within (inv : subsystems → Prop) (o : agentOp) (w : subsystems) (l : list kevent) : Prop :=
  swp (sys_step backing) (λ s, inv s.1 ∧ l `prefix_of` s.2) (plugin o) (w, l) (λ x s, s.2 = l ++ kube_reply (ev o x)).

Lemma host_within inv o (p : host (agentRep o)) w l Q : plugin o = on_host p → (∀ x, kube_reply (ev o x) = []) →
  swp (subs_step backing) inv p w Q → runs_within inv o w l.
Proof.
  intros Hp Hk Hs. unfold runs_within. rewrite Hp. eapply swp_mono; [|eapply swp_weaken; [|exact (on_host_swp _ _ _ _ l _ Hs)]].
  - intros x s _ [_ Hl]. by rewrite Hk, app_nil_r.
  - intros s [? ->]. done.
Qed.

(** An operation that is not about host access opens nothing. *)
Lemma plugin_closing o w0 l : subs_ok w0 → about_access o = false → runs_within (closing w0) o w0 l.
Proof.
  intros Hok Ho. pose proof (closing_refl w0 Hok) as Hr. destruct o; try done.
  - apply swp_vis; [done|]. intros x [w' l'] [Hw Hl]. simpl in *. subst. apply swp_ret; [|done]. split; [done|]. by apply prefix_app_r.
  - apply swp_vis; [done|]. intros x s' ->. apply swp_ret; [done|]. by rewrite app_nil_r.
  - eapply (host_within _ _ _ _ _ (λ _ _, True)); [done..|]. apply quiet_closing; [done|apply discover_quiet].
  - eapply (host_within _ _ _ _ _ (λ _ _, True)); [done..|]. apply backendOf_swp; [done|apply quiet_closing; [done|apply spdk_setup_quiet]|apply kernel_setup_quiet|done].
  - eapply (host_within _ _ _ _ _ (λ _ _, True)); [done..|]. apply backendOf_swp; [done| |apply kernel_export_quiet|done].
    eapply closing_weaken; [|by apply ExportVolume_swp]. by intros w (? & _ & ?).
  - eapply (host_within _ _ _ _ _ (λ _ _, True)); [done..|]. apply backendOf_swp; [done| |apply kernel_unexport_quiet|done].
    eapply closing_weaken; [|by apply spdk_UnexportVolume_swp]. intros w (? & Ho' & Hn). split; [done|].
    intros n x Hx. destruct (decide (n = nqn)) as [->|Hne]; [by apply Hn|]. by apply Ho'.
  - eapply (host_within _ _ _ _ _ (λ _ _, True)); [done..|]. apply backendOf_swp; [done|apply quiet_closing; [done|apply spdk_check_quiet]|apply kernel_check_quiet|done].
  - eapply (host_within _ _ _ _ _ (λ _ _, True)); [done..|]. apply quiet_closing, managerOf_quiet; [done|apply lvol_setup_quiet|apply parted_setup_quiet].
  - eapply (host_within _ _ _ _ _ (λ _ _, True)); [done..|]. apply quiet_closing, managerOf_quiet; [done|apply lvol_create_quiet|apply parted_create_quiet].
  - eapply (host_within _ _ _ _ _ (λ _ _, True)); [done..|]. apply quiet_closing, managerOf_quiet; [done|apply lvol_delete_quiet|apply parted_delete_quiet].
Qed.

(** Access is opened for the given host only. *)
Definition opening (w0 : subsystems) (nqn h : string) (w : subsystems) : Prop :=
  subs_ok w ∧ ∀ n x, subs_open w n x → subs_open w0 n x ∨ n = nqn ∧ x = h ∧ h ≠ "".

Lemma plugin_opening b nqn h w0 l : subs_ok w0 → runs_within (opening w0 nqn h) (ReconcileHostAccess b nqn h) w0 l.
Proof.
  intros Hok. assert (opening w0 nqn h w0) as H0 by (split; auto). eapply (host_within _ _ _ _ _ (λ _ _, True)); [done..|]. unfold backendOf.
  destruct (_ ==? _); [|destruct (_ ==? _); [|by apply swp_ret]].
  - eapply swp_mono; [|eapply swp_weaken; [|by apply spdk_ReconcileHostAccess_swp]]; [done|].
    intros w (Hw & Ho & Hr). split; [done|]. intros n x Hx. destruct (decide (n = nqn)) as [->|Hne]; [|left; by apply Ho].
    destruct (Hr x Hx) as [?|[[? ?] _]]; auto.
  - eapply swp_mono; [|eapply swp_weaken; [|by apply quiet_closing; [|apply kernel_access_quiet]]]; [done|].
    intros w [? Hc]. split; auto.
Qed.

(** ** The agent *)

Section Run.
Context `{AM : ApiMachinery} {AML : ApiMachineryLaws AM}.
Variables (NodeName : string) (req : ObjectKey).

(** The API server has shown the partition of the subsystem and a valid
    attachment of the host to it. *)
Definition granted (h : list aevent) (nqn x : string) : Prop :=
  ∃ q att, server_copy req h q ∧ attached h q att ∧ nqn = pt_NQN (Status q) ∧ x = as_HostNQN (Spec att).

Lemma granted_app h b nqn x : granted h nqn x → granted (h ++ b) nqn x.
Proof.
  intros (q & att & Hq & [Ha Hv] & ? & ?). exists q, att. split_and!; [by apply server_copy_app| |done|done].
  split; [|done]. apply elem_of_app. by left.
Qed.

Local Notation good := (good registered NodeName req).

Lemma op_safe h o w l q s' : subs_ok w → (∀ x, good h (ev o x)) → reaches (sys_step backing) (plugin o) (w, l) q s' →
  subs_ok s'.1 ∧ (∀ n x, subs_open s'.1 n x → subs_open w n x ∨ granted h n x) ∧ l `prefix_of` s'.2 ∧
  ∀ x, q = Ret x → s'.2 = l ++ kube_reply (ev o x).
Proof.
  intros Hok Hg Hr. destruct (about_access o) eqn:Ho.
  2:{ destruct (swp_sound _ _ _ _ _ _ _ (plugin_closing o w l Hok Ho) Hr) as [[[? Hc] ?] HQ]. split_and!; auto. }
  destruct o as [| | | | | |b nqn host| | | |]; try done.
  destruct (swp_sound _ _ _ _ _ _ _ (plugin_opening b nqn host w l Hok) Hr) as [[[? Hc] ?] HQ]. split_and!; [done| |done|done].
  intros n x Hx. destruct (Hc n x Hx) as [?|(-> & -> & Hne)]; [by left|]. right.
  destruct (Hg None) as (_ & p & Hp & -> & [->|(att & Ha & ->)]); [done|]. by exists p, att.
Qed.

(** The replies of the API server in a history. *)
Definition kube_replies (h : list aevent) : list kevent := mjoin (kube_reply <$> h).

Lemma agent_safe {A} (p : agent A) Q h w l q s' : hwp good p h Q → subs_ok w → reaches (sys_step backing) (interp plugin p) (w, l) q s' →
  subs_ok s'.1 ∧ ∃ h', l ++ kube_replies h' `prefix_of` s'.2 ∧ ∀ n x, subs_open s'.1 n x → subs_open w n x ∨ granted (h ++ h') n x.
Proof.
  revert h w l. induction p as [a|o k IH]; intros h w l Hp Hok Hr; simpl in Hr.
  { apply reaches_inv in Hr as [[-> ->]|[]]. split; [done|]. exists []. split; [by rewrite app_nil_r|auto]. }
  apply reaches_bind_inv in Hr as [(p' & Hr & _)|(x & [w1 l1] & Hr & Hk)].
  - destruct (op_safe h o w l _ _ Hok (λ x, proj1 (Hp x)) Hr) as (? & Hs & Hl & _). split; [done|]. exists []. by rewrite !app_nil_r.
  - destruct (op_safe h o w l _ _ Hok (λ x, proj1 (Hp x)) Hr) as (Hok1 & Hs & _ & Hl). simpl in Hok1, Hs, Hl. specialize (Hl x eq_refl).
    destruct (IH x (h ++ [ev o x]) w1 l1 (proj2 (Hp x)) Hok1 Hk) as (? & h' & He & Hs'). split; [done|].
    exists (ev o x :: h'). rewrite <- app_assoc in Hs'. split; [unfold kube_replies; simpl; by rewrite app_assoc, <- Hl|]. intros n y Hy.
    destruct (Hs' n y Hy) as [Hy1|?]; [|auto]. destruct (Hs n y Hy1) as [?|?]; [auto|]. right. by apply granted_app.
Qed.

(** The same in terms of what the API server has replied. *)
Definition shown (l : list kevent) (nqn x : string) : Prop :=
  ∃ q att, (ev (Rep := kubeRep) (Get Cached KPartition req) (inl q) ∈ l ∨
            ∃ base o : NVMePartition, ev (Rep := kubeRep) (Patch KPartition base o) (inl q) ∈ l) ∧
    ev (Rep := kubeRep) (Get Cached KAttachment {| key_Namespace := Namespace (Meta q);
                                   key_Name := Attachment.attachment_Name (UID (Meta q)) |}) (inl att) ∈ l ∧
    validAttachment q att = true ∧ nqn = pt_NQN (Status q) ∧ x = as_HostNQN (Spec att).

Lemma kube_replies_elem h o x : evk o x ∈ h → ev (Rep := kubeRep) o x ∈ kube_replies h.
Proof.
  intros H. unfold kube_replies. apply list_elem_of_join. exists (kube_reply (evk o x)). split; [by left|]. by apply list_elem_of_fmap_2.
Qed.

Lemma granted_shown h l nqn x : kube_replies h `prefix_of` l → granted h nqn x → shown l nqn x.
Proof.
  intros [t ->] (q & att & Hq & [Ha Hv] & ? & ?). exists q, att. rewrite !elem_of_app. split_and!; [|left; by apply kube_replies_elem|done..].
  destruct Hq as [Hq|(base & o & Hq)]; [left|right; exists base, o; rewrite elem_of_app]; left; by apply kube_replies_elem.
Qed.

End Run.

End Agent.

(** C2: in every state of every run of a reconcile of the agent with its plugins,
    whatever the API server replies and whatever fails, a host can connect to a
    subsystem of the SPDK target only if it could when the run began, or the API
    server has shown in this run the partition of the subsystem and a valid
    attachment of that host to it. *)
Theorem access_needs_attachment `{Quoting} `{Unmarshal (list string)} `{Unmarshal (list Spdk.controller)}
    `{Unmarshal (list Spdk.transport)} `{Unmarshal (list Spdk.spdkSubsystem)} `{Unmarshal (list Lvol.spdkBdev)}
    `{Unmarshal (list Lvol.spdkLvstore)} `{Unmarshal string} `{Unmarshal (list Discovery.SpdkBdev)}
    `{AM : ApiMachinery} {AML : ApiMachineryLaws AM} Error backing NodeName req w0 q w l :
  subs_ok w0 → reaches (sys_step backing) (agentReconcile Error NodeName req) (w0, []) q (w, l) →
  subs_ok w ∧ ∀ nqn x, subs_open w nqn x → subs_open w0 nqn x ∨ shown req l nqn x.
Proof.
  intros Hok Hr. destruct (agent_safe Error backing NodeName req _ _ [] w0 [] q (w, l)
    (Reconcile_hwp Error registered NodeName req) Hok Hr) as (? & h & Hp & Hs).
  split; [done|]. intros nqn x Hx. destruct (Hs nqn x Hx) as [?|Hg]; [by left|]. right. by eapply granted_shown.
Qed.

(** ** A run *)

Module AgentExample.
Import Spdk.

#[local] Instance namespace_eq_dec : EqDecision namespace.
Proof. solve_decision. Defined.
#[local] Instance listener_eq_dec : EqDecision listener.
Proof. solve_decision. Defined.
#[local] Instance subsystem_eq_dec : EqDecision spdkSubsystem.
Proof. solve_decision. Defined.

Definition nqn : string := "nqn.example".
Definition guest : string := Eval vm_compute in Attachment.HostNQN "node-2".

Definition target (hosts : list string) : spdkSubsystem :=
  {| ss_NQN := nqn; ss_AllowAnyHost := false; ss_Hosts := hosts; ss_Namespaces := [{| ns_Name := ""; ns_BdevName := "lvs/vol" |}];
     ss_ListenAddresses := [{| Trtype := "RDMA"; Traddr := "10.0.0.7"; Trsvcid := "4420" |}] |}.
Definition closed : subsystems := {[ nqn := target [] ]}.
Definition opened : subsystems := {[ nqn := target [guest] ]}.

Definition bdev : Lvol.spdkBdev :=
  {| Lvol.bdev_Name := "b"; Lvol.bdev_UUID := "b"; Lvol.bdev_Aliases := ["lvs/vol"]; Lvol.bdev_BlockSize := 512;
     Lvol.bdev_NumBlocks := 8; Lvol.bdev_LvolStoreUUID := None |}.
Definition backing (b : string) : list Lvol.spdkBdev := if b ==? "lvs/vol" then [bdev] else [].

#[local] Instance quoting : Quoting := λ s, s.
#[local] Instance decode_methods : Unmarshal (list string) := λ s, inl [s].
#[local] Instance decode_controllers : Unmarshal (list controller) := λ _, inl [].
#[local] Instance decode_transports : Unmarshal (list transport) := λ _, inl [].
#[local] Instance decode_subsystems : Unmarshal (list spdkSubsystem) := λ s, inl (if s ==? "[closed" then [target []] else []).
#[local] Instance decode_bdevs : Unmarshal (list Lvol.spdkBdev) := λ s, inl (if s ==? "[bdev" then [bdev] else []).
#[local] Instance decode_stores : Unmarshal (list Lvol.spdkLvstore) := λ _, inl [].
#[local] Instance decode_text : Unmarshal string := λ s, inl s.
#[local] Instance decode_devices : Unmarshal (list Discovery.SpdkBdev) := λ _, inl [].

Local Notation failure := (("", Some (ExitErr 1)) : string * option error).

(** The RPCs of the run; every other one fails. *)
Definition rpc (w : subsystems) (args : list string) : (string * option error) * subsystems :=
  if (args ==? ["nvmf_get_subsystems"]) && (w ==? closed) then (("[closed", None), w)
  else if (args ==? ["nvmf_subsystem_add_host"; nqn; guest]) && (w ==? closed) then (("", None), opened)
  else if args ==? ["bdev_get_bdevs"; "-b"; "lvs/vol"] then (("[bdev", None), w)
  else if args ==? ["rpc_get_methods"] then (("[methods", None), w)
  else (failure, w).

Definition reply (o : hostOp) : hostRep o :=
  match o return hostRep o with
  | ReadFile _ => inl ("nvmf_tgt" +:+ String nul ("-m" +:+ String nul "0x1"))
  | Exec _ _ _ => ("42", None)
  | CtxErrOp => None
  | SelectOp => TimedOut
  | Getenv _ => ""
  | Readlink _ | EvalSymlinks _ | DeviceNumber _ => inl ""
  | Stat _ | Lstat _ => inr (OsErr ENOENT)
  | WriteFile _ _ | Mkdir _ | MkdirAll _ | Remove _ | Symlink _ _ | StartTarget _ | KillTarget | SetRlimit _ => None
  | ReadDir _ | InterfaceAddrs _ => inl []
  | Rlimit => inl (0, 0)
  | ManagedTarget | TargetExited | ReapTarget => false
  | InterfaceUp _ => inl false
  | SetManagedTarget _ => tt
  end.

Definition handle (s : subsystems * list kevent) (o : sysOp) : sysRep o * (subsystems * list kevent) :=
  match o return sysRep o * (subsystems * list kevent) with
  | SKube o => let x := (model_serve attached_cluster o).1 in (x, (s.1, s.2 ++ [ev (Rep := kubeRep) o x]))
  | SNow => (example_time, s)
  | SHost (Exec env cmd args) =>
    if cmd ==? spdkRPCExecutable then let '(x, w) := rpc s.1 args in (x, (w, s.2)) else (reply (Exec env cmd args), s)
  | SHost o => (reply o, s)
  end.

Definition final : result ctrlResult * (subsystems * list kevent) :=
  run handle (agentReconcile example_Error "node-1" agent_key) (closed, []).

Lemma final_opened : final.2.1 = opened.
Proof. apply (bool_decide_eq_true (final.2.1 = opened)). vm_compute. reflexivity. Qed.

Lemma rpc_legal w args env : subs_step backing w (Exec env spdkRPCExecutable args) (rpc w args).1 (rpc w args).2.
Proof.
  unfold subs_step, rpc_step. rewrite bool_decide_true by done. unfold rpc.
  destruct (args ==? ["nvmf_get_subsystems"]) eqn:E; [apply bool_decide_eq_true in E as ->|clear E].
  { destruct (w ==? closed) eqn:E; [apply bool_decide_eq_true in E as ->|simpl; by left].
    split; [apply effect_quiet; vm_compute; set_solver|]. split; [|done]. intros _. exists [target []]. split; [done|]. intros s.
    rewrite list_elem_of_singleton. unfold closed. rewrite lookup_singleton_Some. split; [by intros ->|by intros [_ <-]]. }
  cbn [andb]. destruct (_ && _) eqn:E; [apply andb_prop in E as [->%bool_decide_eq_true ->%bool_decide_eq_true]|clear E].
  { split; [|done]. split_and!; try done.
    - intros m rest [= <- <-] Hm. exfalso. apply Hm, (bool_decide_eq_true (_ ∈ changing)). vm_compute. reflexivity.
    - intros n h [= <- <-]. unfold closed, opened. by rewrite alter_singleton_eq. }
  destruct (args ==? ["bdev_get_bdevs"; "-b"; "lvs/vol"]) eqn:E; [apply bool_decide_eq_true in E as ->|clear E].
  { split; [apply effect_quiet; vm_compute; set_solver|]. split; [done|]. by intros b [= <-]. }
  destruct (args ==? ["rpc_get_methods"]) eqn:E; [apply bool_decide_eq_true in E as ->|by left].
  split; [apply effect_quiet; vm_compute; set_solver|done].
Qed.

Lemma handle_legal s o : sys_step backing s o (handle s o).1 (handle s o).2.
Proof.
  destruct o as [o| |o]; [done|done|]. destruct o as [| | | | | | | | | | | | | | |env cmd args| | | | | | | | | |]; try (by split); try (by split; [left|]).
  simpl. destruct (bool_decide_reflect (cmd = spdkRPCExecutable)) as [->|Hne].
  - pose proof (rpc_legal s.1 args env) as H. destruct (rpc s.1 args) as [x w]. by split.
  - by split.
Qed.

Lemma agent_reaches : reaches (sys_step backing) (agentReconcile example_Error "node-1" agent_key) (closed, []) (Ret final.1) (opened, final.2.2).
Proof.
  pose proof (run_reaches (sys_step backing) handle (agentReconcile example_Error "node-1" agent_key) (closed, []) handle_legal) as H.
  change (run handle _ _) with final in H. rewrite <- final_opened. by rewrite <- surjective_pairing.
Qed.

End AgentExample.

Lemma access_needs_attachment_witness : shown agent_key AgentExample.final.2.2 AgentExample.nqn AgentExample.guest.
Proof.
  assert (subs_ok AgentExample.closed) as Hok by (intros n s; unfold AgentExample.closed; by intros [<- <-]%lookup_singleton_Some).
  assert (subs_open AgentExample.opened AgentExample.nqn AgentExample.guest) as Ho.
  { exists (AgentExample.target [AgentExample.guest]). split; [apply lookup_singleton_eq|]. right. apply list_elem_of_here. }
  destruct (proj2 (@access_needs_attachment AgentExample.quoting AgentExample.decode_methods AgentExample.decode_controllers
    AgentExample.decode_transports AgentExample.decode_subsystems AgentExample.decode_bdevs AgentExample.decode_stores
    AgentExample.decode_text AgentExample.decode_devices _ _ example_Error AgentExample.backing "node-1" agent_key
    AgentExample.closed _ _ _ Hok AgentExample.agent_reaches) _ _ Ho) as [(s & Hs & [Hany|Hin])|H]; [..|exact H].
  - unfold AgentExample.closed in Hs. apply lookup_singleton_Some in Hs as [_ <-]. discriminate Hany.
  - unfold AgentExample.closed in Hs. apply lookup_singleton_Some in Hs as [_ <-]. by apply not_elem_of_nil in Hin.
Defined.
