(* ===== verification/Fencing.v ===== *)
(** * Fencing

    The controller service takes a volume for detached once the attachment is
    gone, and the attachment is held by a finalizer that the agent drops.  Here the
    agent runs on its plugins as in NodeAgent.v: when it asks the API server to
    drop the finalizer, no host can connect to the target of the partition any
    more. *)

From S2P Require Import Prelude GoStrings GoPath Encoding Capacity ApiTypes Identity Options RdmaHealth Prog Kube Host Placement PlacementProps ClaimController Plugins.
From S2P Require Import Parted Lvol SpdkBackend KernelBackend TargetContract SpdkProps Discovery PartitionManager PartitionManagerProps NodeAgent.
Import PartitionManager.

Section Fence.
Context `{QT : Quoting} `{UM : Unmarshal (list string)} `{UC : Unmarshal (list Spdk.controller)}
  `{UT : Unmarshal (list Spdk.transport)} `{US : Unmarshal (list Spdk.spdkSubsystem)} `{UB : Unmarshal (list Lvol.spdkBdev)}
  `{UL : Unmarshal (list Lvol.spdkLvstore)} `{UN : Unmarshal string} `{UD : Unmarshal (list Discovery.SpdkBdev)}.
Context `{AM : ApiMachinery} {AML : ApiMachineryLaws AM}.
Variables (Error : error → string) (backing : string → list Lvol.spdkBdev) (NodeName : string) (req : ObjectKey).

#[local] Abbreviation good := (good registered NodeName req).
#[local] Abbreviation step := (sys_step backing).

(** What the latest plugin call has closed is closed. *)
Definition fenced (h : list aevent) (w : subsystems) : Prop :=
  ∀ nqn, just_closed h "spdk" nqn → ∀ x, ¬ subs_open w nqn x.

Lemma just_closed_snoc h e backend nqn : just_closed (h ++ [e]) backend nqn →
  is_plugin e = false ∧ just_closed h backend nqn ∨
  e = ev (Rep := agentRep) (ReconcileHostAccess backend nqn "") None ∨ e = ev (Rep := agentRep) (UnexportVolume backend nqn) None.
Proof.
  intros (a & e' & b & E & Hb & He). destruct b as [|e0 b _] using rev_ind.
  - right. by apply app_inj_tail in E as [_ ->].
  - left. rewrite !app_assoc in E. apply app_inj_tail in E as [-> ->]. apply Forall_app in Hb as [Hb He0]. split; [by inversion He0|].
    exists a, e', b. by rewrite app_assoc.
Qed.

Lemma on_host_head {A} (p : host A) s o k s' : reaches step (on_host p) s (Vis o k) s' → ∃ ho, o = SHost ho.
Proof.
  revert s. induction p as [a|ho kk IH]; intros s Hr; apply reaches_inv in Hr as [[E ->]|Hr].
  - discriminate E.
  - done.
  - injection E as -> _. by exists ho.
  - destruct Hr as (x & w1 & _ & Hr). by apply IH in Hr.
Qed.

(** A request to the API server is the whole operation. *)
Lemma plugin_head o s ko k s' : reaches step (plugin Error o) s (Vis (SKube ko) k) s' → o = AKube ko ∧ s' = s.
Proof.
  intros Hr. destruct o as [o| | | | | | | | | |]; try (by apply on_host_head in Hr as [ho ?]).
  - apply reaches_inv in Hr as [[E ->]|(x & w1 & _ & Hr)]; [by injection E as -> _|].
    apply reaches_inv in Hr as [[? _]|[]]; done.
  - apply reaches_inv in Hr as [[E ->]|(x & w1 & _ & Hr)]; [done|].
    apply reaches_inv in Hr as [[? _]|[]]; done.
Qed.

(** The two operations that close a target. *)
Lemma access_closes nqn w l s' : subs_ok w → reaches step (plugin Error (ReconcileHostAccess "spdk" nqn "")) (w, l) (Ret None) s' →
  ∀ y, ¬ subs_open s'.1 nqn y.
Proof.
  intros Hok Hr. destruct (swp_sound _ _ _ _ _ _ _ (on_host_swp backing _ _ w l _ (spdk_ReconcileHostAccess_swp backing nqn "" w Hok)) Hr) as [_ HQ].
  destruct (HQ None eq_refl) as [He _]. intros y Hy. apply He in Hy as [_ ?]; done.
Qed.

Lemma unexport_closes nqn w l s' : subs_ok w → reaches step (plugin Error (UnexportVolume "spdk" nqn)) (w, l) (Ret None) s' →
  ∀ y, ¬ subs_open s'.1 nqn y.
Proof.
  intros Hok Hr. destruct (swp_sound _ _ _ _ _ _ _ (on_host_swp backing _ _ w l _ (spdk_UnexportVolume_swp backing nqn w Hok)) Hr) as [_ HQ].
  destruct (HQ None eq_refl) as [He _]. by apply He.
Qed.

Lemma op_fenced h o w l x s' : subs_ok w → fenced h w → reaches step (plugin Error o) (w, l) (Ret x) s' → fenced (h ++ [ev o x]) s'.1.
Proof.
  intros Hok Hf Hr nqn Hc. apply just_closed_snoc in Hc as [[Hp Hc]|[E|E]].
  - assert (about_access o = false) as Ho by (by destruct o).
    destruct (swp_sound _ _ _ _ _ _ _ (plugin_closing Error backing o w l Hok Ho) Hr) as [[[_ Hcl] _] _].
    intros y Hy. by apply (Hf nqn Hc y), Hcl.
  - apply (f_equal (λ e : aevent, match e with existT (ReconcileHostAccess b n y) x => Some (b, n, y, x : option error) | _ => None end)) in E.
    destruct o; try discriminate E. simpl in E. injection E as -> -> -> ->. by eapply access_closes.
  - apply (f_equal (λ e : aevent, match e with existT (UnexportVolume b n) x => Some (b, n, x : option error) | _ => None end)) in E.
    destruct o; try discriminate E. simpl in E. injection E as -> -> ->. by eapply unexport_closes.
Qed.

(** When the agent is about to patch an attachment, the patch is justified by a
    history whose last closing is in effect. *)
Lemma agent_fenced {A} (p : agent A) Q h w l base o k s' : hwp good p h Q → subs_ok w → fenced h w →
  reaches step (interp (plugin Error) p) (w, l) (Vis (SKube (Patch KAttachment base o)) k) s' →
  ∃ h', s'.2 = l ++ kube_replies h' ∧ attachment_patch_ok registered NodeName req (h ++ h') base o ∧ fenced (h ++ h') s'.1.
Proof.
  revert h w l. induction p as [a|op kk IH]; intros h w l Hp Hok Hf Hr; simpl in Hr; [by apply reaches_inv in Hr as [[? _]|[]]|].
  assert (∀ x s1, reaches step (plugin Error op) (w, l) (Ret x) s1 → reaches step (interp (plugin Error) (kk x)) s1 (Vis (SKube (Patch KAttachment base o)) k) s' →
    ∃ h', s'.2 = l ++ kube_replies h' ∧ attachment_patch_ok registered NodeName req (h ++ h') base o ∧ fenced (h ++ h') s'.1) as Hnext.
  { intros x [w1 l1] Hx Hk. destruct (op_safe Error backing NodeName req h op w l _ _ Hok (λ x, proj1 (Hp x)) Hx) as (Hok1 & _ & _ & Hl).
    specialize (Hl x eq_refl). simpl in Hok1, Hl. pose proof (op_fenced h op w l x _ Hok Hf Hx) as Hf1. simpl in Hf1.
    destruct (IH x (h ++ [ev op x]) w1 l1 (proj2 (Hp x)) Hok1 Hf1 Hk) as (h' & Hl' & Hg & Hf'). exists (ev op x :: h').
    rewrite <- app_assoc in Hg, Hf'. split; [|done]. by rewrite Hl', Hl, <- app_assoc. }
  apply reaches_bind_inv in Hr as [(p' & Hr & E)|(x & s1 & Hx & Hk)]; [|by eapply Hnext].
  destruct p' as [x|o' k']; simpl in E; [apply (Hnext x s' Hr); rewrite E; apply reaches_refl|].
  injection E as <- _. apply plugin_head in Hr as [-> ->]. exists []. rewrite !app_nil_r.
  split; [done|]. split; [|done]. exact (proj1 (Hp (inr (Errorf "")))).
Qed.

(** What the API server has replied about the partition and its attachment. *)
Definition partition_shown (l : list kevent) (q : NVMePartition) : Prop :=
  ev (Rep := kubeRep) (Get Cached KPartition req) (inl q) ∈ l ∨ ∃ base o : NVMePartition, ev (Rep := kubeRep) (Patch KPartition base o) (inl q) ∈ l.

Definition attachment_shown (l : list kevent) (q : NVMePartition) (base : NVMeVolumeAttachment) : Prop :=
  ∃ att, ev (Rep := kubeRep) (Get Cached KAttachment {| key_Namespace := Namespace (Meta q);
                                        key_Name := Attachment.attachment_Name (UID (Meta q)) |}) (inl att) ∈ l ∧
    (base = att ∨ ev (Rep := kubeRep) (Get Cached KAttachment (ObjectKeyFromObject att)) (inl base) ∈ l).

Lemma attachment_of_shown h q base : attachment_of h q base → attachment_shown (kube_replies h) q base.
Proof. intros (att & Ha & Hb). exists att. split; [by apply kube_replies_elem|]. destruct Hb; [by left|right; by apply kube_replies_elem]. Qed.

Lemma copy_shown h q : server_copy req h q → partition_shown (kube_replies h) q.
Proof. intros [H|(b & o & H)]; [left|right; exists b, o]; by apply kube_replies_elem. Qed.

(** The backend named by the partition that the run read first. *)
Definition uses_backend (l : list kevent) (name : string) : Prop :=
  ∃ p0 resolved, head l = Some (ev (Rep := kubeRep) (Get Cached KPartition req) (inl p0)) ∧
    resolvePartitionPlugins registered p0 = inl resolved ∧ Plugins.backend_Name (targetBackend resolved) = name.

End Fence.

(** C11: whenever the agent asks the API server to drop the fencing finalizer of an
    attachment, it has read that attachment for a partition, and if the partition
    is served by the SPDK target, no host at all can connect to its subsystem at
    that moment. *)
Theorem released_attachment_fenced `{Quoting} `{Unmarshal (list string)} `{Unmarshal (list Spdk.controller)}
    `{Unmarshal (list Spdk.transport)} `{Unmarshal (list Spdk.spdkSubsystem)} `{Unmarshal (list Lvol.spdkBdev)}
    `{Unmarshal (list Lvol.spdkLvstore)} `{Unmarshal string} `{Unmarshal (list Discovery.SpdkBdev)}
    `{AM : ApiMachinery} {AML : ApiMachineryLaws AM} Error backing NodeName req w0 base o k w l :
  subs_ok w0 → reaches (sys_step backing) (agentReconcile Error NodeName req) (w0, []) (Vis (SKube (Patch KAttachment base o)) k) (w, l) →
  Attachment.Finalizer ∈ Finalizers (Meta base) → Attachment.Finalizer ∉ Finalizers (Meta o) →
  ∃ q nqn, partition_shown req l q ∧ attachment_shown l q base ∧ (nqn = pt_NQN (Status q) ∨ nqn = target_of q) ∧
    (uses_backend req l "spdk" → ∀ x, ¬ subs_open w nqn x).
Proof.
  intros Hok Hr Hb Ho. destruct (agent_fenced Error backing NodeName req _ _ [] w0 [] base o k (w, l) (Reconcile_hwp Error registered NodeName req) Hok) as (h & Hl & Hp & Hf).
  - intros nqn (a & e & b & E & _). by destruct a.
  - exact Hr.
  - simpl in Hl, Hp, Hf. subst l. destruct (Hp Hb Ho) as (backend & nqn & (p0 & resolved & [t Ht] & Hres & ->) & Hc & q & Ha & Hq).
    exists q, nqn. split; [|split; [by apply attachment_of_shown|split]].
    + apply copy_shown. destruct Hq as [[? _]|[(Hfr & _) _]]; [done|by apply first_read_copy].
    + destruct Hq as [[_ ?]|[_ ?]]; auto.
    + intros (p1 & res1 & Hh & Hr1 & Hn). subst h. simpl in Hh.
      apply (f_equal (λ e : option kevent, match e with Some (existT (Get Cached KPartition _) (inl p)) => Some (p : NVMePartition) | _ => None end)) in Hh.
      simpl in Hh. injection Hh as <-. rewrite Hres in Hr1. injection Hr1 as <-. rewrite Hn in Hc. by apply Hf.
Qed.

(** ** A run

    The attachment of the exported partition is being deleted; the agent removes
    its host and is about to drop the finalizer. *)

Module FenceExample.
Import Spdk AgentExample.

#[local] Existing Instances AgentExample.namespace_eq_dec AgentExample.listener_eq_dec AgentExample.subsystem_eq_dec.

#[local] Instance quoting : Quoting := λ s, s.
#[local] Instance decode_methods : Unmarshal (list string) := λ s, inl [s].
#[local] Instance decode_controllers : Unmarshal (list controller) := λ _, inl [].
#[local] Instance decode_transports : Unmarshal (list transport) := λ _, inl [].
#[local] Instance decode_subsystems : Unmarshal (list spdkSubsystem) := λ s, inl (if s ==? "[opened" then [target [guest]] else if s ==? "[closed" then [target []] else []).
#[local] Instance decode_bdevs : Unmarshal (list Lvol.spdkBdev) := λ s, inl (if s ==? "[bdev" then [bdev] else []).
#[local] Instance decode_stores : Unmarshal (list Lvol.spdkLvstore) := λ _, inl [].
#[local] Instance decode_text : Unmarshal string := λ s, inl s.
#[local] Instance decode_devices : Unmarshal (list Discovery.SpdkBdev) := λ _, inl [].

Definition detached_cluster : Cluster :=
  agent_cluster (exported_partition None) [with_Meta (set_DeletionTimestamp (Some 5) (Meta example_attachment)) example_attachment].

(** The RPCs of the run; every other one fails. *)
Definition rpc (w : subsystems) (args : list string) : (string * option error) * subsystems :=
  if (args ==? ["nvmf_get_subsystems"]) && (w ==? opened) then (("[opened", None), w)
  else if (args ==? ["nvmf_get_subsystems"]) && (w ==? closed) then (("[closed", None), w)
  else if (args ==? ["nvmf_subsystem_remove_host"; nqn; guest]) && (w ==? opened) then (("", None), closed)
  else if args ==? ["bdev_get_bdevs"; "-b"; "lvs/vol"] then (("[bdev", None), w)
  else if args ==? ["rpc_get_methods"] then (("[methods", None), w)
  else (("", Some (ExitErr 1)), w).

Definition handle (s : subsystems * list kevent) (o : sysOp) : sysRep o * (subsystems * list kevent) :=
  match o return sysRep o * (subsystems * list kevent) with
  | SKube o => let x := (model_serve detached_cluster o).1 in (x, (s.1, s.2 ++ [ev (Rep := kubeRep) o x]))
  | SNow => (example_time, s)
  | SHost (Exec env cmd args) =>
    if cmd ==? spdkRPCExecutable then let '(x, w) := rpc s.1 args in (x, (w, s.2)) else (reply (Exec env cmd args), s)
  | SHost o => (reply o, s)
  end.

(** The run stopped before the first request that patches an attachment. *)
Definition patches (o : sysOp) : option (NVMeVolumeAttachment * NVMeVolumeAttachment) :=
  match o with SKube (Patch KAttachment base o) => Some (base, o) | _ => None end.

Fixpoint advance {A} (p : sys A) (s : subsystems * list kevent) : option (NVMeVolumeAttachment * NVMeVolumeAttachment * (subsystems * list kevent)) :=
  match p with
  | Ret _ => None
  | Vis o k => match patches o with Some x => Some (x, s) | None => let '(r, s') := handle s o in advance (k r) s' end
  end.

Lemma closing_rpc_legal w args env : subs_step backing w (Exec env spdkRPCExecutable args) (rpc w args).1 (rpc w args).2.
Proof.
  unfold subs_step, rpc_step. rewrite bool_decide_true by done. unfold rpc.
  destruct (args ==? ["nvmf_get_subsystems"]) eqn:E; [apply bool_decide_eq_true in E as ->|clear E].
  { destruct (w ==? opened) eqn:E; [apply bool_decide_eq_true in E as ->|]; [|destruct (w ==? closed) eqn:E'; [apply bool_decide_eq_true in E' as ->|simpl; by left]].
    - split; [apply effect_quiet; vm_compute; set_solver|]. split; [|done]. intros _. exists [target [guest]]. split; [done|]. intros s.
      rewrite list_elem_of_singleton. unfold opened. rewrite lookup_singleton_Some. split; [by intros ->|by intros [_ <-]].
    - split; [apply effect_quiet; vm_compute; set_solver|]. split; [|done]. intros _. exists [target []]. split; [done|]. intros s.
      rewrite list_elem_of_singleton. unfold closed. rewrite lookup_singleton_Some. split; [by intros ->|by intros [_ <-]]. }
  cbn [andb]. destruct (_ && _) eqn:E; [apply andb_prop in E as [->%bool_decide_eq_true ->%bool_decide_eq_true]|clear E].
  { split; [|done]. split_and!; try done.
    - intros m rest [= <- <-] Hm. exfalso. apply Hm, (bool_decide_eq_true (_ ∈ changing)). vm_compute. reflexivity.
    - intros n h [= <- <-]. unfold closed, opened. rewrite alter_singleton_eq. apply (bool_decide_eq_true (_ = _)). vm_compute. reflexivity. }
  destruct (args ==? ["bdev_get_bdevs"; "-b"; "lvs/vol"]) eqn:E; [apply bool_decide_eq_true in E as ->|clear E].
  { split; [apply effect_quiet; vm_compute; set_solver|]. split; [done|]. by intros b [= <-]. }
  destruct (args ==? ["rpc_get_methods"]) eqn:E; [apply bool_decide_eq_true in E as ->|by left].
  split; [apply effect_quiet; vm_compute; set_solver|done].
Qed.

Lemma closing_run_legal s o : sys_step backing s o (handle s o).1 (handle s o).2.
Proof.
  destruct o as [o| |o]; [done|done|]. destruct o as [| | | | | | | | | | | | | | |env cmd args| | | | | | | | | |]; try (by split); try (by split; [left|]).
  simpl. destruct (bool_decide_reflect (cmd = spdkRPCExecutable)) as [->|Hne].
  - pose proof (closing_rpc_legal s.1 args env) as H. destruct (rpc s.1 args) as [x w]. by split.
  - by split.
Qed.

Lemma patches_spec o x : patches o = Some x → o = SKube (Patch KAttachment x.1 x.2).
Proof. destruct o as [[]| |]; simpl; try done. destruct k; try done. by intros [= <-]. Qed.

Lemma advance_reaches {A} (p : sys A) s base o s' : advance p s = Some (base, o, s') →
  ∃ k, reaches (sys_step backing) p s (Vis (SKube (Patch KAttachment base o)) k) s'.
Proof.
  revert s. induction p as [a|op k IH]; intros s; simpl; [done|]. destruct (patches op) as [x|] eqn:E.
  - apply patches_spec in E as ->. intros [= -> <-]. exists k. apply reaches_refl.
  - pose proof (closing_run_legal s op) as Hl. destruct (handle s op) as [r s1]. intros [k' Hr]%IH. exists k'. by eapply reaches_step.
Qed.

Definition stopped := advance (agentReconcile example_Error "node-1" agent_key) (opened, []).

End FenceExample.

Lemma released_attachment_fenced_witness :
  match FenceExample.stopped with
  | Some (base, o, (w, l)) => ∃ q nqn, partition_shown agent_key l q ∧ attachment_shown l q base ∧
      (nqn = pt_NQN (Status q) ∨ nqn = target_of q) ∧ ∀ x, ¬ subs_open w nqn x
  | None => False
  end.
Proof.
  assert (subs_ok AgentExample.opened) as Hok by (intros n s; unfold AgentExample.opened; by intros [<- <-]%lookup_singleton_Some).
  assert (match FenceExample.stopped with
          | Some (base, o, (w, l)) => bool_decide (Attachment.Finalizer ∈ Finalizers (Meta base)) && bool_decide (Attachment.Finalizer ∉ Finalizers (Meta o)) &&
              match l with
              | existT (Get Cached KPartition key) (inl p0) :: _ => (key ==? agent_key) &&
                 match resolvePartitionPlugins registered p0 with inl resolved => Plugins.backend_Name (targetBackend resolved) ==? "spdk" | inr _ => false end
              | _ => false
              end
          | None => false
          end = true) as Hc by (vm_compute; reflexivity).
  destruct FenceExample.stopped as [[[base o] [w l]]|] eqn:E; [|discriminate].
  apply FenceExample.advance_reaches in E as [k Hr]. apply andb_prop in Hc as [Hc Hl]. apply andb_prop in Hc as [Hb%bool_decide_eq_true Ho%bool_decide_eq_true].
  destruct (@released_attachment_fenced FenceExample.quoting FenceExample.decode_methods FenceExample.decode_controllers
    FenceExample.decode_transports FenceExample.decode_subsystems FenceExample.decode_bdevs FenceExample.decode_stores
    FenceExample.decode_text FenceExample.decode_devices _ _ example_Error AgentExample.backing "node-1" agent_key
    AgentExample.opened base o k w l Hok Hr Hb Ho) as (q & nqn & Hq & Ha & Hn & Hx).
  exists q, nqn. split; [exact Hq|split; [exact Ha|split; [exact Hn|]]]. apply Hx.
  destruct l as [|[[[] [] key| | | | | | ] [p0|]] l]; try discriminate. apply andb_prop in Hl as [->%bool_decide_eq_true Hl].
  destruct (resolvePartitionPlugins registered p0) as [resolved|] eqn:Er; [|discriminate]. apply bool_decide_eq_true in Hl.
  exists p0, resolved. split; [reflexivity|split; [exact Er|exact Hl]].
Defined.
