(* ===== verification/Obliging.v ===== *)
(** * An API server that obliges

    For progress the API server has to answer: reads from the current state, and
    writes that are legal applied.  The rules below say what a request then gives,
    for any program that sends requests. *)

From stdpp Require Import pretty.
From S2P Require Import Prelude GoStrings ApiTypes Prog Kube Placement MgrQuiet.

(** Decide the conditions that hypotheses settle. *)
Ltac decides := repeat match goal with
  |- context [bool_decide ?P] => first [rewrite (bool_decide_true P) by done | rewrite (bool_decide_false P) by done]
  end; cbn [negb orb andb].

(** What the server answers when nothing keeps it from answering. *)
Definition answered (c : Cluster) (o : kubeOp) : kubeRep o → Prop :=
  match o with
  | Get _ k key => λ r, match objects c k !! key with Some ob => r = inl ob | None => ∃ e, r = inr e ∧ IsNotFound e = true end
  | List _ k => λ r, is_ok r = true
  | Patch k _ o | StatusPatch k _ o => λ r, is_Some (objects c k !! ObjectKeyFromObject o) → is_ok r = true
  | Delete k o => λ r, is_Some (objects c k !! ObjectKeyFromObject o) → r = None
  | Update k o => λ r, ∀ cur : obj k, objects c k !! ObjectKeyFromObject o = Some cur →
      ResourceVersion (Meta cur) = ResourceVersion (Meta o) → UID (Meta cur) = UID (Meta o) → is_ok r = true
  | Create k o => λ r, objects c k !! ObjectKeyFromObject o = None →
      match r with inl ob => UID (Meta ob) ≠ "" ∧ Status ob = zero_status k | inr _ => False end
  end.

Lemma answered_get c src k key (ob : obj k) r : objects c k !! key = Some ob → answered c (Get src k key) r → r = inl ob.
Proof. simpl. by intros ->. Qed.

Lemma fresh_wf c o r c' : fresh_spec c o r c' → cluster_wf c → cluster_wf c'.
Proof. intros H Hwf. destruct o; try (by destruct H as [-> _]); exact (proj1 (kube_spec_wf _ _ _ _ H Hwf)). Qed.

(** An API server that answers from the current state and applies every write. *)
Definition obliging (c : Cluster) (o : kubeOp) (r : kubeRep o) (c' : Cluster) : Prop := fresh_spec c o r c' ∧ answered c o r.

(** Strings that stdpp takes as fresh are numbers. *)
Lemma pretty_N_go_nonempty x s : s ≠ "" → pretty_N_go x s ≠ "".
Proof.
  revert s. induction (N.lt_wf_0 x) as [x _ IH]. intros s Hs. destruct (decide (x = 0%N)) as [->|Hx]; [by rewrite pretty_N_go_0|].
  rewrite pretty_N_go_step by lia. apply IH; [|done]. apply N.div_lt; lia.
Qed.
Lemma pretty_nat_nonempty (n : nat) : pretty n ≠ "".
Proof.
  unfold pretty, pretty_nat. unfold pretty, pretty_N. case_decide; [done|]. rewrite pretty_N_go_step by lia. by apply pretty_N_go_nonempty.
Qed.
Lemma search_nonempty (xs : list string) (n : nat) (a : Acc (λ n1 n2 : nat, (n2 < n1)%nat ∧ pretty (n1 - 1)%nat ∈ xs) n) :
  Fix_F (λ _, string) (search_infinite_go pretty xs) a ≠ "".
Proof.
  revert n a. fix FIX 2. intros n [acc]. simpl. unfold search_infinite_go at 1. destruct (decide _); [apply FIX|apply pretty_nat_nonempty].
Qed.

Lemma fresh_nonempty (xs : list string) : infinite_fresh xs ≠ "".
Proof. apply search_nonempty. Qed.

Lemma model_serves_obliging c o : cluster_wf c → obliging c o (model_serve c o).1 (model_serve c o).2.
Proof.
  intros Hwf. split; [apply model_serves_fresh; split; [done|apply surjective_pairing]|].
  destruct o as [src k key|src k|k o|k o|k b o|k b o|k o]; simpl; try done.
  - destruct (objects c k !! key); [done|]. by exists not_found.
  - intros Hn. destruct (objects c k !! _); [done|]. split; [apply fresh_nonempty|done].
  - destruct (objects c k !! _) as [cur'|]; [|done]. intros cur [= <-] Hv Hu. by rewrite !bool_decide_true.
  - destruct (objects c k !! _); [done|]. by intros [? ?].
  - destruct (objects c k !! _); [done|]. by intros [? ?].
  - destruct (objects c k !! _) as [cur|]; [|by intros [? ?]]. intros _. case_bool_decide; [done|]. by destruct (deleting cur).
Qed.

(** ** Requests *)

Section Requests.
Context {Op : Type} {Rep : Op → Type}.
Variable step : Cluster → ∀ o : Op, Rep o → Cluster → Prop.
(** How the program sends a request, and that the server obliges. *)
Variable request : ∀ o : kubeOp, prog Op Rep (kubeRep o).
Hypothesis request_ok : ∀ o c (Q : kubeRep o → Cluster → Prop), cluster_wf c →
  (∀ r c', fresh_spec c o r c' → answered c o r → cluster_wf c' → Q r c') → qwp step cluster_wf (request o) c Q.

#[local] Abbreviation rq := (qwp step cluster_wf).

Lemma request_get src k key c (ob : obj k) Q : cluster_wf c → objects c k !! key = Some ob → Q (inl ob) c → rq (request (Get src k key)) c Q.
Proof. intros Hwf Ho HQ. apply request_ok; [done|]. intros r c' [-> _] Ha _. simpl in Ha. rewrite Ho in Ha. by subst. Qed.

Lemma request_find src k key c Q : cluster_wf c → (∀ ob, objects c k !! key = Some ob → Q (inl ob) c) →
  (∀ e, objects c k !! key = None → IsNotFound e = true → Q (inr e) c) → rq (request (Get src k key)) c Q.
Proof.
  intros Hwf Hs Hn. apply request_ok; [done|]. intros r c' [-> _] Ha _. simpl in Ha.
  destruct (objects c k !! key) as [ob|] eqn:E; [subst; by apply Hs|]. destruct Ha as (e & -> & He). by apply Hn.
Qed.

Lemma request_list src k c Q : cluster_wf c → (∀ l, l ≡ₚ (map_to_list (objects c k)).*2 → Q (inl l) c) → rq (request (List src k)) c Q.
Proof.
  intros Hwf HQ. apply request_ok; [done|]. intros [l|e] c' [-> Hl] Ha _; [by apply HQ|done].
Qed.

Lemma request_status_patch k (base o cur : obj k) c Q : cluster_wf c → objects c k !! ObjectKeyFromObject o = Some cur →
  Status base = Status cur → (∀ ob c', cluster_wf c' → patched_to c cur o ob c' → Q (inl ob) c') →
  rq (request (StatusPatch k base o)) c Q.
Proof.
  intros Hwf Hc Hb HQ. apply request_ok; [done|]. intros [ob|e] c' Hs Ha Hwf'.
  - apply HQ; [done|]. by eapply status_patch_effect.
  - discriminate Ha. by exists cur.
Qed.

Lemma request_patch k (base o cur : obj k) c Q : cluster_wf c → objects c k !! ObjectKeyFromObject o = Some cur →
  (∀ ob c', cluster_wf c' → written_to c cur ob c' → patched cur base o ob → Q (inl ob) c') →
  rq (request (Patch k base o)) c Q.
Proof.
  intros Hwf Hc HQ. apply request_ok; [done|]. intros [ob|e] c' Hs Ha Hwf'; [|discriminate Ha; by exists cur].
  destruct Hs as (cur' & Hcur' & Hp & Hst). rewrite Hc in Hcur'. injection Hcur' as <-. destruct (proj1 (Hwf k) _ _ Hc) as [Hk _].
  apply HQ; [done| |done]. apply stored_effect; [done|by rewrite Hk|by destruct Hp|done].
Qed.

Lemma request_update k (o cur : obj k) c Q : cluster_wf c → objects c k !! ObjectKeyFromObject o = Some cur →
  ResourceVersion (Meta cur) = ResourceVersion (Meta o) → UID (Meta cur) = UID (Meta o) →
  (∀ ob c', cluster_wf c' → written_to c cur ob c' → updated cur o ob → Q (inl ob) c') →
  rq (request (Update k o)) c Q.
Proof.
  intros Hwf Hc Hv Hu HQ. apply request_ok; [done|]. intros [ob|e] c' Hs Ha Hwf'; [|by specialize (Ha cur Hc Hv Hu)].
  destruct Hs as (cur' & Hcur' & _ & _ & Hp & Hst). rewrite Hc in Hcur'. injection Hcur' as <-. destruct (proj1 (Hwf k) _ _ Hc) as [Hk _].
  apply HQ; [done| |done]. apply stored_effect; [done|by rewrite Hk|by destruct Hp|done].
Qed.

Lemma request_create k (o : obj k) c Q : cluster_wf c → objects c k !! ObjectKeyFromObject o = None →
  (∀ ob c', cluster_wf c' → create_applied c o ob c' → UID (Meta ob) ≠ "" → Status ob = zero_status k → Q (inl ob) c') →
  rq (request (Create k o)) c Q.
Proof.
  intros Hwf Hn HQ. apply request_ok; [done|]. intros [ob|e] c' Hs Ha Hwf'; destruct (Ha Hn). by apply HQ.
Qed.

End Requests.

(** A patch without changes changes nothing. *)
Lemma patch_map_keep (b c : gmap string string) : patch b b c = c.
Proof.
  unfold patch, patch_map. apply map_eq. intros k. rewrite lookup_union.
  assert (filter (λ kv, b !! kv.1 ≠ Some kv.2) b !! k = None) as ->.
  { apply map_lookup_filter_None. right. intros x Hx Hn. by apply Hn. }
  assert (filter (λ kv, b !! kv.1 = None ∨ b !! kv.1 ≠ None) c !! k = c !! k) as ->; [|by destruct (c !! k)].
  destruct (c !! k) as [x|] eqn:E.
  - apply map_lookup_filter_Some. split; [done|]. simpl. destruct (b !! k); [by right|by left].
  - apply map_lookup_filter_None. by left.
Qed.

Lemma patch_atomic_keep `{EqDecision A} (b c : A) : patch_atomic b b c = c.
Proof. unfold patch_atomic. by rewrite decide_True. Qed.

Lemma patch_partition_spec_keep (b c : NVMePartitionSpec) : patch b b c = c.
Proof.
  assert (∀ r c : option NVMeDeviceClaimReference, patch r r c = c) as Hr
    by (intros [r|] c'; [|done]; unfold patch, patch_claim_ref; by rewrite decide_True).
  unfold patch, patch_partition_spec. destruct c; f_equal; try apply patch_atomic_keep; [apply Hr|apply patch_map_keep].
Qed.
