(* ===== verification/AgentLive.v ===== *)
(** * Progress of the agent

    With plugins that work, an API server that answers from the current state and
    applies every write, and nobody else writing, one reconcile takes a placed
    partition to its end: a live one is exported, a deleted one disappears. *)

From S2P Require Import Prelude GoStrings Encoding Capacity ApiTypes Identity Options RdmaHealth Prog Kube.
From S2P Require Import Placement MgrQuiet Obliging PlacementProps ClaimController Plugins PartitionManager PartitionManagerProps.
Import Plugins PartitionManager.

Section Live.
Context `{AM : ApiMachinery} {AML : ApiMachineryLaws AM}.
Variable Error : error → string.
Variable plugins : Registry.
Variable NodeName : string.

Variable now : Time.
Variable hardware : list HardwareNVMe.

(** Plugins that do what they are asked to. *)
Definition live_step (c : Cluster) (o : agentOp) : agentRep o → Cluster → Prop :=
  match o with
  | AKube o => λ r c', obliging c o r c'
  | ANow => λ t c', t = now ∧ c' = c
  | ADiscover => λ r c', r = (hardware, None) ∧ c' = c
  | ExportVolume _ _ _ _ _ _ => λ r c', is_ok r = true ∧ c' = c
  | CreateVolume _ _ _ _ size => λ r c', c' = c ∧
      ∃ v, r = inl v ∧ BackendVolumeID v ≠ "" ∧ ∀ n, RoundUp size = inl n → n ≤ CapacityBytes v
  | SetupDevice _ _ _ _ | UnexportVolume _ _ | ReconcileHostAccess _ _ _ | CheckExport _ _ _ _ _ _
  | SetupStorage _ _ _ | DeleteVolume _ _ _ _ _ => λ r c', r = None ∧ c' = c
  end.

#[local] Abbreviation lq := (qwp live_step cluster_wf).

(** ** Requests *)

Lemma live_kube o c (Q : kubeRep o → Cluster → Prop) : cluster_wf c →
  (∀ r c', fresh_spec c o r c' → answered c o r → cluster_wf c' → Q r c') → lq (akube o) c Q.
Proof.
  intros Hwf H. apply qwp_vis; [done|]. intros r c' [Hf Ha].
  pose proof (fresh_wf _ _ _ _ Hf Hwf) as Hwf'. split; [done|]. apply qwp_ret. by apply H.
Qed.

#[local] Abbreviation live_get := (request_get live_step akube live_kube).
#[local] Abbreviation live_find := (request_find live_step akube live_kube).
#[local] Abbreviation live_list := (request_list live_step akube live_kube).
#[local] Abbreviation live_status_patch := (request_status_patch live_step akube live_kube).
#[local] Abbreviation live_patch := (request_patch live_step akube live_kube).

Lemma live_plugin o c (Q : agentRep o → Cluster → Prop) : cluster_wf c → (∀ r c', live_step c o r c' → c' = c) →
  (∀ r, live_step c o r c → Q r c) → lq (acall o) c Q.
Proof. intros Hwf Hk HQ. apply qwp_vis; [done|]. intros r c' Hs. assert (c' = c) as -> by by eapply Hk. split; [done|]. apply qwp_ret. by apply HQ. Qed.

(** ** Helpers of the reconciler *)

Lemma live_update_partition key fn (p : NVMePartition) c Q : cluster_wf c → objects c KPartition !! key = Some p →
  (∀ q c', cluster_wf c' → patched_to (k := KPartition) c p (with_Status (fn (Status p)) p) q c' → Q None c') →
  lq (updatePartitionStatus key fn) c Q.
Proof.
  intros Hwf Hp HQ. destruct (proj1 (Hwf KPartition) _ _ Hp) as [Hk _]. unfold updatePartitionStatus.
  apply qwp_bind; [done|]. eapply live_get; [done..|]. intros _. apply qwp_bind; [done|].
  eapply (live_status_patch KPartition p _ p); [done|by rewrite <- Hk in Hp|done|]. intros q c' Hwf' Hpt _. apply qwp_ret. by eapply HQ.
Qed.

Lemma live_update_device key fn (d : NVMeDevice) c Q : cluster_wf c → objects c KDevice !! key = Some d →
  (∀ e c', cluster_wf c' → patched_to (k := KDevice) c d (with_Status (fn (Status d)) d) e c' → Q None c') →
  lq (updateDeviceStatus key fn) c Q.
Proof.
  intros Hwf Hp HQ. destruct (proj1 (Hwf KDevice) _ _ Hp) as [Hk _]. unfold updateDeviceStatus.
  apply qwp_bind; [done|]. eapply live_get; [done..|]. intros _. apply qwp_bind; [done|].
  eapply (live_status_patch KDevice d _ d); [done|by rewrite <- Hk in Hp|done|]. intros q c' Hwf' Hpt _. apply qwp_ret. by eapply HQ.
Qed.

(** The claim and the device that a placed partition refers to. *)
Record bound (c : Cluster) (spec : NVMePartitionSpec) (ref : NVMeDeviceClaimReference) (claim : NVMeDeviceClaim) (d : NVMeDevice) : Prop := {
  bound_ref : ps_ClaimRef spec = Some ref ∧ ref_Namespace ref ≠ "" ∧ ref_Name ref ≠ "" ∧ ref_UID ref ≠ "";
  bound_claim : objects c KClaim !! {| key_Namespace := ref_Namespace ref; key_Name := ref_Name ref |} = Some claim ∧
    UID (Meta claim) = ref_UID ref ∧ TimePtr_IsZero (DeletionTimestamp (Meta claim)) = true ∧
    ct_MatchedDevice (Status claim) ≠ "" ∧ ct_NodeName (Status claim) = ps_NodeName spec ∧
    EqualFold (cs_SerialNumber (Spec claim)) (ps_ParentDeviceSerialNumber spec) = true ∧ ct_Active (Status claim) = true;
  bound_device : objects c KDevice !! {| key_Namespace := ""; key_Name := ct_MatchedDevice (Status claim) |} = Some d ∧
    ds_NodeName (Spec d) = ps_NodeName spec ∧ EqualFold (ds_SerialNumber (Spec d)) (ps_ParentDeviceSerialNumber spec) = true ∧
    dt_State (Status d) = NVMeDeviceStateClaimed ∧ dt_ClaimRef (Status d) = Some ref;
  bound_serial : ps_ParentDeviceSerialNumber spec ≠ ""
}.

Lemma bound_same c c' spec ref claim d : (∀ k, k ≠ KPartition → objects c' k = objects c k) → bound c spec ref claim d → bound c' spec ref claim d.
Proof. intros H [? ? ? ?]. split; [done|by rewrite (H KClaim)|by rewrite (H KDevice)|done]. Qed.

Lemma live_verify p c ref claim d Q : cluster_wf c → bound c (Spec p) ref claim d →
  recoveringExistingAllocation p || PlacementAuth.IsAuthorized p = true → Q (inl d) c →
  lq (verifyProvisioningAuthorization p) c Q.
Proof.
  intros Hwf [(Hr & Hn & Hm & Hu) (Hc & Hcu & Hcd & Hcm & Hcn & Hcs & Hca) (Hd & Hdn & Hds & Hdt & Hdr) Hs] Hauth HQ.
  unfold verifyProvisioningAuthorization. rewrite <- negb_orb, Hauth, Hr. cbn [negb].
  decides.
  apply qwp_bind; [done|]. eapply (live_get _ KClaim _ _ claim); [done..|]. intros _. kn. rewrite Hcu, Hcd, Hcn, Hcs, Hca. decides. apply qwp_bind; [done|]. eapply (live_get _ KDevice _ _ d); [done..|]. intros _. kn.
  unfold claimReferencesEqual. rewrite Hdn, Hds, Hdt, Hdr. decides. by apply qwp_ret.
Qed.

(** The address that this node advertises. *)
Definition endpoint (c : Cluster) (ip : string) : Prop :=
  ∃ node, objects c KNode !! {| key_Namespace := ""; key_Name := NodeName |} = Some node ∧
    rdma_Validate node now = None ∧ ip = ns_RDMAIP (Spec node).

Lemma live_endpoint c ip Q : cluster_wf c → endpoint c ip → Q (inl ip) c → lq (rdmaEndpoint NodeName) c Q.
Proof.
  intros Hwf (node & Hn & Hv & ->) HQ. unfold rdmaEndpoint. apply qwp_bind; [done|]. eapply live_get; [done..|]. intros _.
  apply qwp_bind; [done|]. apply live_plugin; [done|by intros r c' [_ ->]|]. intros t [-> _] _. apply qwp_ret. by rewrite Hv.
Qed.

(** ** A live partition *)

Section Partition.
Variables (p0 : NVMePartition) (ref : NVMeDeviceClaimReference) (claim : NVMeDeviceClaim) (ip : string).
Local Notation key := (ObjectKeyFromObject p0).

(** The partition is stored as [q], with finalizers [fs], and its device as [d]. *)
Record work (c : Cluster) (fs : list string) (q : NVMePartition) (d : NVMeDevice) : Prop := {
  work_wf : cluster_wf c;
  work_stored : objects c KPartition !! key = Some q;
  work_identity : same_identity (k := KPartition) p0 q;
  work_spec : Spec q = Spec p0;
  work_finalizers : Finalizers (Meta q) = fs;
  work_bound : bound c (Spec p0) ref claim d;
  work_endpoint : endpoint c ip
}.

(** [p], which the reconciler holds, is the partition stored as [q]. *)
Record copy (p q : NVMePartition) : Prop := {
  copy_identity : same_identity (k := KPartition) p0 p;
  copy_spec : Spec p = Spec p0;
  copy_volume : backendVolumeIdentity (Status p) = backendVolumeIdentity (Status q);
  copy_handle : pt_VolumeID (Status p) = pt_VolumeID (Status q)
}.

Lemma work_partition c fs q d s q' c' : work c fs q d → cluster_wf c' →
  patched_to (k := KPartition) c q (with_Status s q) q' c' → work c' fs q' d ∧ Status q' = s.
Proof.
  intros [? Hq Hi Hs Hf Hb He] Hwf (Ho & _ & Hk & Hi' & Hf' & _ & Hs' & Hst).
  rewrite (key_same_identity _ _ Hi) in Ho. split; [|done]. split; [done|done|..].
  - unfold same_identity in *. naive_solver congruence.
  - exact (eq_trans Hs' Hs).
  - exact (eq_trans Hf' Hf).
  - eapply bound_same; [|done]. auto.
  - destruct He as (n & ? & ?). exists n. by rewrite Hk.
Qed.

Lemma work_device c fs q d b d' c' : work c fs q d → cluster_wf c' →
  patched_to (k := KDevice) c d (with_Status (set_dt_ActiveBackend b (Status d)) d) d' c' →
  work c' fs q d' ∧ dt_ActiveBackend (Status d') = b.
Proof.
  intros [Hwf0 Hq Hi Hs Hf [Hr Hc (Hd & Hn & He & Ht & Hcr) Hse] (n & Hn1 & Hn2)] Hwf (Ho & _ & Hk & Hi' & _ & _ & Hs' & Hst).
  destruct (proj1 (Hwf0 KDevice) _ _ Hd) as [Hkey _]. kn. split; [|by rewrite Hst]. split; try done.
  - by rewrite (Hk KPartition).
  - split; [done|by rewrite (Hk KClaim)| |done]. rewrite Hkey in Ho. split; [exact Ho|]. by rewrite Hs', Hst.
  - exists n. by rewrite (Hk KNode).
Qed.

(** The identities of the partition are recorded. *)
Definition named (p : NVMePartition) : Prop := pt_ExternalID (Status p) ≠ "" ∧ pt_VolumeID (Status p) = (identitiesForPartition p0).2.

Lemma work_verify c fs q d p Q : work c fs q d → copy p q → named p → Q (inl d) c → lq (verifyProvisioningAuthorization p) c Q.
Proof.
  intros [] [] [Hr _] HQ. eapply live_verify; [done|rewrite copy_spec0; done| |done].
  unfold recoveringExistingAllocation. by rewrite (bool_decide_false (pt_ExternalID _ = _)).
Qed.

(** What the partition ends as. *)
Definition exported_at (backend : string) (bytes : Z) (c : Cluster) : Prop := ∃ q d,
  objects c KPartition !! key = Some q ∧ Spec q = Spec p0 ∧ UID (Meta q) = UID (Meta p0) ∧ partitionFinalizer ∈ Finalizers (Meta q) ∧
  pt_VolumeID (Status q) = (identitiesForPartition p0).2 ∧
  pt_State (Status q) = NVMePartitionStateExported ∧ pt_PortalIP (Status q) = ip ∧ pt_PortalPort (Status q) = 4420 ∧
  pt_BackendVolumeID (Status q) ≠ "" ∧ bytes ≤ Value (pt_AllocatedCapacity (Status q)) ∧
  objects c KDevice !! {| key_Namespace := ""; key_Name := ct_MatchedDevice (Status claim) |} = Some d ∧
  dt_ActiveBackend (Status d) = backend.

Definition provisioned (backend : string) (bytes : Z) (r : result ctrlResult) (c : Cluster) : Prop :=
  r = inl (requeue exportedHealthInterval) ∧ exported_at backend bytes c.

Lemma live_export c fs q d p resolved ext created bytes : work c fs q d → copy p q → named p →
  partitionFinalizer ∈ fs → dt_ActiveBackend (Status d) = targetBackendName resolved → backendVolumeIdentity (Status q) = created →
  BackendVolumeID created ≠ "" → bytes ≤ CapacityBytes created →
  lq (exportPartition Error NodeName key p resolved ext created) c (provisioned (targetBackendName resolved) bytes).
Proof.
  intros Hw Hp Hr Hf Hd Hv Hb Hc. pose proof (work_wf _ _ _ _ Hw) as Hwf. unfold exportPartition.
  apply qwp_bind; [done|]. eapply live_endpoint; [done|apply Hw|]. intros _.
  apply qwp_bind; [done|]. eapply work_verify; [done..|]. intros _.
  apply qwp_bind; [done|]. apply live_plugin; [done|by intros r c' [_ ->]|]. intros [nqn|e] [? _] _; [|done].
  apply qwp_bind; [done|]. eapply live_update_partition; [done|apply Hw|]. intros q' c' Hwf' Hpt _.
  destruct (work_partition _ _ _ _ _ _ _ Hw Hwf' Hpt) as [[] Hst]. kn. apply qwp_ret. split; [done|]. exists q', d.
  subst created. rewrite Hst. split; [done|]. split; [done|]. split; [by destruct work_identity0 as (_ & _ & ? & _)|]. split; [by rewrite work_finalizers0|].
  split; [destruct Hr as [_ <-]; by rewrite (copy_handle _ _ Hp)|].
  split; [done|]. split; [done|]. split; [done|]. split; [done|]. split; [done|]. split; [|done]. by destruct work_bound0 as [_ _ [? _] _].
Qed.

Lemma live_persist c fs q d p created Q : work c fs q d → copy p q → named p →
  (∀ c' q' p', work c' fs q' d → copy p' q' → named p' → backendVolumeIdentity (Status q') = created → Q (inl p') c') →
  lq (persistBackendVolumeIdentity key p created) c Q.
Proof.
  intros Hw Hp Hr HQ. pose proof (work_wf _ _ _ _ Hw) as Hwf. unfold persistBackendVolumeIdentity. case_bool_decide as E.
  { apply qwp_ret. eapply HQ; [done..|]. by rewrite <- (copy_volume _ _ Hp). }
  apply qwp_bind; [done|]. eapply live_update_partition; [done|apply Hw|]. intros q' c' Hwf' Hpt _.
  destruct (work_partition _ _ _ _ _ _ _ Hw Hwf' Hpt) as [Hw' Hst]. kn. apply qwp_ret.
  assert (∀ s, backendVolumeIdentity (with_backend_volume created s) = created) as Hid by (intros s; by destruct created).
  eapply HQ; [done| |done|by rewrite Hst]. destruct Hp. split; [done|done| |]; rewrite Hst; cbn [Status with_Status]; [by rewrite !Hid|done].
Qed.

Lemma live_carve c fs q d p resolved ext bytes path name : work c fs q d → copy p q → named p →
  partitionFinalizer ∈ fs → dt_ActiveBackend (Status d) = targetBackendName resolved → RoundUp (Value (ps_Size (Spec p0))) = inl bytes →
  lq (carvePartition Error NodeName key p resolved ext bytes path name) c (provisioned (targetBackendName resolved) bytes).
Proof.
  intros Hw Hp Hr Hf Hd Hb. pose proof (work_wf _ _ _ _ Hw) as Hwf. unfold carvePartition.
  apply qwp_bind; [done|]. apply live_plugin; [done|by intros r c' [_ ->]|]. intros r [-> _] _.
  apply qwp_bind; [done|]. eapply work_verify; [done..|]. intros _.
  apply qwp_bind; [done|]. apply live_plugin; [done|by intros r c' [-> _]|]. intros r (_ & v & -> & Hv & Hcap) _.
  rewrite (copy_spec _ _ Hp) in Hcap. specialize (Hcap _ Hb). decides. rewrite (proj2 (Z.ltb_ge _ _)) by done.
  apply qwp_bind; [done|]. eapply live_persist; [done..|]. intros c' q' p' Hw' Hp' Hr' Hid _. by eapply live_export.
Qed.

Lemma live_provision c fs q d p resolved ext bytes : work c fs q d → copy p q → named p →
  partitionFinalizer ∈ fs → dt_ActiveBackend (Status d) ∈ [""; targetBackendName resolved] →
  is_Some (find_serial (ps_ParentDeviceSerialNumber (Spec p0)) hardware) → RoundUp (Value (ps_Size (Spec p0))) = inl bytes →
  lq (provisionPartition Error NodeName key p resolved ext bytes) c (provisioned (targetBackendName resolved) bytes).
Proof.
  intros Hw Hp Hr Hf Hd [hw Hhw] Hb. pose proof (work_wf _ _ _ _ Hw) as Hwf. unfold provisionPartition.
  apply qwp_bind; [done|]. eapply work_verify; [done..|]. intros _.
  apply qwp_bind; [done|]. eapply live_endpoint; [done|apply Hw|]. intros _.
  assert ((dt_ActiveBackend (Status d) !=? "") && (dt_ActiveBackend (Status d) !=? targetBackendName resolved) = false) as ->.
  { apply list_elem_of_In in Hd as [<-|[<-|[]]]; [done|].
    rewrite (bool_decide_true (targetBackendName resolved = targetBackendName resolved)) by done. apply andb_false_r. }
  apply qwp_bind; [done|]. apply live_plugin; [done|by intros r c' [_ ->]|]. intros r [-> _] _.
  apply qwp_bind; [done|]. unfold findProvisioningDevice. apply qwp_bind; [done|].
  apply live_plugin; [done|by intros r c' [_ ->]|]. intros r [-> _] _. apply qwp_ret. intros _.
  rewrite (copy_spec _ _ Hp), Hhw. apply qwp_bind; [done|]. eapply work_verify; [done..|]. intros _.
  apply qwp_bind; [done|]. case_bool_decide as Ha.
  - pose proof (work_bound _ _ _ _ Hw) as [_ _ [Hdev _] _]. destruct (proj1 (Hwf KDevice) _ _ Hdev) as [Hk _].
    eapply (live_update_device _ _ d); [done| |].
    { injection Hk as _ Hn. by rewrite Hn. }
    intros d' c' Hwf' Hpt _. destruct (work_device _ _ _ _ _ _ _ Hw Hwf' Hpt) as [Hw' Hd']. by eapply live_carve.
  - apply qwp_ret. intros _. eapply live_carve; [done..| |done]. apply list_elem_of_In in Hd as [E|[E|[]]]; congruence.
Qed.

Lemma identities_named : Name (Meta p0) ≠ "" → (identitiesForPartition p0).1 ≠ "".
Proof.
  intros Hn. unfold identitiesForPartition. cbn [fst]. case_bool_decide; [|done].
  unfold VolumeIdentity.ExternalIDFromNQN, VolumeIdentity.New. destruct (CutPrefix _ _) as [s|]; [destruct (s !=? "") eqn:E; [by bool_to_prop|]|];
    by destruct (_ || _).
Qed.

(** The reconciler's copy while the identity and the finalizer are settled. *)
Definition settling (c : Cluster) (d : NVMeDevice) (p q : NVMePartition) : Prop :=
  work c (Finalizers (Meta p0)) q d ∧ copy p q ∧ Meta p = Meta p0 ∧
  pt_State (Status p) = pt_State (Status p0) ∧ pt_State (Status q) = pt_State (Status p0).

Lemma live_finalizer c p q d Q : settling c d p q → named p → named q → DeletionTimestamp (Meta p0) = None →
  (∀ c' fs q' p', work c' fs q' d → copy p' q' → named p' → partitionFinalizer ∈ fs →
     pt_State (Status p') = pt_State (Status p0) → Q (inl p') c') →
  lq (if ContainsFinalizer (Finalizers (Meta p)) partitionFinalizer then Ret (Ok p)
      else akube (Patch KPartition p (with_Meta (set_Finalizers (AddFinalizer (Finalizers (Meta p)) partitionFinalizer) (Meta p)) p))) c Q.
Proof.
  intros (Hw & Hp & Hm & Hs & Hs') Hnp Hnq Hdel HQ. rewrite Hm. destruct (ContainsFinalizer _ _) eqn:Ef.
  { apply contains_finalizer in Ef. apply qwp_ret. by eapply HQ. }
  destruct Hw as [Hwf Hq Hi Hsp Hf Hb He]. destruct Hp as [_ Hps _ _]. eapply (live_patch KPartition p _ q); [done|exact Hq|].
  intros q' c' Hwf' (Ho & _ & Hk & Hi') (_ & Hf' & _ & _ & Hsp' & Hst & _).
  kn. cbn [Meta with_Meta set_Finalizers Finalizers Spec] in Hf', Hsp'. rewrite Hm, Hf in Hf'. unfold patch, patch_finalizers in Hf'.
  rewrite patch_atomic_same in Hf'. rewrite patch_partition_spec_keep in Hsp'.
  assert (same_identity (k := KPartition) p0 q') as Hi2 by (unfold same_identity in *; naive_solver congruence).
  assert (gone (k := KPartition) q' = false) as Hg by (unfold gone, deleting; destruct Hi2 as (_ & _ & _ & E); kn; by rewrite E, Hdel).
  pose proof (key_same_identity _ _ Hi) as Hkey. kn. rewrite Hg, Hkey in Ho. apply (HQ c' (AddFinalizer (Finalizers (Meta p0)) partitionFinalizer) q').
  - split; [done|done|done|by rewrite Hsp'|done|eapply bound_same; [|done]; auto|].
    destruct He as (n & ? & ?). exists n. by rewrite Hk.
  - split; [done|by rewrite Hsp'|done|done].
  - unfold named. by rewrite Hst.
  - apply add_finalizer. by right.
  - by rewrite Hst.
Qed.

Lemma live_ensure c q d ext vol Q : settling c d p0 q → ext ≠ "" → vol = (identitiesForPartition p0).2 → (named p0 → named q) →
  DeletionTimestamp (Meta p0) = None →
  (∀ c' fs q' p, work c' fs q' d → copy p q' → named p → partitionFinalizer ∈ fs →
     pt_State (Status p) = pt_State (Status p0) → Q (inl p) c') →
  lq (ensurePartitionIdentityAndFinalizer key p0 ext vol) c Q.
Proof.
  intros Hst Hext Hvol Hnq Hdel HQ. pose proof Hst as (Hw & Hp & _ & Hs & Hs'). pose proof (work_wf _ _ _ _ Hw) as Hwf.
  unfold ensurePartitionIdentityAndFinalizer. apply qwp_bind; [done|]. destruct (_ || _) eqn:E.
  - apply qwp_bind; [done|]. eapply live_update_partition; [done|apply Hw|]. intros q' c' Hwf' Hpt _.
    destruct (work_partition _ _ _ _ _ _ _ Hw Hwf' Hpt) as [Hw' Hst']. kn. apply qwp_ret. intros _.
    eapply live_finalizer; [|done| |done|done]; [|unfold named; by rewrite Hst'].
    split; [done|]. split; [destruct Hp as [? ? Hv _]; split; [done|done| |]; rewrite Hst'; [exact Hv|done]|]. by rewrite Hst'.
  - bool_to_prop. apply qwp_ret. intros _. assert (named p0) as Hn by (split; congruence). eapply live_finalizer; eauto.
Qed.

Lemma live_active c d resolved ext vol bytes : work c (Finalizers (Meta p0)) p0 d → ext ≠ "" → vol = (identitiesForPartition p0).2 → DeletionTimestamp (Meta p0) = None →
  recoveringExistingAllocation p0 || PlacementAuth.IsAuthorized p0 = true → pt_State (Status p0) ≠ NVMePartitionStateExported →
  Validate (targetBackendName resolved) (map_to_list (ps_TargetOptions (Spec p0))) = None → RoundUp (Value (ps_Size (Spec p0))) = inl bytes →
  dt_ActiveBackend (Status d) ∈ [""; targetBackendName resolved] → is_Some (find_serial (ps_ParentDeviceSerialNumber (Spec p0)) hardware) →
  lq (reconcileActivePartition Error NodeName key p0 resolved ext vol) c (provisioned (targetBackendName resolved) bytes).
Proof.
  intros Hw Hext Hvol Hdel Hauth Hne Hval Hb Hd Hhw. pose proof (work_wf _ _ _ _ Hw) as Hwf. unfold reconcileActivePartition. rewrite Hval, Hb.
  apply qwp_bind; [done|]. eapply live_verify; [done|apply Hw|done|]. intros _. apply qwp_bind; [done|].
  unfold setClaimAuthorizationCondition. eapply live_update_partition; [done|apply Hw|]. intros q c' Hwf' Hpt _.
  destruct (work_partition _ _ _ _ _ _ _ Hw Hwf' Hpt) as [Hw' Hst]. kn. apply qwp_bind; [done|].
  eapply live_ensure; [|done|done| |done|].
  - split; [done|]. split; [|by rewrite Hst]. split; [done|done|by rewrite Hst|by rewrite Hst].
  - unfold named. by rewrite Hst.
  - intros c2 fs q2 p Hw2 Hp2 Hn2 Hf2 Hs2 _. pose proof (work_wf _ _ _ _ Hw2) as Hwf2. apply qwp_bind; [done|]. unfold reconcileExportedPartition.
    rewrite Hs2. decides. apply qwp_ret. intros _. by eapply live_provision.
Qed.

End Partition.

(** ** A deleted partition *)

(** The reconciler changed nothing but attachments. *)
Definition detached (c c' : Cluster) : Prop := cluster_wf c' ∧ ∀ k, k ≠ KAttachment → objects c' k = objects c k.

Lemma live_drop c0 c a Q : detached c0 c → objects c KAttachment !! ObjectKeyFromObject a = Some a →
  (∀ c', detached c0 c' → Q None c') → lq (dropAttachmentFinalizer a) c Q.
Proof.
  intros [Hwf Hk] Ha HQ. unfold dropAttachmentFinalizer. destruct (ContainsFinalizer _ _); [|apply qwp_ret; by apply HQ].
  unfold removeAttachmentFinalizer. apply qwp_bind; [done|]. eapply (live_patch KAttachment a _ a); [done|exact Ha|].
  intros a' c' Hwf' (_ & _ & Hk' & _) _ _. apply qwp_ret. apply HQ. split; [done|]. intros k Hne. by rewrite Hk', Hk.
Qed.

Lemma delete_detaches c (a : NVMeVolumeAttachment) c' : delete_applied (k := KAttachment) c a c' → ∀ k, k ≠ KAttachment → objects c' k = objects c k.
Proof.
  intros (cur & _ & [[_ ->]|[(_ & _ & ->)|(_ & _ & ob & Hob)]]) k Hk; [by apply objects_remove_ne|done|].
  destruct_and! Hob. subst c'. by apply objects_settle_ne.
Qed.

Lemma live_release p c Q : cluster_wf c → (∀ c', detached c c' → Q None c') → lq (releaseAttachmentAfterUnexport p) c Q.
Proof.
  intros Hwf HQ. unfold releaseAttachmentAfterUnexport, attachmentForPartition. apply qwp_bind; [done|]. apply qwp_bind; [done|].
  apply live_find; [done| |].
  - intros a Ha _. apply qwp_ret. intros _. destruct (proj1 (Hwf KAttachment) _ _ Ha) as [Hk _]. rewrite <- Hk in Ha. kn.
    destruct (TimePtr_IsZero _); [|by eapply live_drop]. apply qwp_bind; [done|]. apply live_kube; [done|].
    intros r c' Hs Hr Hwf' _. assert (r = None) as -> by (apply Hr; by exists a). cbn [fresh_spec] in Hs. apply qwp_bind; [done|].
    assert (detached c c') as Hd by (split; [done|by eapply delete_detaches]). apply live_find; [done| |].
    + intros b Hb _. destruct (proj1 (Hwf' KAttachment) _ _ Hb) as [Hkb _]. rewrite <- Hkb in Hb. by eapply live_drop.
    + intros e _ He _. apply qwp_ret. unfold IgnoreNotFound. rewrite He. by apply HQ.
  - intros e _ He _. apply qwp_ret. intros _. rewrite He. apply qwp_ret. by apply HQ.
Qed.

(** The claim that assigned the device called [name]. *)
Definition assigned (c : Cluster) (spec : NVMePartitionSpec) (name : string) : Prop := ∃ ref claim,
  ps_ClaimRef spec = Some ref ∧ (ref_Namespace ref ≠ "" ∧ ref_Name ref ≠ "" ∧ ref_UID ref ≠ "") ∧
  objects c KClaim !! {| key_Namespace := ref_Namespace ref; key_Name := ref_Name ref |} = Some claim ∧
  UID (Meta claim) = ref_UID ref ∧ ct_MatchedDevice (Status claim) = name ∧ name ≠ "" ∧
  ct_NodeName (Status claim) = ps_NodeName spec ∧ EqualFold (cs_SerialNumber (Spec claim)) (ps_ParentDeviceSerialNumber spec) = true.

Lemma live_assigned p c name Q : cluster_wf c → assigned c (Spec p) name → Q (inl name) c → lq (assignedDeviceName NodeName p) c Q.
Proof.
  intros Hwf (ref & claim & Hr & (Hn & Hm & Hu) & Hc & Hcu & <- & Hcm & Hcn & Hcs) HQ. unfold assignedDeviceName. rewrite Hr. decides.
  apply qwp_bind; [done|]. eapply (live_get _ KClaim _ _ claim); [done..|]. intros _. kn. rewrite Hcu, Hcn, Hcs. decides. by apply qwp_ret.
Qed.

(** What teardown has to find out about the device. *)
Definition resolvable (c : Cluster) (p : NVMePartition) (backend : string) : Prop :=
  if backend ==? spdkTargetBackend then pt_SPDKBaseBdev (Status p) ≠ "" ∨ ∃ name, assigned c (Spec p) name
  else is_Some (find_serial (ps_ParentDeviceSerialNumber (Spec p)) hardware) ∧
    ∃ name d, assigned c (Spec p) name ∧ objects c KDevice !! {| key_Namespace := ""; key_Name := name |} = Some d.

Lemma live_resolve p c backend Q : cluster_wf c → resolvable c p backend → (∀ x, Q (inl x) c) → lq (resolveDeletionDevice NodeName p backend) c Q.
Proof.
  intros Hwf Hres HQ. unfold resolvable, resolveDeletionDevice in *. destruct (backend ==? spdkTargetBackend).
  - destruct (decide (pt_SPDKBaseBdev (Status p) = "")) as [E|E]; rewrite E || idtac; decides; [|by apply qwp_ret].
    destruct Hres as [?|[name Ha]]; [done|]. apply qwp_bind; [done|]. eapply live_assigned; [done..|]. intros _. by apply qwp_ret.
  - destruct Hres as [[hw Hhw] _]. apply qwp_bind; [done|]. apply live_plugin; [done|by intros r c' [_ ->]|]. intros r [-> _] _.
    apply qwp_ret. by rewrite Hhw.
Qed.

Lemma live_clear p c backend Q : cluster_wf c → resolvable c p backend →
  (∀ c', cluster_wf c' → objects c' KPartition = objects c KPartition → Q None c') → lq (clearInactiveBackend NodeName p backend) c Q.
Proof.
  intros Hwf Hres HQ. unfold resolvable, clearInactiveBackend in *. destruct (backend ==? spdkTargetBackend); [apply qwp_ret; by apply HQ|].
  destruct Hres as [_ (name & d & Ha & Hd)]. apply qwp_bind; [done|]. apply live_list; [done|]. intros l _ _.
  destruct (existsb (sharesDevice p) l); [apply qwp_ret; by apply HQ|]. apply qwp_bind; [done|]. eapply live_assigned; [done..|]. intros _.
  eapply (live_update_device _ _ d); [done|done|]. intros d' c' Hwf' (_ & _ & Hk & _). apply HQ; [done|]. by apply Hk.
Qed.

Lemma live_finalize p c Q : cluster_wf c → objects c KPartition !! ObjectKeyFromObject p = Some p →
  Finalizers (Meta p) = [partitionFinalizer] → deleting p = true →
  (∀ ob c', objects c' KPartition !! ObjectKeyFromObject p = None → Q (inl ob) c') →
  lq (akube (Patch KPartition p (with_Meta (set_Finalizers (RemoveFinalizer (Finalizers (Meta p)) partitionFinalizer) (Meta p)) p))) c Q.
Proof.
  intros Hwf Hp Hf Hdel HQ. eapply (live_patch KPartition p _ p); [done|exact Hp|].
  intros q c' _ (Ho & _ & _ & (_ & _ & _ & Hd)) (_ & Hf' & _). apply HQ. kn. cbn [Meta with_Meta set_Finalizers Finalizers] in Hf'.
  unfold patch, patch_finalizers in Hf'. rewrite patch_atomic_same, Hf in Hf'.
  assert (Finalizers (Meta q) = []) as Hq.
  { destruct (Finalizers (Meta q)) as [|x l] eqn:E; [done|]. assert (x ∈ RemoveFinalizer [partitionFinalizer] partitionFinalizer) as Hx
      by (rewrite <- Hf'; apply list_elem_of_here). apply remove_finalizer in Hx as [->%list_elem_of_singleton ?]. done. }
  rewrite Ho. unfold gone, deleting in *. kn. by rewrite Hd, Hdel, Hq.
Qed.

Lemma live_deletion c p resolved ext : cluster_wf c → objects c KPartition !! ObjectKeyFromObject p = Some p →
  Finalizers (Meta p) = [partitionFinalizer] → deleting p = true →
  (ps_ParentDeviceSerialNumber (Spec p) ≠ "" → resolvable c p (targetBackendName resolved)) →
  lq (reconcilePartitionDeletion NodeName (ObjectKeyFromObject p) p resolved ext) c
    (λ r c', r = inl done_result ∧ objects c' KPartition !! ObjectKeyFromObject p = None).
Proof.
  intros Hwf Hp Hf Hdel Hres. unfold reconcilePartitionDeletion.
  assert (ContainsFinalizer (Finalizers (Meta p)) partitionFinalizer = true) as ->
    by (apply contains_finalizer; rewrite Hf; apply list_elem_of_here). cbn [negb].
  apply qwp_bind; [done|]. apply live_plugin; [done|by intros r c' [_ ->]|]. intros r [-> _] _.
  apply qwp_bind; [done|]. apply live_release; [done|]. intros c1 [Hwf1 Hk1] _. rewrite <- (Hk1 KPartition) in Hp by done.
  apply qwp_bind; [done|].
  apply (qwp_mono _ _ _ _ (λ r c', r = None ∧ cluster_wf c' ∧ objects c' KPartition = objects c1 KPartition)).
  - intros r c2 (-> & Hwf2 & Hk2) _. rewrite <- Hk2 in Hp. apply qwp_bind; [done|]. eapply (live_get _ KPartition _ _ p); [done..|].
    intros _. apply qwp_bind; [done|]. apply live_finalize; [done..|]. intros ob c' Hn _. by apply qwp_ret.
  - case_bool_decide as Hs; cbn [negb]; [by apply qwp_ret|]. specialize (Hres Hs).
    assert (resolvable c1 p (targetBackendName resolved)) as Hres1.
    { unfold resolvable, assigned in *. by rewrite (Hk1 KClaim), (Hk1 KDevice) by done. }
    apply qwp_bind; [done|]. apply live_resolve; [done..|]. intros [path name] _. apply qwp_bind; [done|].
    apply live_plugin; [done|by intros r c' [_ ->]|]. intros r [-> _] _. by apply live_clear.
Qed.

End Live.

(** ** Convergence *)

(** Replies to the agent that oblige it. *)
Definition obliges (now : Time) (hardware : list HardwareNVMe) (handle : Cluster → ∀ o : agentOp, agentRep o * Cluster) : Prop :=
  ∀ c o, cluster_wf c → live_step now hardware c o (handle c o).1 (handle c o).2.

Section Converge.
Context `{AM : ApiMachinery} {AML : ApiMachineryLaws AM}.
Variable Error : error → string.
Variable plugins : Registry.
Variable NodeName : string.
Variable now : Time.
Variable hardware : list HardwareNVMe.

(** A live partition that is placed on this node, with everything it needs. *)
Record placed (c : Cluster) (p : NVMePartition) (claim : NVMeDeviceClaim) (ip backend : string) (bytes : Z) : Prop := {
  placed_wf : cluster_wf c;
  placed_stored : objects c KPartition !! ObjectKeyFromObject p = Some p;
  placed_name : Name (Meta p) ≠ "";
  placed_node : ps_NodeName (Spec p) = NodeName;
  placed_live : DeletionTimestamp (Meta p) = None;
  placed_retryable : partitionHasTerminalFailure p = false;
  placed_state : pt_State (Status p) ≠ NVMePartitionStateExported;
  placed_plugins : ∃ resolved, resolvePartitionPlugins plugins p = inl resolved ∧ targetBackendName resolved = backend;
  placed_options : Validate backend (map_to_list (ps_TargetOptions (Spec p))) = None;
  placed_size : RoundUp (Value (ps_Size (Spec p))) = inl bytes;
  placed_authorized : recoveringExistingAllocation p || PlacementAuth.IsAuthorized p = true;
  placed_device : ∃ ref d, bound c (Spec p) ref claim d ∧ dt_ActiveBackend (Status d) ∈ [""; backend];
  placed_endpoint : endpoint NodeName now c ip;
  placed_hardware : is_Some (find_serial (ps_ParentDeviceSerialNumber (Spec p)) hardware)
}.

Lemma placed_converges c p claim ip backend bytes : placed c p claim ip backend bytes →
  qwp (live_step now hardware) cluster_wf (Reconcile Error plugins NodeName (ObjectKeyFromObject p)) c
    (provisioned p claim ip backend bytes).
Proof.
  intros [Hwf Hp Hn Hnode Hdel Hterm Hst (resolved & Hres & <-) Hval Hb Hauth (ref & d & Hbd & Hd) He Hhw]. unfold Reconcile.
  apply qwp_bind; [done|]. eapply (request_get _ akube (live_kube now hardware)); [done..|]. intros _. kn.
  rewrite Hdel, Hterm, Hres. decides. destruct (identitiesForPartition p) as [ext vol] eqn:Ei.
  pose proof (identities_named p Hn) as Hext. rewrite Ei in Hext.
  eapply live_active; try done. by rewrite Ei.
Qed.

(** A partition of this node that is being deleted and only waits for the agent. *)
Record removable (c : Cluster) (p : NVMePartition) : Prop := {
  removable_wf : cluster_wf c;
  removable_stored : objects c KPartition !! ObjectKeyFromObject p = Some p;
  removable_node : ps_NodeName (Spec p) = NodeName;
  removable_deleted : deleting p = true;
  removable_finalizer : Finalizers (Meta p) = [partitionFinalizer];
  removable_plugins : ∃ resolved, resolvePartitionPlugins plugins p = inl resolved ∧
    (ps_ParentDeviceSerialNumber (Spec p) ≠ "" → resolvable hardware c p (targetBackendName resolved))
}.

Lemma removable_converges c p : removable c p →
  qwp (live_step now hardware) cluster_wf (Reconcile Error plugins NodeName (ObjectKeyFromObject p)) c
    (λ r c', r = inl done_result ∧ objects c' KPartition !! ObjectKeyFromObject p = None).
Proof.
  intros [Hwf Hp Hnode Hdel Hf (resolved & Hres & Hr)]. unfold Reconcile.
  apply qwp_bind; [done|]. eapply (request_get _ akube (live_kube now hardware)); [done..|]. intros _. kn.
  unfold deleting in Hdel. rewrite Hres. decides. destruct (DeletionTimestamp (Meta p)) as [t|] eqn:Et; [|done]. cbn [negb andb].
  destruct (identitiesForPartition p) as [ext vol].
  eapply live_deletion; try done. unfold deleting. by rewrite Et.
Qed.

(** With plugins that work, an API server that answers and nobody else
    writing, one reconcile of a placed partition exports it: it returns, and then
    the partition is Exported at the address of its node with a volume of at least
    its size, it carries the cleanup finalizer, and its device is marked with the
    backend. *)
Theorem placed_partition_exported handle c p claim ip backend bytes :
  obliges now hardware handle → placed c p claim ip backend bytes →
  let out := run handle (Reconcile Error plugins NodeName (ObjectKeyFromObject p)) c in
  out.1 = inl (requeue exportedHealthInterval) ∧ exported_at p claim ip backend bytes out.2.
Proof. intros Hh Hp. exact (qwp_run _ _ handle _ _ _ Hh (placed_wf _ _ _ _ _ _ Hp) (placed_converges _ _ _ _ _ _ Hp)). Qed.

Lemma removable_first_read handle c p : obliges now hardware handle → removable c p →
  tearing_down NodeName (ObjectKeyFromObject p)
    (trace handle (Reconcile Error plugins NodeName (ObjectKeyFromObject p)) c).1 p.
Proof.
  intros Hh [Hwf Hp Hnode Hdel Hf _]. unfold deleting in Hdel. split; [|split; [|split; [done|rewrite Hf; apply list_elem_of_here]]].
  - pose proof (Hh c (AKube (Get Cached KPartition (ObjectKeyFromObject p))) Hwf) as [_ Ha].
    apply (answered_get _ _ KPartition _ p) in Ha; [|done].
    unfold first_read, Reconcile. cbn [bind akube call trace].
    destruct (handle c _) as [x c']. cbn [fst] in Ha. subst x. destruct (trace handle _ c') as [t a]. by exists t.
  - destruct (DeletionTimestamp (Meta p)); [by eexists|done].
Qed.

(** C13: Teardown completes.  When the plugins do what they are asked to, the API
    server answers from the current state and applies every write, nobody else
    writes, and a partition of this node is being deleted with the agent's finalizer
    as its last and, if it was placed, a device that can be found again, then one
    reconcile takes it down and lets it go: in the run the target was unexported
    and, if the partition was on a device, its recorded volume deleted, both with
    success; it returns, and then the partition is gone. *)
Theorem deleted_partition_removed handle c p : obliges now hardware handle → removable c p →
  let reconcile := Reconcile Error plugins NodeName (ObjectKeyFromObject p) in
  let out := run handle reconcile c in
  torn_down (trace handle reconcile c).1 p ∧ out.1 = inl done_result ∧ objects out.2 KPartition !! ObjectKeyFromObject p = None.
Proof.
  intros Hh Hp reconcile out.
  assert (out.1 = inl done_result ∧ objects out.2 KPartition !! ObjectKeyFromObject p = None) as [Hr Hg]
    by exact (qwp_run _ _ handle _ _ _ Hh (removable_wf _ _ Hp) (removable_converges _ _ Hp)).
  split; [|done]. apply (hwp_returns _ _ [] _ _ _ (Reconcile_hwp Error plugins NodeName (ObjectKeyFromObject p)) (trace_returns handle reconcile c)).
  - by apply removable_first_read.
  - rewrite trace_run. fold out. by rewrite Hr.
Qed.

End Converge.

(** ** Concrete runs *)

Definition made_volume (size : Z) : Plugins.VolumeIdentity :=
  {| BackendVolumeID := "lvs/vol"; CapacityBytes := match RoundUp size with inl n => n | inr _ => 0 end; BaseBdev := "Nvme0n1";
     VolumeStoreName := "lvs"; VolumeStoreUUID := "u-1"; VolumeName := "vol"; VolumeUUID := "u-2" |}.

(** Plugins that work, and the server of the model. *)
Definition live_handle (c : Cluster) (o : agentOp) : agentRep o * Cluster :=
  match o with
  | CreateVolume _ _ _ _ size => (Ok (made_volume size), c)
  | o => agent_handle None example_time c o
  end.

Lemma live_handle_obliges : obliges example_time [example_hardware] live_handle.
Proof.
  intros c o Hwf. destruct o as [o| | | | | | | | |manager path name v size|]; try done; [by apply model_serves_obliging|].
  split; [done|]. exists (made_volume size). split; [done|]. split; [done|]. simpl. by intros n ->.
Qed.

Lemma deleted_partition_removed_witness :
  let reconcile := Reconcile example_Error example_registry "node-1" agent_key in
  let out := run live_handle reconcile deleted_cluster in
  torn_down (trace live_handle reconcile deleted_cluster).1 (exported_partition (Some 5)) ∧
  out.1 = inl done_result ∧ objects out.2 KPartition !! agent_key = None.
Proof.
  apply (deleted_partition_removed example_Error example_registry "node-1" example_time [example_hardware] live_handle deleted_cluster
    (exported_partition (Some 5)) live_handle_obliges). split; [apply cluster_wf_check; vm_compute; reflexivity|vm_compute; reflexivity..|].
  eexists. split; [vm_compute; reflexivity|]. intros _. left. done.
Defined.

Lemma new_cluster_placed : placed example_registry "node-1" example_time [example_hardware] new_cluster
  (PlacementAuth.example_partition 1) example_claim "10.0.0.7" "spdk" 4194304.
Proof.
  split; [apply cluster_wf_check; vm_compute; reflexivity|vm_compute; reflexivity|discriminate|vm_compute; reflexivity|
    vm_compute; reflexivity|vm_compute; reflexivity|discriminate|..].
  - eexists. split; vm_compute; reflexivity.
  - vm_compute. reflexivity.
  - vm_compute. reflexivity.
  - vm_compute. reflexivity.
  - exists PlacementAuth.example_ref, example_device. split; [|vm_compute; apply list_elem_of_here].
    split; [split_and!; [vm_compute; reflexivity|discriminate..]|split_and!; first [discriminate|vm_compute; reflexivity]|
      split_and!; vm_compute; reflexivity|discriminate].
  - exists example_node. split_and!; vm_compute; reflexivity.
  - eexists. vm_compute. reflexivity.
Qed.

Lemma placed_partition_exported_witness :
  let out := run live_handle (Reconcile example_Error example_registry "node-1" agent_key) new_cluster in
  out.1 = inl (requeue exportedHealthInterval) ∧
  exported_at (PlacementAuth.example_partition 1) example_claim "10.0.0.7" "spdk" 4194304 out.2.
Proof.
  exact (placed_partition_exported example_Error example_registry "node-1" example_time [example_hardware] live_handle new_cluster
    (PlacementAuth.example_partition 1) example_claim "10.0.0.7" "spdk" 4194304 live_handle_obliges new_cluster_placed).
Defined.
