(* ===== verification/PlacementLive.v ===== *)
(** * From a request to an export

    With an API server that obliges and nobody else writing, the placement
    controller places a partition for which there is an eligible device, and the
    agent of the chosen node then exports it. *)

From S2P Require Import Prelude GoStrings Encoding Capacity ApiTypes Identity Options RdmaHealth Prog Kube.
From S2P Require Import Placement MgrQuiet Obliging PlacementProps ClaimController ClaimProps Plugins PartitionManager PartitionManagerProps AgentLive.

(** A server that obliges in a well-formed cluster. *)
Definition answering (c : Cluster) (o : kubeOp) (r : kubeRep o) (c' : Cluster) : Prop := cluster_wf c ∧ obliging c o r c'.

Lemma answering_documented c o r c' : answering c o r c' → kube_spec c o r c'.
Proof.
  intros [Hwf [Hf _]]. destruct o as [[] k key|[] k| | | | | ]; try exact Hf; destruct Hf as [-> Hr]; (split; [done|]).
  - destruct r as [ob|]; [|done]. by destruct (proj1 (Hwf k) _ _ Hr) as [-> ?].
  - destruct r as [l|]; [|done]. rewrite Hr. apply (model_serve_documented c (List Cached k) Hwf).
Qed.

Section Place.
Context `{AM : ApiMachinery} {AML : ApiMachineryLaws AM}.
Context {RL : RetryLib mgrOp mgrRep} {RLL : RetryLaws RL}.
Variable now : Time.

#[local] Abbreviation mq := (qwp (quiet_step answering now) cluster_wf).

Lemma kube_live o c (Q : kubeRep o → Cluster → Prop) : cluster_wf c →
  (∀ r c', fresh_spec c o r c' → answered c o r → cluster_wf c' → Q r c') → mq (kube o) c Q.
Proof.
  intros Hwf H. apply qwp_vis; [done|]. intros r c' [_ [Hf Ha]].
  pose proof (fresh_wf _ _ _ _ Hf Hwf) as Hwf'. split; [done|]. apply qwp_ret. by apply H.
Qed.

#[local] Abbreviation place_get := (request_get (quiet_step answering now) kube kube_live).
#[local] Abbreviation place_find := (request_find (quiet_step answering now) kube kube_live).
#[local] Abbreviation place_list := (request_list (quiet_step answering now) kube kube_live).

Lemma place_now c (Q : Time → Cluster → Prop) : cluster_wf c → Q now c → mq timeNow c Q.
Proof. intros Hwf HQ. apply qwp_vis; [done|]. intros t c' [-> ->]. split; [done|]. by apply qwp_ret. Qed.

(** The capacity of every device can be computed. *)
Definition capacities_known (c : Cluster) : Prop := ∀ key (d : NVMeDevice) l, objects c KDevice !! key = Some d →
  l ≡ₚ (map_to_list (partition_objects c)).*2 → is_ok (availableCapacity d l) = true.

Lemma owns_ok c d : cluster_wf c → mq (liveClaimOwnsDevice Live d) c (λ r c', is_ok r = true ∧ c' = c).
Proof.
  intros Hwf. unfold liveClaimOwnsDevice. destruct (dt_ClaimRef (Status d)) as [ref|]; [|by apply qwp_ret].
  destruct (_ || _); [by apply qwp_ret|]. apply qwp_bind; [done|]. apply place_find; [done| |].
  - intros claim _ _. by apply qwp_ret.
  - intros e _ He _. rewrite He. by apply qwp_ret.
Qed.

Lemma owns_live c d : cluster_wf c → claim_owns c d → mq (liveClaimOwnsDevice Live d) c (λ r c', r = inl true ∧ c' = c).
Proof.
  intros Hwf Ho. eapply qwp_mono; [|apply qwp_and; [by apply owns_ok|by apply (quiet_owns answering answering_documented now)]].
  intros [b|e] c' [[He ->] [_ Hb]]; [|done]. split; [|done]. f_equal. by apply Hb.
Qed.

Lemma candidates_ok r p req c : APIReader r = true → cluster_wf c → capacities_known c →
  mq (placementCandidates r p req) c (λ res _, is_ok res = true).
Proof.
  intros Hlive Hwf Hcap. unfold placementCandidates, reader. rewrite Hlive.
  apply qwp_bind; [done|]. apply place_list; [done|]. intros ds Hds _.
  apply qwp_bind; [done|]. apply place_list; [done|]. intros l Hl _.
  apply qwp_bind; [done|]. apply place_list; [done|]. intros ns Hns _. kn.
  apply qwp_bind; [done|]. eapply qwp_mono; [|by apply (quiet_ready_nodes answering answering_documented now)].
  intros ready c' [-> _] _. apply qwp_bind; [done|].
  apply (qwp_for_each _ _ _ (λ _ _ c', c' = c)); [|by intros cs c' -> _; apply qwp_ret|done|done].
  intros pre d post cs c' Hsplit _ ->. unfold consider_device.
  assert (∃ key, objects c KDevice !! key = Some d) as [key Hd].
  { apply (in_objects c KDevice ds); [done|]. rewrite Hsplit. set_solver. }
  case_bool_decide; [by apply qwp_ret|]. destruct (deviceCanHostPartition d p); [|by apply qwp_ret]. cbn [negb].
  apply qwp_bind; [done|]. eapply qwp_mono; [|by apply owns_ok]. intros [[]|e] c' [? ->] _; [|by apply qwp_ret|done]. cbn [negb].
  specialize (Hcap key d l Hd Hl). destruct (availableCapacity d l); [by apply qwp_ret|done].
Qed.

(** Reserved on [d]: only the partition changed, and how. *)
Definition taken (c : Cluster) (p : NVMePartition) (d : NVMeDevice) (c' : Cluster) : Prop :=
  cluster_wf c' ∧ (∀ k, k ≠ KPartition → objects c' k = objects c k) ∧
  ∃ ref p', dt_ClaimRef (Status d) = Some ref ∧ objects c' KPartition !! ObjectKeyFromObject p = Some p' ∧
    same_identity (k := KPartition) p p' ∧ Spec p' = select_device d ref (Spec p) ∧ Status p' = reserved_status d ref p ∧
    PlacementAuth.IsAuthorized p' = true.

(** What the reservation still finds in place. *)
Record takeable (c : Cluster) (p : NVMePartition) (req : Z) (d : NVMeDevice) : Prop := {
  takeable_wf : cluster_wf c;
  takeable_stored : objects c KPartition !! ObjectKeyFromObject p = Some p;
  takeable_unplaced : ps_NodeName (Spec p) = "";
  takeable_live : DeletionTimestamp (Meta p) = None;
  takeable_uid : UID (Meta p) ≠ "";
  takeable_device : objects c KDevice !! ObjectKeyFromObject d = Some d;
  takeable_names : ds_NodeName (Spec d) ≠ "" ∧ ds_SerialNumber (Spec d) ≠ "";
  takeable_host : deviceCanHostPartition d p = true;
  takeable_owner : claim_owns c d;
  takeable_node : node_named_ready now c (ds_NodeName (Spec d));
  takeable_capacity : capacities_ok c ∧ capacities_known c;
  takeable_room : req ≤ free_on c d
}.

Lemma reserve_live r c p req d : APIReader r = true → takeable c p req d →
  mq (reserve_attempt r (ObjectKeyFromObject p) (candidate_of c d) req false) c (λ res c', res = (true, None) ∧ taken c p d c').
Proof.
  intros Hlive [Hwf Hp Hnn Hdel Huid Hd [Hdn Hds] Hhost Hown (n & Hn & Hnv & Hni) [Hcap Hknown] Hroom].
  pose proof Hown as (ref & claim & Href & Hr1 & Hr2 & Hr3 & _). unfold reserve_attempt, reader. rewrite Hlive.
  apply qwp_bind; [done|]. eapply (place_get _ KPartition _ _ p); [done..|]. intros _. kn. rewrite Hnn, Hdel. cbn [TimePtr_IsZero].
  rewrite bool_decide_true by done. cbn [negb orb].
  apply qwp_bind; [done|]. eapply (place_get _ KDevice _ _ d); [done|exact Hd|]. intros _. kn. cbn [cand_serial candidate_of].
  rewrite Hhost, bool_decide_true by done. cbn [negb orb].
  apply qwp_bind; [done|]. eapply qwp_mono; [|by apply owns_live]. intros o c' [-> ->] _. rewrite Href.
  apply qwp_bind; [done|]. eapply (place_get _ KNode _ _ n); [done|exact Hn|]. intros _. kn.
  apply qwp_bind; [done|]. apply place_now; [done|]. intros _. rewrite Hnv, Hni, bool_decide_false by (intros H; by apply H). cbn [negb orb].
  apply qwp_bind; [done|]. apply place_list; [done|]. intros l Hl _. kn.
  pose proof (Hknown _ _ l Hd Hl) as Hok. destruct (availableCapacity d l) as [free|e] eqn:Ha; [|done].
  apply (available_free_on c) in Ha; [|by eapply Hcap|exact Hl]. subst free. rewrite (proj2 (Z.ltb_ge _ _)) by done.
  cbv zeta. apply qwp_bind; [done|].
  eapply (request_status_patch _ kube (kube_live) KPartition _ _ p); [done|exact Hp|done|]. intros q c1 Hwf1 Hpt _. kn.
  destruct Hpt as (Hq & _ & Hk1 & Hi & _ & Hg & Hsp & Hst). pose proof (key_same_identity _ _ Hi) as Hkey. kn.
  apply qwp_bind; [done|]. eapply (request_update _ kube kube_live KPartition _ q); [done| |done|done|].
  { change (ObjectKeyFromObject (with_Spec _ q)) with (ObjectKeyFromObject q). by rewrite Hkey. }
  intros ob c2 Hwf2 (Ho & _ & Hk2 & Hi2) (_ & _ & _ & _ & Hsp2 & Hst2 & Hg2) _. kn. apply qwp_ret. split; [done|].
  assert (same_identity (k := KPartition) p ob) as Hi3 by (unfold same_identity in *; naive_solver congruence).
  assert (gone (k := KPartition) ob = false) as Hgone by (unfold gone, deleting; destruct Hi3 as (_ & _ & _ & E); kn; by rewrite E, Hdel).
  rewrite Hgone, Hkey in Ho. cbn [Spec with_Spec] in Hsp2, Hg2. rewrite Hsp in Hsp2, Hg2.
  split; [done|]. split; [intros k Hk; by rewrite Hk2, Hk1|]. exists ref, ob. split; [done|]. split; [done|]. split; [done|]. split; [done|].
  split; [exact (eq_trans Hst2 Hst)|]. apply (reserved_authorizes d ref p).
  - exact (eq_trans Hst2 Hst).
  - kn. by rewrite Hsp2.
  - rewrite Hg2. unfold next_generation. rewrite decide_False; [kn; by rewrite Hg|]. kn. rewrite Hsp. intros E. apply (f_equal ps_NodeName) in E.
    simpl in E. congruence.
  - by destruct Hi3 as (_ & _ & ? & _).
  - unfold PlacementAuth.components. auto 10.
Qed.

Lemma reserveCandidate_live r c p req d : APIReader r = true → takeable c p req d →
  mq (reserveCandidate r (ObjectKeyFromObject p) (candidate_of c d) req) c (λ res c', res = (true, None) ∧ taken c p d c').
Proof.
  intros Hlive Ht. pose proof (takeable_wf _ _ _ _ Ht) as Hwf. unfold reserveCandidate. apply qwp_vis; [done|]. intros [] c0 ->. split; [done|].
  apply qwp_bind; [done|]. eapply qwp_mono; [|eapply (qwp_retry _ _ _ (λ s c', s = false ∧ c' = c) (λ res c', res = (true, None) ∧ taken c p d c'))].
  - intros res c1 Hres Hwf1. apply qwp_vis; [done|]. intros [] c2 ->. split; [done|]. by apply qwp_ret.
  - intros s c1 _ [-> ->]. eapply qwp_mono; [|by apply reserve_live]. by intros res c' [-> ?].
  - done.
  - done.
Qed.

(** A cluster whose objects are as the agents report them: devices with names and
    capacities that can be accounted for, nodes stored under their name. *)
Record orderly (c : Cluster) : Prop := {
  orderly_wf : cluster_wf c;
  orderly_capacities : capacities_ok c ∧ capacities_known c;
  orderly_devices : device_names_ok c;
  orderly_scope : cluster_scoped c;
  orderly_nodes : ∀ key (n : RDMAStorageNode), objects c KNode !! key = Some n → key = {| key_Namespace := ""; key_Name := ns_NodeName (Spec n) |}
}.

(** A partition that waits to be placed. *)
Record waiting (c : Cluster) (p : NVMePartition) (req : Z) : Prop := {
  waiting_stored : objects c KPartition !! ObjectKeyFromObject p = Some p;
  waiting_unplaced : ps_NodeName (Spec p) = "";
  waiting_live : DeletionTimestamp (Meta p) = None;
  waiting_uid : UID (Meta p) ≠ "";
  waiting_size : RoundUp (Value (ps_Size (Spec p))) = inl req;
  waiting_eligible : ∃ key (d : NVMeDevice), objects c KDevice !! key = Some d ∧ eligible now c p req d
}.

Lemma eligible_takeable c p req d key : orderly c → waiting c p req → objects c KDevice !! key = Some d → eligible now c p req d → takeable c p req d.
Proof.
  intros [Hwf Hcap Hdev _ Hnodes] [Hp Hnn Hdel Huid _ _] Hd ((nkey & n & Hn & Hname & Hv & Hi) & Hhost & Hown & Hroom).
  destruct (proj1 (Hwf KDevice) _ _ Hd) as [Hk _]. kn. split; try done; [by rewrite Hk|by eapply Hdev|].
  exists n. by rewrite <- Hname, <- (Hnodes _ _ Hn).
Qed.

Lemma place_live r c p req : APIReader r = true → orderly c → waiting c p req →
  mq (Reconcile r (ObjectKeyFromObject p)) c (λ res c', res = inl done_result ∧
    ∃ key d, objects c KDevice !! key = Some d ∧ takeable c p req d ∧ taken c p d c').
Proof.
  intros Hlive Hc Hw. pose proof Hc as [Hwf [Hcap Hknown] _ _ _]. pose proof Hw as [Hp Hnn _ _ Hsize (key & d & Hd & Hel)]. unfold Reconcile.
  apply qwp_bind; [done|]. eapply (place_get _ KPartition _ _ p); [done..|]. intros _. kn. rewrite Hnn, Hsize, bool_decide_true by done. cbn [negb].
  apply qwp_bind; [done|]. eapply qwp_mono; [|apply qwp_and; [by apply candidates_ok|
    by apply (placementCandidates_spec answering answering_documented now)]].
  intros [cs|e] c' [Hok [-> Hcs]] _; [|done]. destruct Hcs as [_ Hcs].
  assert (cs ≠ []) as Hne.
  { intros ->. apply (not_elem_of_nil (candidate_of c d)), Hcs. by exists key, d. }
  destruct (length cs =? 0)%nat eqn:El; [by destruct cs|]. apply qwp_bind; [done|].
  apply (qwp_for_each _ _ _ (λ pre _ c', pre = [] ∧ c' = c)); [| |done|done].
  - intros pre cand post [] c' -> _ [-> ->]. assert (cand ∈ [] ++ cand :: post) as Hin by apply list_elem_of_here.
    apply Hcs in Hin as (key' & d' & Hd' & Hel' & ->). pose proof (eligible_takeable _ _ _ _ _ Hc Hw Hd' Hel') as Ht.
    apply qwp_bind; [done|]. eapply qwp_mono; [|by apply reserveCandidate_live]. intros res c' [-> Htk] _. apply qwp_ret.
    intros _. apply qwp_ret. split; [done|]. by exists key', d'.
  - by intros [] c' [-> _].
Qed.

End Place.

(** ** Both controllers *)

Section Whole.
Context `{AM : ApiMachinery} {AML : ApiMachineryLaws AM}.
Context {RL : RetryLib mgrOp mgrRep} {RLL : RetryLaws RL}.
Variable Error : error → string.
Variable plugins : Plugins.Registry.
Variable now : Time.
Import PartitionManager.

Lemma resolved_backend p resolved : resolvePartitionPlugins plugins p = inl resolved → targetBackendName resolved = requestedBackend p.
Proof.
  unfold resolvePartitionPlugins, requestedBackend. destruct (Plugins.GetTargetBackend _ _); [|done].
  destruct (Plugins.GetVolumeManager _ _); [|done]. by intros [= <-].
Qed.

(** A request that the agents can serve. *)
Record servable (p : NVMePartition) (backend : string) : Prop := {
  servable_name : Name (Meta p) ≠ "";
  servable_new : FindStatusCondition (pt_Conditions (Status p)) partitionProvisioningCondition = None;
  servable_state : pt_State (Status p) ≠ NVMePartitionStateExported;
  servable_plugins : ∃ resolved, resolvePartitionPlugins plugins p = inl resolved ∧ targetBackendName resolved = backend;
  servable_options : Validate backend (map_to_list (ps_TargetOptions (Spec p))) = None
}.

Lemma taken_placed c p req d c' key backend hardware : orderly c → takeable now c p req d → taken c p d c' → servable p backend →
  objects c KDevice !! key = Some d → RoundUp (Value (ps_Size (Spec p))) = inl req →
  is_Some (find_serial (ds_SerialNumber (Spec d)) hardware) →
  ∃ p' ref claim ip, objects c' KPartition !! ObjectKeyFromObject p = Some p' ∧ ObjectKeyFromObject p' = ObjectKeyFromObject p ∧
    Spec p' = select_device d ref (Spec p) ∧ UID (Meta p') = UID (Meta p) ∧ Status p' = reserved_status d ref p ∧
    placed plugins (ds_NodeName (Spec d)) now hardware c' p' claim ip backend req.
Proof.
  intros Hc Ht (Hwf' & Hk & ref & p' & Href & Hp' & Hi & Hsp & Hst & Hauth) [Hname Hnew Hstate (resolved & Hres & Hb) Hval] Hd Hsize Hhw.
  destruct Ht as [Hwf Hp Hnn Hdel Huid _ [Hdn Hds] Hhost Hown (n & Hn & Hnv & _) _ _].
  destruct Hown as (ref' & claim & Href' & Hr1 & Hr2 & Hr3 & Hcl & Hcu & Hcd & Hca & Hcm & Hcn & Hcs). rewrite Href in Href'. injection Href' as <-.
  pose proof (key_same_identity _ _ Hi) as Hkey. destruct Hi as (Hin & _ & Hiu & Hid). kn.
  destruct (proj1 (Hwf KDevice) _ _ Hd) as [Hdk _]. pose proof (orderly_scope _ Hc _ _ Hd) as [Hscope Hdname]. kn.
  assert (key = {| key_Namespace := ""; key_Name := Name (Meta d) |}) as ->.
  { rewrite <- Hdk in *. unfold ObjectKeyFromObject in *. simpl in Hscope. by rewrite Hscope. }
  exists p', ref, claim, (ns_RDMAIP (Spec n)). split; [done|]. split; [done|]. split; [done|]. split; [done|]. split; [done|].
  unfold deviceCanHostPartition in Hhost. rewrite <- (resolved_backend p resolved Hres), Hb in Hhost.
  destruct (_ || _) eqn:Eh; [done|]. apply orb_false_iff in Eh as [Eh _]. apply negb_false_iff, bool_decide_eq_true in Eh.
  split.
  - done.
  - by rewrite Hkey.
  - by rewrite Hin.
  - by rewrite Hsp.
  - by rewrite Hid.
  - unfold partitionHasTerminalFailure. rewrite Hst. simpl. by rewrite find_set_ne, Hnew.
  - by rewrite Hst.
  - exists resolved. split; [|done]. unfold resolvePartitionPlugins in *. by rewrite Hsp.
  - by rewrite Hsp.
  - by rewrite Hsp.
  - by rewrite Hauth, orb_true_r.
  - exists ref, d. split.
    + rewrite Hsp. split; simpl; rewrite ?(Hk KClaim), ?(Hk KDevice) by done.
      * destruct ref. done.
      * unfold deleting in Hcd. apply negb_false_iff in Hcd. rewrite Hcm. by split_and!.
      * rewrite Hcm. split_and!; try done. apply EqualFold_refl.
      * done.
    + apply orb_true_iff in Hhost as [H|H]; apply bool_decide_eq_true in H; rewrite H; set_solver.
  - exists n. by rewrite (Hk KNode).
  - by rewrite Hsp.
Qed.

(** Replies to the manager that oblige it. *)
Definition manager_obliged (handle : Cluster → ∀ o : mgrOp, mgrRep o * Cluster) : Prop :=
  ∀ c o, cluster_wf c → quiet_step answering now c o (handle c o).1 (handle c o).2.

Section Cycle.
Variable manager : Cluster → ∀ o : mgrOp, mgrRep o * Cluster.
Variable hardware : string → list HardwareNVMe.
Variable agents : string → Cluster → ∀ o : agentOp, agentRep o * Cluster.
Variable r : NVMePartitionReconciler.
Hypothesis live_reads : APIReader r = true.
Hypothesis manager_ok : manager_obliged manager.
Hypothesis agents_ok : ∀ node, obliges now (hardware node) (agents node).

(** Every device object is a device of its node. *)
Definition hardware_present (c : Cluster) : Prop := ∀ key (d : NVMeDevice), objects c KDevice !! key = Some d →
  is_Some (find_serial (ds_SerialNumber (Spec d)) (hardware (ds_NodeName (Spec d)))).

(** One reconcile of the manager, and one of the agent of a node. *)
Definition managed (key : ObjectKey) (c : Cluster) : Cluster := (run manager (Placement.Reconcile r key) c).2.
Definition agent_round (node : string) (key : ObjectKey) (c : Cluster) : result ctrlResult * Cluster :=
  run (agents node) (Reconcile Error plugins node key) c.

Lemma waiting_converges c p req backend : hardware_present c → orderly c → waiting now c p req → servable p backend →
  let key := ObjectKeyFromObject p in
  ∃ (d : NVMeDevice) ref p' claim ip, objects c KDevice !! ObjectKeyFromObject d = Some d ∧ eligible now c p req d ∧
    objects (managed key c) KPartition !! key = Some p' ∧ ObjectKeyFromObject p' = key ∧
    Spec p' = select_device d ref (Spec p) ∧ UID (Meta p') = UID (Meta p) ∧ Status p' = reserved_status d ref p ∧
    let out := agent_round (ds_NodeName (Spec d)) key (managed key c) in
    out.1 = inl (requeue exportedHealthInterval) ∧ exported_at p' claim ip backend req out.2.
Proof.
  intros Hhw Hc Hw Hs key. pose proof (orderly_wf _ Hc) as Hwf.
  destruct (qwp_run _ _ manager _ _ _ manager_ok Hwf (place_live now r c p req live_reads Hc Hw)) as [_ (dkey & d & Hd & Ht & Htk)].
  fold (managed (ObjectKeyFromObject p) c) in Htk.
  destruct (taken_placed _ _ _ _ _ _ _ _ Hc Ht Htk Hs Hd (waiting_size _ _ _ _ Hw) (Hhw _ _ Hd)) as (p' & ref & claim & ip & Hp' & Hk & Hsp & Hu & Hst & Hpl).
  exists d, ref, p', claim, ip. split; [by destruct Ht|]. split; [|do 5 (split; [done|])].
  - destruct Ht as [_ _ _ _ _ _ _ Hhost Hown (n & Hn & Hv & Hi) _ Hroom]. split; [|done]. exists {| key_Namespace := ""; key_Name := ds_NodeName (Spec d) |}, n.
    pose proof (orderly_nodes _ Hc _ _ Hn) as [= E]. split; [exact Hn|]. by rewrite <- E.
  - unfold key, agent_round. pose proof (placed_converges Error _ _ _ _ _ _ _ _ _ _ Hpl) as Hlive. rewrite Hk in Hlive.
    exact (qwp_run _ _ (agents _) _ _ _ (agents_ok _) (placed_wf _ _ _ _ _ _ _ _ _ _ Hpl) Hlive).
Qed.

(** With a server that answers, plugins that work and nobody else writing, a
    partition that waits to be placed and for which some device is eligible is
    placed by one reconcile of the manager, and one reconcile of the agent of the
    node chosen then exports it with a volume of at least the requested size. *)
Theorem waiting_partition_exported c p req backend : hardware_present c → orderly c → waiting now c p req → servable p backend →
  let key := ObjectKeyFromObject p in
  ∃ (d : NVMeDevice) ref p' claim ip, eligible now c p req d ∧
    objects (managed key c) KPartition !! key = Some p' ∧ Spec p' = select_device d ref (Spec p) ∧
    let out := agent_round (ds_NodeName (Spec d)) key (managed key c) in
    out.1 = inl (requeue exportedHealthInterval) ∧ exported_at p' claim ip backend req out.2.
Proof.
  intros Hhw Hc Hw Hs. destruct (waiting_converges c p req backend Hhw Hc Hw Hs) as (d & ref & p' & claim & ip & _ & He & Hp & _ & Hsp & _ & _ & Ho).
  by exists d, ref, p', claim, ip.
Qed.

End Cycle.

End Whole.

(** ** A concrete run *)

Import PartitionManager.

#[local] Abbreviation waiting_partition := (example_unplaced "a" "p-a" 4194304).

Lemma quiet_handle_obliged : manager_obliged example_time (quiet_handle example_time).
Proof. intros c o Hwf. destruct o; simpl; try done. split; [done|by apply model_serves_obliging]. Qed.

Lemma example_devices (P : ObjectKey → NVMeDevice → bool) : bool_decide (map_Forall (λ key d, P key d = true) (objects example_cluster1 KDevice)) = true →
  ∀ key (d : NVMeDevice), objects example_cluster1 KDevice !! key = Some d → P key d = true.
Proof. intros Hb. by apply bool_decide_eq_true in Hb. Qed.

Lemma example_cluster1_orderly : orderly example_cluster1.
Proof.
  destruct example_cluster1_ok as (Hwf & Hcap & Hdev). split; [done|split; [done|]|done| |].
  - intros key d l H Hl. assert ((map_to_list (partition_objects example_cluster1)).*2 = [waiting_partition]) as E by (vm_compute; reflexivity).
    rewrite E in Hl. apply Permutation_singleton_r in Hl as ->. revert key d H.
    apply (example_devices (λ _ d, is_ok (availableCapacity d [waiting_partition]))). vm_compute. reflexivity.
  - intros key d H. apply (bool_decide_eq_true (key_Namespace key = "" ∧ key_Name key ≠ "")). revert key d H.
    apply (example_devices (λ key _, bool_decide (key_Namespace key = "" ∧ key_Name key ≠ ""))). vm_compute. reflexivity.
  - apply (bool_decide_unpack (map_Forall (λ key (n : RDMAStorageNode),
      key = {| key_Namespace := ""; key_Name := ns_NodeName (Spec n) |}) (objects example_cluster1 KNode))). vm_compute. exact I.
Qed.

Lemma example_eligible p : deviceCanHostPartition example_device p = true → eligible example_time example_cluster1 p 4194304 example_device.
Proof.
  intros Hp. split; [|split; [done|split; [|vm_compute; discriminate]]].
  - exists {| key_Namespace := ""; key_Name := "node-1" |}, example_node. split_and!; vm_compute; reflexivity.
  - exists PlacementAuth.example_ref, example_claim. split_and!; first [discriminate|vm_compute; reflexivity].
Qed.

Lemma example_waiting : waiting example_time example_cluster1 waiting_partition 4194304.
Proof.
  split; [vm_compute; reflexivity|reflexivity|reflexivity|discriminate|vm_compute; reflexivity|].
  exists {| key_Namespace := ""; key_Name := "dev-1" |}, example_device. split; [|apply example_eligible]; vm_compute; reflexivity.
Qed.

Lemma example_servable : servable example_registry waiting_partition "spdk".
Proof.
  split; [discriminate|vm_compute; reflexivity|discriminate| |vm_compute; reflexivity].
  eexists. split; vm_compute; reflexivity.
Qed.

Lemma example_device_present key (d : NVMeDevice) : objects example_cluster1 KDevice !! key = Some d →
  is_Some (find_serial (ds_SerialNumber (Spec d)) [example_hardware]).
Proof.
  intros H. assert ((ds_SerialNumber (Spec d) ==? "SN1") = true) as E.
  { revert key d H. apply (example_devices (λ _ d, ds_SerialNumber (Spec d) ==? "SN1")). vm_compute. reflexivity. }
  bool_to_prop. rewrite E. eexists. vm_compute. reflexivity.
Qed.

Lemma waiting_partition_exported_witness :
  let key := ObjectKeyFromObject waiting_partition in
  let c1 := managed (quiet_handle example_time) live_reconciler key example_cluster1 in
  ∃ (d : NVMeDevice) ref p' claim ip, eligible example_time example_cluster1 waiting_partition 4194304 d ∧
    objects c1 KPartition !! key = Some p' ∧ Spec p' = select_device d ref (Spec waiting_partition) ∧
    let out := agent_round example_Error example_registry (λ _, live_handle) (ds_NodeName (Spec d)) key c1 in
    out.1 = inl (requeue exportedHealthInterval) ∧ exported_at p' claim ip "spdk" 4194304 out.2.
Proof.
  exact (waiting_partition_exported example_Error example_registry example_time (quiet_handle example_time) (λ _, [example_hardware])
    (λ _, live_handle) live_reconciler eq_refl quiet_handle_obliged (λ _, live_handle_obliges) example_cluster1 waiting_partition 4194304 "spdk"
    example_device_present example_cluster1_orderly example_waiting example_servable).
Defined.
