(* ===== verification/Delivery.v ===== *)
(** * From CreateVolume to a volume

    The CSI controller, the placement controller and the agents together: with an
    API server that obliges and controllers that run between two polls, a valid
    request for which some device has room is answered with a volume. *)

From S2P Require Import Prelude GoStrings Encoding Capacity ApiTypes Identity Options RdmaHealth Prog Kube CsiRequest CsiRequestProps.
From S2P Require Import NodeServer CsiController Placement MgrQuiet Obliging PlacementProps ClaimController ClaimProps Plugins.
From S2P Require Import PartitionManager PartitionManagerProps AgentLive PlacementLive.

(** ** A new partition takes no room *)

Lemma available_skip (d : NVMeDevice) p l l' : l' ≡ₚ p :: l → ps_ParentDeviceSerialNumber (Spec p) ≠ ds_SerialNumber (Spec d) →
  is_ok (availableCapacity d l) = true → is_ok (availableCapacity d l') = true.
Proof.
  intros Hl Hp Ha. unfold availableCapacity, allocatedCapacityForDevice in *. destruct (allocated_loop _ 0 l) as [u|] eqn:E in Ha; [|done].
  apply allocated_loop_spec in E as (Hv & Hu & _); [|unfold MaxInt64; lia].
  assert (used_bytes (ds_SerialNumber (Spec d)) l' = used_bytes (ds_SerialNumber (Spec d)) l) as Hb.
  { rewrite Hl, used_bytes_cons. unfold part_bytes. by rewrite bool_decide_false. }
  assert (allocated_loop (ds_SerialNumber (Spec d)) 0 l' = Ok (0 + used_bytes (ds_SerialNumber (Spec d)) l')) as ->; [|done].
  apply allocated_loop_spec; [unfold MaxInt64; lia|]. split; [|by rewrite Hb]. rewrite Hl. by constructor.
Qed.

Section Created.
Context `{AM : ApiMachinery} {AML : ApiMachineryLaws AM}.
Variable now : Time.

Variables (c c' : Cluster) (desired p : NVMePartition).
Hypothesis created : create_applied (k := KPartition) c desired p c'.
Hypothesis unplaced : ps_ParentDeviceSerialNumber (Spec desired) = "".

Lemma created_as : partition_objects c !! ObjectKeyFromObject p = None ∧ ObjectKeyFromObject p = ObjectKeyFromObject desired ∧
  Spec p = Spec desired ∧ deleting p = false ∧ c' = settle c KPartition p.
Proof.
  destruct created as (Hn & Hk & Hs & _ & _ & _ & Hd & _ & _ & _ & ->). unfold deleting. kn. rewrite Hd, Hk. by split_and!.
Qed.

Lemma created_kind k : k ≠ KPartition → objects c' k = objects c k.
Proof. intros Hk. destruct created_as as (_ & _ & _ & _ & ->). by apply objects_settle_ne. Qed.

Lemma created_list : (map_to_list (partition_objects c')).*2 ≡ₚ p :: (map_to_list (partition_objects c)).*2.
Proof.
  destruct created_as as (Hn & _ & _ & Hl & ->). rewrite partition_objects_settle, Hl. simpl. by rewrite map_to_list_insert.
Qed.

Lemma created_used s : s ≠ "" → used_on c' s = used_on c s.
Proof.
  intros Hs. unfold used_on, used_in. fold (partition_objects c) (partition_objects c'). rewrite created_list, used_bytes_cons.
  unfold part_bytes. destruct created_as as (_ & _ & -> & _). by rewrite bool_decide_false by (rewrite unplaced; congruence).
Qed.

Lemma created_eligible d req : ds_SerialNumber (Spec d) ≠ "" → eligible now c' p req d ↔ eligible now c desired req d.
Proof.
  intros Hs. unfold eligible, node_ready, claim_owns, free_on. rewrite created_used by done.
  rewrite (created_kind KNode), (created_kind KClaim) by done.
  unfold deviceCanHostPartition, requestedBackend. by destruct created_as as (_ & _ & -> & _).
Qed.

Lemma created_orderly : cluster_wf c' → orderly c → orderly c'.
Proof.
  intros Hwf [_ [Hcap Hknown] Hdev Hscope Hnodes].
  split; [done|split|..]; unfold capacities_ok, capacities_known, device_names_ok, cluster_scoped; rewrite ?(created_kind KDevice), ?(created_kind KNode) by done; try done.
  intros key d l Hd Hl. rewrite created_list in Hl. eapply available_skip; [exact Hl| |by eapply Hknown].
  destruct (Hdev _ _ Hd) as [_ Hs]. destruct created_as as (_ & _ & -> & _). rewrite unplaced. congruence.
Qed.

End Created.

(** ** Requests *)

Lemma normalize_allocation cr r a : normalizeCapacityRange cr = Ok (r, a) → RoundUp r = Ok a.
Proof.
  unfold normalizeCapacityRange. destruct cr as [cr|]; [|intros H; assert (r = defaultVolumeCapacityBytes ∧ a = defaultVolumeCapacityBytes) as [-> ->] by (split; congruence); reflexivity].
  destruct (_ <? _); [done|]. destruct (_ <? _); [done|]. destruct (_ && _); [done|]. intros (r0 & _ & Hn)%rbind_ok.
  destruct (_ && _) in Hn; [done|]. apply rbind_ok in Hn as (a0 & Ha & Hn). destruct (_ && _) in Hn; [done|]. by injection Hn as <- <-.
Qed.

Lemma canonical_servable ps caps cr r a : canonicalRequest ps caps cr = Ok (r, a) →
  RoundUp (ccr_RequiredBytes r) = Ok a ∧ 0 < ccr_RequiredBytes r ≤ a ∧ ccr_TargetBackend r ≠ "" ∧
  Validate (ccr_TargetBackend r) (map_to_list (ccr_TargetOptions r)) = None.
Proof.
  unfold canonicalRequest. destruct (validateVolumeCapabilities ps caps) as [cap|]; [|done].
  destruct (normalizeCapacityRange cr) as [[rb ea]|] eqn:E2; [|done].
  destruct (storageConfiguration ps) as [[[b m] o]|] eqn:E3; [|done]. intros [= <- <-]. simpl.
  split; [by eapply normalize_allocation|]. split; [by destruct (normalize_bounds _ _ _ E2)|].
  split; [by apply storageConfiguration_ok in E3 as [[-> | ->] _]|].
  unfold storageConfiguration in E3. cbv zeta in E3. destruct (validateStorageCombination _ _); [done|].
  destruct (Validate _ _) eqn:E in E3; [done|]. injection E3 as <- _ <-. exact E.
Qed.

(** The partition of a request, and the upper limit that the request sets. *)
Definition requestKey (req : CreateVolumeRequest) : ObjectKey :=
  {| key_Namespace := let ns := param (cv_Parameters req) "csi.storage.k8s.io/pvc/namespace" in if ns ==? "" then "default" else ns;
     key_Name := cv_Name req |}.
Definition limit (req : CreateVolumeRequest) : Z := match cv_CapacityRange req with Some cr => LimitBytes cr | None => 0 end.
Definition requested (req : CreateVolumeRequest) (request : canonicalCreateVolumeRequest) : NVMePartition :=
  desiredPartition (key_Name (requestKey req)) (key_Namespace (requestKey req)) request.

Lemma key_namespace req : key_Namespace (requestKey req) ≠ "".
Proof. simpl. by case_bool_decide. Qed.

(** ** The components together *)

Lemma run_inv {Op Rep W A} (handle : W → ∀ o : Op, Rep o * W) (inv : W → Prop) (p : prog Op Rep A) w :
  (∀ w o, inv w → inv (handle w o).2) → inv w → inv (run handle p w).2.
Proof. intros Hh. revert w. induction p as [a|o k IH]; intros w Hw; simpl; [done|]. destruct (handle w o) as [x w'] eqn:E. apply IH. by specialize (Hh w o Hw); rewrite E in Hh. Qed.

Section Together.
Context `{AM : ApiMachinery} {AML : ApiMachineryLaws AM}.
Context {RL : RetryLib mgrOp mgrRep} {RLL : RetryLaws RL}.
Variable Error : error → string.
Variable plugins : Plugins.Registry.
Variable now : Time.
Variable server : Cluster → ∀ o : kubeOp, kubeRep o * Cluster.
Variable manager : Cluster → ∀ o : mgrOp, mgrRep o * Cluster.
Variable hardware : string → list HardwareNVMe.
Variable agents : string → Cluster → ∀ o : agentOp, agentRep o * Cluster.
Variable r : NVMePartitionReconciler.
Variable uuid : string.

(** The manager reconciles the partition, and then the agent of its node. *)
Definition round (key : ObjectKey) (c : Cluster) : Cluster :=
  let c1 := managed manager r key c in
  match partition_objects c1 !! key with
  | Some p => if ps_NodeName (Spec p) ==? "" then c1 else (agent_round Error plugins agents (ps_NodeName (Spec p)) key c1).2
  | None => c1
  end.

(** The environment of the CSI controller: between two polls there is a round. *)
Definition controllers (key : ObjectKey) (c : Cluster) (o : csiOp) : csiRep o * Cluster :=
  match o with
  | CKube o => server c o
  | CSelect => (Tick, round key c)
  | CNewUUID => (uuid, c)
  end.

Hypothesis live_reads : APIReader r = true.
Hypothesis server_ok : ∀ c o, cluster_wf c → obliging c o (server c o).1 (server c o).2.
Hypothesis manager_ok : manager_obliged now manager.
Hypothesis agents_ok : ∀ node, obliges now (hardware node) (agents node).

Lemma manager_wf c o : cluster_wf c → cluster_wf (manager c o).2.
Proof.
  intros Hwf. specialize (manager_ok c o Hwf). destruct o; simpl in *; [|by destruct manager_ok as [_ ->]|by rewrite manager_ok..].
  destruct manager_ok as [_ [Hf _]]. by eapply fresh_wf.
Qed.

Lemma agents_wf node c o : cluster_wf c → cluster_wf (agents node c o).2.
Proof.
  intros Hwf. specialize (agents_ok node c o Hwf). destruct o; simpl in *; try by destruct agents_ok as [_ ->].
  - destruct agents_ok as [Hf _]. by eapply fresh_wf.
  - by destruct agents_ok as [-> _].
Qed.

Lemma round_wf key c : cluster_wf c → cluster_wf (round key c).
Proof.
  intros Hwf. unfold round. assert (cluster_wf (managed manager r key c)) as H1 by (unfold managed; apply run_inv; [apply manager_wf|done]).
  destruct (partition_objects _ !! key); [|done]. case_bool_decide; [done|]. unfold agent_round. apply run_inv; [apply agents_wf|done].
Qed.

Lemma round_placed key c p : partition_objects (managed manager r key c) !! key = Some p → ps_NodeName (Spec p) ≠ "" →
  round key c = (agent_round Error plugins agents (ps_NodeName (Spec p)) key (managed manager r key c)).2.
Proof. unfold round. intros -> Hp. by rewrite bool_decide_false. Qed.

(** What the CSI controller sees. *)
Definition delivery_step (key : ObjectKey) (c : Cluster) (o : csiOp) : csiRep o → Cluster → Prop :=
  match o with
  | CKube o => λ x c', obliging c o x c'
  | CSelect => λ w c', w = Tick ∧ c' = round key c
  | CNewUUID => λ _ c', c' = c
  end.

Lemma controllers_step key c o : cluster_wf c → delivery_step key c o (controllers key c o).1 (controllers key c o).2.
Proof. intros Hwf. destruct o; simpl; [by apply server_ok|done..]. Qed.

#[local] Abbreviation dq key := (qwp (delivery_step key) cluster_wf).

Lemma delivery_kube key o c (Q : kubeRep o → Cluster → Prop) : cluster_wf c →
  (∀ x c', fresh_spec c o x c' → answered c o x → cluster_wf c' → Q x c') → dq key (ckube o) c Q.
Proof.
  intros Hwf H. apply qwp_vis; [done|]. intros x c' [Hf Ha]. pose proof (fresh_wf _ _ _ _ Hf Hwf) as Hwf'. split; [done|]. apply qwp_ret. by apply H.
Qed.

(** A valid request without an upper limit, for a partition that does not exist
    and for which the plugins are installed and some device has room. *)
Record deliverable (c : Cluster) (req : CreateVolumeRequest) (request : canonicalCreateVolumeRequest) (allocation : Z) : Prop := {
  deliverable_name : cv_Name req ≠ "";
  deliverable_request : canonicalRequest (cv_Parameters req) (cv_VolumeCapabilities req) (cv_CapacityRange req) = Ok (request, allocation);
  deliverable_limit : limit req = 0;
  deliverable_new : objects c KPartition !! requestKey req = None;
  deliverable_plugins : ∃ resolved, PartitionManager.resolvePartitionPlugins plugins (requested req request) = inl resolved;
  deliverable_device : ∃ key (d : NVMeDevice), objects c KDevice !! key = Some d ∧ eligible now c (requested req request) allocation d
}.

(** The partition has been exported from [d], and [vol] describes it. *)
Definition delivered (c : Cluster) (req : CreateVolumeRequest) (request : canonicalCreateVolumeRequest) (allocation : Z)
    (vol : Volume) (c' : Cluster) : Prop := ∃ (p : NVMePartition) (d : NVMeDevice) ref,
  objects c' KPartition !! requestKey req = Some p ∧ pt_State (Status p) = NVMePartitionStateExported ∧
  objects c KDevice !! ObjectKeyFromObject d = Some d ∧ eligible now c (requested req request) allocation d ∧
  Spec p = select_device d ref (Spec (requested req request)) ∧
  VolumeIdentity.ParseVolumeHandle (VolumeId vol) =
    Ok {| VolumeIdentity.r_Namespace := key_Namespace (requestKey req); VolumeIdentity.r_Name := cv_Name req; VolumeIdentity.r_UID := UID (Meta p) |} ∧
  CsiController.CapacityBytes vol = Value (pt_AllocatedCapacity (Status p)) ∧ allocation ≤ CsiController.CapacityBytes vol ∧
  VolumeContext vol = volumeContextForPartition p.

Lemma created_servable req request allocation c (p : NVMePartition) c' : deliverable c req request allocation →
  create_applied (k := KPartition) c (requested req request) p c' → Status p = zero_status KPartition →
  servable plugins p (ccr_TargetBackend request).
Proof.
  intros [Hn Hr _ _ [resolved Hp] _] Hc Hst. destruct (created_as _ _ _ _ Hc) as (_ & Hk & Hsp & _ & _). apply canonical_servable in Hr as (_ & _ & Hb & Hv).
  split.
  - injection Hk as _ ->. exact Hn.
  - rewrite Hst. simpl. destruct (FindStatusCondition [] _) eqn:E; [|done]. by apply find_type in E as [_ ?%not_elem_of_nil].
  - by rewrite Hst.
  - assert (PartitionManager.resolvePartitionPlugins plugins p = inl resolved) as Hres by (unfold PartitionManager.resolvePartitionPlugins in *; by rewrite Hsp).
    exists resolved. split; [done|]. rewrite (resolved_backend plugins p resolved Hres). unfold requestedBackend. rewrite Hsp. simpl. by rewrite bool_decide_false.
  - by rewrite Hsp.
Qed.

(** A round exports the new partition and gives it the handle of its identity. *)
Lemma round_exports req request allocation c (p : NVMePartition) c' : orderly c → hardware_present hardware c →
  deliverable c req request allocation → create_applied (k := KPartition) c (requested req request) p c' → cluster_wf c' →
  UID (Meta p) ≠ "" → Status p = zero_status KPartition →
  ∃ (q : NVMePartition) (d : NVMeDevice) ref id, objects (round (requestKey req) c') KPartition !! requestKey req = Some q ∧
    pt_State (Status q) = NVMePartitionStateExported ∧
    objects c KDevice !! ObjectKeyFromObject d = Some d ∧ eligible now c (requested req request) allocation d ∧
    Spec q = select_device d ref (Spec (requested req request)) ∧
    VolumeIdentity.New (key_Namespace (requestKey req)) (cv_Name req) (UID (Meta q)) = Ok id ∧
    pt_VolumeID (Status q) = VolumeIdentity.VolumeHandle id ∧ allocation ≤ Value (pt_AllocatedCapacity (Status q)).
Proof.
  intros Hc Hhw Hdel Hcr Hwf' Huid Hst. pose proof Hdel as [Hn Hr _ _ _ (dk & d0 & Hd0 & He0)].
  destruct (canonical_servable _ _ _ _ _ Hr) as (Hru & _ & _ & _).
  destruct (created_as _ _ _ _ Hcr) as (_ & Hk & Hsp & Hlive & Hc').
  assert (ObjectKeyFromObject p = requestKey req) as Hkey by exact Hk.
  assert (waiting now c' p allocation) as Hw.
  { split; try done.
    - rewrite Hc'. by apply (lookup_settle_eq c KPartition p).
    - by rewrite Hsp.
    - by destruct Hcr as (_ & _ & _ & _ & _ & _ & ? & _).
    - by rewrite Hsp.
    - exists dk, d0. rewrite (created_kind c c' _ p Hcr KDevice) by done. split; [done|].
      eapply created_eligible; [done|done|by eapply (orderly_devices _ Hc)|done]. }
  assert (hardware_present hardware c') as Hhw' by (unfold hardware_present; by rewrite (created_kind c c' _ p Hcr KDevice)).
  destruct (waiting_converges Error plugins now manager hardware agents r live_reads manager_ok agents_ok c' p allocation _
    Hhw' (created_orderly c c' _ p Hcr eq_refl Hwf' Hc) Hw (created_servable _ _ _ _ _ _ Hdel Hcr Hst))
    as (d & ref & p' & claim & ip & Hd & He & Hp' & Hk' & Hsp' & Hu' & Hst' & _ & q & e & Hq & Hsq & Huq & _ & Hv & Hx & _ & _ & _ & Hb & _).
  rewrite Hkey in *. rewrite (created_kind c c' _ p Hcr KDevice) in Hd by done. destruct (orderly_devices _ Hc _ _ Hd) as [Hdn Hds].
  assert (UID (Meta q) ≠ "") as Huq0 by congruence. pose proof Hk' as [= Hns Hnm].
  destruct (VolumeIdentity.New (key_Namespace (requestKey req)) (cv_Name req) (UID (Meta q))) as [id|] eqn:Eid.
  2:{ unfold VolumeIdentity.New in Eid. by rewrite !bool_decide_false in Eid by (done || apply key_namespace). }
  exists q, d, ref, id. split.
  { assert (ps_NodeName (Spec p') = ds_NodeName (Spec d)) as Hnode by by rewrite Hsp'.
    pose proof (round_placed _ _ _ Hp') as Hround. rewrite Hnode in Hround. rewrite (Hround Hdn). rewrite Hk' in Hq. exact Hq. }
  split; [done|]. split; [done|]. split; [by apply (created_eligible now c c' _ p Hcr eq_refl)|]. split; [by rewrite Hsq, Hsp', Hsp|]. split; [done|]. split; [|done].
  rewrite Hv. unfold PartitionManager.identitiesForPartition. rewrite Hst'. simpl. rewrite Hst. simpl.
  rewrite Hns, Hnm, <- Huq. simpl in Eid. by rewrite Eid.
Qed.

Lemma wait_ready fuel key c (q : NVMePartition) Q : cluster_wf c → objects (round key c) KPartition !! key = Some q →
  pt_State (Status q) = NVMePartitionStateExported → Q (Some None) (round key c) → dq key (waitForPartitionReady (S fuel) key) c Q.
Proof.
  intros Hwf Hq Hx HQ. pose proof (round_wf key c Hwf) as Hwf'. unfold waitForPartitionReady. cbn [iterate]. apply qwp_bind; [done|].
  apply qwp_bind; [done|]. apply qwp_vis; [done|]. intros w c' [-> ->]. split; [done|]. apply qwp_ret. intros _.
  apply qwp_bind; [done|]. eapply (request_get _ ckube (delivery_kube key) _ KPartition); [done|exact Hq|]. intros _. kn. rewrite Hx.
  apply qwp_ret. intros _. by apply qwp_ret.
Qed.

Lemma volume_of (q : NVMePartition) required allocation id ns name : VolumeIdentity.New ns name (UID (Meta q)) = Ok id →
  pt_VolumeID (Status q) = VolumeIdentity.VolumeHandle id → 0 < required ≤ allocation → allocation ≤ Value (pt_AllocatedCapacity (Status q)) →
  volumeForPartition q required allocation 0 = Ok {| VolumeId := VolumeIdentity.VolumeHandle id;
    CsiController.CapacityBytes := Value (pt_AllocatedCapacity (Status q)); VolumeContext := volumeContextForPartition q |}.
Proof.
  intros Hid Hv Hr Ha. unfold volumeForPartition. rewrite Hv, bool_decide_false.
  - cbn [rbind]. rewrite (proj2 (Z.eqb_neq _ _)) by lia. rewrite (proj2 (Z.ltb_ge _ _)) by lia. done.
  - intros E. apply VolumeIdentity.Parse_New in Hid. by rewrite E in Hid.
Qed.

Lemma create_volume_delivers fuel req request allocation c : fuel ≠ 0%nat → orderly c → hardware_present hardware c →
  deliverable c req request allocation →
  dq (requestKey req) (CsiController.CreateVolume fuel req) c (λ res c', ∃ vol, res = Some (Ok vol) ∧ delivered c req request allocation vol c').
Proof.
  intros Hfuel Hc Hhw Hdel. pose proof Hdel as [Hn Hr Hl Hnew _ _]. pose proof (orderly_wf _ Hc) as Hwf.
  destruct (canonical_servable _ _ _ _ _ Hr) as (_ & Hbound & _). destruct fuel as [|fuel]; [done|].
  unfold CsiController.CreateVolume. rewrite bool_decide_false, Hr by done. cbv zeta. fold (requestKey req).
  apply qwp_bind; [done|]. apply (request_create _ ckube (delivery_kube (requestKey req)) KPartition); [done|exact Hnew|].
  intros p c1 Hwf1 Hcr Huid Hst _. kn.
  destruct (round_exports _ _ _ _ _ _ Hc Hhw Hdel Hcr Hwf1 Huid Hst) as (q & d & ref & id & Hq & Hx & Hd & He & Hsp & Hid & Hv & Hb).
  pose proof (round_wf (requestKey req) c1 Hwf1) as Hwf2. apply qwp_bind; [done|]. apply qwp_ret. intros _.
  apply qwp_bind; [done|]. eapply wait_ready; [done..|]. intros _.
  apply qwp_bind; [done|]. eapply (request_get _ ckube (delivery_kube (requestKey req)) _ KPartition); [done|exact Hq|]. intros _.
  unfold limit in Hl. rewrite Hl. kn. rewrite (volume_of q _ _ id _ _ Hid Hv Hbound Hb). apply qwp_ret. eexists. split; [done|].
  exists q, d, ref. do 5 (split; [done|]). split; [by eapply VolumeIdentity.Parse_New|]. done.
Qed.

(** C12: CreateVolume succeeds when it can.  With an API server and plugins that
    work and nobody else writing, if between two polls the manager and the agent
    of the node chosen each reconcile the partition once, then a valid request
    without an upper limit, for which some device has room, returns a volume of at
    least the size asked for: its partition is exported from a device that was
    eligible, and the handle returned names exactly this partition. *)
Theorem created_volume_delivered fuel req request allocation c : fuel ≠ 0%nat → orderly c → hardware_present hardware c →
  deliverable c req request allocation →
  let out := run (controllers (requestKey req)) (CsiController.CreateVolume fuel req) c in
  ∃ vol, out.1 = Some (Ok vol) ∧ delivered c req request allocation vol out.2.
Proof.
  intros Hfuel Hc Hhw Hdel.
  exact (qwp_run _ _ (controllers (requestKey req)) _ _ _ (controllers_step (requestKey req)) (orderly_wf _ Hc)
    (create_volume_delivers fuel req request allocation c Hfuel Hc Hhw Hdel)).
Qed.

End Together.

(** ** A concrete run *)

Definition example_request : CreateVolumeRequest :=
  {| cv_Name := "pvc-1"; cv_CapacityRange := Some {| RequiredBytes := 4194304; LimitBytes := 0 |};
     cv_VolumeCapabilities := [ext4_capability ""]; cv_Parameters := ∅ |}.

Definition example_canonical : canonicalCreateVolumeRequest :=
  {| ccr_RequiredBytes := 4194304; ccr_LimitBytes := 0; ccr_TargetBackend := "spdk"; ccr_VolumeManager := "partition"; ccr_TargetOptions := ∅;
     ccr_Capability := {| cvc_AccessMode := "SINGLE_NODE_WRITER"; cvc_Filesystem := "ext4" |} |}.

Lemma example_deliverable : deliverable example_registry example_time example_cluster1 example_request example_canonical 4194304.
Proof.
  split; [discriminate|vm_compute; reflexivity|reflexivity|vm_compute; reflexivity|eexists; vm_compute; reflexivity|].
  exists {| key_Namespace := ""; key_Name := "dev-1" |}, example_device. split; [|apply example_eligible]; vm_compute; reflexivity.
Qed.

Lemma created_volume_delivered_witness :
  let out := run (controllers example_Error example_registry model_serve (quiet_handle example_time) (λ _, live_handle) live_reconciler "u"
    (requestKey example_request)) (CsiController.CreateVolume 1 example_request) example_cluster1 in
  ∃ vol, out.1 = Some (Ok vol) ∧ delivered example_time example_cluster1 example_request example_canonical 4194304 vol out.2.
Proof.
  exact (created_volume_delivered example_Error example_registry example_time model_serve (quiet_handle example_time) (λ _, [example_hardware])
    (λ _, live_handle) live_reconciler "u" eq_refl model_serves_obliging quiet_handle_obliged (λ _, live_handle_obliges) 1 example_request
    example_canonical 4194304 example_cluster1 (Nat.neq_succ_0 0) example_cluster1_orderly example_device_present example_deliverable).
Defined.
