(* ===== verification/Heap.v ===== *)
(** * Memory of Go values

    The rest of the development treats API objects as values.  In Go they are
    structs whose pointer, slice and map fields share memory when the struct is
    assigned.  This file has the memory the generated deep-copy functions work on:
    a heap of cells, a monad of programs that allocate, load and store, and the
    interface [Copier] that a type with a deep copy implements.  DeepCopy.v models
    the functions themselves. *)

From S2P Require Import Prelude.

Abbreviation addr := positive.

Section Heap.
Context {C : Type}.

#[local] Abbreviation heap := (gmap addr C).

(** Programs on the heap; [None] is a run-time panic. *)
Definition HM (A : Type) : Type := heap → option (A * heap).

#[global] Instance HM_ret : MRet HM := λ A x h, Some (x, h).
#[global] Instance HM_bind : MBind HM := λ A B f p h, match p h with Some (x, h') => f x h' | None => None end.

(** Go values of type [T] as contents of a cell. *)
Class Cell (T : Type) := { inject : T → C; project : C → option T; project_inject x : project (inject x) = Some x }.

Definition alloc `{Cell T} (x : T) : HM addr := λ h, let a := fresh (dom h) in Some (a, <[a := inject x]> h).
Definition store `{Cell T} (a : addr) (x : T) : HM unit := λ h, Some (tt, <[a := inject x]> h).
Definition peek `{Cell T} (h : heap) (a : addr) : option T := c ← h !! a; project c.
Definition load `{Cell T} (a : addr) : HM T := λ h, x ← peek h a; Some (x, h).

(** A pointer, a slice with its array and length, and a map; [None] is nil. *)
Record ptr (T : Type) := Ptr { target : option addr }.
Record slice (T : Type) := Slice { base : option addr; len : nat }.
Record gomap (K V : Type) := GoMap { table : option addr }.

(** ** Types with a deep copy

    [view h m] is the value that [m] stands for in [h], with the cells it is read
    from; [deepcopy] makes another [m] of the same value. *)
Class Copier (M V : Type) := {
  view : heap → M → option (V * gset addr);
  deepcopy : M → HM M
}.

(** The value is a function of the cells it is read from, and the copy has the
    same value in cells that are new. *)
Class CopierLaws M V (K : Copier M V) := {
  view_dom h m v F : view h m = Some (v, F) → F ⊆ dom h;
  view_local h h' m v F : view h m = Some (v, F) → (∀ a, a ∈ F → h' !! a = h !! a) → view h' m = Some (v, F);
  deepcopy_fresh h m v F : view h m = Some (v, F) → ∃ m' h' F',
    deepcopy m h = Some (m', h') ∧ h ⊆ h' ∧ view h' m' = Some (v, F') ∧ F' ## dom h
}.

Lemma view_mono `{CopierLaws M V} h h' m x : h ⊆ h' → view h m = Some x → view h' m = Some x.
Proof.
  intros Hs Hv. destruct x as [v F]. eapply view_local; [done|]. intros a Ha.
  apply (view_dom _ _ _ _ Hv) in Ha as [c Hc]%elem_of_dom. rewrite Hc. by eapply lookup_weaken.
Qed.

Lemma fresh_alloc (h : heap) c : h ⊆ <[fresh (dom h) := c]> h.
Proof. apply insert_subseteq, not_elem_of_dom, is_fresh. Qed.

Lemma peek_insert `{Cell T} (h : heap) a (x : T) : peek (<[a := inject x]> h) a = Some x.
Proof. unfold peek. rewrite lookup_insert_eq. simpl. apply project_inject. Qed.

Lemma peek_mono `{Cell T} (h h' : heap) a (x : T) : h ⊆ h' → peek h a = Some x → peek h' a = Some x.
Proof. unfold peek. intros Hs Hx. destruct (h !! a) as [c|] eqn:E; [|done]. by rewrite (lookup_weaken _ _ _ _ E Hs). Qed.

Lemma peek_local `{Cell T} (h h' : heap) a : h' !! a = h !! a → peek h' a = peek (T := T) h a.
Proof. unfold peek. by intros ->. Qed.

Lemma peek_dom `{Cell T} (h : heap) a (x : T) : peek h a = Some x → a ∈ dom h.
Proof. unfold peek. destruct (h !! a) eqn:E; [|done]. intros _. by apply elem_of_dom. Qed.

Lemma load_peek `{Cell T} (h : heap) a (x : T) : peek h a = Some x → load a h = Some (x, h).
Proof. unfold load. by intros ->. Qed.

Lemma run_bind {A B} (p : HM A) (f : A → HM B) h x h' : p h = Some (x, h') → (p ≫= f) h = f x h'.
Proof. unfold mbind, HM_bind. by intros ->. Qed.

(** Writing a cell that the smaller heap does not have. *)
Lemma sub_insert (h h' : heap) a c : h ⊆ h' → a ∉ dom h → h ⊆ <[a := c]> h'.
Proof. intros Hs Ha. apply insert_subseteq_r; [by apply not_elem_of_dom|done]. Qed.

(** ** Values without references: [*out = *in] copies them. *)
Definition plain {T} : Copier T T := {| view _ m := Some (m, ∅); deepcopy m := mret m |}.

Lemma plain_laws {T} : CopierLaws T T plain.
Proof.
  split; simpl.
  - intros h m v F [= <- <-]. set_solver.
  - by intros h h' m v F [= <- <-] _.
  - intros h m v F [= <- <-]. exists m, h, ∅. split_and!; [done|done|done|set_solver].
Qed.

(** ** Pointers to structs *)

Section Ptr.
Context {M V : Type} `{Cell M} {K : Copier M V} {KL : CopierLaws M V K}.

Definition view_ptr (h : heap) (p : ptr M) : option (option V * gset addr) :=
  match target M p with
  | None => Some (None, ∅)
  | Some a => m ← peek h a; '(v, F) ← view h m; Some (Some v, {[a]} ∪ F)
  end.

(** The body of the generated DeepCopy methods: a nil pointer is returned, and
    otherwise a new struct is filled by DeepCopyInto, which first assigns [*in]. *)
Definition copy_ptr (into : M → HM M) (p : ptr M) : HM (ptr M) :=
  match target M p with
  | None => mret (Ptr M None)
  | Some a =>
    i ← load a;
    out ← alloc i;
    o ← into i;
    _ ← store out o;
    mret (Ptr M (Some out))
  end.

#[global] Instance ptr_copier : Copier (ptr M) (option V) := {| view := view_ptr; deepcopy := copy_ptr deepcopy |}.

Lemma view_ptr_inv h p v F : view_ptr h p = Some (v, F) →
  target M p = None ∧ v = None ∧ F = ∅ ∨
  ∃ a m w G, target M p = Some a ∧ peek h a = Some m ∧ view h m = Some (w, G) ∧ v = Some w ∧ F = {[a]} ∪ G.
Proof.
  unfold view_ptr. destruct (target M p) as [a|]; [|intros [= <- <-]; by left].
  destruct (peek h a) as [m|] eqn:E; simpl; [|done]. destruct (view h m) as [[w G]|] eqn:Ev; simpl; [|done].
  intros [= <- <-]. right. by exists a, m, w, G.
Qed.

Lemma view_ptr_some h a m w G : peek h a = Some m → view h m = Some (w, G) →
  view_ptr h (Ptr M (Some a)) = Some (Some w, {[a]} ∪ G).
Proof. intros Hp Hv. unfold view_ptr. simpl. rewrite Hp. simpl. by rewrite Hv. Qed.

#[global] Instance ptr_laws : CopierLaws (ptr M) (option V) ptr_copier.
Proof.
  split; simpl; intros h; [intros p v F|intros h' [p] v F|intros [p] v F];
    intros [(E & -> & ->)|(a & m & w & G & E & Hp & Hv & -> & ->)]%view_ptr_inv.
  - set_solver.
  - apply union_subseteq. split; [apply singleton_subseteq_l; by eapply peek_dom|by eapply view_dom].
  - intros _. simpl in E. by subst.
  - simpl in E. subst. intros Hl. apply (view_ptr_some _ _ m); [rewrite (peek_local h); [done|]|eapply view_local; [done|]]; intros; apply Hl; set_solver.
  - simpl in E. subst. exists (Ptr M None), h, ∅. split_and!; [done|done|done|set_solver].
  - simpl in E. subst. pose proof (fresh_alloc h (inject m)) as Hs. pose proof (is_fresh (dom h)) as Hout.
    set (out := fresh (dom h)) in *. set (h1 := <[out := inject m]> h) in *.
    destruct (deepcopy_fresh h1 m w G (view_mono _ _ _ _ Hs Hv)) as (o & h2 & F' & Hc & Hs2 & Hv2 & Hf).
    assert (dom h1 = {[out]} ∪ dom h) as Hd by apply dom_insert_L.
    exists (Ptr M (Some out)), (<[out := inject o]> h2), ({[out]} ∪ F'). split; [|split; [|split]].
    + unfold copy_ptr. cbn [target]. rewrite (run_bind _ _ _ m h) by (by apply load_peek). rewrite (run_bind _ _ _ out h1) by done.
      by rewrite (run_bind _ _ _ o h2).
    + apply sub_insert; [by etrans|done].
    + apply (view_ptr_some _ _ o); [apply peek_insert|]. eapply view_local; [done|].
      intros a' Ha'. apply lookup_insert_ne. intros <-. set_solver.
    + set_solver.
Qed.

End Ptr.

(** ** Slices *)

Section Slice.
Context {M V : Type} `{Cell (list M)} {K : Copier M V} {KL : CopierLaws M V K}.

Fixpoint views (h : heap) (l : list M) : option (list V * gset addr) :=
  match l with
  | [] => Some ([], ∅)
  | m :: l => '(v, F) ← view h m; '(vs, G) ← views h l; Some (v :: vs, F ∪ G)
  end.

Definition view_slice (h : heap) (s : slice M) : option (list V * gset addr) :=
  match base M s with
  | None => Some ([], ∅)
  | Some a =>
    arr ← peek (T := list M) h a;
    if bool_decide (len M s ≤ length arr)%nat then '(vs, F) ← views h (take (len M s) arr); Some (vs, {[a]} ∪ F) else None
  end.

(** The loop over a slice; the cell of the new array holds the elements copied so
    far. *)
Fixpoint copy_items (into : M → HM M) (out : addr) (copied rest : list M) : HM unit :=
  match rest with
  | [] => mret tt
  | x :: rest => y ← into x; _ ← store out (copied ++ [y]); copy_items into out (copied ++ [y]) rest
  end.

(** The generated code for a slice field: nil stays nil, otherwise a new array is
    made and each element copied into it. *)
Definition copy_slice (into : M → HM M) (s : slice M) : HM (slice M) :=
  match base M s with
  | None => mret s
  | Some a =>
    arr ← load (T := list M) a;
    out ← alloc (T := list M) [];
    _ ← copy_items into out [] (take (len M s) arr);
    mret (Slice M (Some out) (len M s))
  end.

#[global] Instance slice_copier : Copier (slice M) (list V) := {| view := view_slice; deepcopy := copy_slice deepcopy |}.

Lemma views_cons h m l vs F : views h (m :: l) = Some (vs, F) → ∃ v G ws G', view h m = Some (v, G) ∧ views h l = Some (ws, G') ∧ vs = v :: ws ∧ F = G ∪ G'.
Proof.
  simpl. destruct (view h m) as [[v G]|]; simpl; [|done]. destruct (views h l) as [[ws G']|]; simpl; [|done]. intros [= <- <-]. by exists v, G, ws, G'.
Qed.

Lemma views_dom h l vs F : views h l = Some (vs, F) → F ⊆ dom h.
Proof.
  revert vs F. induction l as [|m l IH]; intros vs F; [intros [= <- <-]; set_solver|].
  intros (v & G & ws & G' & Hv & Hl & -> & ->)%views_cons. apply union_subseteq. split; [by eapply view_dom|by eapply IH].
Qed.

Lemma views_local h h' l vs F : views h l = Some (vs, F) → (∀ a, a ∈ F → h' !! a = h !! a) → views h' l = Some (vs, F).
Proof.
  revert vs F. induction l as [|m l IH]; intros vs F; [done|]. intros (v & G & ws & G' & Hv & Hl & -> & ->)%views_cons Ha. simpl.
  rewrite (view_local _ _ _ _ _ Hv) by (intros; apply Ha; set_solver). simpl. rewrite (IH _ _ Hl) by (intros; apply Ha; set_solver). done.
Qed.

Lemma views_mono h h' l x : h ⊆ h' → views h l = Some x → views h' l = Some x.
Proof.
  intros Hs Hv. destruct x as [v F]. eapply views_local; [done|]. intros a Ha.
  apply (views_dom _ _ _ _ Hv) in Ha as [c Hc]%elem_of_dom. rewrite Hc. by eapply lookup_weaken.
Qed.

Lemma views_snoc h l m vs F v G : views h l = Some (vs, F) → view h m = Some (v, G) → views h (l ++ [m]) = Some (vs ++ [v], F ∪ G).
Proof.
  revert vs F. induction l as [|x l IH]; intros vs F; simpl.
  - intros [= <- <-] ->. simpl. by rewrite (union_comm_L G), !(union_empty_l_L).
  - destruct (view h x) as [[w G']|]; simpl; [|done]. destruct (views h l) as [[ws G'']|]; simpl; [|done].
    intros [= <- <-] Hm. rewrite (IH _ _ eq_refl Hm). simpl. by rewrite (assoc_L (∪)).
Qed.

Lemma copy_items_spec h0 out rest copied h vs F ws G : h0 ⊆ h → out ∉ dom h0 → peek h out = Some copied →
  views h0 rest = Some (vs, F) → views h copied = Some (ws, G) → G ## dom h0 ∪ {[out]} →
  ∃ h' items G', copy_items deepcopy out copied rest h = Some (tt, h') ∧ h0 ⊆ h' ∧ peek h' out = Some items ∧
    length items = (length copied + length rest)%nat ∧ views h' items = Some (ws ++ vs, G') ∧ G' ## dom h0 ∪ {[out]}.
Proof.
  revert copied h vs F ws G. induction rest as [|x rest IH]; intros copied h vs F ws G Hs Hout Hp Hr Hc HG.
  { simpl in Hr. injection Hr as <- <-. exists h, copied, G. rewrite app_nil_r. split_and!; try done. }
  apply views_cons in Hr as (v & Fx & vs' & Fr & Hx & Hr & -> & ->).
  destruct (deepcopy_fresh h x v Fx (view_mono _ _ _ _ Hs Hx)) as (y & h1 & Fy & Hy & Hs1 & Hvy & Hfy).
  pose proof (peek_dom _ _ _ Hp) as Hod. assert (dom h0 ⊆ dom h) as Hd by by apply subseteq_dom.
  assert (∀ a, a ≠ out → <[out := inject (copied ++ [y])]> h1 !! a = h1 !! a) as Hne by (intros; by apply lookup_insert_ne).
  destruct (IH (copied ++ [y]) (<[out := inject (copied ++ [y])]> h1) vs' Fr (ws ++ [v]) (G ∪ Fy)) as (h' & items & G' & E & Hs' & Hp' & Hl & Hv' & HG').
  - apply sub_insert; [by etrans|done].
  - done.
  - apply peek_insert.
  - done.
  - apply views_snoc; [eapply views_local; [by eapply views_mono|]|eapply view_local; [done|]]; intros a Ha; apply Hne; set_solver.
  - set_solver.
  - exists h', items, G'. split; [|split_and!; try done].
    + simpl. by rewrite (run_bind _ _ _ y h1), (run_bind _ _ _ tt (<[out := inject (copied ++ [y])]> h1)).
    + rewrite Hl, length_app. simpl. lia.
    + by rewrite <- app_assoc in Hv'.
Qed.

Lemma view_slice_inv h s vs F : view_slice h s = Some (vs, F) → base M s = None ∧ vs = [] ∧ F = ∅ ∨
  ∃ a arr G, base M s = Some a ∧ peek h a = Some arr ∧ (len M s ≤ length arr)%nat ∧ views h (take (len M s) arr) = Some (vs, G) ∧ F = {[a]} ∪ G.
Proof.
  unfold view_slice. destruct (base M s) as [a|]; [|intros [= <- <-]; by left]. destruct (peek h a) as [arr|] eqn:Ep; simpl; [|done].
  case_bool_decide as Hl; [|done]. destruct (views h _) as [[ws G]|] eqn:E; simpl; [|done]. intros [= <- <-]. right. by exists a, arr, G.
Qed.

Lemma view_slice_some h a n arr vs G : peek h a = Some arr → (n ≤ length arr)%nat → views h (take n arr) = Some (vs, G) →
  view_slice h (Slice M (Some a) n) = Some (vs, {[a]} ∪ G).
Proof. intros Hp Hl Hv. unfold view_slice. simpl. rewrite Hp. simpl. rewrite bool_decide_true by done. by rewrite Hv. Qed.

#[global] Instance slice_laws : CopierLaws (slice M) (list V) slice_copier.
Proof.
  split; simpl; intros h; [intros s v F|intros h' [s n] v F|intros [s n] v F];
    intros [(E & -> & ->)|(a & arr & G & E & Hp & Hl & Hv & ->)]%view_slice_inv; try (simpl in E; subst s).
  - set_solver.
  - apply union_subseteq. split; [apply singleton_subseteq_l; by eapply peek_dom|by eapply views_dom].
  - done.
  - intros Ha. apply (view_slice_some _ _ _ arr); [rewrite (peek_local h); [done|]|done|eapply views_local; [done|]]; intros; apply Ha; set_solver.
  - exists (Slice M None n), h, ∅. split_and!; [done|done|done|set_solver].
  - pose proof (fresh_alloc h (inject [])) as Hs. pose proof (is_fresh (dom h)) as Hout. set (out := fresh (dom h)) in *.
    destruct (copy_items_spec h out (take n arr) [] (<[out := inject []]> h) v G [] ∅ Hs Hout (peek_insert _ _ _) Hv eq_refl ltac:(set_solver))
      as (h' & items & G' & Hc & Hs' & Hp' & Hli & Hv' & HG').
    exists (Slice M (Some out) n), h', ({[out]} ∪ G'). split; [|split; [done|split; [|set_solver]]].
    + unfold copy_slice. cbn [base len]. rewrite (run_bind _ _ _ arr h) by (by apply load_peek). rewrite (run_bind _ _ _ out (<[out := inject []]> h)) by done.
      by rewrite (run_bind _ _ _ tt h').
    + simpl in Hl, Hli. rewrite length_take_le in Hli by done. apply (view_slice_some _ _ _ items); [done|lia|]. by rewrite take_ge by lia.
Qed.

End Slice.

(** ** Maps of values without references *)

Section GoMap.
Context {A B : Type} `{Countable A} `{Cell (gmap A B)}.

Definition view_map (h : heap) (m : gomap A B) : option (gmap A B * gset addr) :=
  match table A B m with None => Some (∅, ∅) | Some a => t ← peek (T := gmap A B) h a; Some (t, {[a]}) end.

(** The generated code for a map field: nil stays nil, otherwise a new map gets
    every entry, in any order. *)
Definition copy_map (m : gomap A B) : HM (gomap A B) :=
  match table A B m with
  | None => mret m
  | Some a =>
    t ← load (T := gmap A B) a;
    out ← alloc (T := gmap A B) ∅;
    _ ← store out (foldr (λ e (o : gmap A B), <[e.1 := e.2]> o) ∅ (map_to_list t));
    mret (GoMap A B (Some out))
  end.

#[global] Instance map_copier : Copier (gomap A B) (gmap A B) := {| view := view_map; deepcopy := copy_map |}.

Lemma fold_entries (t : gmap A B) : foldr (λ e (o : gmap A B), <[e.1 := e.2]> o) ∅ (map_to_list t) = t.
Proof. exact (list_to_map_to_list t). Qed.

#[global] Instance map_laws : CopierLaws (gomap A B) (gmap A B) map_copier.
Proof.
  split; simpl; intros h; unfold view_map.
  - intros m v F. destruct (table A B m) as [a|]; [|intros [= <- <-]; set_solver].
    destruct (peek h a) as [t|] eqn:E; simpl; [|done]. intros [= <- <-]. apply singleton_subseteq_l. by eapply peek_dom.
  - intros h' m v F. destruct (table A B m) as [a|]; [|done]. destruct (peek h a) as [t|] eqn:E; simpl; [|done].
    intros [= <- <-] Ha. rewrite (peek_local h) by (apply Ha; set_solver). by rewrite E.
  - intros [[a|]] v F; simpl; [|intros [= <- <-]; exists (GoMap A B None), h, ∅; split_and!; [done|done|done|set_solver]].
    destruct (peek h a) as [t|] eqn:E; simpl; [|done]. intros [= <- <-]. pose proof (fresh_alloc h (inject t)) as Hs.
    pose proof (is_fresh (dom h)) as Hout. set (out := fresh (dom h)) in *.
    exists (GoMap A B (Some out)), (<[out := inject t]> (<[out := inject ∅]> h)), {[out]}. split; [|split; [|split; [|set_solver]]].
    + unfold copy_map. cbn [table]. rewrite (run_bind _ _ _ t h) by (by apply load_peek). rewrite (run_bind _ _ _ out (<[out := inject ∅]> h)) by done.
      unfold store. by rewrite fold_entries.
    + by rewrite insert_insert_eq.
    + cbn [table]. by rewrite peek_insert.
Qed.

End GoMap.

(** ** Structs

    The fields of a struct that refer to memory are copied one after the other,
    over those that [*out = *in] assigned. *)

Section Struct.
Context {M1 V1 M2 V2 : Type} {K1 : Copier M1 V1} {K2 : Copier M2 V2} {L1 : CopierLaws M1 V1 K1} {L2 : CopierLaws M2 V2 K2}.

#[global] Instance pair_copier : Copier (M1 * M2) (V1 * V2) := {|
  view h m := '(v1, F1) ← view h m.1; '(v2, F2) ← view h m.2; Some ((v1, v2), F1 ∪ F2);
  deepcopy m := x ← deepcopy m.1; y ← deepcopy m.2; mret (x, y)
|}.

Lemma view_pair_inv h (m : M1 * M2) v F : view h m = Some (v, F) →
  ∃ F1 F2, view h m.1 = Some (v.1, F1) ∧ view h m.2 = Some (v.2, F2) ∧ F = F1 ∪ F2.
Proof.
  simpl. destruct (view h m.1) as [[v1 F1]|]; simpl; [|done]. destruct (view h m.2) as [[v2 F2]|]; simpl; [|done].
  intros [= <- <-]. by exists F1, F2.
Qed.

#[global] Instance pair_laws : CopierLaws (M1 * M2) (V1 * V2) pair_copier.
Proof.
  split; intros h; [intros m v F|intros h' m v F|intros m v F]; intros (F1 & F2 & H1 & H2 & ->)%view_pair_inv.
  - apply union_subseteq. split; [exact (view_dom _ _ _ _ H1)|exact (view_dom _ _ _ _ H2)].
  - intros Ha. simpl. rewrite (view_local _ _ _ _ _ H1) by (intros; apply Ha; set_solver). simpl.
    rewrite (view_local _ _ _ _ _ H2) by (intros; apply Ha; set_solver). by destruct v.
  - destruct (deepcopy_fresh _ _ _ _ H1) as (x & h1 & G1 & E1 & S1 & W1 & D1).
    destruct (deepcopy_fresh _ _ _ _ (view_mono _ _ _ _ S1 H2)) as (y & h2 & G2 & E2 & S2 & W2 & D2).
    exists (x, y), h2, (G1 ∪ G2). split; [|split; [by etrans|split]].
    + simpl. by rewrite (run_bind _ _ _ x h1), (run_bind _ _ _ y h2).
    + simpl. rewrite (view_mono _ _ _ _ S2 W1). simpl. rewrite W2. by destruct v.
    + apply disjoint_union_l. split; [done|]. apply subseteq_dom in S1. set_solver.
Qed.

(** [get] are the fields that refer to memory and [val] the value of the struct. *)
Lemma struct_laws {M V} (K : Copier M V) (get : M → M1) (val : M → V1 → V) :
  (∀ h m, view h m = ('(v, F) ← view h (get m); Some (val m v, F))) →
  (∀ h m x h', deepcopy (get m) h = Some (x, h') → ∃ m', deepcopy m h = Some (m', h') ∧ get m' = x ∧ ∀ v, val m' v = val m v) →
  CopierLaws M V K.
Proof.
  intros Hv Hc.
  assert (∀ h m w F, view h m = Some (w, F) → ∃ v, view h (get m) = Some (v, F) ∧ w = val m v) as Hi.
  { intros h m w F. rewrite Hv. destruct (view h (get m)) as [[v G]|]; simpl; [|done]. intros [= <- <-]. by exists v. }
  split; intros h; [intros m v F|intros h' m v F|intros m v F]; intros (w & H & ->)%Hi.
  - exact (view_dom _ _ _ _ H).
  - intros Ha. rewrite Hv, (view_local _ _ _ _ _ H Ha). done.
  - destruct (deepcopy_fresh _ _ _ _ H) as (x & h1 & G & E & S & W & D).
    destruct (Hc h m x h1 E) as (m' & E' & Hg & Hp). exists m', h1, G. rewrite E', Hv, Hg, W. simpl. by rewrite Hp.
Qed.

End Struct.

(** ** What a deep copy promises

    [copy] of any readable value gives an equal value, leaves the original as it
    was, and shares no memory with it: whatever is then written to the memory of
    one of them, the other keeps its value. *)
Definition isolates {M V} {K : Copier M V} (copy : M → HM M) : Prop :=
  ∀ h p v F, view h p = Some (v, F) → ∃ q h' F', copy p h = Some (q, h') ∧
    view h' q = Some (v, F') ∧ view h' p = Some (v, F) ∧ F ## F' ∧
    (∀ h2, (∀ a, a ∉ F → h2 !! a = h' !! a) → view h2 q = Some (v, F')) ∧
    (∀ h2, (∀ a, a ∉ F' → h2 !! a = h' !! a) → view h2 p = Some (v, F)).

Lemma deepcopy_isolates {M V} {K : Copier M V} {KL : CopierLaws M V K} : isolates deepcopy.
Proof.
  intros h p v F Hv. destruct (deepcopy_fresh h p v F Hv) as (q & h' & F' & E & Hs & Hq & Hf).
  pose proof (view_dom _ _ _ _ Hv) as Hd. pose proof (view_mono _ _ _ _ Hs Hv) as Hp.
  exists q, h', F'. split_and!; try done; [set_solver| |];
    intros h2 Ha; (eapply view_local; [done|]); intros a Hin; apply Ha; set_solver.
Qed.

End Heap.

Arguments HM : clear implicits.
Arguments Cell : clear implicits.
Arguments Ptr {T}.
Arguments Slice {T}.
Arguments GoMap {K V}.
Arguments target {T}.
