(* ===== verification/DeepCopy.v ===== *)
(** * The generated deep-copy functions

    src/api/v1alpha1/zz_generated.deepcopy.go on the memory of Heap.v.  A struct in
    memory is a record in which pointer, slice and map fields are addresses; its
    value is the record of ApiTypes.v that the other files use.

    The metadata, quantities, conditions and times of apimachinery come with deep
    copies of their own, which are parameters: [MMeta], [MListMeta], [MQuantity],
    [MCondition] and [MTime] are their representations in memory, [L] the cells
    they allocate, and the [CopierLaws] what their documentation promises. *)

From S2P Require Import Prelude ApiTypes Heap.

Record TypeMeta := { tm_Kind : string; tm_APIVersion : string }.

Section Copies.
Variables (L MMeta MListMeta MQuantity MCondition MTime : Type).

(** ** The structs in memory *)

Record MDeviceSpec := {
  mds_NodeName : string; mds_PCIAddress : string; mds_SerialNumber : string; mds_Model : string;
  mds_TotalCapacity : MQuantity; mds_NUMANode : Z
}.

Record MDeviceStatus := {
  mdt_State : NVMeDeviceState; mdt_ClaimRef : ptr NVMeDeviceClaimReference; mdt_FreeCapacity : MQuantity;
  mdt_ActiveBackend : string; mdt_Conditions : slice MCondition
}.

Record MClaimStatus := {
  mct_Active : bool; mct_MatchedDevice : string; mct_NodeName : string; mct_Conditions : slice MCondition
}.

Record MPartitionSpec := {
  mps_Size : MQuantity; mps_NodeName : string; mps_ParentDeviceSerialNumber : string;
  mps_ClaimRef : ptr NVMeDeviceClaimReference; mps_AccessMode : string; mps_Filesystem : string;
  mps_RequestFingerprint : string; mps_TargetBackend : string; mps_VolumeManager : string;
  mps_TargetOptions : gomap string string
}.

Record MPartitionStatus := {
  mpt_PlacementFingerprint : string; mpt_State : NVMePartitionState; mpt_ExternalID : string; mpt_VolumeID : string;
  mpt_BackendVolumeID : string; mpt_AllocatedCapacity : MQuantity; mpt_SPDKBaseBdev : string; mpt_SPDKLvstoreName : string;
  mpt_SPDKLvstoreUUID : string; mpt_SPDKLvolName : string; mpt_SPDKLvolUUID : string; mpt_NQN : string;
  mpt_PortalIP : string; mpt_PortalPort : Z; mpt_Conditions : slice MCondition
}.

Record MAttachmentStatus := { mat_ObservedAttachmentID : string; mat_Conditions : slice MCondition }.

Record MNodeStatus := {
  mnt_LastHeartbeatTime : MTime; mnt_TotalCapacity : MQuantity; mnt_FreeCapacity : MQuantity;
  mnt_ActiveExports : Z; mnt_Conditions : slice MCondition
}.

(** An object, and a list of objects. *)
Record MObject (Sp St : Type) := mkMObject { m_Type : TypeMeta; m_Meta : MMeta; m_Spec : Sp; m_Status : St }.
Record MList (O : Type) := mkMList { l_Type : TypeMeta; l_Meta : MListMeta; l_Items : slice O }.

Definition MDevice : Type := MObject MDeviceSpec MDeviceStatus.
Definition MClaim : Type := MObject NVMeDeviceClaimSpec MClaimStatus.
Definition MPartition : Type := MObject MPartitionSpec MPartitionStatus.
Definition MAttachment : Type := MObject NVMeVolumeAttachmentSpec MAttachmentStatus.
Definition MNode : Type := MObject RDMAStorageNodeSpec MNodeStatus.

(** ** The cells of the heap *)
Inductive cell :=
  | CLibrary (c : L)
  | CConditions (l : list MCondition)
  | COptions (m : gmap string string)
  | CClaimRef (r : NVMeDeviceClaimReference)
  | CVolumeRef (r : NVMeVolumeReference)
  | CDeviceSpec (s : MDeviceSpec) | CDeviceStatus (s : MDeviceStatus) | CDevice (o : MDevice) | CDevices (l : list MDevice) | CDeviceList (l : MList MDevice)
  | CClaimSpec (s : NVMeDeviceClaimSpec) | CClaimStatus (s : MClaimStatus) | CClaim (o : MClaim) | CClaims (l : list MClaim) | CClaimList (l : MList MClaim)
  | CPartitionSpec (s : MPartitionSpec) | CPartitionStatus (s : MPartitionStatus) | CPartition (o : MPartition) | CPartitions (l : list MPartition)
  | CPartitionList (l : MList MPartition)
  | CAttachmentSpec (s : NVMeVolumeAttachmentSpec) | CAttachmentStatus (s : MAttachmentStatus) | CAttachment (o : MAttachment)
  | CAttachments (l : list MAttachment) | CAttachmentList (l : MList MAttachment)
  | CNodeSpec (s : RDMAStorageNodeSpec) | CNodeStatus (s : MNodeStatus) | CNode (o : MNode) | CNodes (l : list MNode) | CNodeList (l : MList MNode).

#[global] Instance conditions_cell : Cell cell (list MCondition) := {| inject := CConditions; project c := match c with CConditions x => Some x | _ => None end; project_inject _ := eq_refl |}.
#[global] Instance options_cell : Cell cell (gmap string string) := {| inject := COptions; project c := match c with COptions x => Some x | _ => None end; project_inject _ := eq_refl |}.
#[global] Instance claim_ref_cell : Cell cell (NVMeDeviceClaimReference) := {| inject := CClaimRef; project c := match c with CClaimRef x => Some x | _ => None end; project_inject _ := eq_refl |}.
#[global] Instance volume_ref_cell : Cell cell (NVMeVolumeReference) := {| inject := CVolumeRef; project c := match c with CVolumeRef x => Some x | _ => None end; project_inject _ := eq_refl |}.
#[global] Instance device_spec_cell : Cell cell (MDeviceSpec) := {| inject := CDeviceSpec; project c := match c with CDeviceSpec x => Some x | _ => None end; project_inject _ := eq_refl |}.
#[global] Instance device_status_cell : Cell cell (MDeviceStatus) := {| inject := CDeviceStatus; project c := match c with CDeviceStatus x => Some x | _ => None end; project_inject _ := eq_refl |}.
#[global] Instance device_cell : Cell cell (MDevice) := {| inject := CDevice; project c := match c with CDevice x => Some x | _ => None end; project_inject _ := eq_refl |}.
#[global] Instance devices_cell : Cell cell (list MDevice) := {| inject := CDevices; project c := match c with CDevices x => Some x | _ => None end; project_inject _ := eq_refl |}.
#[global] Instance device_list_cell : Cell cell (MList MDevice) := {| inject := CDeviceList; project c := match c with CDeviceList x => Some x | _ => None end; project_inject _ := eq_refl |}.
#[global] Instance claim_spec_cell : Cell cell (NVMeDeviceClaimSpec) := {| inject := CClaimSpec; project c := match c with CClaimSpec x => Some x | _ => None end; project_inject _ := eq_refl |}.
#[global] Instance claim_status_cell : Cell cell (MClaimStatus) := {| inject := CClaimStatus; project c := match c with CClaimStatus x => Some x | _ => None end; project_inject _ := eq_refl |}.
#[global] Instance claim_cell : Cell cell (MClaim) := {| inject := CClaim; project c := match c with CClaim x => Some x | _ => None end; project_inject _ := eq_refl |}.
#[global] Instance claims_cell : Cell cell (list MClaim) := {| inject := CClaims; project c := match c with CClaims x => Some x | _ => None end; project_inject _ := eq_refl |}.
#[global] Instance claim_list_cell : Cell cell (MList MClaim) := {| inject := CClaimList; project c := match c with CClaimList x => Some x | _ => None end; project_inject _ := eq_refl |}.
#[global] Instance partition_spec_cell : Cell cell (MPartitionSpec) := {| inject := CPartitionSpec; project c := match c with CPartitionSpec x => Some x | _ => None end; project_inject _ := eq_refl |}.
#[global] Instance partition_status_cell : Cell cell (MPartitionStatus) := {| inject := CPartitionStatus; project c := match c with CPartitionStatus x => Some x | _ => None end; project_inject _ := eq_refl |}.
#[global] Instance partition_cell : Cell cell (MPartition) := {| inject := CPartition; project c := match c with CPartition x => Some x | _ => None end; project_inject _ := eq_refl |}.
#[global] Instance partitions_cell : Cell cell (list MPartition) := {| inject := CPartitions; project c := match c with CPartitions x => Some x | _ => None end; project_inject _ := eq_refl |}.
#[global] Instance partition_list_cell : Cell cell (MList MPartition) := {| inject := CPartitionList; project c := match c with CPartitionList x => Some x | _ => None end; project_inject _ := eq_refl |}.
#[global] Instance attachment_spec_cell : Cell cell (NVMeVolumeAttachmentSpec) := {| inject := CAttachmentSpec; project c := match c with CAttachmentSpec x => Some x | _ => None end; project_inject _ := eq_refl |}.
#[global] Instance attachment_status_cell : Cell cell (MAttachmentStatus) := {| inject := CAttachmentStatus; project c := match c with CAttachmentStatus x => Some x | _ => None end; project_inject _ := eq_refl |}.
#[global] Instance attachment_cell : Cell cell (MAttachment) := {| inject := CAttachment; project c := match c with CAttachment x => Some x | _ => None end; project_inject _ := eq_refl |}.
#[global] Instance attachments_cell : Cell cell (list MAttachment) := {| inject := CAttachments; project c := match c with CAttachments x => Some x | _ => None end; project_inject _ := eq_refl |}.
#[global] Instance attachment_list_cell : Cell cell (MList MAttachment) := {| inject := CAttachmentList; project c := match c with CAttachmentList x => Some x | _ => None end; project_inject _ := eq_refl |}.
#[global] Instance node_spec_cell : Cell cell (RDMAStorageNodeSpec) := {| inject := CNodeSpec; project c := match c with CNodeSpec x => Some x | _ => None end; project_inject _ := eq_refl |}.
#[global] Instance node_status_cell : Cell cell (MNodeStatus) := {| inject := CNodeStatus; project c := match c with CNodeStatus x => Some x | _ => None end; project_inject _ := eq_refl |}.
#[global] Instance node_cell : Cell cell (MNode) := {| inject := CNode; project c := match c with CNode x => Some x | _ => None end; project_inject _ := eq_refl |}.
#[global] Instance nodes_cell : Cell cell (list MNode) := {| inject := CNodes; project c := match c with CNodes x => Some x | _ => None end; project_inject _ := eq_refl |}.
#[global] Instance node_list_cell : Cell cell (MList MNode) := {| inject := CNodeList; project c := match c with CNodeList x => Some x | _ => None end; project_inject _ := eq_refl |}.

(** ** The deep copies of apimachinery *)
Context {VListMeta : Type}.
Context {KMeta : Copier (C := cell) MMeta ObjectMeta} {KListMeta : Copier (C := cell) MListMeta VListMeta} {KQuantity : Copier (C := cell) MQuantity Quantity}
  {KCondition : Copier (C := cell) MCondition Condition} {KTime : Copier (C := cell) MTime Time}.
Context {LMeta : CopierLaws MMeta ObjectMeta KMeta} {LListMeta : CopierLaws MListMeta VListMeta KListMeta} {LQuantity : CopierLaws MQuantity Quantity KQuantity}
  {LCondition : CopierLaws MCondition Condition KCondition} {LTime : CopierLaws MTime Time KTime}.

#[local] Abbreviation hm := (HM cell).

(** ** DeepCopyInto

    [in.DeepCopyInto(out)] as the struct it leaves in [*out]. *)

Definition NVMeDeviceClaimReference_DeepCopyInto (i : NVMeDeviceClaimReference) : hm NVMeDeviceClaimReference := mret i.
Definition NVMeVolumeReference_DeepCopyInto (i : NVMeVolumeReference) : hm NVMeVolumeReference := mret i.
Definition NVMeDeviceClaimSpec_DeepCopyInto (i : NVMeDeviceClaimSpec) : hm NVMeDeviceClaimSpec := mret i.
Definition RDMAStorageNodeSpec_DeepCopyInto (i : RDMAStorageNodeSpec) : hm RDMAStorageNodeSpec := mret i.

Definition NVMeVolumeAttachmentSpec_DeepCopyInto (i : NVMeVolumeAttachmentSpec) : hm NVMeVolumeAttachmentSpec :=
  mret {| as_VolumeRef := as_VolumeRef i; as_NodeID := as_NodeID i; as_HostNQN := as_HostNQN i; as_AttachmentID := as_AttachmentID i |}.

#[global] Instance claim_ref_copier : Copier NVMeDeviceClaimReference NVMeDeviceClaimReference :=
  {| view _ m := Some (m, ∅); deepcopy := NVMeDeviceClaimReference_DeepCopyInto |}.
#[global] Instance volume_ref_copier : Copier NVMeVolumeReference NVMeVolumeReference :=
  {| view _ m := Some (m, ∅); deepcopy := NVMeVolumeReference_DeepCopyInto |}.
#[global] Instance claim_spec_copier : Copier NVMeDeviceClaimSpec NVMeDeviceClaimSpec :=
  {| view _ m := Some (m, ∅); deepcopy := NVMeDeviceClaimSpec_DeepCopyInto |}.
#[global] Instance node_spec_copier : Copier RDMAStorageNodeSpec RDMAStorageNodeSpec :=
  {| view _ m := Some (m, ∅); deepcopy := RDMAStorageNodeSpec_DeepCopyInto |}.
#[global] Instance attachment_spec_copier : Copier NVMeVolumeAttachmentSpec NVMeVolumeAttachmentSpec :=
  {| view _ m := Some (m, ∅); deepcopy := NVMeVolumeAttachmentSpec_DeepCopyInto |}.

Definition NVMeDeviceSpec_DeepCopyInto (i : MDeviceSpec) : hm MDeviceSpec :=
  total ← deepcopy (mds_TotalCapacity i);
  mret {| mds_NodeName := mds_NodeName i; mds_PCIAddress := mds_PCIAddress i; mds_SerialNumber := mds_SerialNumber i; mds_Model := mds_Model i;
          mds_TotalCapacity := total; mds_NUMANode := mds_NUMANode i |}.

Definition NVMeDeviceStatus_DeepCopyInto (i : MDeviceStatus) : hm MDeviceStatus :=
  ref ← copy_ptr NVMeDeviceClaimReference_DeepCopyInto (mdt_ClaimRef i);
  free ← deepcopy (mdt_FreeCapacity i);
  conditions ← copy_slice deepcopy (mdt_Conditions i);
  mret {| mdt_State := mdt_State i; mdt_ClaimRef := ref; mdt_FreeCapacity := free; mdt_ActiveBackend := mdt_ActiveBackend i; mdt_Conditions := conditions |}.

Definition NVMeDeviceClaimStatus_DeepCopyInto (i : MClaimStatus) : hm MClaimStatus :=
  conditions ← copy_slice deepcopy (mct_Conditions i);
  mret {| mct_Active := mct_Active i; mct_MatchedDevice := mct_MatchedDevice i; mct_NodeName := mct_NodeName i; mct_Conditions := conditions |}.

Definition NVMePartitionSpec_DeepCopyInto (i : MPartitionSpec) : hm MPartitionSpec :=
  size ← deepcopy (mps_Size i);
  ref ← copy_ptr NVMeDeviceClaimReference_DeepCopyInto (mps_ClaimRef i);
  options ← copy_map (mps_TargetOptions i);
  mret {| mps_Size := size; mps_NodeName := mps_NodeName i; mps_ParentDeviceSerialNumber := mps_ParentDeviceSerialNumber i; mps_ClaimRef := ref;
          mps_AccessMode := mps_AccessMode i; mps_Filesystem := mps_Filesystem i; mps_RequestFingerprint := mps_RequestFingerprint i;
          mps_TargetBackend := mps_TargetBackend i; mps_VolumeManager := mps_VolumeManager i; mps_TargetOptions := options |}.

Definition NVMePartitionStatus_DeepCopyInto (i : MPartitionStatus) : hm MPartitionStatus :=
  allocated ← deepcopy (mpt_AllocatedCapacity i);
  conditions ← copy_slice deepcopy (mpt_Conditions i);
  mret {| mpt_PlacementFingerprint := mpt_PlacementFingerprint i; mpt_State := mpt_State i; mpt_ExternalID := mpt_ExternalID i;
          mpt_VolumeID := mpt_VolumeID i; mpt_BackendVolumeID := mpt_BackendVolumeID i; mpt_AllocatedCapacity := allocated;
          mpt_SPDKBaseBdev := mpt_SPDKBaseBdev i; mpt_SPDKLvstoreName := mpt_SPDKLvstoreName i; mpt_SPDKLvstoreUUID := mpt_SPDKLvstoreUUID i;
          mpt_SPDKLvolName := mpt_SPDKLvolName i; mpt_SPDKLvolUUID := mpt_SPDKLvolUUID i; mpt_NQN := mpt_NQN i; mpt_PortalIP := mpt_PortalIP i;
          mpt_PortalPort := mpt_PortalPort i; mpt_Conditions := conditions |}.

Definition NVMeVolumeAttachmentStatus_DeepCopyInto (i : MAttachmentStatus) : hm MAttachmentStatus :=
  conditions ← copy_slice deepcopy (mat_Conditions i);
  mret {| mat_ObservedAttachmentID := mat_ObservedAttachmentID i; mat_Conditions := conditions |}.

Definition RDMAStorageNodeStatus_DeepCopyInto (i : MNodeStatus) : hm MNodeStatus :=
  heartbeat ← deepcopy (mnt_LastHeartbeatTime i);
  total ← deepcopy (mnt_TotalCapacity i);
  free ← deepcopy (mnt_FreeCapacity i);
  conditions ← copy_slice deepcopy (mnt_Conditions i);
  mret {| mnt_LastHeartbeatTime := heartbeat; mnt_TotalCapacity := total; mnt_FreeCapacity := free; mnt_ActiveExports := mnt_ActiveExports i;
          mnt_Conditions := conditions |}.

(** Objects and lists of them. *)

Definition NVMeDevice_DeepCopyInto (i : MDevice) : hm MDevice :=
  meta ← deepcopy (m_Meta _ _ i);
  spec ← NVMeDeviceSpec_DeepCopyInto (m_Spec _ _ i);
  status ← NVMeDeviceStatus_DeepCopyInto (m_Status _ _ i);
  mret (mkMObject _ _ (m_Type _ _ i) meta spec status).

Definition NVMeDeviceClaim_DeepCopyInto (i : MClaim) : hm MClaim :=
  meta ← deepcopy (m_Meta _ _ i);
  status ← NVMeDeviceClaimStatus_DeepCopyInto (m_Status _ _ i);
  mret (mkMObject _ _ (m_Type _ _ i) meta (m_Spec _ _ i) status).

Definition NVMePartition_DeepCopyInto (i : MPartition) : hm MPartition :=
  meta ← deepcopy (m_Meta _ _ i);
  spec ← NVMePartitionSpec_DeepCopyInto (m_Spec _ _ i);
  status ← NVMePartitionStatus_DeepCopyInto (m_Status _ _ i);
  mret (mkMObject _ _ (m_Type _ _ i) meta spec status).

Definition NVMeVolumeAttachment_DeepCopyInto (i : MAttachment) : hm MAttachment :=
  meta ← deepcopy (m_Meta _ _ i);
  status ← NVMeVolumeAttachmentStatus_DeepCopyInto (m_Status _ _ i);
  mret (mkMObject _ _ (m_Type _ _ i) meta (m_Spec _ _ i) status).

Definition RDMAStorageNode_DeepCopyInto (i : MNode) : hm MNode :=
  meta ← deepcopy (m_Meta _ _ i);
  status ← RDMAStorageNodeStatus_DeepCopyInto (m_Status _ _ i);
  mret (mkMObject _ _ (m_Type _ _ i) meta (m_Spec _ _ i) status).

Definition NVMeDeviceList_DeepCopyInto (i : MList MDevice) : hm (MList MDevice) :=
  meta ← deepcopy (l_Meta _ i);
  items ← copy_slice NVMeDevice_DeepCopyInto (l_Items _ i);
  mret (mkMList _ (l_Type _ i) meta items).

Definition NVMeDeviceClaimList_DeepCopyInto (i : MList MClaim) : hm (MList MClaim) :=
  meta ← deepcopy (l_Meta _ i);
  items ← copy_slice NVMeDeviceClaim_DeepCopyInto (l_Items _ i);
  mret (mkMList _ (l_Type _ i) meta items).

Definition NVMePartitionList_DeepCopyInto (i : MList MPartition) : hm (MList MPartition) :=
  meta ← deepcopy (l_Meta _ i);
  items ← copy_slice NVMePartition_DeepCopyInto (l_Items _ i);
  mret (mkMList _ (l_Type _ i) meta items).

Definition NVMeVolumeAttachmentList_DeepCopyInto (i : MList MAttachment) : hm (MList MAttachment) :=
  meta ← deepcopy (l_Meta _ i);
  items ← copy_slice NVMeVolumeAttachment_DeepCopyInto (l_Items _ i);
  mret (mkMList _ (l_Type _ i) meta items).

Definition RDMAStorageNodeList_DeepCopyInto (i : MList MNode) : hm (MList MNode) :=
  meta ← deepcopy (l_Meta _ i);
  items ← copy_slice RDMAStorageNode_DeepCopyInto (l_Items _ i);
  mret (mkMList _ (l_Type _ i) meta items).

(** ** The values

    What a struct in memory stands for. *)

#[global] Instance device_spec_copier : Copier MDeviceSpec NVMeDeviceSpec := {|
  view h m := '(total, F) ← view h (mds_TotalCapacity m);
    Some ({| ds_NodeName := mds_NodeName m; ds_PCIAddress := mds_PCIAddress m; ds_SerialNumber := mds_SerialNumber m; ds_Model := mds_Model m;
             ds_TotalCapacity := total; ds_NUMANode := mds_NUMANode m |}, F);
  deepcopy := NVMeDeviceSpec_DeepCopyInto
|}.

#[global] Instance device_status_copier : Copier MDeviceStatus NVMeDeviceStatus := {|
  view h m := '(v, F) ← view h (mdt_ClaimRef m, mdt_FreeCapacity m, mdt_Conditions m);
    Some ({| dt_State := mdt_State m; dt_ClaimRef := v.1.1; dt_FreeCapacity := v.1.2; dt_ActiveBackend := mdt_ActiveBackend m; dt_Conditions := v.2 |}, F);
  deepcopy := NVMeDeviceStatus_DeepCopyInto
|}.

#[global] Instance claim_status_copier : Copier MClaimStatus NVMeDeviceClaimStatus := {|
  view h m := '(conditions, F) ← view h (mct_Conditions m);
    Some ({| ct_Active := mct_Active m; ct_MatchedDevice := mct_MatchedDevice m; ct_NodeName := mct_NodeName m; ct_Conditions := conditions |}, F);
  deepcopy := NVMeDeviceClaimStatus_DeepCopyInto
|}.

#[global] Instance partition_spec_copier : Copier MPartitionSpec NVMePartitionSpec := {|
  view h m := '(v, F) ← view h (mps_Size m, mps_ClaimRef m, mps_TargetOptions m);
    Some ({| ps_Size := v.1.1; ps_NodeName := mps_NodeName m; ps_ParentDeviceSerialNumber := mps_ParentDeviceSerialNumber m; ps_ClaimRef := v.1.2;
             ps_AccessMode := mps_AccessMode m; ps_Filesystem := mps_Filesystem m; ps_RequestFingerprint := mps_RequestFingerprint m;
             ps_TargetBackend := mps_TargetBackend m; ps_VolumeManager := mps_VolumeManager m; ps_TargetOptions := v.2 |}, F);
  deepcopy := NVMePartitionSpec_DeepCopyInto
|}.

#[global] Instance partition_status_copier : Copier MPartitionStatus NVMePartitionStatus := {|
  view h m := '(v, F) ← view h (mpt_AllocatedCapacity m, mpt_Conditions m);
    Some ({| pt_PlacementFingerprint := mpt_PlacementFingerprint m; pt_State := mpt_State m; pt_ExternalID := mpt_ExternalID m;
             pt_VolumeID := mpt_VolumeID m; pt_BackendVolumeID := mpt_BackendVolumeID m; pt_AllocatedCapacity := v.1;
             pt_SPDKBaseBdev := mpt_SPDKBaseBdev m; pt_SPDKLvstoreName := mpt_SPDKLvstoreName m; pt_SPDKLvstoreUUID := mpt_SPDKLvstoreUUID m;
             pt_SPDKLvolName := mpt_SPDKLvolName m; pt_SPDKLvolUUID := mpt_SPDKLvolUUID m; pt_NQN := mpt_NQN m; pt_PortalIP := mpt_PortalIP m;
             pt_PortalPort := mpt_PortalPort m; pt_Conditions := v.2 |}, F);
  deepcopy := NVMePartitionStatus_DeepCopyInto
|}.

#[global] Instance attachment_status_copier : Copier MAttachmentStatus NVMeVolumeAttachmentStatus := {|
  view h m := '(conditions, F) ← view h (mat_Conditions m);
    Some ({| at_ObservedAttachmentID := mat_ObservedAttachmentID m; at_Conditions := conditions |}, F);
  deepcopy := NVMeVolumeAttachmentStatus_DeepCopyInto
|}.

#[global] Instance node_status_copier : Copier MNodeStatus RDMAStorageNodeStatus := {|
  view h m := '(v, F) ← view h (mnt_LastHeartbeatTime m, mnt_TotalCapacity m, mnt_FreeCapacity m, mnt_Conditions m);
    Some ({| nt_LastHeartbeatTime := v.1.1.1; nt_TotalCapacity := v.1.1.2; nt_FreeCapacity := v.1.2; nt_ActiveExports := mnt_ActiveExports m;
             nt_Conditions := v.2 |}, F);
  deepcopy := RDMAStorageNodeStatus_DeepCopyInto
|}.

(** An object has the value of its parts, and a list that of its items. *)
Definition view_object {Sp SpV St StV} `{Copier cell Sp SpV, Copier cell St StV} h (m : MObject Sp St) : option ((TypeMeta * KObject SpV StV) * gset addr) :=
  '(v, F) ← view h (m_Meta _ _ m, m_Spec _ _ m, m_Status _ _ m); Some ((m_Type _ _ m, mkObject v.1.1 v.1.2 v.2), F).

Definition view_list {O V} `{Cell cell (list O), Copier cell O V} h (m : MList O) : option ((TypeMeta * VListMeta * list V) * gset addr) :=
  '(v, F) ← view h (l_Meta _ m, l_Items _ m); Some ((l_Type _ m, v.1, v.2), F).

#[global] Instance device_copier : Copier MDevice (TypeMeta * NVMeDevice) := {| view := view_object; deepcopy := NVMeDevice_DeepCopyInto |}.
#[global] Instance claim_copier : Copier MClaim (TypeMeta * NVMeDeviceClaim) := {| view := view_object; deepcopy := NVMeDeviceClaim_DeepCopyInto |}.
#[global] Instance partition_copier : Copier MPartition (TypeMeta * NVMePartition) := {| view := view_object; deepcopy := NVMePartition_DeepCopyInto |}.
#[global] Instance attachment_copier : Copier MAttachment (TypeMeta * NVMeVolumeAttachment) :=
  {| view := view_object; deepcopy := NVMeVolumeAttachment_DeepCopyInto |}.
#[global] Instance node_copier : Copier MNode (TypeMeta * RDMAStorageNode) := {| view := view_object; deepcopy := RDMAStorageNode_DeepCopyInto |}.

#[global] Instance device_list_copier : Copier (MList MDevice) (TypeMeta * VListMeta * list (TypeMeta * NVMeDevice)) :=
  {| view := view_list; deepcopy := NVMeDeviceList_DeepCopyInto |}.
#[global] Instance claim_list_copier : Copier (MList MClaim) (TypeMeta * VListMeta * list (TypeMeta * NVMeDeviceClaim)) :=
  {| view := view_list; deepcopy := NVMeDeviceClaimList_DeepCopyInto |}.
#[global] Instance partition_list_copier : Copier (MList MPartition) (TypeMeta * VListMeta * list (TypeMeta * NVMePartition)) :=
  {| view := view_list; deepcopy := NVMePartitionList_DeepCopyInto |}.
#[global] Instance attachment_list_copier : Copier (MList MAttachment) (TypeMeta * VListMeta * list (TypeMeta * NVMeVolumeAttachment)) :=
  {| view := view_list; deepcopy := NVMeVolumeAttachmentList_DeepCopyInto |}.
#[global] Instance node_list_copier : Copier (MList MNode) (TypeMeta * VListMeta * list (TypeMeta * RDMAStorageNode)) :=
  {| view := view_list; deepcopy := RDMAStorageNodeList_DeepCopyInto |}.

(** ** The laws *)

#[global] Instance claim_ref_laws : CopierLaws _ _ claim_ref_copier.
Proof. exact plain_laws. Qed.
#[global] Instance volume_ref_laws : CopierLaws _ _ volume_ref_copier.
Proof. exact plain_laws. Qed.
#[global] Instance claim_spec_laws : CopierLaws _ _ claim_spec_copier.
Proof. exact plain_laws. Qed.
#[global] Instance node_spec_laws : CopierLaws _ _ node_spec_copier.
Proof. exact plain_laws. Qed.

#[global] Instance attachment_spec_laws : CopierLaws _ _ attachment_spec_copier.
Proof.
  destruct (plain_laws (C := cell) (T := NVMeVolumeAttachmentSpec)) as [Hd Hl Hf]. split; [exact Hd|exact Hl|].
  intros h [] v F H. exact (Hf h _ v F H).
Qed.

(** [struct get val] proves the laws of a struct from those of its fields. *)
Create HintDb copying.
#[local] Hint Unfold NVMeDeviceSpec_DeepCopyInto NVMeDeviceStatus_DeepCopyInto NVMeDeviceClaimStatus_DeepCopyInto NVMePartitionSpec_DeepCopyInto
  NVMePartitionStatus_DeepCopyInto NVMeVolumeAttachmentStatus_DeepCopyInto RDMAStorageNodeStatus_DeepCopyInto mret HM_ret mbind HM_bind : copying.
Ltac struct get val :=
  apply (struct_laws _ get val); [done|]; intros h m x h' E; cbn in E; cbn -[mbind mret]; repeat autounfold with copying in E; repeat autounfold with copying;
  repeat (case_match; simplify_eq); eexists; split; [rewrite ?E; reflexivity|done].

#[global] Instance device_spec_laws : CopierLaws _ _ device_spec_copier.
Proof.
  struct (λ m, mds_TotalCapacity m) (λ (m : MDeviceSpec) v, {| ds_NodeName := mds_NodeName m; ds_PCIAddress := mds_PCIAddress m; ds_SerialNumber := mds_SerialNumber m;
    ds_Model := mds_Model m; ds_TotalCapacity := v; ds_NUMANode := mds_NUMANode m |}).
Qed.

#[global] Instance device_status_laws : CopierLaws _ _ device_status_copier.
Proof.
  struct (λ m, (mdt_ClaimRef m, mdt_FreeCapacity m, mdt_Conditions m)) (λ (m : MDeviceStatus) v,
    {| dt_State := mdt_State m; dt_ClaimRef := v.1.1; dt_FreeCapacity := v.1.2; dt_ActiveBackend := mdt_ActiveBackend m; dt_Conditions := v.2 |}).
Qed.

#[global] Instance claim_status_laws : CopierLaws _ _ claim_status_copier.
Proof.
  struct (λ m, mct_Conditions m) (λ (m : MClaimStatus) v,
    {| ct_Active := mct_Active m; ct_MatchedDevice := mct_MatchedDevice m; ct_NodeName := mct_NodeName m; ct_Conditions := v |}).
Qed.

#[global] Instance partition_spec_laws : CopierLaws _ _ partition_spec_copier.
Proof.
  struct (λ m, (mps_Size m, mps_ClaimRef m, mps_TargetOptions m)) (λ (m : MPartitionSpec) v,
    {| ps_Size := v.1.1; ps_NodeName := mps_NodeName m; ps_ParentDeviceSerialNumber := mps_ParentDeviceSerialNumber m; ps_ClaimRef := v.1.2;
       ps_AccessMode := mps_AccessMode m; ps_Filesystem := mps_Filesystem m; ps_RequestFingerprint := mps_RequestFingerprint m;
       ps_TargetBackend := mps_TargetBackend m; ps_VolumeManager := mps_VolumeManager m; ps_TargetOptions := v.2 |}).
Qed.

#[global] Instance partition_status_laws : CopierLaws _ _ partition_status_copier.
Proof.
  struct (λ m, (mpt_AllocatedCapacity m, mpt_Conditions m)) (λ (m : MPartitionStatus) v,
    {| pt_PlacementFingerprint := mpt_PlacementFingerprint m; pt_State := mpt_State m; pt_ExternalID := mpt_ExternalID m;
       pt_VolumeID := mpt_VolumeID m; pt_BackendVolumeID := mpt_BackendVolumeID m; pt_AllocatedCapacity := v.1;
       pt_SPDKBaseBdev := mpt_SPDKBaseBdev m; pt_SPDKLvstoreName := mpt_SPDKLvstoreName m; pt_SPDKLvstoreUUID := mpt_SPDKLvstoreUUID m;
       pt_SPDKLvolName := mpt_SPDKLvolName m; pt_SPDKLvolUUID := mpt_SPDKLvolUUID m; pt_NQN := mpt_NQN m; pt_PortalIP := mpt_PortalIP m;
       pt_PortalPort := mpt_PortalPort m; pt_Conditions := v.2 |}).
Qed.

#[global] Instance attachment_status_laws : CopierLaws _ _ attachment_status_copier.
Proof.
  struct (λ m, mat_Conditions m) (λ (m : MAttachmentStatus) v, {| at_ObservedAttachmentID := mat_ObservedAttachmentID m; at_Conditions := v |}).
Qed.

#[global] Instance node_status_laws : CopierLaws _ _ node_status_copier.
Proof.
  struct (λ m, (mnt_LastHeartbeatTime m, mnt_TotalCapacity m, mnt_FreeCapacity m, mnt_Conditions m)) (λ (m : MNodeStatus) v,
    {| nt_LastHeartbeatTime := v.1.1.1; nt_TotalCapacity := v.1.1.2; nt_FreeCapacity := v.1.2; nt_ActiveExports := mnt_ActiveExports m; nt_Conditions := v.2 |}).
Qed.

(** Objects and lists all have the same shape. *)
Section Shape.
Context {Sp SpV St StV : Type} {KSp : Copier (C := cell) Sp SpV} {KSt : Copier (C := cell) St StV} {LSp : CopierLaws Sp SpV KSp} {LSt : CopierLaws St StV KSt}.

Lemma object_laws : CopierLaws (MObject Sp St) (TypeMeta * KObject SpV StV) {|
  view := view_object;
  deepcopy i := meta ← deepcopy (m_Meta _ _ i); spec ← deepcopy (m_Spec _ _ i); status ← deepcopy (m_Status _ _ i);
    mret (mkMObject _ _ (m_Type _ _ i) meta spec status)
|}.
Proof.
  struct (λ m : MObject Sp St, (m_Meta _ _ m, m_Spec _ _ m, m_Status _ _ m)) (λ (m : MObject Sp St) v, (m_Type _ _ m, mkObject (Sp := SpV) (St := StV) v.1.1 v.1.2 v.2)).
Qed.

Context {O V : Type} {KO : Copier (C := cell) O V} {LO : CopierLaws O V KO} {CO : Cell cell (list O)}.

Lemma list_laws : CopierLaws (MList O) (TypeMeta * VListMeta * list V) {|
  view := view_list;
  deepcopy i := meta ← deepcopy (l_Meta _ i); items ← copy_slice deepcopy (l_Items _ i); mret (mkMList _ (l_Type _ i) meta items)
|}.
Proof.
  struct (λ m : MList O, (l_Meta _ m, l_Items _ m)) (λ (m : MList O) (v : VListMeta * list V), (l_Type _ m, v.1, v.2)).
Qed.

End Shape.

#[global] Instance device_laws : CopierLaws _ _ device_copier.
Proof. exact object_laws. Qed.
#[global] Instance claim_laws : CopierLaws _ _ claim_copier.
Proof. exact object_laws. Qed.
#[global] Instance partition_laws : CopierLaws _ _ partition_copier.
Proof. exact object_laws. Qed.
#[global] Instance attachment_laws : CopierLaws _ _ attachment_copier.
Proof. exact (object_laws (KSp := plain) (LSp := plain_laws)). Qed.
#[global] Instance node_laws : CopierLaws _ _ node_copier.
Proof. exact object_laws. Qed.
#[global] Instance device_list_laws : CopierLaws _ _ device_list_copier.
Proof. exact list_laws. Qed.
#[global] Instance claim_list_laws : CopierLaws _ _ claim_list_copier.
Proof. exact list_laws. Qed.
#[global] Instance partition_list_laws : CopierLaws _ _ partition_list_copier.
Proof. exact list_laws. Qed.
#[global] Instance attachment_list_laws : CopierLaws _ _ attachment_list_copier.
Proof. exact list_laws. Qed.
#[global] Instance node_list_laws : CopierLaws _ _ node_list_copier.
Proof. exact list_laws. Qed.

(** ** DeepCopy and DeepCopyObject *)

Definition NVMeDevice_DeepCopy : ptr MDevice → hm (ptr MDevice) := copy_ptr NVMeDevice_DeepCopyInto.
Definition NVMeDeviceClaim_DeepCopy : ptr MClaim → hm (ptr MClaim) := copy_ptr NVMeDeviceClaim_DeepCopyInto.
Definition NVMePartition_DeepCopy : ptr MPartition → hm (ptr MPartition) := copy_ptr NVMePartition_DeepCopyInto.
Definition NVMeVolumeAttachment_DeepCopy : ptr MAttachment → hm (ptr MAttachment) := copy_ptr NVMeVolumeAttachment_DeepCopyInto.
Definition RDMAStorageNode_DeepCopy : ptr MNode → hm (ptr MNode) := copy_ptr RDMAStorageNode_DeepCopyInto.
Definition NVMeDeviceList_DeepCopy : ptr (MList MDevice) → hm (ptr (MList MDevice)) := copy_ptr NVMeDeviceList_DeepCopyInto.
Definition NVMeDeviceClaimList_DeepCopy : ptr (MList MClaim) → hm (ptr (MList MClaim)) := copy_ptr NVMeDeviceClaimList_DeepCopyInto.
Definition NVMePartitionList_DeepCopy : ptr (MList MPartition) → hm (ptr (MList MPartition)) := copy_ptr NVMePartitionList_DeepCopyInto.
Definition NVMeVolumeAttachmentList_DeepCopy : ptr (MList MAttachment) → hm (ptr (MList MAttachment)) := copy_ptr NVMeVolumeAttachmentList_DeepCopyInto.
Definition RDMAStorageNodeList_DeepCopy : ptr (MList MNode) → hm (ptr (MList MNode)) := copy_ptr RDMAStorageNodeList_DeepCopyInto.
Definition NVMeDeviceClaimReference_DeepCopy : ptr NVMeDeviceClaimReference → hm (ptr NVMeDeviceClaimReference) := copy_ptr NVMeDeviceClaimReference_DeepCopyInto.
Definition NVMeVolumeReference_DeepCopy : ptr NVMeVolumeReference → hm (ptr NVMeVolumeReference) := copy_ptr NVMeVolumeReference_DeepCopyInto.
Definition NVMeDeviceSpec_DeepCopy : ptr MDeviceSpec → hm (ptr MDeviceSpec) := copy_ptr NVMeDeviceSpec_DeepCopyInto.
Definition NVMeDeviceStatus_DeepCopy : ptr MDeviceStatus → hm (ptr MDeviceStatus) := copy_ptr NVMeDeviceStatus_DeepCopyInto.
Definition NVMeDeviceClaimSpec_DeepCopy : ptr NVMeDeviceClaimSpec → hm (ptr NVMeDeviceClaimSpec) := copy_ptr NVMeDeviceClaimSpec_DeepCopyInto.
Definition NVMeDeviceClaimStatus_DeepCopy : ptr MClaimStatus → hm (ptr MClaimStatus) := copy_ptr NVMeDeviceClaimStatus_DeepCopyInto.
Definition NVMePartitionSpec_DeepCopy : ptr MPartitionSpec → hm (ptr MPartitionSpec) := copy_ptr NVMePartitionSpec_DeepCopyInto.
Definition NVMePartitionStatus_DeepCopy : ptr MPartitionStatus → hm (ptr MPartitionStatus) := copy_ptr NVMePartitionStatus_DeepCopyInto.
Definition NVMeVolumeAttachmentSpec_DeepCopy : ptr NVMeVolumeAttachmentSpec → hm (ptr NVMeVolumeAttachmentSpec) := copy_ptr NVMeVolumeAttachmentSpec_DeepCopyInto.
Definition NVMeVolumeAttachmentStatus_DeepCopy : ptr MAttachmentStatus → hm (ptr MAttachmentStatus) := copy_ptr NVMeVolumeAttachmentStatus_DeepCopyInto.
Definition RDMAStorageNodeSpec_DeepCopy : ptr RDMAStorageNodeSpec → hm (ptr RDMAStorageNodeSpec) := copy_ptr RDMAStorageNodeSpec_DeepCopyInto.
Definition RDMAStorageNodeStatus_DeepCopy : ptr MNodeStatus → hm (ptr MNodeStatus) := copy_ptr RDMAStorageNodeStatus_DeepCopyInto.

(** The types that implement runtime.Object. *)
Inductive runtimeObject :=
  | DeviceObject (p : ptr MDevice) | DeviceListObject (p : ptr (MList MDevice))
  | ClaimObject (p : ptr MClaim) | ClaimListObject (p : ptr (MList MClaim))
  | PartitionObject (p : ptr MPartition) | PartitionListObject (p : ptr (MList MPartition))
  | AttachmentObject (p : ptr MAttachment) | AttachmentListObject (p : ptr (MList MAttachment))
  | NodeObject (p : ptr MNode) | NodeListObject (p : ptr (MList MNode)).

(** [if c := in.DeepCopy(); c != nil { return c }; return nil]: the interface is
    nil when the pointer is. *)
Definition asObject {M} (wrap : ptr M → runtimeObject) (c : ptr M) : option runtimeObject :=
  match target c with Some _ => Some (wrap c) | None => None end.

Definition NVMeDevice_DeepCopyObject (i : ptr MDevice) : hm (option runtimeObject) := c ← NVMeDevice_DeepCopy i; mret (asObject DeviceObject c).
Definition NVMeDeviceList_DeepCopyObject (i : ptr (MList MDevice)) : hm (option runtimeObject) := c ← NVMeDeviceList_DeepCopy i; mret (asObject DeviceListObject c).
Definition NVMeDeviceClaim_DeepCopyObject (i : ptr MClaim) : hm (option runtimeObject) := c ← NVMeDeviceClaim_DeepCopy i; mret (asObject ClaimObject c).
Definition NVMeDeviceClaimList_DeepCopyObject (i : ptr (MList MClaim)) : hm (option runtimeObject) := c ← NVMeDeviceClaimList_DeepCopy i; mret (asObject ClaimListObject c).
Definition NVMePartition_DeepCopyObject (i : ptr MPartition) : hm (option runtimeObject) := c ← NVMePartition_DeepCopy i; mret (asObject PartitionObject c).
Definition NVMePartitionList_DeepCopyObject (i : ptr (MList MPartition)) : hm (option runtimeObject) := c ← NVMePartitionList_DeepCopy i; mret (asObject PartitionListObject c).
Definition NVMeVolumeAttachment_DeepCopyObject (i : ptr MAttachment) : hm (option runtimeObject) := c ← NVMeVolumeAttachment_DeepCopy i; mret (asObject AttachmentObject c).
Definition NVMeVolumeAttachmentList_DeepCopyObject (i : ptr (MList MAttachment)) : hm (option runtimeObject) := c ← NVMeVolumeAttachmentList_DeepCopy i; mret (asObject AttachmentListObject c).
Definition RDMAStorageNode_DeepCopyObject (i : ptr MNode) : hm (option runtimeObject) := c ← RDMAStorageNode_DeepCopy i; mret (asObject NodeObject c).
Definition RDMAStorageNodeList_DeepCopyObject (i : ptr (MList MNode)) : hm (option runtimeObject) := c ← RDMAStorageNodeList_DeepCopy i; mret (asObject NodeListObject c).

(** DeepCopyObject wraps the pointer that DeepCopy returns, and is nil exactly for
    a nil receiver. *)
Definition wraps {M V} {K : Copier (ptr M) V} (wrap : ptr M → runtimeObject) (copy : ptr M → hm (ptr M)) (copyObject : ptr M → hm (option runtimeObject)) : Prop :=
  (∀ h, copyObject (Ptr None) h = Some (None, h)) ∧
  ∀ h a x, view h (Ptr (Some a)) = Some x → ∃ b h', copy (Ptr (Some a)) h = Some (Ptr (Some b), h') ∧
    copyObject (Ptr (Some a)) h = Some (Some (wrap (Ptr (Some b))), h').

Lemma copy_ptr_wraps {M V} {CM : Cell cell M} {K : Copier (C := cell) M V} {KL : CopierLaws M V K} (wrap : ptr M → runtimeObject) :
  wraps wrap (copy_ptr deepcopy) (λ i, c ← copy_ptr deepcopy i; mret (asObject wrap c)).
Proof.
  split; [done|]. intros h a [v F] Hv. destruct (deepcopy_fresh h (Ptr (Some a)) v F Hv) as (q & h' & F' & E & _). cbn in E.
  assert (∃ b, q = Ptr (Some b)) as [b ->].
  { unfold copy_ptr in E. cbn in E. repeat autounfold with copying in E. repeat (case_match; simplify_eq). by eexists. }
  exists b, h'. split; [done|]. by rewrite (run_bind _ _ _ _ _ E).
Qed.

(** C30: each generated DeepCopy gives an object of the same value that shares no
    memory with the original: nothing written to the memory of the one changes the
    value of the other.  DeepCopyObject returns that pointer as an interface, nil
    only for nil. *)
Theorem deep_copies_isolated :
  isolates NVMeDevice_DeepCopy ∧
  isolates NVMeDeviceClaim_DeepCopy ∧
  isolates NVMePartition_DeepCopy ∧
  isolates NVMeVolumeAttachment_DeepCopy ∧
  isolates RDMAStorageNode_DeepCopy ∧
  isolates NVMeDeviceList_DeepCopy ∧
  isolates NVMeDeviceClaimList_DeepCopy ∧
  isolates NVMePartitionList_DeepCopy ∧
  isolates NVMeVolumeAttachmentList_DeepCopy ∧
  isolates RDMAStorageNodeList_DeepCopy ∧
  isolates NVMeDeviceClaimReference_DeepCopy ∧
  isolates NVMeVolumeReference_DeepCopy ∧
  isolates NVMeDeviceSpec_DeepCopy ∧
  isolates NVMeDeviceStatus_DeepCopy ∧
  isolates NVMeDeviceClaimSpec_DeepCopy ∧
  isolates NVMeDeviceClaimStatus_DeepCopy ∧
  isolates NVMePartitionSpec_DeepCopy ∧
  isolates NVMePartitionStatus_DeepCopy ∧
  isolates NVMeVolumeAttachmentSpec_DeepCopy ∧
  isolates NVMeVolumeAttachmentStatus_DeepCopy ∧
  isolates RDMAStorageNodeSpec_DeepCopy ∧
  isolates RDMAStorageNodeStatus_DeepCopy ∧
  wraps DeviceObject NVMeDevice_DeepCopy NVMeDevice_DeepCopyObject ∧
  wraps DeviceListObject NVMeDeviceList_DeepCopy NVMeDeviceList_DeepCopyObject ∧
  wraps ClaimObject NVMeDeviceClaim_DeepCopy NVMeDeviceClaim_DeepCopyObject ∧
  wraps ClaimListObject NVMeDeviceClaimList_DeepCopy NVMeDeviceClaimList_DeepCopyObject ∧
  wraps PartitionObject NVMePartition_DeepCopy NVMePartition_DeepCopyObject ∧
  wraps PartitionListObject NVMePartitionList_DeepCopy NVMePartitionList_DeepCopyObject ∧
  wraps AttachmentObject NVMeVolumeAttachment_DeepCopy NVMeVolumeAttachment_DeepCopyObject ∧
  wraps AttachmentListObject NVMeVolumeAttachmentList_DeepCopy NVMeVolumeAttachmentList_DeepCopyObject ∧
  wraps NodeObject RDMAStorageNode_DeepCopy RDMAStorageNode_DeepCopyObject ∧
  wraps NodeListObject RDMAStorageNodeList_DeepCopy RDMAStorageNodeList_DeepCopyObject.
Proof. repeat (split; [first [exact deepcopy_isolates|exact (copy_ptr_wraps _)]|]). exact (copy_ptr_wraps _). Qed.

End Copies.

(** ** A concrete copy

    With library types that hold no references of their own. *)

Abbreviation example_cell := (cell Empty_set ObjectMeta unit Quantity Condition Time).

Definition copied_meta : ObjectMeta :=
  {| Name := "pvc-1"; Namespace := "default"; UID := "p-1"; Generation := 1; ResourceVersion := "7"; Finalizers := []; Annotations := ∅;
     OwnerReferences := []; DeletionTimestamp := None |}.
Definition copied_ref : NVMeDeviceClaimReference := {| ref_Namespace := "default"; ref_Name := "claim-a"; ref_UID := "c-1" |}.
Definition copied_condition (status : ConditionStatus) : Condition :=
  {| c_Type := "Ready"; c_Status := status; c_ObservedGeneration := 1; c_Reason := "Ready"; c_Message := "" |}.

(** A partition at 1 whose claim reference, options and conditions are at 2, 3 and
    4. *)
Definition copied_partition : MPartition ObjectMeta Quantity Condition :=
  mkMObject ObjectMeta (MPartitionSpec Quantity) (MPartitionStatus Quantity Condition) {| tm_Kind := "NVMePartition"; tm_APIVersion := "v1alpha1" |} copied_meta
    {| mps_Size := NewQuantity 4194304; mps_NodeName := "node-1"; mps_ParentDeviceSerialNumber := "SN1"; mps_ClaimRef := Ptr (Some 2%positive);
       mps_AccessMode := ""; mps_Filesystem := ""; mps_RequestFingerprint := ""; mps_TargetBackend := "spdk"; mps_VolumeManager := "";
       mps_TargetOptions := GoMap (Some 3%positive) |}
    {| mpt_PlacementFingerprint := ""; mpt_State := NVMePartitionStatePending; mpt_ExternalID := ""; mpt_VolumeID := ""; mpt_BackendVolumeID := "";
       mpt_AllocatedCapacity := NewQuantity 0; mpt_SPDKBaseBdev := ""; mpt_SPDKLvstoreName := ""; mpt_SPDKLvstoreUUID := ""; mpt_SPDKLvolName := "";
       mpt_SPDKLvolUUID := ""; mpt_NQN := ""; mpt_PortalIP := ""; mpt_PortalPort := 0; mpt_Conditions := Slice (Some 4%positive) 1 |}.

Definition copied_heap : gmap addr example_cell :=
  <[1%positive := inject copied_partition]> (<[2%positive := inject copied_ref]>
    (<[3%positive := inject (T := gmap string string) {["replicas" := "1"]}]> {[4%positive := inject [copied_condition ConditionTrue]]})).

#[local] Instance example_meta_copier : Copier (C := example_cell) ObjectMeta ObjectMeta := plain.
#[local] Instance example_list_meta_copier : Copier (C := example_cell) unit unit := plain.
#[local] Instance example_quantity_copier : Copier (C := example_cell) Quantity Quantity := plain.
#[local] Instance example_condition_copier : Copier (C := example_cell) Condition Condition := plain.
#[local] Instance example_time_copier : Copier (C := example_cell) Time Time := plain.

#[local] Abbreviation copied_ptr := (Ptr (T := MPartition ObjectMeta Quantity Condition) (Some 1%positive)).

(** The copy keeps its condition when that of the original is overwritten in its
    array, which an assignment of the struct would share. *)
Lemma deep_copies_isolated_witness :
  ∃ q h' v F F', NVMePartition_DeepCopy _ _ _ _ _ _ copied_ptr copied_heap = Some (q, h') ∧ view copied_heap copied_ptr = Some (v, F) ∧
    view h' q = Some (v, F') ∧ view (<[4%positive := inject [copied_condition ConditionFalse]]> h') q = Some (v, F').
Proof.
  destruct (deep_copies_isolated Empty_set ObjectMeta unit Quantity Condition Time (LMeta := plain_laws) (LListMeta := plain_laws)
    (LQuantity := plain_laws) (LCondition := plain_laws) (LTime := plain_laws)) as (_ & _ & H & _).
  assert (match view copied_heap copied_ptr with Some (_, F) => bool_decide (4%positive ∈ F) | None => false end = true) as Hin by (vm_compute; reflexivity).
  destruct (view copied_heap copied_ptr) as [[v F]|] eqn:E; [|discriminate].
  destruct (H _ _ _ _ E) as (q & h' & F' & Hc & Hq & _ & _ & Hw & _). exists q, h', v, F, F'.
  split; [exact Hc|split; [reflexivity|split; [exact Hq|]]].
  apply Hw. intros a Ha. apply lookup_insert_ne. intros <-. by apply bool_decide_eq_true in Hin.
Defined.
