(* ===== verification/Driver.v ===== *)
(** * The CSI driver server

    src/internal/csi/driver.go: the endpoint the driver listens on, the life of its
    gRPC server from the start to the shutdown after a cancellation, and the
    identity service; with the constant capabilities of the other two services.
    The file system, package net and the gRPC server are the operations
    [driverOp]; a [select] is an operation whose reply is the case taken.  The
    goroutines of Run are the replies of the world at these points. *)

From S2P Require Import Prelude GoStrings GoPath RdmaHealth Prog Host.

Definition DriverName : string := "storage.distort.io".
Definition VendorVersion : string := "0.5.0".
Definition DefaultEndpoint : string := "unix:///tmp/csi.sock".

Record IdentityServer := { ids_name : string; ids_version : string }.

(** The client of the API server is no part of the record: the controller and node
    services are programs over its requests in CsiController.v and NodeServer.v. *)
Record Driver := { d_name : string; d_nodeID : string; d_endpoint : string; d_ids : IdentityServer; d_ns : string }.

Definition NewDriver (nodeID endpoint : string) : Driver := {|
  d_name := DriverName;
  d_nodeID := nodeID;
  d_endpoint := endpoint;
  d_ids := {| ids_name := DriverName; ids_version := VendorVersion |};
  d_ns := nodeID
|}.

(** ** The identity service *)

Definition GetPluginInfo (ids : IdentityServer) : result (string * string) :=
  if ids_name ids ==? "" then Err (StatusErr Unavailable "Driver name not configured")
  else if ids_version ids ==? "" then Err (StatusErr Unavailable "Driver is missing version")
  else Ok (ids_name ids, ids_version ids).

Definition Probe (ids : IdentityServer) : result unit := Ok tt.

Inductive PluginCapability := CONTROLLER_SERVICE | VOLUME_ACCESSIBILITY_CONSTRAINTS | GROUP_CONTROLLER_SERVICE.

Definition GetPluginCapabilities (ids : IdentityServer) : result (list PluginCapability) := Ok [CONTROLLER_SERVICE].

(** What the controller and the node service offer. *)
Inductive ControllerCapability := CREATE_DELETE_VOLUME | PUBLISH_UNPUBLISH_VOLUME.
Inductive NodeCapability := STAGE_UNSTAGE_VOLUME.

Definition ControllerGetCapabilities : result (list ControllerCapability) := Ok [CREATE_DELETE_VOLUME; PUBLISH_UNPUBLISH_VOLUME].
Definition NodeGetCapabilities : result (list NodeCapability) := Ok [STAGE_UNSTAGE_VOLUME].

(** ** The server *)

(** What ends the first [select] of Run: the server returned, or the context is
    done. *)
Inductive stopCause := Served (e : option error) | CtxDone.

Inductive driverOp :=
  | DMkdirAll (path : string) (perm : Z)
  | DLstat (path : string)
  | DRemove (path : string)
  | DListen (protocol addr : string)
  | DServe
  | DWait
  | DGracefulStop
  | DWaitStopped (timeout : Z)
  | DStop
  | DClose.

(** DLstat replies with the mode bits, DWaitStopped whether [stopped] was closed
    before the timeout. *)
Definition driverRep (o : driverOp) : Type :=
  match o with
  | DMkdirAll _ _ | DRemove _ | DListen _ _ | DClose => option error
  | DLstat _ => result Z
  | DServe | DGracefulStop | DStop => unit
  | DWait => stopCause
  | DWaitStopped _ => bool
  end.

Abbreviation driver A := (prog driverOp driverRep A).
Definition dcall (o : driverOp) : driver (driverRep o) := call o.

Definition gracefulStopTimeout : Z := 10 * Second.

(** os.ModeSocket *)
Definition ModeSocket : Z := Z.shiftl 1 24.
Definition is_socket (mode : Z) : bool := negb (Z.land mode ModeSocket =? 0).

(** [strings.SplitN(s, sep, 2)]: around the first [sep], if there is one. *)
Fixpoint SplitN2 (s sep : string) : option (string * string) :=
  match CutPrefix s sep with
  | Some rest => Some ("", rest)
  | None =>
    match s with
    | EmptyString => None
    | String c s => '(before, after) ← SplitN2 s sep; Some (String c before, after)
    end
  end.

(** The listener is the operation DListen; the result is its error. *)
Definition listenEndpoint (endpoint : string) : driver (option error) :=
  match SplitN2 endpoint "://" with
  | None => Ret (Some (Errorf "invalid endpoint format"))
  | Some (protocol, addr) =>
    let! refused :=
      if protocol ==? "unix" then
        if negb (IsAbs addr) then Ret (Some (Errorf "unix endpoint path must be absolute")) else
        let! err := dcall (DMkdirAll (Dir addr) 488) in
        match err with
        | Some e => Ret (Some (Wrap "create unix socket directory" e))
        | None =>
          let! info := dcall (DLstat addr) in
          match info with
          | inr e => if os_IsNotExist e then Ret None else Ret (Some (Wrap "inspect existing socket" e))
          | inl mode =>
            if negb (is_socket mode) then Ret (Some (Errorf "refusing to remove non-socket path"))
            else
              let! err := dcall (DRemove addr) in
              Ret (match err with Some e => Some (Wrap "remove existing socket" e) | None => None end)
          end
        end
      else Ret None in
    match refused with
    | Some e => Ret (Some e)
    | None =>
      let! err := dcall (DListen protocol addr) in
      Ret (match err with Some e => Some (Wrap "listen on" e) | None => None end)
    end
  end.

(** The body of Run between listening and the deferred close. *)
Definition serve : driver (option error) :=
  let! _ := dcall DServe in
  let! cause := dcall DWait in
  match cause with
  | Served (Some e) => Ret (Some (Wrap "serve CSI GRPC endpoint" e))
  | Served None => Ret None
  | CtxDone =>
    let! _ := dcall DGracefulStop in
    let! stopped := dcall (DWaitStopped gracefulStopTimeout) in
    if stopped : bool then Ret None
    else let! _ := dcall DStop in Ret None
  end.

Definition Run (d : Driver) : driver (option error) :=
  let! err := listenEndpoint (d_endpoint d) in
  match err with
  | Some e => Ret (Some e)
  | None =>
    let! r := serve in
    let! _ := dcall DClose in
    Ret r
  end.

(** ** The world of the driver

    The files with their modes, the open listener, whether the server takes RPCs
    on its connections, the RPCs that wait for an answer, the handlers that run,
    the RPCs that were cut off, what Serve returned, the time, and when the
    context was cancelled. *)
Record dworld := {
  files : gmap string Z;
  listener : option (string * string);
  serving : bool;
  pending : nat;
  running : nat;
  cut : nat;
  served : option (option error);
  clock : Z;
  cancelled : option Z
}.

Definition with_files (fs : gmap string Z) (w : dworld) : dworld :=
  {| files := fs; listener := listener w; serving := serving w; pending := pending w; running := running w;
     cut := cut w; served := served w; clock := clock w; cancelled := cancelled w |}.

(** Protocols of package net whose address is a path. *)
Definition is_path (protocol : string) : bool := (protocol ==? "unix") || (protocol ==? "unixpacket").

(** Closing a listener removes its socket. *)
Definition unlinked (w : dworld) : gmap string Z :=
  match listener w with Some (protocol, addr) => if is_path protocol then delete addr (files w) else files w | None => files w end.

Definition close_listener (w : dworld) : dworld :=
  {| files := unlinked w; listener := None; serving := serving w; pending := pending w; running := running w;
     cut := cut w; served := served w; clock := clock w; cancelled := cancelled w |}.

Definition open_listener (protocol addr : string) (fs : gmap string Z) (w : dworld) : dworld :=
  {| files := fs; listener := Some (protocol, addr); serving := serving w; pending := pending w; running := running w;
     cut := cut w; served := served w; clock := clock w; cancelled := cancelled w |}.

Definition serving_rpcs (b : bool) (w : dworld) : dworld :=
  {| files := files w; listener := listener w; serving := b; pending := pending w; running := running w;
     cut := cut w; served := served w; clock := clock w; cancelled := cancelled w |}.

Definition serve_returned (e : option error) (w : dworld) : dworld :=
  {| files := files w; listener := listener w; serving := serving w; pending := pending w; running := running w;
     cut := cut w; served := Some e; clock := clock w; cancelled := cancelled w |}.

(** The connections are closed: the RPCs that wait are cut off, and [n] handlers
    still run. *)
Definition disconnected (n : nat) (w : dworld) : dworld :=
  {| files := files w; listener := listener w; serving := serving w; pending := 0; running := n;
     cut := cut w + pending w; served := served w; clock := clock w; cancelled := cancelled w |}.

(** Time passes: the context may be cancelled, RPCs end, and new ones begin as
    long as the server takes them. *)
Definition passing (w w' : dworld) : Prop :=
  files w' = files w ∧ listener w' = listener w ∧ serving w' = serving w ∧ cut w' = cut w ∧ served w' = served w ∧
  clock w ≤ clock w' ∧
  (serving w = false → (pending w' ≤ pending w)%nat ∧ (running w' ≤ running w)%nat) ∧
  match cancelled w with
  | Some t => cancelled w' = Some t
  | None => ∀ t, cancelled w' = Some t → clock w ≤ t ≤ clock w'
  end.

(** The effect of an operation.  Documented behaviour of packages os, net and time
    and of grpc.Server when no other process changes the files.  Serve closes its
    listener when it returns, and leaves the connections alone.  GracefulStop runs
    beside the second [select]: it stops the server from taking RPCs, closes the
    listener, and returns when no RPC and no handler is left.  The timer sends no
    earlier than the timeout; GracefulStop may be anywhere by then.  Stop closes
    the listener and all connections, and does not wait for the handlers. *)
Definition effect (w : dworld) (o : driverOp) : driverRep o → dworld → Prop :=
  match o with
  | DMkdirAll _ _ => λ _ w', ∃ fs, files w ⊆ fs ∧ w' = with_files fs w
  | DLstat path => λ r w', w' = w ∧
      match r with inl mode => files w !! path = Some mode | inr e => os_IsNotExist e = true → files w !! path = None end
  | DRemove path => λ r w', w' = match r with None => with_files (delete path (files w)) w | Some _ => w end
  | DListen protocol addr => λ r w',
      match r with
      | Some _ => w' = w
      | None =>
        if is_path protocol then files w !! addr = None ∧ ∃ mode, is_socket mode = true ∧ w' = open_listener protocol addr (<[addr := mode]> (files w)) w
        else w' = open_listener protocol addr (files w) w
      end
  | DServe => λ _ w', w' = serving_rpcs true w
  | DWait => λ r w',
      match r with
      | Served e => w' = serve_returned e (close_listener w)
      | CtxDone => is_Some (cancelled w) ∧ w' = w
      end
  | DGracefulStop => λ _ w', w' = w
  | DWaitStopped _ => λ r w',
      if r : bool then pending w = 0%nat ∧ running w = 0%nat ∧ w' = close_listener (serving_rpcs false w)
      else w' = w ∨ w' = close_listener (serving_rpcs false w)
  | DStop => λ _ w', ∃ n, (n ≤ running w)%nat ∧ w' = disconnected n (close_listener (serving_rpcs false w))
  | DClose => λ _ w', w' = close_listener w
  end.

(** How long an operation takes at least. *)
Definition lasting (o : driverOp) (r : driverRep o) : Z :=
  match o, r with DWaitStopped timeout, false => timeout | _, _ => 0 end.

Definition dstep (w : dworld) (o : driverOp) (r : driverRep o) (w' : dworld) : Prop :=
  ∃ w1, passing w w1 ∧ clock w + lasting o r ≤ clock w1 ∧ effect w1 o r w'.

(** ** A run of the driver *)

#[local] Abbreviation dq := (qwp dstep (λ _, True)).

Lemma d_call {B} o (k : driverRep o → driver B) w Q : (∀ r w', dstep w o r w' → dq (k r) w' Q) → dq (bind (dcall o) k) w Q.
Proof. intros H. apply qwp_vis; [done|]. intros r w' Hs. split; [done|by apply H]. Qed.

Lemma SplitN2_spec s sep before after : SplitN2 s sep = Some (before, after) → s = before +:+ sep +:+ after.
Proof.
  revert before after. induction s as [|c s IH]; intros before after; cbn [SplitN2].
  - destruct (CutPrefix "" sep) as [r|] eqn:E; [|done]. intros [= <- <-]. by apply CutPrefix_spec in E.
  - destruct (CutPrefix (String c s) sep) as [r|] eqn:E.
    + intros [= <- <-]. by apply CutPrefix_spec in E.
    + destruct (SplitN2 s sep) as [[b a]|]; simpl; [|done]. intros [= <- <-]. by rewrite (IH b a).
Qed.

(** The files that are left: all of them but a socket at the endpoint. *)
Definition spared (endpoint : string) (fs fs' : gmap string Z) : Prop :=
  ∀ path mode, fs !! path = Some mode → fs' !! path = Some mode ∨ is_socket mode = true ∧ endpoint = "unix://" +:+ path.

(** The server has not been started, and has nothing to do. *)
Definition idle (w : dworld) : Prop :=
  serving w = false ∧ pending w = 0%nat ∧ running w = 0%nat ∧ cut w = 0%nat ∧ served w = None.

(** A cancellation is not in the future. *)
Definition cancelled_before (w : dworld) : Prop := ∀ t, cancelled w = Some t → t ≤ clock w.

Lemma passing_cancelled_before w w' : passing w w' → cancelled_before w → cancelled_before w'.
Proof.
  intros (_ & _ & _ & _ & _ & Hc & _ & H) Hb t Ht. destruct (cancelled w) as [t0|] eqn:E; [|apply H in Ht; lia].
  specialize (Hb t0 E). assert (t = t0) as -> by congruence. lia.
Qed.

Lemma passing_cancelled w w' t : passing w w' → cancelled w = Some t → cancelled w' = Some t.
Proof. intros (_ & _ & _ & _ & _ & _ & _ & H) Hw. by rewrite Hw in H. Qed.

Definition ready (w : dworld) : Prop := idle w ∧ cancelled_before w.

Lemma passing_idle w w' : passing w w' → idle w → idle w'.
Proof.
  intros (_ & _ & Hs & Hc & Hv & _ & Hn & _) (H1 & H2 & H3 & H4 & H5). unfold idle. rewrite Hs, Hc, Hv.
  destruct (Hn H1). split_and!; try done; lia.
Qed.

Lemma passing_ready w w' : passing w w' → ready w → ready w'.
Proof. intros Hp [Hi Hb]. split; [by eapply passing_idle|by eapply passing_cancelled_before]. Qed.

Lemma passing_unlinked w w' : passing w w' → unlinked w' = unlinked w.
Proof. intros (Hf & Hl & _). unfold unlinked. by rewrite Hf, Hl. Qed.

(** Before the server is started: the listener is open or not, and only a socket
    at the endpoint may be missing. *)
Definition starting (endpoint : string) (fs : gmap string Z) (r : option error) (w : dworld) : Prop :=
  spared endpoint fs (unlinked w) ∧ ready w ∧ (r ≠ None → listener w = None).

Lemma listen_last endpoint protocol addr w fs : listener w = None → spared endpoint fs (files w) → ready w →
  dq (let! err := dcall (DListen protocol addr) in Ret (match err with Some e => Some (Wrap "listen on" e) | None => None end)) w
    (starting endpoint fs).
Proof.
  intros Hl Hk Hi. apply d_call. intros r w' (w1 & Hp & _ & He). pose proof (passing_ready _ _ Hp Hi) as Hi1.
  destruct Hp as (Hf & Hl1 & _). rewrite Hl in Hl1. rewrite <- Hf in Hk.
  destruct r as [e|]; simpl in He; [subst w'; apply qwp_ret; unfold starting, unlinked; by rewrite Hl1|].
  destruct (is_path protocol) eqn:Ep.
  - destruct He as (Hn & mode & _ & ->). apply qwp_ret. split; [|done]. unfold unlinked. simpl. by rewrite Ep, delete_insert_id.
  - subst w'. apply qwp_ret. split; [|done]. unfold unlinked. simpl. by rewrite Ep.
Qed.

(** A failing call while nothing is listening. *)
Lemma starting_failed endpoint fs (e : error) w : listener w = None → spared endpoint fs (files w) → ready w →
  dq (Ret (Some e)) w (starting endpoint fs).
Proof. intros Hl Hk Hi. apply qwp_ret. split; [|done]. unfold unlinked. by rewrite Hl. Qed.

Lemma listen_spec endpoint w : listener w = None → ready w → dq (listenEndpoint endpoint) w (starting endpoint (files w)).
Proof.
  intros Hl Hi. unfold listenEndpoint. assert (spared endpoint (files w) (files w)) as Hrefl by (intros p m H; by left).
  destruct (SplitN2 endpoint "://") as [[protocol addr]|] eqn:E; [|by apply starting_failed].
  apply SplitN2_spec in E. apply qwp_bind; [done|]. case_bool_decide as Hp; [|apply qwp_ret; intros _; by apply listen_last]. subst protocol.
  destruct (IsAbs addr); simpl; [|apply qwp_ret; intros _; by apply starting_failed].
  apply d_call. intros err w1 (w0 & Hp0 & _ & fs & Hfs & ->). pose proof (passing_ready _ _ Hp0 Hi) as Hi0.
  destruct Hp0 as (Hf0 & Hl0 & _). rewrite Hl in Hl0. rewrite Hf0 in Hfs.
  assert (spared endpoint (files w) fs) as Hk by (intros p m H; left; by eapply lookup_weaken).
  destruct err as [e|]; [apply qwp_ret; intros _; by apply starting_failed|].
  apply d_call. intros info w2 (w1 & Hp1 & _ & -> & Hinfo). pose proof (passing_ready _ _ Hp1 Hi0) as Hi1.
  destruct Hp1 as (Hf1 & Hl1 & _). simpl in Hf1, Hl1. rewrite Hl0 in Hl1. rewrite <- Hf1 in Hk.
  destruct info as [mode|e].
  - destruct (is_socket mode) eqn:Em; simpl; [|apply qwp_ret; intros _; by apply starting_failed].
    apply d_call. intros err w3 (w2 & Hp2 & _ & ->). pose proof (passing_ready _ _ Hp2 Hi1) as Hi2.
    destruct Hp2 as (Hf2 & Hl2 & _). rewrite Hl1 in Hl2. rewrite <- Hf2 in Hk, Hinfo.
    apply qwp_ret. intros _. destruct err as [e|]; simpl; [by apply starting_failed|].
    apply listen_last; [done| |done]. intros p m H. simpl. destruct (Hk p m H) as [H'|?]; [|by right].
    destruct (decide (p = addr)) as [->|Hne]; [|left; by rewrite lookup_delete_ne].
    right. split; [congruence|]. by rewrite E.
  - destruct (os_IsNotExist e) eqn:En; apply qwp_ret; intros _; [by apply listen_last|by apply starting_failed].
Qed.

(** How a run ends once the driver listens.  Serve returned by itself and its error is
    the result; or the context was cancelled, and then there is no error, the
    server takes no RPC any more, no RPC waits for an answer, and if RPCs were cut
    off or handlers still run, the grace period has passed since the
    cancellation. *)
Definition ended (r : option error) (w : dworld) : Prop :=
  (∃ e, served w = Some e ∧ (r = None ↔ e = None)) ∨
  (∃ t, cancelled w = Some t ∧ served w = None ∧ r = None ∧ serving w = false ∧ pending w = 0%nat ∧
     (cut w = 0%nat ∧ running w = 0%nat ∨ t + gracefulStopTimeout ≤ clock w)).

Lemma serve_spec w : ready w → dq serve w (λ r w', unlinked w' = unlinked w ∧ ended r w').
Proof.
  intros [(_ & _ & _ & Hcut & Hserved) Hb]. unfold serve.
  apply d_call. intros _ w1 (w0 & Hp0 & _ & ->). pose proof (passing_unlinked _ _ Hp0) as Hu0.
  apply (passing_cancelled_before _ _ Hp0) in Hb. destruct Hp0 as (_ & _ & _ & Hc0 & Hv0 & _).
  apply d_call. intros cause w3 (w2 & Hp2 & _ & He). pose proof (passing_unlinked _ _ Hp2) as Hu2.
  apply (passing_cancelled_before _ _ Hp2) in Hb as Hb2. destruct Hp2 as (_ & _ & _ & Hc2 & Hv2 & _).
  change (unlinked (serving_rpcs true w0)) with (unlinked w0) in Hu2. simpl in Hc2, Hv2.
  destruct cause as [e|]; simpl in He.
  { subst w3. assert (unlinked (serve_returned e (close_listener w2)) = unlinked w)
      by (transitivity (unlinked w2); [done|congruence]).
    destruct e; apply qwp_ret; (split; [done|]); left; eexists; by split. }
  destruct He as [[t Ht] ->]. specialize (Hb2 t Ht).
  apply d_call. intros _ w4 (w3 & Hp3 & _ & ->). pose proof (passing_unlinked _ _ Hp3) as Hu3.
  pose proof (passing_cancelled _ _ t Hp3 Ht) as Ht3. destruct Hp3 as (_ & _ & _ & Hc3 & Hv3 & Hclk3 & _).
  apply d_call. intros stopped w5 (w4 & Hp4 & Hlast & He). pose proof (passing_unlinked _ _ Hp4) as Hu4.
  pose proof (passing_cancelled _ _ t Hp4 Ht3) as Ht4. destruct Hp4 as (_ & _ & _ & Hc4 & Hv4 & _).
  destruct stopped; simpl in He, Hlast.
  { destruct He as (Hpend & Hrun & ->). apply qwp_ret. split; [transitivity (unlinked w4); [done|congruence]|].
    right. exists t. simpl. split_and!; try done; [congruence|left; split; [congruence|done]]. }
  assert (unlinked w5 = unlinked w4 ∧ cancelled w5 = Some t ∧ t + gracefulStopTimeout ≤ clock w5 ∧ served w5 = served w4)
    as (Hu5 & Ht5 & Hclk & Hv5) by (destruct He as [->| ->]; simpl; split_and!; try done; lia). clear He Hlast.
  apply d_call. intros _ w7 (w6 & Hp6 & _ & n & Hn & ->). pose proof (passing_unlinked _ _ Hp6) as Hu6.
  pose proof (passing_cancelled _ _ t Hp6 Ht5) as Ht6. destruct Hp6 as (_ & _ & _ & _ & Hv6 & Hclk6 & _).
  apply qwp_ret. split; [transitivity (unlinked w6); [done|congruence]|].
  right. exists t. simpl. split_and!; try done; [congruence|right; lia].
Qed.

Lemma passing_ended r w w' : passing w w' → ended r w → ended r (close_listener w').
Proof.
  intros Hp [(e & He & Hr)|(t & Ht & Hv & Hr & Hs & Hn & Hg)].
  - left. exists e. destruct Hp as (_ & _ & _ & _ & Hv & _). simpl. by rewrite Hv.
  - right. exists t. pose proof (passing_cancelled _ _ t Hp Ht) as Ht'.
    destruct Hp as (_ & _ & Hs' & Hc' & Hv' & Hclk & Hle & _). destruct (Hle Hs). simpl.
    rewrite Hs', Hc', Hv'. split_and!; try done; [lia|]. destruct Hg as [[? ?]|?]; [left; split; [done|lia]|right; lia].
Qed.

(** C31: The driver shuts down cleanly.  Whatever happens while it runs, it
    returns with its listener closed, and no file is lost but a stale socket at its
    own endpoint.  It returns an error without having served anything, or it
    returns because Serve did, with the error of Serve, or else the context was
    cancelled: then it returns without an error, the server takes no RPC any more,
    and no RPC waits for an answer; no RPC was cut off and no handler is running,
    unless the whole grace period has passed since the cancellation.  (Stop does
    not wait for the handlers, so after the grace period some may still run.) *)
Theorem driver_run_clean d w : listener w = None → idle w → cancelled_before w →
  qwp dstep (λ _, True) (Run d) w (λ r w', listener w' = None ∧ spared (d_endpoint d) (files w) (files w') ∧
    (r ≠ None ∧ idle w' ∨ ended r w')).
Proof.
  intros Hl Hi Hc. unfold Run. apply qwp_bind; [done|].
  eapply qwp_mono; [|by apply listen_spec]. cbv beta. intros r w1 (Hs & [Hi1 Hc1] & Hr) _. destruct r as [e|].
  - apply qwp_ret. unfold unlinked in Hs. rewrite Hr in Hs by done. split; [by apply Hr|]. split; [done|]. by left.
  - apply qwp_bind; [done|]. eapply qwp_mono; [|apply serve_spec; done]. cbv beta.
    intros r w2 [Hu He] _. apply d_call. intros _ w4 (w3 & Hp3 & _ & ->). pose proof (passing_unlinked _ _ Hp3) as Hu3.
    apply qwp_ret. split; [done|]. split; [simpl; by rewrite Hu3, Hu|]. right. by eapply passing_ended.
Qed.

(** A world in which the context is cancelled while a request is served by a
    handler that does not return. *)
Definition at_time (t : Z) (c : option Z) (pend run : nat) (w : dworld) : dworld :=
  {| files := files w; listener := listener w; serving := serving w; pending := pend; running := run;
     cut := cut w; served := served w; clock := t; cancelled := c |}.

Definition driver_handle (w : dworld) (o : driverOp) : driverRep o * dworld :=
  match o with
  | DMkdirAll _ _ => (None, w)
  | DLstat path => (match files w !! path with Some mode => Ok mode | None => Err (OsErr ENOENT) end, w)
  | DRemove path => (None, with_files (delete path (files w)) w)
  | DListen protocol addr =>
    if is_path protocol then
      match files w !! addr with
      | Some _ => (Some (OsErr EEXIST), w)
      | None => (None, open_listener protocol addr (<[addr := ModeSocket]> (files w)) w)
      end
    else (None, open_listener protocol addr (files w) w)
  | DServe => (tt, serving_rpcs true w)
  | DWait =>
    if serving w then (CtxDone, at_time (clock w) (Some (default (clock w) (cancelled w))) 1 1 w)
    else (Served None, serve_returned None (close_listener w))
  | DGracefulStop => (tt, w)
  | DWaitStopped timeout => (false, at_time (clock w + Z.max 0 timeout) (cancelled w) (pending w) (running w) w)
  | DStop => (tt, disconnected (running w) (close_listener (serving_rpcs false w)))
  | DClose => (None, close_listener w)
  end.

Lemma passing_refl w : passing w w.
Proof. split_and!; try done. destruct (cancelled w); [done|]. intros t [=]. Qed.

Lemma driver_handle_legal w o : dstep w o (driver_handle w o).1 (driver_handle w o).2.
Proof.
  assert (∀ r w', lasting o r = 0 → effect w o r w' → dstep w o r w') as Hnow.
  { intros r w' Hl He. exists w. split; [apply passing_refl|]. split; [lia|done]. }
  destruct o as [p m|p|p|protocol addr| | | |t| | ].
  1-5,7,9-10: (apply Hnow; [done|]). all: simpl; try done.
  - exists (files w). by destruct w.
  - destruct (files w !! p) eqn:E; [done|]. by split.
  - destruct (is_path protocol) eqn:Ep; [|done]. destruct (files w !! addr) eqn:E; [done|]. simpl. split; [done|]. by exists ModeSocket.
  - exists (running w). by split.
  - destruct (serving w) eqn:Es; [|by apply Hnow].
    exists (at_time (clock w) (Some (default (clock w) (cancelled w))) 1 1 w). split; [|split; [simpl; lia|by split; [eexists|]]].
    split_and!; simpl; try done; [congruence|]. destruct (cancelled w); simpl; [done|]. intros t' [= <-]. lia.
  - exists (at_time (clock w + Z.max 0 t) (cancelled w) (pending w) (running w) w). split; [|split; [simpl; lia|by left]].
    split_and!; simpl; try done; [lia|]. destruct (cancelled w); [done|]. intros t' [=].
Qed.

Definition driver_world : dworld :=
  {| files := {["/csi/csi.sock" := ModeSocket; "/csi/data" := 420]}; listener := None; serving := false; pending := 0;
     running := 0; cut := 0; served := None; clock := 0; cancelled := None |}.

Lemma driver_run_clean_witness :
  let d := NewDriver "node-1" "unix:///csi/csi.sock" in
  let out := run driver_handle (Run d) driver_world in
  listener out.2 = None ∧ spared (d_endpoint d) (files driver_world) (files out.2) ∧
  (out.1 ≠ None ∧ idle out.2 ∨ ended out.1 out.2).
Proof.
  intros d out. exact (qwp_run dstep (λ _, True) driver_handle (Run d) driver_world _ (λ w o _, driver_handle_legal w o) I
    (driver_run_clean d driver_world eq_refl ltac:(by split_and!) ltac:(by intros t [=]))).
Defined.
