(* ===== verification/Programs.v ===== *)
(** * The programs

    The main functions of src/cmd: which controllers and services they register
    with which settings, and when they give up.  Flags are the parsed values;
    logging and the registration of types with the scheme are left out.  Every step
    of start-up is an operation with an arbitrary reply, and the result of a
    program is its exit code. *)

From S2P Require Import Prelude GoStrings RdmaHealth Prog Driver.

(** The protocols of a tls.Config, and functions that change one. *)
Abbreviation tlsConfig := (list string).
Abbreviation tlsOption := (tlsConfig → tlsConfig).

Record certs := { CertDir : string; CertName : string; KeyName : string }.

(** metricsserver.Options and webhook.Options. *)
Record metricsOptions := { BindAddress : string; SecureServing : bool; metrics_TLSOpts : list tlsOption; authFilter : bool; metrics_certs : certs }.
Record webhookOptions := { webhook_TLSOpts : list tlsOption; webhook_certs : certs }.

Record managerOptions := {
  Metrics : metricsOptions;
  WebhookServer : option webhookOptions;
  HealthProbeBindAddress : string;
  LeaderElection : bool;
  LeaderElectionID : string
}.

(** What a manager runs. *)
Inductive component :=
  | PartitionManagerController (NodeName : string)
  | HardwareReporter (NodeName : string) (Interval : Z)
  | NVMeDeviceController
  | NVMeDeviceClaimController
  | NVMePartitionController (liveReads : bool)
  | RDMAStorageNodeController.

Inductive mainOp :=
  | GetConfig
  | NewManager (options : managerOptions)
  | PGetenv (name : string)
  | PHostname
  | Register (c : component)
  | AddHealthzCheck (name : string)
  | AddReadyzCheck (name : string)
  | StartManager
  | NewClient
  | RunDriver (d : Driver).

Definition mainRep (o : mainOp) : Type :=
  match o with PGetenv _ => string | PHostname => result string | _ => option error end.

Abbreviation program := (prog mainOp mainRep Z).
Abbreviation mevent := (@event mainOp mainRep).

(** [if err := ...; err != nil { os.Exit(1) }] *)
Definition must (o : option error) (k : program) : program := match o with Some _ => Ret 1 | None => k end.

Definition no_certs : certs := {| CertDir := ""; CertName := ""; KeyName := "" |}.
Definition provided (path name key : string) : certs :=
  if 0 <? str_len path then {| CertDir := path; CertName := name; KeyName := key |} else no_certs.

(** ** distort-agent *)

Record agentFlags := { a_metricsAddr : string; a_probeAddr : string; a_leaderElect : bool }.

Definition agentOptions (f : agentFlags) : managerOptions := {|
  Metrics := {| BindAddress := a_metricsAddr f; SecureServing := false; metrics_TLSOpts := []; authFilter := false; metrics_certs := no_certs |};
  WebhookServer := None;
  HealthProbeBindAddress := a_probeAddr f;
  LeaderElection := a_leaderElect f;
  LeaderElectionID := "agent.storage.distort.io"
|}.

Definition reportInterval : Z := 30 * Second.

Definition agent_start (nodeName : string) : program :=
  let! err := call (Rep := mainRep) (Register (PartitionManagerController nodeName)) in
  must err (
  let! err := call (Rep := mainRep) (Register (HardwareReporter nodeName reportInterval)) in
  must err (
  let! err := call (Rep := mainRep) (AddHealthzCheck "healthz") in
  must err (
  let! err := call (Rep := mainRep) (AddReadyzCheck "readyz") in
  must err (
  let! err := call (Rep := mainRep) StartManager in
  must err (Ret 0))))).

Definition agent_main (f : agentFlags) : program :=
  let! err := call (Rep := mainRep) GetConfig in
  must err (
  let! err := call (Rep := mainRep) (NewManager (agentOptions f)) in
  must err (
  let! nodeName := call (Rep := mainRep) (PGetenv "NODE_NAME") in
  if nodeName ==? "" then
    let! r := call (Rep := mainRep) PHostname in
    match r with inr _ => Ret 1 | inl hostname => agent_start hostname end
  else agent_start nodeName)).

(** ** distort-csi *)

Definition csi_main (endpoint nodeID : string) : program :=
  if nodeID ==? "" then Ret 1
  else
    let! err := call (Rep := mainRep) GetConfig in
    must err (
    let! err := call (Rep := mainRep) NewClient in
    must err (
    let! err := call (Rep := mainRep) (RunDriver (NewDriver nodeID endpoint)) in
    must err (Ret 0))).

(** ** distort-manager *)

Record managerFlags := {
  metricsAddr : string; probeAddr : string; enableLeaderElection : bool; secureMetrics : bool;
  webhookCertPath : string; webhookCertName : string; webhookCertKey : string;
  metricsCertPath : string; metricsCertName : string; metricsCertKey : string; enableHTTP2 : bool
}.

Definition disableHTTP2 : tlsOption := λ _, ["http/1.1"].

Definition tlsOpts (f : managerFlags) : list tlsOption := if enableHTTP2 f then [] else [disableHTTP2].

Definition managerOptions_of (f : managerFlags) : managerOptions := {|
  Metrics := {| BindAddress := metricsAddr f; SecureServing := secureMetrics f; metrics_TLSOpts := tlsOpts f; authFilter := secureMetrics f;
                metrics_certs := provided (metricsCertPath f) (metricsCertName f) (metricsCertKey f) |};
  WebhookServer := Some {| webhook_TLSOpts := tlsOpts f; webhook_certs := provided (webhookCertPath f) (webhookCertName f) (webhookCertKey f) |};
  HealthProbeBindAddress := probeAddr f;
  LeaderElection := enableLeaderElection f;
  LeaderElectionID := "c53843dc.distort.io"
|}.

Definition manager_main (f : managerFlags) : program :=
  let! err := call (Rep := mainRep) GetConfig in
  must err (
  let! err := call (Rep := mainRep) (NewManager (managerOptions_of f)) in
  must err (
  let! err := call (Rep := mainRep) (Register NVMeDeviceController) in
  must err (
  let! err := call (Rep := mainRep) (Register NVMeDeviceClaimController) in
  must err (
  let! err := call (Rep := mainRep) (Register (NVMePartitionController true)) in
  must err (
  let! err := call (Rep := mainRep) (Register RDMAStorageNodeController) in
  must err (
  let! err := call (Rep := mainRep) (AddHealthzCheck "healthz") in
  must err (
  let! err := call (Rep := mainRep) (AddReadyzCheck "readyz") in
  must err (
  let! err := call (Rep := mainRep) StartManager in
  must err (Ret 0))))))))).

(** ** What has been set up when a manager starts *)

(** The node name that the agent uses: NODE_NAME, or else the host name. *)
Definition named (h : list mevent) (nodeName : string) : Prop :=
  ev (Rep := mainRep) (PGetenv "NODE_NAME") nodeName ∈ h ∧ nodeName ≠ "" ∨
  ev (Rep := mainRep) (PGetenv "NODE_NAME") "" ∈ h ∧ ev (Rep := mainRep) PHostname (inl nodeName) ∈ h.

Definition added (h : list mevent) (c : component) : Prop := ev (Rep := mainRep) (Register c) None ∈ h.

Definition probed (h : list mevent) : Prop :=
  ev (Rep := mainRep) (AddHealthzCheck "healthz") None ∈ h ∧ ev (Rep := mainRep) (AddReadyzCheck "readyz") None ∈ h.

Definition starts (ready : list mevent → Prop) (h : list mevent) (e : mevent) : Prop :=
  match projT1 e with StartManager => ready h | _ => True end.

Definition agent_ready (h : list mevent) : Prop :=
  ∃ nodeName, named h nodeName ∧ added h (PartitionManagerController nodeName) ∧ added h (HardwareReporter nodeName reportInterval) ∧ probed h.

Definition manager_ready (h : list mevent) : Prop :=
  added h NVMeDeviceController ∧ added h NVMeDeviceClaimController ∧ added h (NVMePartitionController true) ∧ added h RDMAStorageNodeController ∧ probed h.

Lemma agent_start_hwp nodeName h : named h nodeName → hwp (starts agent_ready) (agent_start nodeName) h (λ _ _, True).
Proof.
  intros Hn. unfold agent_start. repeat (apply hwp_vis; [|intros [e|]; [done|]]); try done.
  intros x. exists nodeName. unfold named, added, probed in *. rewrite !elem_of_app. set_solver.
Qed.

(** A manager is started only when all of its controllers and checks have been
    registered; the agent reports and serves under one name, often enough for its
    heartbeat to stay fresh; and HTTP/2 is off on both servers of the manager unless
    asked for. *)
Theorem programs_set_up :
  (∀ f h pre x post, emits (agent_main f) h → h = pre ++ ev (Rep := mainRep) StartManager x :: post → agent_ready pre) ∧
  (∀ f h pre x post, emits (manager_main f) h → h = pre ++ ev (Rep := mainRep) StartManager x :: post → manager_ready pre) ∧
  reportInterval < FreshnessWindow ∧
  (∀ f server config, server ∈ [metrics_TLSOpts (Metrics (managerOptions_of f)); tlsOpts f] → enableHTTP2 f = false →
     foldl (λ c o, o c) config server = ["http/1.1"]).
Proof.
  split; [|split; [|split; [done|]]].
  - intros f h pre x post Hh E. assert (hwp (starts agent_ready) (agent_main f) [] (λ _ _, True)) as H; [|exact (hwp_justified _ _ _ _ H Hh _ _ _ E)].
    unfold agent_main. repeat (apply hwp_vis; [|intros [e|]; [done|]]); try done.
    apply hwp_vis; [done|]. intros name. case_bool_decide as Hn; [subst; apply hwp_vis; [done|]; intros [host|e]; [|done]|]; apply agent_start_hwp.
    + right. set_solver.
    + left. set_solver.
  - intros f h pre x post Hh E. assert (hwp (starts manager_ready) (manager_main f) [] (λ _ _, True)) as H; [|exact (hwp_justified _ _ _ _ H Hh _ _ _ E)].
    unfold manager_main. repeat (apply hwp_vis; [|intros [e|]; [done|]]); try done. intros y. unfold starts, manager_ready, added, probed. simpl. set_solver.
  - intros f server config Hs He. simpl in Hs. unfold tlsOpts in Hs. rewrite He in Hs. assert (server = [disableHTTP2]) as -> by set_solver. done.
Qed.
